(** * pyro2: the unsplit Godunov flux routines

    A shallow embedding of [compressible/unsplitFluxes.py] ([unsplitFluxes],
    [interfaceStates]) and of [compressible_rk/fluxes.py] ([fluxes]).

    - numpy's float64 arithmetic is an interface ([Arith]) with two
      instances: exact rationals and IEEE binary64 (Rocq's primitive
      floats).  The programs are written once, over the interface.
    - an ndarray is its shape and its elements; an index is resolved the
      way Python does it (a negative index wraps once, anything else out of
      range raises [IndexError]).
    - arrays that the code writes in place, and the caller's data, live in
      a store; arrays that are never written after their creation are
      values.
    - the Fortran and helper modules that are not part of the sources are
      collaborators: records of functions, whose calls are logged. *)

From Stdlib Require Import ZArith QArith Qfield Lqa List String Bool Lia.
From Stdlib Require Import Floats Uint63.
Import ListNotations.
Local Open Scope Z_scope.

(** ** Arithmetic *)

(** The operations the sources apply to array elements and scalars.
    [lit] reads a decimal literal of the source text. *)
Class Arith : Type := {
  num : Type;
  lit : Q -> num;
  add : num -> num -> num;
  sub : num -> num -> num;
  mul : num -> num -> num;
  div : num -> num -> num;
  neg : num -> num;
  sqrt : num -> num;
  ltb : num -> num -> bool;
  leb : num -> num -> bool;
  eqb : num -> num -> bool
}.

(** [x == x]: true of a number, false of a value that compares with
    nothing, itself included (the NaN of binary64). *)
Definition is_num {A : Arith} (x : num) : bool := eqb x x.

(** What the comparisons of the two arithmetics share: numbers are
    ordered, one way or the other, and a value that is not a number is
    neither smaller than nor at most or at least anything. *)
Class ArithCompare (A : Arith) : Prop := {
  leb_refl_num : forall x : num, is_num x = true -> leb x x = true;
  ltb_false_leb :
    forall x y : num, is_num x = true -> is_num y = true ->
                      ltb x y = false -> leb y x = true;
  leb_true_num : forall x y : num, leb x y = true -> is_num y = true;
  ltb_true_num : forall x y : num, ltb x y = true -> is_num x = true
}.

(** Exact rational arithmetic.  [Q] has no square root; the instance takes
    the integer square root at ten decimal digits. *)
Definition Qsqrt (q : Q) : Q :=
  Z.sqrt (Qnum q * Zpos (Qden q) * 10 ^ 20) # (Qden q * 10 ^ 10).

Definition ExactArith : Arith := {|
  num := Q;
  lit := fun q => q;
  add := Qplus;
  sub := Qminus;
  mul := Qmult;
  div := Qdiv;
  neg := Qopp;
  sqrt := Qsqrt;
  ltb := fun x y => negb (Qle_bool y x);
  leb := Qle_bool;
  eqb := Qeq_bool
|}.

(** IEEE binary64, the arithmetic of [numpy.float64]. *)
Definition float_of_Z (z : Z) : float :=
  match z with
  | Z0 => PrimFloat.of_uint63 0%uint63
  | Zpos _ => PrimFloat.of_uint63 (Uint63.of_Z z)
  | Zneg p => PrimFloat.opp (PrimFloat.of_uint63 (Uint63.of_Z (Zpos p)))
  end.

Definition float_of_Q (q : Q) : float :=
  PrimFloat.div (float_of_Z (Qnum q)) (float_of_Z (Zpos (Qden q))).

Definition FloatArith : Arith := {|
  num := float;
  lit := float_of_Q;
  add := PrimFloat.add;
  sub := PrimFloat.sub;
  mul := PrimFloat.mul;
  div := PrimFloat.div;
  neg := PrimFloat.opp;
  sqrt := PrimFloat.sqrt;
  ltb := PrimFloat.ltb;
  leb := PrimFloat.leb;
  eqb := PrimFloat.eqb
|}.

Declare Scope num_scope.
Delimit Scope num_scope with num.
Infix "+" := add : num_scope.
Infix "-" := sub : num_scope.
Infix "*" := mul : num_scope.
Infix "/" := div : num_scope.
Notation "- x" := (neg x) : num_scope.

Section Scalars.
Context {A : Arith}.

(** Python's builtin [max(a, b)]: [b] when [b > a], else [a]. *)
Definition py_max (a b : num) : num := if ltb a b then b else a.

(** Python's builtin [min(a, b)]: [b] when [b < a], else [a]. *)
Definition py_min (a b : num) : num := if ltb b a then b else a.

(** [numpy.sign]: -1, 0 or 1, and the argument itself when it compares
    with nothing (NaN). *)
Definition np_sign (x : num) : num :=
  if ltb (lit 0) x then lit 1
  else if ltb x (lit 0) then lit (-1)
  else if eqb x (lit 0) then lit 0 else x.

(** [x**2] on float64. *)
Definition sq (x : num) : num := (x * x)%num.

(** [ndarray.clip(lo)] on one element: [maximum(x, lo)]. *)
Definition clip_lo (x lo : num) : num := if ltb x lo then lo else x.
End Scalars.

(** ** Exceptions *)

Inductive exn : Type :=
| IndexError
| ValueError (what : string)
| ZeroDivisionError
| SystemExit (message : string).

Inductive result (T : Type) : Type :=
| Ok (x : T)
| Raise (e : exn).
Arguments Ok {T} x.
Arguments Raise {T} e.

Definition rbind {T U : Type} (r : result T) (k : T -> result U) : result U :=
  match r with
  | Ok x => k x
  | Raise e => Raise e
  end.

Declare Scope result_scope.
Delimit Scope result_scope with result.
Notation "x <- r ;; k" := (rbind r (fun x => k))
  (at level 61, r at next level, right associativity) : result_scope.
Notation "'raise' e" := (Raise e) (at level 10, only parsing) : result_scope.
Local Open Scope result_scope.

Section PythonFloats.
Context {A : Arith}.

(** [math.sqrt(x)]: a negative argument is a [ValueError]. *)
Definition py_sqrt (x : num) : result num :=
  if ltb x (lit 0) then Raise (ValueError "math domain error") else Ok (sqrt x).

(** [x / y] on Python floats: a zero divisor is a [ZeroDivisionError]
    (on numpy scalars and arrays the division is [div] itself). *)
Definition py_fdiv (x y : num) : result num :=
  if eqb y (lit 0) then Raise ZeroDivisionError else Ok (x / y)%num.
End PythonFloats.

(** ** Python indexing *)

(** [a[k]] on an axis of length [n]: in range as it is, a negative index
    counted from the end, [IndexError] otherwise. *)
Definition py_index (n k : Z) : result Z :=
  if (0 <=? k) && (k <? n) then Ok k
  else if (- n <=? k) && (k <? 0) then Ok (k + n)
  else Raise IndexError.

(** One bound of a slice [lo:hi] (step 1) on an axis of length [n]:
    a negative bound is counted from the end, and the bound is then
    clipped to [0..n]. *)
Definition py_bound (n b : Z) : Z :=
  if b <? 0 then Z.max (b + n) 0 else Z.min b n.

(** The slice [lo:hi] as (first index, length). *)
Definition py_slice (n lo hi : Z) : Z * Z :=
  (py_bound n lo, Z.max (py_bound n hi - py_bound n lo) 0).

(** ** Arrays *)

Section Arrays.
Context {A : Arith}.

(** A two-dimensional float64 array. *)
Record array2 : Type := mk2 { rows : Z; cols : Z; elt2 : Z -> Z -> num }.

(** A three-dimensional float64 array. *)
Record array3 : Type :=
  mk3 { dim0 : Z; dim1 : Z; dim2 : Z; elt3 : Z -> Z -> Z -> num }.

(** [numpy.zeros((m, n))] and [numpy.zeros((m, n, k))]. *)
Definition zeros2 (m n : Z) : array2 := mk2 m n (fun _ _ => lit 0).
Definition zeros3 (m n k : Z) : array3 := mk3 m n k (fun _ _ _ => lit 0).

(** [a[i, j]] *)
Definition get2 (a : array2) (i j : Z) : result num :=
  i' <- py_index (rows a) i ;;
  j' <- py_index (cols a) j ;;
  Ok (elt2 a i' j').

(** [a[i, j, n]] *)
Definition get3 (a : array3) (i j n : Z) : result num :=
  i' <- py_index (dim0 a) i ;;
  j' <- py_index (dim1 a) j ;;
  n' <- py_index (dim2 a) n ;;
  Ok (elt3 a i' j' n').

Definition upd3 (a : array3) (i j n : Z) (x : num) : array3 :=
  mk3 (dim0 a) (dim1 a) (dim2 a)
      (fun i' j' n' =>
         if (i' =? i) && (j' =? j) && (n' =? n) then x else elt3 a i' j' n').

(** [a[i, j, n] = x] *)
Definition set3 (a : array3) (i j n : Z) (x : num) : result array3 :=
  i' <- py_index (dim0 a) i ;;
  j' <- py_index (dim1 a) j ;;
  n' <- py_index (dim2 a) n ;;
  Ok (upd3 a i' j' n' x).

(** [a[:, :, n]], read. *)
Definition comp (a : array3) (n : Z) : result array2 :=
  n' <- py_index (dim2 a) n ;;
  Ok (mk2 (dim0 a) (dim1 a) (fun i j => elt3 a i j n')).

Definition same_shape (a b : array2) : bool :=
  (rows a =? rows b) && (cols a =? cols b).

(** [a[:, :, n] = v]; the shapes must agree (numpy's broadcasting of
    unequal shapes is not modelled: such an assignment raises). *)
Definition set_comp (a : array3) (n : Z) (v : array2) : result array3 :=
  n' <- py_index (dim2 a) n ;;
  if (rows v =? dim0 a) && (cols v =? dim1 a)
  then Ok (mk3 (dim0 a) (dim1 a) (dim2 a)
               (fun i j k => if k =? n' then elt2 v i j else elt3 a i j k))
  else Raise (ValueError "could not broadcast input array").

(** An elementwise binary operation [a op b] on arrays of one shape. *)
Definition ew2 (f : num -> num -> num) (a b : array2) : result array2 :=
  if same_shape a b
  then Ok (mk2 (rows a) (cols a) (fun i j => f (elt2 a i j) (elt2 b i j)))
  else Raise (ValueError "operands could not be broadcast together").

(** An elementwise unary operation, or one with a scalar operand. *)
Definition map2 (f : num -> num) (a : array2) : array2 :=
  mk2 (rows a) (cols a) (fun i j => f (elt2 a i j)).

(** [a[lo0:hi0, lo1:hi1]], read: the elements are re-based at 0. *)
Definition slice2 (a : array2) (lo0 hi0 lo1 hi1 : Z) : array2 :=
  let '(s0, l0) := py_slice (rows a) lo0 hi0 in
  let '(s1, l1) := py_slice (cols a) lo1 hi1 in
  mk2 l0 l1 (fun i j => elt2 a (s0 + i) (s1 + j)).

(** [a[lo0:hi0, lo1:hi1, n]], read. *)
Definition slice3 (a : array3) (lo0 hi0 lo1 hi1 n : Z) : result array2 :=
  c <- comp a n ;;
  Ok (slice2 c lo0 hi0 lo1 hi1).

Definition inside (s l i : Z) : bool := (s <=? i) && (i <? s + l).

(** [a[lo0:hi0, lo1:hi1, n][:, :] = v]: the view is written through;
    the shapes must agree. *)
Definition set_slice3 (a : array3) (lo0 hi0 lo1 hi1 n : Z) (v : array2)
  : result array3 :=
  n' <- py_index (dim2 a) n ;;
  let '(s0, l0) := py_slice (dim0 a) lo0 hi0 in
  let '(s1, l1) := py_slice (dim1 a) lo1 hi1 in
  if (rows v =? l0) && (cols v =? l1)
  then Ok (mk3 (dim0 a) (dim1 a) (dim2 a)
               (fun i j k =>
                  if inside s0 l0 i && inside s1 l1 j && (k =? n')
                  then elt2 v (i - s0) (j - s1) else elt3 a i j k))
  else Raise (ValueError "could not broadcast input array").
End Arrays.

(** ** Loops *)

Section Loops.
Context {S : Type}.
Variable body : Z -> S -> result S.

Fixpoint iterate (fuel : nat) (i : Z) (s : S) : result S :=
  match fuel with
  | O => Ok s
  | Datatypes.S fuel' => s' <- body i s ;; iterate fuel' (i + 1) s'
  end.

(** [i = lo; while (i <= hi): body; i += 1] *)
Definition while_le (lo hi : Z) (s : S) : result S :=
  iterate (Z.to_nat (hi + 1 - lo)) lo s.
End Loops.

(** ** The grid *)

Section Grid.
Context {A : Arith}.

(** The fields of the grid object the flux routines read. *)
Record Grid2d : Type := {
  qx : Z; qy : Z; ng : Z;
  ilo : Z; ihi : Z; jlo : Z; jhi : Z;
  dx : num; dy : num
}.

(** Modelled from the spec: the grid class (mesh/patch.py) is not among
    the sources.  The cells are indexed [0..qx-1] by [0..qy-1]; [ng]
    ghost layers lie on each side of the interior [ilo..ihi] by
    [jlo..jhi], which holds at least one cell. *)
Definition grid_ok (g : Grid2d) : Prop :=
  0 <= ng g /\
  ilo g = ng g /\ jlo g = ng g /\
  ihi g = qx g - ng g - 1 /\ jhi g = qy g - ng g - 1 /\
  ilo g <= ihi g /\ jlo g <= jhi g.

(** An array of the padded grid with [k] components. *)
Definition on_grid (g : Grid2d) (k : Z) (a : array3) : Prop :=
  dim0 a = qx g /\ dim1 a = qy g /\ dim2 a = k.

Definition on_grid2 (g : Grid2d) (a : array2) : Prop :=
  rows a = qx g /\ cols a = qy g.
End Grid.

(** ** unsplitFluxes.py: the transverse correction *)

Section Transverse.
Context {A : Arith}.

(** The four directional interface states of [unsplitFluxes], the arrays
    its correction loop writes in place. *)
Record faces : Type := {
  U_xl : array3; U_xr : array3; U_yl : array3; U_yr : array3
}.

(** The body of the innermost loop (lines 384-394): four read-modify-write
    statements. *)
Definition correct_cell (g : Grid2d) (dt : num) (F_x F_y : array3)
           (i j n : Z) (s : faces) : result faces :=
  (a <- get3 (U_xl s) i j n ;;
   fp <- get3 F_y (i - 1) (j + 1) n ;;
   f0 <- get3 F_y (i - 1) j n ;;
   xl <- set3 (U_xl s) i j n (a - lit (1 # 2) * dt / dy g * (fp - f0))%num ;;
   a <- get3 (U_xr s) i j n ;;
   fp <- get3 F_y i (j + 1) n ;;
   f0 <- get3 F_y i j n ;;
   xr <- set3 (U_xr s) i j n (a - lit (1 # 2) * dt / dy g * (fp - f0))%num ;;
   a <- get3 (U_yl s) i j n ;;
   fp <- get3 F_x (i + 1) (j - 1) n ;;
   f0 <- get3 F_x i (j - 1) n ;;
   yl <- set3 (U_yl s) i j n (a - lit (1 # 2) * dt / dx g * (fp - f0))%num ;;
   a <- get3 (U_yr s) i j n ;;
   fp <- get3 F_x (i + 1) j n ;;
   f0 <- get3 F_x i j n ;;
   yr <- set3 (U_yr s) i j n (a - lit (1 # 2) * dt / dx g * (fp - f0))%num ;;
   Ok {| U_xl := xl; U_xr := xr; U_yl := yl; U_yr := yr |})%result.

(** Lines 375-398: [j] from [jlo-2] to [jhi+2], [i] from [ilo-2] to
    [ihi+2], [n] from 0 below [nvar]. *)
Definition transverse (g : Grid2d) (dt : num) (nvar : Z)
           (F_x F_y : array3) (s : faces) : result faces :=
  while_le
    (fun j =>
       while_le
         (fun i =>
            while_le (fun n => correct_cell g dt F_x F_y i j n)
                     0 (nvar - 1))
         (ilo g - 2) (ihi g + 2))
    (jlo g - 2) (jhi g + 2) s.

(** The cells the loop visits. *)
Definition visited (g : Grid2d) (i j : Z) : Prop :=
  ilo g - 2 <= i <= ihi g + 2 /\ jlo g - 2 <= j <= jhi g + 2.
End Transverse.

(** ** unsplitFluxes.py: the subscripts of the transverse correction *)

(** The six arrays the loop body subscripts. *)
Inductive loop_array : Type :=
| in_U_xl | in_U_xr | in_U_yl | in_U_yr | in_F_x | in_F_y.

(** One subscript [a[i, j, n]] as the loop evaluates it: the array and
    the three indices, before Python resolves them. *)
Record access : Type := {
  acc_array : loop_array; acc_i : Z; acc_j : Z; acc_n : Z
}.

(** A computation together with the subscripts it has evaluated, oldest
    first; the subscript that raised is the last one. *)
Definition traced (T : Type) : Type := (list access * result T)%type.

Definition tbind {T U : Type} (m : traced T) (k : T -> traced U) : traced U :=
  match m with
  | (l, Ok x) => let '(l', r) := k x in (l ++ l', r)
  | (l, Raise e) => (l, Raise e)
  end.

Declare Scope traced_scope.
Delimit Scope traced_scope with traced.
Notation "x <- m ;; k" := (tbind m (fun x => k))
  (at level 61, m at next level, right associativity) : traced_scope.

Section TracedLoops.
Context {S : Type}.
Variable body : Z -> S -> traced S.

Fixpoint iterate_traced (fuel : nat) (i : Z) (s : S) : traced S :=
  match fuel with
  | O => ([], Ok s)
  | Datatypes.S fuel' => tbind (body i s) (iterate_traced fuel' (i + 1))
  end.

(** [i = lo; while (i <= hi): body; i += 1] *)
Definition while_le_traced (lo hi : Z) (s : S) : traced S :=
  iterate_traced (Z.to_nat (hi + 1 - lo)) lo s.
End TracedLoops.

Section TransverseSubscripts.
Context {A : Arith}.

(** [a[i, j, n]], read, and [a[i, j, n] = x], with the subscript noted. *)
Definition get3_at (which : loop_array) (a : array3) (i j n : Z) : traced num :=
  ([{| acc_array := which; acc_i := i; acc_j := j; acc_n := n |}], get3 a i j n).

Definition set3_at (which : loop_array) (a : array3) (i j n : Z) (x : num)
  : traced array3 :=
  ([{| acc_array := which; acc_i := i; acc_j := j; acc_n := n |}], set3 a i j n x).

(** The body of the innermost loop (lines 384-394) with its subscripts,
    in the order Python evaluates them: the right-hand side from left to
    right, then the target. *)
Definition correct_cell_accesses (g : Grid2d) (dt : num) (F_x F_y : array3)
           (i j n : Z) (s : faces) : traced faces :=
  (a <- get3_at in_U_xl (U_xl s) i j n ;;
   fp <- get3_at in_F_y F_y (i - 1) (j + 1) n ;;
   f0 <- get3_at in_F_y F_y (i - 1) j n ;;
   xl <- set3_at in_U_xl (U_xl s) i j n (a - lit (1 # 2) * dt / dy g * (fp - f0))%num ;;
   a <- get3_at in_U_xr (U_xr s) i j n ;;
   fp <- get3_at in_F_y F_y i (j + 1) n ;;
   f0 <- get3_at in_F_y F_y i j n ;;
   xr <- set3_at in_U_xr (U_xr s) i j n (a - lit (1 # 2) * dt / dy g * (fp - f0))%num ;;
   a <- get3_at in_U_yl (U_yl s) i j n ;;
   fp <- get3_at in_F_x F_x (i + 1) (j - 1) n ;;
   f0 <- get3_at in_F_x F_x i (j - 1) n ;;
   yl <- set3_at in_U_yl (U_yl s) i j n (a - lit (1 # 2) * dt / dx g * (fp - f0))%num ;;
   a <- get3_at in_U_yr (U_yr s) i j n ;;
   fp <- get3_at in_F_x F_x (i + 1) j n ;;
   f0 <- get3_at in_F_x F_x i j n ;;
   yr <- set3_at in_U_yr (U_yr s) i j n (a - lit (1 # 2) * dt / dx g * (fp - f0))%num ;;
   ([], Ok {| U_xl := xl; U_xr := xr; U_yl := yl; U_yr := yr |}))%traced.

(** Lines 375-398 with their subscripts. *)
Definition transverse_accesses (g : Grid2d) (dt : num) (nvar : Z)
           (F_x F_y : array3) (s : faces) : traced faces :=
  while_le_traced
    (fun j =>
       while_le_traced
         (fun i =>
            while_le_traced (fun n => correct_cell_accesses g dt F_x F_y i j n)
                            0 (nvar - 1))
         (ilo g - 2) (ihi g + 2))
    (jlo g - 2) (jhi g + 2) s.

(** A subscript that addresses a cell of the padded grid as it stands:
    in range, with no wrapping. *)
Definition plain_access (g : Grid2d) (a : access) : Prop :=
  0 <= acc_i a < qx g /\ 0 <= acc_j a < qy g.
End TransverseSubscripts.

(** The values section 4.7 of the specification prescribes for the four
    states of cell [(i, j)], component [n], from the states [s0] before the
    correction and the transverse fluxes. *)
Section TransverseSpec.
Context {A : Arith}.
Variables (g : Grid2d) (dt : num) (F_x F_y : array3) (s0 : faces).

Definition xl_corrected (i j n : Z) : num :=
  (elt3 (U_xl s0) i j n
   - lit (1 # 2) * dt / dy g * (elt3 F_y (i - 1) (j + 1) n - elt3 F_y (i - 1) j n))%num.

Definition xr_corrected (i j n : Z) : num :=
  (elt3 (U_xr s0) i j n
   - lit (1 # 2) * dt / dy g * (elt3 F_y i (j + 1) n - elt3 F_y i j n))%num.

Definition yl_corrected (i j n : Z) : num :=
  (elt3 (U_yl s0) i j n
   - lit (1 # 2) * dt / dx g * (elt3 F_x (i + 1) (j - 1) n - elt3 F_x i (j - 1) n))%num.

Definition yr_corrected (i j n : Z) : num :=
  (elt3 (U_yr s0) i j n
   - lit (1 # 2) * dt / dx g * (elt3 F_x (i + 1) j n - elt3 F_x i j n))%num.

Definition corrected_at (s : faces) (i j n : Z) : Prop :=
  elt3 (U_xl s) i j n = xl_corrected i j n /\
  elt3 (U_xr s) i j n = xr_corrected i j n /\
  elt3 (U_yl s) i j n = yl_corrected i j n /\
  elt3 (U_yr s) i j n = yr_corrected i j n.

Definition untouched_at (s : faces) (i j n : Z) : Prop :=
  elt3 (U_xl s) i j n = elt3 (U_xl s0) i j n /\
  elt3 (U_xr s) i j n = elt3 (U_xr s0) i j n /\
  elt3 (U_yl s) i j n = elt3 (U_yl s0) i j n /\
  elt3 (U_yr s) i j n = elt3 (U_yr s0) i j n.

Definition faces_on_grid (k : Z) (s : faces) : Prop :=
  on_grid g k (U_xl s) /\ on_grid g k (U_xr s) /\
  on_grid g k (U_yl s) /\ on_grid g k (U_yr s).

(** The loop invariant: the cells in [D] are corrected, the others are
    as they were. *)
Definition progress (k : Z) (D : Z -> Z -> Z -> Prop) (s : faces) : Prop :=
  faces_on_grid k s /\
  forall i j n, (D i j n -> corrected_at s i j n) /\
                (~ D i j n -> untouched_at s i j n).
End TransverseSpec.

(** ** unsplitFluxes.py: interfaceStates *)

Section InterfaceStates.
Context {A : Arith}.

(** A vector of the four primitive variables [(rho, u, v, p)]. *)
Record vec4 : Type := { c0 : num; c1 : num; c2 : num; c3 : num }.

(** A 4 by 4 matrix, by rows. *)
Record mat4 : Type := { r0 : vec4; r1 : vec4; r2 : vec4; r3 : vec4 }.

Definition nth4 (x : vec4) (m : Z) : num :=
  if m =? 0 then c0 x else if m =? 1 then c1 x else if m =? 2 then c2 x else c3 x.

Definition row (M : mat4) (m : Z) : vec4 :=
  if m =? 0 then r0 M else if m =? 1 then r1 M else if m =? 2 then r2 M else r3 M.

(** [M[:, m]] *)
Definition col (M : mat4) (m : Z) : vec4 :=
  {| c0 := nth4 (r0 M) m; c1 := nth4 (r1 M) m;
     c2 := nth4 (r2 M) m; c3 := nth4 (r3 M) m |}.

(** The vector whose entry [m] is [f m], as the [m] loops fill it. *)
Definition build4 (f : Z -> num) : vec4 :=
  {| c0 := f 0; c1 := f 1; c2 := f 2; c3 := f 3 |}.

(** [numpy.dot] of two vectors of length 4, summed in index order. *)
Definition dot4 (x y : vec4) : num :=
  (c0 x * c0 y + c1 x * c1 y + c2 x * c2 y + c3 x * c3 y)%num.

(** [x + f*y] and [x - f*y], elementwise. *)
Definition axpy (x : vec4) (f : num) (y : vec4) : vec4 :=
  build4 (fun m => (nth4 x m + f * nth4 y m)%num).
Definition axmy (x : vec4) (f : num) (y : vec4) : vec4 :=
  build4 (fun m => (nth4 x m - f * nth4 y m)%num).

Record eigen : Type := { eval : vec4; lvec : mat4; rvec : mat4 }.

(** Lines 521-551: the sound speed, the eigenvalues and the left and
    right eigenvectors of the cell with state [(r, u, v, p)]. *)
Definition eigensystem (idir : Z) (gamma r u v p : num) : result eigen :=
  cs <- py_sqrt (gamma * p / r)%num ;;
  h <- py_fdiv (lit (1 # 2)) (cs * cs)%num ;;
  o <- py_fdiv (lit (-1)) (cs * cs)%num ;;
  let z := lit 0 in
  let one := lit 1 in
  if idir =? 1 then
    Ok {| eval := {| c0 := (u - cs)%num; c1 := u; c2 := u; c3 := (u + cs)%num |};
          lvec := {| r0 := {| c0 := z; c1 := (lit (-1 # 2) * r / cs)%num; c2 := z; c3 := h |};
                     r1 := {| c0 := one; c1 := z; c2 := z; c3 := o |};
                     r2 := {| c0 := z; c1 := z; c2 := one; c3 := z |};
                     r3 := {| c0 := z; c1 := (lit (1 # 2) * r / cs)%num; c2 := z; c3 := h |} |};
          rvec := {| r0 := {| c0 := one; c1 := (- cs / r)%num; c2 := z; c3 := (cs * cs)%num |};
                     r1 := {| c0 := one; c1 := z; c2 := z; c3 := z |};
                     r2 := {| c0 := z; c1 := z; c2 := one; c3 := z |};
                     r3 := {| c0 := one; c1 := (cs / r)%num; c2 := z; c3 := (cs * cs)%num |} |} |}
  else
    Ok {| eval := {| c0 := (v - cs)%num; c1 := v; c2 := v; c3 := (v + cs)%num |};
          lvec := {| r0 := {| c0 := z; c1 := z; c2 := (lit (-1 # 2) * r / cs)%num; c3 := h |};
                     r1 := {| c0 := one; c1 := z; c2 := z; c3 := o |};
                     r2 := {| c0 := z; c1 := one; c2 := z; c3 := z |};
                     r3 := {| c0 := z; c1 := z; c2 := (lit (1 # 2) * r / cs)%num; c3 := h |} |};
          rvec := {| r0 := {| c0 := one; c1 := z; c2 := (- cs / r)%num; c3 := (cs * cs)%num |};
                     r1 := {| c0 := one; c1 := z; c2 := z; c3 := z |};
                     r2 := {| c0 := z; c1 := one; c2 := z; c3 := z |};
                     r3 := {| c0 := one; c1 := z; c2 := (cs / r)%num; c3 := (cs * cs)%num |} |} |}.

(** Lines 559 and 564 (569 and 572): the factors of the reference
    states. *)
Definition factor_l (dtdx : num) (E : eigen) : num :=
  (lit (1 # 2) * (lit 1 - dtdx * py_max (c3 (eval E)) (lit 0)))%num.
Definition factor_r (dtdx : num) (E : eigen) : num :=
  (lit (1 # 2) * (lit 1 + dtdx * py_min (c0 (eval E)) (lit 0)))%num.

(** Lines 584-590: the projection coefficients. *)
Definition betal (dtdx4 : num) (E : eigen) (dV : vec4) : vec4 :=
  build4 (fun m =>
    (dtdx4 * (c3 (eval E) - nth4 (eval E) m)
     * (np_sign (nth4 (eval E) m) + lit 1) * dot4 (row (lvec E) m) dV)%num).
Definition betar (dtdx4 : num) (E : eigen) (dV : vec4) : vec4 :=
  build4 (fun m =>
    (dtdx4 * (c0 (eval E) - nth4 (eval E) m)
     * (lit 1 - np_sign (nth4 (eval E) m)) * dot4 (row (lvec E) m) dV)%num).

(** [a[i, j, :] = x] for a vector of length 4. *)
Definition set_cell (a : array3) (i j : Z) (x : vec4) : result array3 :=
  i' <- py_index (dim0 a) i ;;
  j' <- py_index (dim1 a) j ;;
  if dim2 a =? 4
  then Ok (mk3 (dim0 a) (dim1 a) (dim2 a)
               (fun k l m => if (k =? i') && (l =? j') then nth4 x m
                             else elt3 a k l m))
  else Raise (ValueError "could not broadcast input array").

(** The cell whose left state zone [(i, j)] determines: [(i+1, j)] in
    the x sweep, [(i, j+1)] in the y sweep. *)
Definition left_target (idir i j : Z) : Z * Z :=
  if idir =? 1 then (i + 1, j) else (i, j + 1).

(** The body of the zone loop (lines 514-607). *)
Definition states_zone (idir : Z) (dtdx gamma : num)
           (r u v p ldelta_r ldelta_u ldelta_v ldelta_p : array2)
           (i j : Z) (s : array3 * array3) : result (array3 * array3) :=
  let '(V_l, V_r) := s in
  d0 <- get2 ldelta_r i j ;; d1 <- get2 ldelta_u i j ;;
  d2 <- get2 ldelta_v i j ;; d3 <- get2 ldelta_p i j ;;
  let dV := {| c0 := d0; c1 := d1; c2 := d2; c3 := d3 |} in
  q0 <- get2 r i j ;; q1 <- get2 u i j ;;
  q2 <- get2 v i j ;; q3 <- get2 p i j ;;
  let V := {| c0 := q0; c1 := q1; c2 := q2; c3 := q3 |} in
  E <- eigensystem idir gamma q0 q1 q2 q3 ;;
  let '(il, jl) := left_target idir i j in
  V_l <- set_cell V_l il jl (axpy V (factor_l dtdx E) dV) ;;
  V_r <- set_cell V_r i j (axmy V (factor_r dtdx E) dV) ;;
  let dtdx4 := (lit (1 # 4) * dtdx)%num in
  let bl := betal dtdx4 E dV in
  let br := betar dtdx4 E dV in
  while_le
    (fun m '(V_l, V_r) =>
       a <- get3 V_l il jl m ;;
       V_l <- set3 V_l il jl m (a + dot4 bl (col (rvec E) m))%num ;;
       b <- get3 V_r i j m ;;
       V_r <- set3 V_r i j m (b + dot4 br (col (rvec E) m))%num ;;
       Ok (V_l, V_r))
    0 3 (V_l, V_r).

(** [interfaceStates]: [nvar] is [vars.nvar] and [gamma] the run-time
    parameter [eos.gamma]. *)
Definition interfaceStates (nvar : Z) (gamma : num)
           (idir : Z) (myg : Grid2d) (dt : num)
           (r u v p ldelta_r ldelta_u ldelta_v ldelta_p : array2)
  : result (array3 * array3) :=
  let V_l := zeros3 (qx myg) (qy myg) nvar in
  let V_r := zeros3 (qx myg) (qy myg) nvar in
  let dtdx := if idir =? 1 then (dt / dx myg)%num else (dt / dy myg)%num in
  while_le
    (fun j =>
       while_le
         (fun i => states_zone idir dtdx gamma
                               r u v p ldelta_r ldelta_u ldelta_v ldelta_p i j)
         (ilo myg - 2) (ihi myg + 2))
    (jlo myg - 2) (jhi myg + 2) (V_l, V_r).
End InterfaceStates.

(** The interface states as section 4.4 of the specification states them,
    for a zone with state [V], limited slopes [dV] and sound speed [cs]. *)
Section PredictorSpec.
Context {A : Arith}.

Definition sum4 (f : Z -> num) : num := (f 0 + f 1 + f 2 + f 3)%num.

(** The eigenvalues [u-cs, u, u, u+cs] ([v] for the y sweep) and the
    analytic eigenvectors of the docstring of [interfaceStates]: the
    acoustic pairs [l1, r1] and [l4, r4], the entropy pair [l2, r2], and
    the pair [l3, r3] that advects the transverse velocity. *)
Definition analytic_eigen (idir : Z) (cs r u v : num) : eigen :=
  let z := lit 0 in
  let one := lit 1 in
  let h := (lit (1 # 2) / (cs * cs))%num in
  let o := (lit (-1) / (cs * cs))%num in
  let lm := (lit (-1 # 2) * r / cs)%num in
  let lp := (lit (1 # 2) * r / cs)%num in
  let rm := (- cs / r)%num in
  let rp := (cs / r)%num in
  let c2 := (cs * cs)%num in
  if idir =? 1 then
    {| eval := {| c0 := (u - cs)%num; c1 := u; c2 := u; c3 := (u + cs)%num |};
       lvec := {| r0 := {| c0 := z; c1 := lm; c2 := z; c3 := h |};
                  r1 := {| c0 := one; c1 := z; c2 := z; c3 := o |};
                  r2 := {| c0 := z; c1 := z; c2 := one; c3 := z |};
                  r3 := {| c0 := z; c1 := lp; c2 := z; c3 := h |} |};
       rvec := {| r0 := {| c0 := one; c1 := rm; c2 := z; c3 := c2 |};
                  r1 := {| c0 := one; c1 := z; c2 := z; c3 := z |};
                  r2 := {| c0 := z; c1 := z; c2 := one; c3 := z |};
                  r3 := {| c0 := one; c1 := rp; c2 := z; c3 := c2 |} |} |}
  else
    {| eval := {| c0 := (v - cs)%num; c1 := v; c2 := v; c3 := (v + cs)%num |};
       lvec := {| r0 := {| c0 := z; c1 := z; c2 := lm; c3 := h |};
                  r1 := {| c0 := one; c1 := z; c2 := z; c3 := o |};
                  r2 := {| c0 := z; c1 := one; c2 := z; c3 := z |};
                  r3 := {| c0 := z; c1 := z; c2 := lp; c3 := h |} |};
       rvec := {| r0 := {| c0 := one; c1 := z; c2 := rm; c3 := c2 |};
                  r1 := {| c0 := one; c1 := z; c2 := z; c3 := z |};
                  r2 := {| c0 := z; c1 := one; c2 := z; c3 := z |};
                  r3 := {| c0 := one; c1 := z; c2 := rp; c3 := c2 |} |} |}.

(** [beta_l[m] = (dt/(4dx)) (lambda_max - lambda_m) (sign(lambda_m) + 1)
    (l_m . dV)], with [dt/(4dx)] computed as [0.25*(dt/dx)]. *)
Definition beta_l (dtdx : num) (E : eigen) (dV : vec4) (m : Z) : num :=
  (lit (1 # 4) * dtdx * (c3 (eval E) - nth4 (eval E) m)
   * (np_sign (nth4 (eval E) m) + lit 1) * dot4 (row (lvec E) m) dV)%num.

(** [beta_r[m] = (dt/(4dx)) (lambda_min - lambda_m) (1 - sign(lambda_m))
    (l_m . dV)]. *)
Definition beta_r (dtdx : num) (E : eigen) (dV : vec4) (m : Z) : num :=
  (lit (1 # 4) * dtdx * (c0 (eval E) - nth4 (eval E) m)
   * (lit 1 - np_sign (nth4 (eval E) m)) * dot4 (row (lvec E) m) dV)%num.

(** Component [k] of [V + 0.5 (1 - (dt/dx) max(lambda_max, 0)) dV +
    sum_m beta_l[m] r_m]. *)
Definition predicted_left (dtdx : num) (E : eigen) (V dV : vec4) (k : Z) : num :=
  (nth4 V k + lit (1 # 2) * (lit 1 - dtdx * py_max (c3 (eval E)) (lit 0)) * nth4 dV k
   + sum4 (fun m => beta_l dtdx E dV m * nth4 (row (rvec E) m) k))%num.

(** Component [k] of [V - 0.5 (1 + (dt/dx) min(lambda_min, 0)) dV +
    sum_m beta_r[m] r_m]. *)
Definition predicted_right (dtdx : num) (E : eigen) (V dV : vec4) (k : Z) : num :=
  (nth4 V k - lit (1 # 2) * (lit 1 + dtdx * py_min (c0 (eval E)) (lit 0)) * nth4 dV k
   + sum4 (fun m => beta_r dtdx E dV m * nth4 (row (rvec E) m) k))%num.

Variables (gamma : num) (r u v p ldelta_r ldelta_u ldelta_v ldelta_p : array2).

Definition zone_V (i j : Z) : vec4 :=
  {| c0 := elt2 r i j; c1 := elt2 u i j; c2 := elt2 v i j; c3 := elt2 p i j |}.

Definition zone_dV (i j : Z) : vec4 :=
  {| c0 := elt2 ldelta_r i j; c1 := elt2 ldelta_u i j;
     c2 := elt2 ldelta_v i j; c3 := elt2 ldelta_p i j |}.

(** [cs = sqrt(gamma p / rho)] *)
Definition zone_cs (i j : Z) : num :=
  sqrt (gamma * elt2 p i j / elt2 r i j)%num.

Definition zone_eigen (idir i j : Z) : eigen :=
  analytic_eigen idir (zone_cs i j) (elt2 r i j) (elt2 u i j) (elt2 v i j).

(** The zone raises neither of the two exceptions of its sound speed:
    [gamma p / rho] is not negative and [cs*cs] is not zero. *)
Definition zone_sound (i j : Z) : Prop :=
  ltb (gamma * elt2 p i j / elt2 r i j)%num (lit 0) = false /\
  eqb (zone_cs i j * zone_cs i j)%num (lit 0) = false.

(** The invariant of the zone loop: the zones in [D] have their two
    states in place. *)
Definition predicted (idir : Z) (dtdx : num) (g : Grid2d)
           (D : Z -> Z -> Prop) (s : array3 * array3) : Prop :=
  on_grid g 4 (fst s) /\ on_grid g 4 (snd s) /\
  forall i j m, D i j -> 0 <= m < 4 ->
    elt3 (fst s) (fst (left_target idir i j)) (snd (left_target idir i j)) m
    = predicted_left dtdx (zone_eigen idir i j) (zone_V i j) (zone_dV i j) m /\
    elt3 (snd s) i j m
    = predicted_right dtdx (zone_eigen idir i j) (zone_V i j) (zone_dV i j) m.
End PredictorSpec.

(** ** The store and the calls to the collaborators *)

Section Store.
Context {A : Arith}.

(** A call of a collaborator, with the arrays it is given. *)
Inductive event : Type :=
| EvFlatten (idir : Z) (p vel : array2)
| EvFlattenMultid (xi_x xi_y p : array2)
| EvLimit4 (idir : Z) (a : array2)
| EvStates (idir : Z) (r u v p ldelta_r ldelta_u ldelta_v ldelta_p : array2)
| EvRiemann (idir : Z) (U_l U_r : array3)
| EvConsToPrim (U : array3)
| EvRkFlatten (q : array3) (idir : Z)
| EvRkFlattenMultid (q : array3) (xi_x xi_y : array2)
| EvLimit (a : array2) (idir limiter : Z)
| EvPrimToCons (V : array3)
| EvRiemannSolver (name : string) (idir : Z) (U_l U_r : array3)
| EvArtificialViscosity (u v : array2).

Definition loc : Type := nat.

(** The arrays that are written in place, by location; the next free
    location; the calls made so far, oldest first. *)
Record world : Type := {
  heap : loc -> option array3;
  next : loc;
  trace : list event
}.

(** A computation that reads and writes the store and may raise. *)
Definition M (T : Type) : Type := world -> result T * world.

Definition ret {T : Type} (x : T) : M T := fun w => (Ok x, w).

Definition bind {T U : Type} (m : M T) (k : T -> M U) : M U :=
  fun w => match m w with
           | (Ok x, w') => k x w'
           | (Raise e, w') => (Raise e, w')
           end.

(** A pure step that may raise. *)
Definition lift {T : Type} (r : result T) : M T := fun w => (r, w).

Definition log (e : event) : M unit :=
  fun w => (Ok tt, {| heap := heap w; next := next w; trace := trace w ++ [e] |}).

Definition put (h : loc -> option array3) (l : loc) (a : array3)
  : loc -> option array3 :=
  fun l' => if Nat.eqb l' l then Some a else h l'.

(** A new array object. *)
Definition alloc (a : array3) : M loc :=
  fun w => (Ok (next w),
            {| heap := put (heap w) (next w) a; next := S (next w);
               trace := trace w |}).

(** The present value of an array object. *)
Definition load (l : loc) : M array3 :=
  fun w => match heap w l with
           | Some a => (Ok a, w)
           | None => (Raise (ValueError "no such array"), w)
           end.

Definition store (l : loc) (a : array3) : M unit :=
  fun w => (Ok tt, {| heap := put (heap w) l a; next := next w; trace := trace w |}).

(** An in-place statement on the array at [l]. *)
Definition modify (l : loc) (f : array3 -> result array3) : M unit :=
  bind (load l) (fun a => bind (lift (f a)) (fun a' => store l a')).

(** [for n in range(k): body] *)
Fixpoint for_each (fuel : nat) (n : Z) (body : Z -> M unit) : M unit :=
  match fuel with
  | O => ret tt
  | S fuel' => bind (body n) (fun _ => for_each fuel' (n + 1) body)
  end.

Definition for_range (k : Z) (body : Z -> M unit) : M unit :=
  for_each (Z.to_nat k) 0 body.
End Store.

Declare Scope M_scope.
Delimit Scope M_scope with M.
Notation "x <- m ;; k" := (bind m (fun x => k))
  (at level 61, m at next level, right associativity) : M_scope.
Notation "' pat <- m ;; k" := (bind m (fun x => match x with pat => k end))
  (at level 61, pat pattern, m at next level, right associativity) : M_scope.
Notation "m ;; k" := (bind m (fun _ => k))
  (at level 61, right associativity) : M_scope.

(** ** unsplitFluxes.py: unsplitFluxes *)

(** The module [vars]: the number of variables and the positions of the
    conserved and of the primitive variables. *)
Module vars.
Record t : Type := {
  nvar : Z;
  idens : Z; ixmom : Z; iymom : Z; iener : Z;
  irho : Z; iu : Z; iv : Z; ip : Z
}.

(** Modelled from the spec: the module is not among the sources.  The
    conserved state is the tuple (density, x-momentum, y-momentum,
    energy) and the primitive state is [(rho, u, v, p)]. *)
Definition standard : t :=
  {| nvar := 4; idens := 0; ixmom := 1; iymom := 2; iener := 3;
     irho := 0; iu := 1; iv := 2; ip := 3 |}.

(** The positions are distinct places of a state of [nvar] variables. *)
Definition ok (vs : t) : Prop :=
  0 <= idens vs < nvar vs /\ 0 <= ixmom vs < nvar vs /\
  0 <= iymom vs < nvar vs /\ 0 <= iener vs < nvar vs /\
  0 <= irho vs < nvar vs /\ 0 <= iu vs < nvar vs /\
  0 <= iv vs < nvar vs /\ 0 <= ip vs < nvar vs /\
  idens vs <> ixmom vs /\ idens vs <> iymom vs /\ idens vs <> iener vs /\
  ixmom vs <> iymom vs /\ ixmom vs <> iener vs /\ iymom vs <> iener vs.
End vars.

Section EOS.
Context {A : Arith}.

(** Modelled from the spec: the module [eos] is not among the sources.
    The equation of state is the gamma law, [p = rho e (gamma - 1)] and
    [rho e = p / (gamma - 1)], both pure functions of the one constant
    [gamma]. *)
Definition eos_pres (gamma : num) (dens eint : array2) : result array2 :=
  de <- ew2 mul dens eint ;;
  Ok (map2 (fun x => (x * (gamma - lit 1))%num) de).

Definition eos_rhoe (gamma : num) (pres : array2) : array2 :=
  map2 (fun x => (x / (gamma - lit 1))%num) pres.
End EOS.

Section UnsplitFluxes.
Context {A : Arith}.

(** The Fortran modules [reconstruction_f] and [interface_f], with the
    arguments of their calls. *)
Class Fortran : Type := {
  flatten : Z -> array2 -> array2 -> Z -> Z -> Z -> num -> num -> num -> num -> array2;
  flatten_multid : array2 -> array2 -> array2 -> Z -> Z -> Z -> array2;
  limit4 : Z -> array2 -> Z -> Z -> Z -> array2;
  states : Z -> Z -> Z -> Z -> num -> num -> Z -> num ->
           array2 -> array2 -> array2 -> array2 ->
           array2 -> array2 -> array2 -> array2 -> array3 * array3;
  riemann : Z -> Z -> Z -> Z -> Z -> Z -> Z -> Z -> Z -> num ->
            array3 -> array3 -> array3
}.
Context {F : Fortran}.

(** The data object: its grid, its array of [nvar] variables (an object
    of the store), and the names of the variables. *)
Record CellCenterData2d : Type := {
  grid : Grid2d;
  data : loc;
  nvar : Z;
  names : list string
}.

Fixpoint index_of (name : string) (l : list string) (k : Z) : result Z :=
  match l with
  | [] => Raise (ValueError "not in list")
  | x :: l' => if String.eqb x name then Ok k else index_of name l' (k + 1)
  end.

(** A view of one variable of an array object. *)
Record view : Type := { base : loc; component : Z }.

(** [myData.getVarPtr(name)]: the view of the variable, not a copy. *)
Definition getVarPtr (d : CellCenterData2d) (name : string) : M view :=
  (n <- lift (index_of name (names d) 0) ;;
   ret {| base := data d; component := n |})%M.

(** The elements a view shows now. *)
Definition read (x : view) : M array2 :=
  (a <- load (base x) ;; lift (comp a (component x)))%M.

(** Lines 239-243 (and 245-249, 287-291, 293-297): the conserved state
    of the primitive interface state [V], written into [U]. *)
Definition to_conserved (vs : vars.t) (gamma : num) (V U : array3) : result array3 :=
  rho <- comp V (vars.irho vs) ;;
  U <- set_comp U (vars.idens vs) rho ;;
  rho <- comp V (vars.irho vs) ;;
  vu <- comp V (vars.iu vs) ;;
  mx <- ew2 mul rho vu ;;
  U <- set_comp U (vars.ixmom vs) mx ;;
  rho <- comp V (vars.irho vs) ;;
  vv <- comp V (vars.iv vs) ;;
  my <- ew2 mul rho vv ;;
  U <- set_comp U (vars.iymom vs) my ;;
  pp <- comp V (vars.ip vs) ;;
  rho <- comp V (vars.irho vs) ;;
  vu <- comp V (vars.iu vs) ;;
  vv <- comp V (vars.iv vs) ;;
  v2 <- ew2 add (map2 sq vu) (map2 sq vv) ;;
  ke <- ew2 mul (map2 (fun x => (lit (1 # 2) * x)%num) rho) v2 ;;
  en <- ew2 add (eos_rhoe gamma pp) ke ;;
  set_comp U (vars.iener vs) en.

Definition smallp : num := lit (1 # 10000000000).

(** Lines 162-171: the primitive variables of the whole padded grid. *)
Definition primitives (gamma : num) (dens xmom ymom ener : array2)
  : result (array2 * array2 * array2) :=
  u <- ew2 div xmom dens ;;
  v <- ew2 div ymom dens ;;
  m2 <- ew2 add (map2 sq xmom) (map2 sq ymom) ;;
  ke <- ew2 div (map2 (fun x => (lit (1 # 2) * x)%num) m2) dens ;;
  ei <- ew2 sub ener ke ;;
  e <- ew2 div ei dens ;;
  p <- eos_pres gamma dens e ;;
  Ok (u, v, map2 (fun x => clip_lo x smallp) p).

(** The calls of the Fortran routines, each logged with its arrays. *)
Definition call_flatten (idir : Z) (p vel : array2) (g : Grid2d)
           (delta z0 z1 : num) : M array2 :=
  (log (EvFlatten idir p vel) ;;
   ret (flatten idir p vel (qx g) (qy g) (ng g) smallp delta z0 z1))%M.

Definition call_flatten_multid (xi_x xi_y p : array2) (g : Grid2d) : M array2 :=
  (log (EvFlattenMultid xi_x xi_y p) ;;
   ret (flatten_multid xi_x xi_y p (qx g) (qy g) (ng g)))%M.

Definition call_limit4 (idir : Z) (a : array2) (g : Grid2d) : M array2 :=
  (log (EvLimit4 idir a) ;;
   ret (limit4 idir a (qx g) (qy g) (ng g)))%M.

Definition call_states (idir : Z) (g : Grid2d) (h dt : num) (vs : vars.t)
           (gamma : num) (r u v p ldelta_r ldelta_u ldelta_v ldelta_p : array2)
  : M (array3 * array3) :=
  (log (EvStates idir r u v p ldelta_r ldelta_u ldelta_v ldelta_p) ;;
   ret (states idir (qx g) (qy g) (ng g) h dt (vars.nvar vs) gamma
               r u v p ldelta_r ldelta_u ldelta_v ldelta_p))%M.

Definition call_riemann (idir : Z) (g : Grid2d) (vs : vars.t) (gamma : num)
           (U_l U_r : array3) : M array3 :=
  (log (EvRiemann idir U_l U_r) ;;
   ret (riemann idir (qx g) (qy g) (ng g) (vars.nvar vs)
                (vars.idens vs) (vars.ixmom vs) (vars.iymom vs) (vars.iener vs)
                gamma U_l U_r))%M.

(** [xi*limit4(idir, a, ...)] *)
Definition limited (idir : Z) (xi a : array2) (g : Grid2d) : M array2 :=
  (l <- call_limit4 idir a g ;; lift (ew2 mul xi l))%M.

(** Lines 198-249 for [idir = 1], [h = dx], and lines 257-297 for
    [idir = 2], [h = dy]: the limited slopes, the interface states and
    their conserved form, in two new arrays. *)
Definition sweep (vs : vars.t) (gamma : num) (myData : CellCenterData2d) (dt : num)
           (idir : Z) (h : num) (r : view) (xi u v p : array2) : M (loc * loc) :=
  (let myg := grid myData in
   r_ <- read r ;;
   ldelta_r <- limited idir xi r_ myg ;;
   ldelta_u <- limited idir xi u myg ;;
   ldelta_v <- limited idir xi v myg ;;
   ldelta_p <- limited idir xi p myg ;;
   r_ <- read r ;;
   ' (V_l, V_r) <- call_states idir myg h dt vs gamma r_ u v p
                               ldelta_r ldelta_u ldelta_v ldelta_p ;;
   U_l <- alloc (zeros3 (qx myg) (qy myg) (nvar myData)) ;;
   U_r <- alloc (zeros3 (qx myg) (qy myg) (nvar myData)) ;;
   modify U_l (to_conserved vs gamma V_l) ;;
   modify U_r (to_conserved vs gamma V_r) ;;
   ret (U_l, U_r))%M.

(** Lines 308-429: the transverse fluxes, the correction of the four
    arrays in place, and the fluxes normal to the interfaces. *)
Definition corrected_fluxes (vs : vars.t) (gamma : num) (myData : CellCenterData2d)
           (dt : num) (U_xl U_xr U_yl U_yr : loc) : M (array3 * array3) :=
  (let myg := grid myData in
   xl <- load U_xl ;; xr <- load U_xr ;;
   F_x <- call_riemann 1 myg vs gamma xl xr ;;
   yl <- load U_yl ;; yr <- load U_yr ;;
   F_y <- call_riemann 2 myg vs gamma yl yr ;;
   xl <- load U_xl ;; xr <- load U_xr ;;
   yl <- load U_yl ;; yr <- load U_yr ;;
   ' (Build_faces xl xr yl yr) <-
     lift (transverse myg dt (nvar myData) F_x F_y (Build_faces xl xr yl yr)) ;;
   store U_xl xl ;; store U_xr xr ;; store U_yl yl ;; store U_yr yr ;;
   xl <- load U_xl ;; xr <- load U_xr ;;
   F_x <- call_riemann 1 myg vs gamma xl xr ;;
   yl <- load U_yl ;; yr <- load U_yr ;;
   F_y <- call_riemann 2 myg vs gamma yl yr ;;
   ret (F_x, F_y))%M.

(** [unsplitFluxes(myData, dt)].  [vs] is the module [vars] and [gamma]
    the run-time parameter [eos.gamma].  The profiling timers are left
    out, and so are the arrays of zeros that lines 179-181, 202-205,
    223-224 and 314-315 bind to names which are bound anew before any
    use. *)
Definition unsplitFluxes (vs : vars.t) (gamma : num)
           (myData : CellCenterData2d) (dt : num) : M (array3 * array3) :=
  (let myg := grid myData in
   dens <- getVarPtr myData "density" ;;
   xmom <- getVarPtr myData "x-momentum" ;;
   ymom <- getVarPtr myData "y-momentum" ;;
   ener <- getVarPtr myData "energy" ;;
   let r := dens in
   dens_ <- read dens ;; xmom_ <- read xmom ;;
   ymom_ <- read ymom ;; ener_ <- read ener ;;
   ' (u, v, p) <- lift (primitives gamma dens_ xmom_ ymom_ ener_) ;;
   let delta := lit (33 # 100) in
   let z0 := lit (75 # 100) in
   let z1 := lit (85 # 100) in
   xi_x <- call_flatten 1 p u myg delta z0 z1 ;;
   xi_y <- call_flatten 2 p v myg delta z0 z1 ;;
   xi <- call_flatten_multid xi_x xi_y p myg ;;
   ' (U_xl, U_xr) <- sweep vs gamma myData dt 1 (dx myg) r xi u v p ;;
   ' (U_yl, U_yr) <- sweep vs gamma myData dt 2 (dy myg) r xi u v p ;;
   corrected_fluxes vs gamma myData dt U_xl U_xr U_yl U_yr)%M.
End UnsplitFluxes.

(** ** fluxes.py: fluxes *)

Section ArrayIndexer.
Context {A : Arith}.

(** Modelled from the spec: the class [ArrayIndexer]
    (mesh/array_indexer.py) is not among the sources.  [a.v(buf=b, n=n)]
    is the view of component [n] over the interior widened by the buffer
    [b], [a.ip(s, ...)] and [a.jp(s, ...)] are the same view shifted by
    [s] cells in [i] or in [j]; the view is the slice
    [a[ilo-lo+is : ihi+1+hi+is, jlo-lo+js : jhi+1+hi+js, n]].  A buffer
    is a pair (low side, high side); an integer [b] stands for
    [(b, b)]. *)
Definition ip_jp (g : Grid2d) (a : array3) (ishift jshift : Z) (buf : Z * Z) (n : Z)
  : result array2 :=
  slice3 a (ilo g - fst buf + ishift) (ihi g + 1 + snd buf + ishift)
           (jlo g - fst buf + jshift) (jhi g + 1 + snd buf + jshift) n.

(** The same view of a two-dimensional array. *)
Definition ip_jp2 (g : Grid2d) (a : array2) (ishift jshift : Z) (buf : Z * Z) : array2 :=
  slice2 a (ilo g - fst buf + ishift) (ihi g + 1 + snd buf + ishift)
           (jlo g - fst buf + jshift) (jhi g + 1 + snd buf + jshift).

(** [a.ip_jp(is, js, buf=b, n=n)[:, :] = x] *)
Definition set_ip_jp (g : Grid2d) (a : array3) (ishift jshift : Z) (buf : Z * Z) (n : Z)
           (x : array2) : result array3 :=
  set_slice3 a (ilo g - fst buf + ishift) (ihi g + 1 + snd buf + ishift)
               (jlo g - fst buf + jshift) (jhi g + 1 + snd buf + jshift) n x.
End ArrayIndexer.

Section RKFluxes.
Context {A : Arith}.

(** The run-time parameters [fluxes] reads, by key. *)
Record RuntimeParameters : Type := {
  eos_gamma : num;
  compressible_use_flattening : Z;
  compressible_limiter : Z;
  compressible_riemann : string;
  compressible_cvisc : num
}.

(** The solid-wall flags of the four boundaries. *)
Record Solid : Type := { xl : Z; xr : Z; yl : Z; yr : Z }.

(** The modules [compressible], [mesh.reconstruction] and
    [compressible.interface_f], with the arguments of their calls. *)
Class Collaborators : Type := {
  cons_to_prim : array3 -> num -> vars.t -> Grid2d -> array3;
  prim_to_cons : array3 -> num -> vars.t -> Grid2d -> array3;
  reconstruction_flatten : Grid2d -> array3 -> Z -> vars.t -> RuntimeParameters -> array2;
  reconstruction_flatten_multid : Grid2d -> array3 -> array2 -> array2 -> vars.t -> array2;
  reconstruction_limit : array2 -> Grid2d -> Z -> Z -> array2;
  riemann_hllc : Z -> Z -> Z -> Z -> Z -> Z -> Z -> Z -> Z -> Z -> Z -> num ->
                 array3 -> array3 -> array3;
  riemann_cgf : Z -> Z -> Z -> Z -> Z -> Z -> Z -> Z -> Z -> Z -> Z -> num ->
                array3 -> array3 -> array3;
  artificial_viscosity : Z -> Z -> Z -> num -> num -> num ->
                         array2 -> array2 -> array2 * array2
}.
Context {C : Collaborators}.

(** The flattening coefficient: an array, or the number [1.0]. *)
Inductive coefficient : Type :=
| Scalar (c : num)
| Field (a : array2).

(** [xi*a] *)
Definition scale (xi : coefficient) (a : array2) : result array2 :=
  match xi with
  | Scalar c => Ok (map2 (fun x => (c * x)%num) a)
  | Field x => ew2 mul x a
  end.

(** [my_data.get_var_by_index(n)]: the view [data[:, :, n]]. *)
Definition get_var_by_index (d : CellCenterData2d) (n : Z) : M view :=
  (a <- load (data d) ;;
   n' <- lift (py_index (dim2 a) n) ;;
   ret {| base := data d; component := n' |})%M.

(** Modelled from the spec: the grid class is not among the sources.
    [myg.scratch_array(nvar=k)] is a new array of zeros over the padded
    grid. *)
Definition scratch_array (g : Grid2d) (k : Z) : M loc :=
  alloc (zeros3 (qx g) (qy g) k).

(** Modelled from the spec: [util.msg] is not among the sources.  An
    unknown solver name is a fatal configuration error: [msg.fail] ends
    the run with its message. *)
Definition msg_fail {T : Type} (message : string) : M T :=
  lift (Raise (SystemExit message)).

Definition call_limit (a : array2) (g : Grid2d) (idir limiter : Z) : M array2 :=
  (log (EvLimit a idir limiter) ;; ret (reconstruction_limit a g idir limiter))%M.

Definition call_prim_to_cons (V : array3) (gamma : num) (ivars : vars.t) (g : Grid2d)
  : M array3 :=
  (log (EvPrimToCons V) ;; ret (prim_to_cons V gamma ivars g))%M.

(** The two solvers, as the branch of lines 203-208 selects them. *)
Inductive solver : Type := HLLC | CGF.

Definition solver_name (s : solver) : string :=
  match s with HLLC => "HLLC" | CGF => "CGF" end.

Definition call_riemannFunc (s : solver) (idir : Z) (g : Grid2d) (ivars : vars.t)
           (lo hi : Z) (gamma : num) (U_l U_r : array3) : M array3 :=
  (log (EvRiemannSolver (solver_name s) idir U_l U_r) ;;
   ret ((match s with HLLC => riemann_hllc | CGF => riemann_cgf end)
          idir (qx g) (qy g) (ng g) (vars.nvar ivars)
          (vars.idens ivars) (vars.ixmom ivars) (vars.iymom ivars) (vars.iener ivars)
          lo hi gamma U_l U_r))%M.

(** Lines 164-166 and 183-185: the interface states of one sweep; the
    left states go to the view shifted by one cell in the sweep
    direction. *)
Definition sweep_states (g : Grid2d) (ivars : vars.t) (q : array3) (ld V_l V_r : loc)
           (ishift jshift : Z) : M unit :=
  for_range (vars.nvar ivars)
    (fun n =>
       (qv <- lift (ip_jp g q 0 0 (2, 2) n) ;;
        ld_ <- load ld ;;
        lv <- lift (ip_jp g ld_ 0 0 (2, 2) n) ;;
        x <- lift (ew2 add qv (map2 (fun y => (lit (1 # 2) * y)%num) lv)) ;;
        modify V_l (fun a => set_ip_jp g a ishift jshift (2, 2) n x) ;;
        qv <- lift (ip_jp g q 0 0 (2, 2) n) ;;
        ld_ <- load ld ;;
        lv <- lift (ip_jp g ld_ 0 0 (2, 2) n) ;;
        x <- lift (ew2 sub qv (map2 (fun y => (lit (1 # 2) * y)%num) lv)) ;;
        modify V_r (fun a => set_ip_jp g a 0 0 (2, 2) n x))%M).

(** Lines 240-249: the artificial viscosity, added in place to the two
    flux arrays over the buffer [b = (2, 1)]. *)
Definition add_viscosity (g : Grid2d) (ivars : vars.t) (my_data : CellCenterData2d)
           (avisco_x avisco_y : array2) (F_x F_y : loc) : M unit :=
  let b := (2, 1) in
  for_range (vars.nvar ivars)
    (fun n =>
       (var <- get_var_by_index my_data n ;;
        fx <- load F_x ;;
        cur <- lift (ip_jp g fx 0 0 b n) ;;
        var_ <- read var ;;
        d <- lift (ew2 sub (ip_jp2 g var_ (-1) 0 b) (ip_jp2 g var_ 0 0 b)) ;;
        t <- lift (ew2 mul (ip_jp2 g avisco_x 0 0 b) d) ;;
        x <- lift (ew2 add cur t) ;;
        modify F_x (fun a => set_ip_jp g a 0 0 b n x) ;;
        fy <- load F_y ;;
        cur <- lift (ip_jp g fy 0 0 b n) ;;
        var_ <- read var ;;
        d <- lift (ew2 sub (ip_jp2 g var_ 0 (-1) b) (ip_jp2 g var_ 0 0 b)) ;;
        t <- lift (ew2 mul (ip_jp2 g avisco_y 0 0 b) d) ;;
        x <- lift (ew2 add cur t) ;;
        modify F_y (fun a => set_ip_jp g a 0 0 b n x))%M).

(** Lines 126-134: the flattening coefficient. *)
Definition flattening (g : Grid2d) (q : array3) (ivars : vars.t)
           (rp : RuntimeParameters) : M coefficient :=
  (if compressible_use_flattening rp =? 0 then ret (Scalar (lit 1))
   else
     log (EvRkFlatten q 1) ;;
     let xi_x := reconstruction_flatten g q 1 ivars rp in
     log (EvRkFlatten q 2) ;;
     let xi_y := reconstruction_flatten g q 2 ivars rp in
     log (EvRkFlattenMultid q xi_x xi_y) ;;
     ret (Field (reconstruction_flatten_multid g q xi_x xi_y ivars)))%M.

(** Lines 146-148: the limited slopes of every variable, in both
    directions. *)
Definition limit_slopes (g : Grid2d) (ivars : vars.t) (q : array3)
           (xi : coefficient) (limiter : Z) (ldx ldy : loc) : M unit :=
  for_range (vars.nvar ivars)
    (fun n =>
       (qn <- lift (comp q n) ;;
        l <- call_limit qn g 1 limiter ;;
        x <- lift (scale xi l) ;;
        modify ldx (fun a => set_comp a n x) ;;
        qn <- lift (comp q n) ;;
        l <- call_limit qn g 2 limiter ;;
        x <- lift (scale xi l) ;;
        modify ldy (fun a => set_comp a n x))%M).

(** Lines 104-192: the primitive variables [q] and the conserved left
    and right interface states of the x and of the y sweep. *)
Definition interface_states (my_data : CellCenterData2d) (rp : RuntimeParameters)
           (ivars : vars.t)
  : M (array3 * (array3 * array3) * (array3 * array3)) :=
  (let myg := grid my_data in
   let gamma := eos_gamma rp in
   dens <- getVarPtr my_data "density" ;;
   xmom <- getVarPtr my_data "x-momentum" ;;
   ymom <- getVarPtr my_data "y-momentum" ;;
   ener <- getVarPtr my_data "energy" ;;
   U <- load (data my_data) ;;
   log (EvConsToPrim U) ;;
   let q := cons_to_prim U gamma ivars myg in
   xi <- flattening myg q ivars rp ;;
   let limiter := compressible_limiter rp in
   ldx <- scratch_array myg (vars.nvar ivars) ;;
   ldy <- scratch_array myg (vars.nvar ivars) ;;
   limit_slopes myg ivars q xi limiter ldx ldy ;;
   (* x-direction *)
   V_l <- scratch_array myg (vars.nvar ivars) ;;
   V_r <- scratch_array myg (vars.nvar ivars) ;;
   sweep_states myg ivars q ldx V_l V_r 1 0 ;;
   vl <- load V_l ;;
   U_xl <- call_prim_to_cons vl gamma ivars myg ;;
   vr <- load V_r ;;
   U_xr <- call_prim_to_cons vr gamma ivars myg ;;
   (* y-direction *)
   sweep_states myg ivars q ldy V_l V_r 0 1 ;;
   vl <- load V_l ;;
   U_yl <- call_prim_to_cons vl gamma ivars myg ;;
   vr <- load V_r ;;
   U_yr <- call_prim_to_cons vr gamma ivars myg ;;
   ret (q, (U_xl, U_xr), (U_yl, U_yr)))%M.

(** Lines 201-208: the solver the parameter [compressible.riemann]
    names. *)
Definition select_solver (riemann : string) : M solver :=
  if String.eqb riemann "HLLC" then ret HLLC
  else if String.eqb riemann "CGF" then ret CGF
  else msg_fail "ERROR: Riemann solver undefined".

(** Lines 210-253: the two Riemann calls and the artificial
    viscosity. *)
Definition normal_fluxes (my_data : CellCenterData2d) (rp : RuntimeParameters)
           (ivars : vars.t) (solid : Solid) (riemannFunc : solver)
           (q U_xl U_xr U_yl U_yr : array3) : M (array3 * array3) :=
  (let myg := grid my_data in
   let gamma := eos_gamma rp in
   _fx <- call_riemannFunc riemannFunc 1 myg ivars (xl solid) (xr solid)
                           gamma U_xl U_xr ;;
   _fy <- call_riemannFunc riemannFunc 2 myg ivars (yl solid) (yr solid)
                           gamma U_yl U_yr ;;
   F_x <- alloc _fx ;;
   F_y <- alloc _fy ;;
   let cvisc := compressible_cvisc rp in
   uq <- lift (ip_jp myg q 0 0 (ng myg, ng myg) (vars.iu ivars)) ;;
   vq <- lift (ip_jp myg q 0 0 (ng myg, ng myg) (vars.iv ivars)) ;;
   log (EvArtificialViscosity uq vq) ;;
   let '(_ax, _ay) := artificial_viscosity (qx myg) (qy myg) (ng myg)
                                           (dx myg) (dy myg) cvisc uq vq in
   add_viscosity myg ivars my_data _ax _ay F_x F_y ;;
   fx <- load F_x ;;
   fy <- load F_y ;;
   ret (fx, fy))%M.

(** [fluxes(my_data, rp, ivars, solid, tc)]; the timers [tc] are left
    out.  The result is the pair of flux arrays as they stand on
    return. *)
Definition fluxes (my_data : CellCenterData2d) (rp : RuntimeParameters)
           (ivars : vars.t) (solid : Solid) : M (array3 * array3) :=
  (' (q, (U_xl, U_xr), (U_yl, U_yr)) <- interface_states my_data rp ivars ;;
   riemannFunc <- select_solver (compressible_riemann rp) ;;
   normal_fluxes my_data rp ivars solid riemannFunc q U_xl U_xr U_yl U_yr)%M.
End RKFluxes.

(** ** The part of the store a computation leaves alone *)

Section Frame.
Context {A : Arith}.

(** Whatever its outcome, [m] started with at least [b] locations in use
    leaves the arrays at the locations below [b] as they are; [P] holds
    of its result. *)
Definition keeps {T : Type} (b : loc) (m : M T) (P : T -> Prop) : Prop :=
  forall w, (b <= next w)%nat ->
            (b <= next (snd (m w)))%nat /\
            (forall l, (l < b)%nat -> heap (snd (m w)) l = heap w l) /\
            (forall x, fst (m w) = Ok x -> P x).
End Frame.

(** ** What the steps compute when nothing is raised *)

Section Totals.
Context {A : Arith}.

(** [a[:, :, n]] for a component in range. *)
Definition comp_of (a : array3) (n : Z) : array2 :=
  mk2 (dim0 a) (dim1 a) (fun i j => elt3 a i j n).

(** An elementwise operation on arrays of one shape. *)
Definition zip2 (f : num -> num -> num) (a b : array2) : array2 :=
  mk2 (rows a) (cols a) (fun i j => f (elt2 a i j) (elt2 b i j)).

(** [a] after [a[:, :, n] = x]. *)
Definition put_comp (a : array3) (n : Z) (x : array2) : array3 :=
  mk3 (dim0 a) (dim1 a) (dim2 a)
      (fun i j k => if k =? n then elt2 x i j else elt3 a i j k).

Definition half (a : array2) : array2 := map2 (fun x => (lit (1 # 2) * x)%num) a.

(** The primitive variables of section 4.1: [u = xmom/dens],
    [v = ymom/dens], [e = (ener - 0.5 (xmom^2 + ymom^2)/dens)/dens] and
    [p], the gamma-law pressure of [(dens, e)] with the floor
    [smallp]. *)
Definition prim_u (dens xmom : array2) : array2 := zip2 div xmom dens.
Definition prim_v (dens ymom : array2) : array2 := zip2 div ymom dens.
Definition prim_e (dens xmom ymom ener : array2) : array2 :=
  zip2 div
       (zip2 sub ener
             (zip2 div (half (zip2 add (map2 sq xmom) (map2 sq ymom))) dens))
       dens.
Definition raw_pressure (gamma : num) (dens xmom ymom ener : array2) : array2 :=
  map2 (fun x => (x * (gamma - lit 1))%num)
       (zip2 mul dens (prim_e dens xmom ymom ener)).
Definition prim_p (gamma : num) (dens xmom ymom ener : array2) : array2 :=
  map2 (fun x => clip_lo x smallp) (raw_pressure gamma dens xmom ymom ener).

(** The conserved state of section 4.5, written into [U]. *)
Definition conserved (vs : vars.t) (gamma : num) (V U : array3) : array3 :=
  let rho := comp_of V (vars.irho vs) in
  let vu := comp_of V (vars.iu vs) in
  let vv := comp_of V (vars.iv vs) in
  let pp := comp_of V (vars.ip vs) in
  put_comp
    (put_comp
       (put_comp
          (put_comp U (vars.idens vs) rho)
          (vars.ixmom vs) (zip2 mul rho vu))
       (vars.iymom vs) (zip2 mul rho vv))
    (vars.iener vs)
    (zip2 add (eos_rhoe gamma pp)
          (zip2 mul (half rho) (zip2 add (map2 sq vu) (map2 sq vv)))).


(** The positions of the primitive variables are distinct as well. *)
Definition prim_distinct (vs : vars.t) : Prop :=
  vars.irho vs <> vars.iu vs /\ vars.irho vs <> vars.iv vs /\
  vars.irho vs <> vars.ip vs /\ vars.iu vs <> vars.iv vs /\
  vars.iu vs <> vars.ip vs /\ vars.iv vs <> vars.ip vs.
End Totals.

(** ** What the Fortran routines are assumed to return *)

Section FortranSpec.
Context {A : Arith} {F : Fortran}.

(** The routines return arrays of the dimensions they are given (the
    [qx], [qy] and [nvar] arguments of their interfaces). *)
Class FortranShapes : Prop := {
  flatten_shape : forall idir p u m n k a b c e,
    rows (flatten idir p u m n k a b c e) = m /\
    cols (flatten idir p u m n k a b c e) = n;
  flatten_multid_shape : forall x y p m n k,
    rows (flatten_multid x y p m n k) = m /\
    cols (flatten_multid x y p m n k) = n;
  limit4_shape : forall idir a m n k,
    rows (limit4 idir a m n k) = m /\ cols (limit4 idir a m n k) = n;
  states_shape : forall idir m n k h dt nv gamma r u v p dr du dv dp,
    let s := states idir m n k h dt nv gamma r u v p dr du dv dp in
    (dim0 (fst s) = m /\ dim1 (fst s) = n /\ dim2 (fst s) = nv) /\
    (dim0 (snd s) = m /\ dim1 (snd s) = n /\ dim2 (snd s) = nv);
  riemann_shape : forall idir m n k nv i1 i2 i3 i4 gamma Ul Ur,
    let f := riemann idir m n k nv i1 i2 i3 i4 gamma Ul Ur in
    dim0 f = m /\ dim1 f = n /\ dim2 f = nv
}.

(** [xi*limit4(idir, a, ...)] *)
Definition slope (idir : Z) (xi a : array2) (g : Grid2d) : array2 :=
  zip2 mul xi (limit4 idir a (qx g) (qy g) (ng g)).

(** The interface states of one sweep. *)
Definition sweep_V (vs : vars.t) (gamma : num) (g : Grid2d) (dt : num)
           (idir : Z) (h : num) (xi r u v p : array2) : array3 * array3 :=
  states idir (qx g) (qy g) (ng g) h dt (vars.nvar vs) gamma r u v p
         (slope idir xi r g) (slope idir xi u g)
         (slope idir xi v g) (slope idir xi p g).

(** The calls of one sweep, in order. *)
Definition sweep_calls (g : Grid2d) (idir : Z) (xi r u v p : array2) : list event :=
  [ EvLimit4 idir r; EvLimit4 idir u; EvLimit4 idir v; EvLimit4 idir p;
    EvStates idir r u v p (slope idir xi r g) (slope idir xi u g)
             (slope idir xi v g) (slope idir xi p g) ].

(** The conserved left and right states of one sweep. *)
Definition sweep_U (vs : vars.t) (gamma : num) (g : Grid2d) (k : Z) (dt : num)
           (idir : Z) (h : num) (xi r u v p : array2) : array3 * array3 :=
  let V := sweep_V vs gamma g dt idir h xi r u v p in
  (conserved vs gamma (fst V) (zeros3 (qx g) (qy g) k),
   conserved vs gamma (snd V) (zeros3 (qx g) (qy g) k)).

(** The Riemann calls among the calls of a trace, oldest first. *)
Definition riemann_calls (t : list event) : list (Z * array3 * array3) :=
  flat_map (fun e => match e with
                     | EvRiemann idir Ul Ur => [(idir, Ul, Ur)]
                     | _ => []
                     end) t.

(** The names of the four conserved variables are those of the data
    object, at the positions [kd], [kx], [ky], [ke]. *)
Definition names_at (d : CellCenterData2d) (kd kx ky ke : Z) : Prop :=
  index_of "density" (names d) 0 = Ok kd /\
  index_of "x-momentum" (names d) 0 = Ok kx /\
  index_of "y-momentum" (names d) 0 = Ok ky /\
  index_of "energy" (names d) 0 = Ok ke /\
  0 <= kd < nvar d /\ 0 <= kx < nvar d /\ 0 <= ky < nvar d /\ 0 <= ke < nvar d.
End FortranSpec.

(** ** The data flow of [unsplitFluxes] *)

Section Dataflow.
Context {A : Arith} {F : Fortran}.
Variables (vs : vars.t) (gamma : num) (g : Grid2d) (k : Z) (dt : num).

(** [interface_f.riemann(idir, ..., gamma, U_l, U_r)] *)
Definition solve (idir : Z) (U_l U_r : array3) : array3 :=
  riemann idir (qx g) (qy g) (ng g) (vars.nvar vs)
          (vars.idens vs) (vars.ixmom vs) (vars.iymom vs) (vars.iener vs)
          gamma U_l U_r.

(** The data array on entry and the positions of its four variables. *)
Variables (U0 : array3) (kd kx ky ke : Z).

Definition in_dens : array2 := comp_of U0 kd.
Definition in_xmom : array2 := comp_of U0 kx.
Definition in_ymom : array2 := comp_of U0 ky.
Definition in_ener : array2 := comp_of U0 ke.

Definition q_u : array2 := prim_u in_dens in_xmom.
Definition q_v : array2 := prim_v in_dens in_ymom.
Definition q_p : array2 := prim_p gamma in_dens in_xmom in_ymom in_ener.

Definition q_xi_x : array2 :=
  flatten 1 q_p q_u (qx g) (qy g) (ng g) smallp
          (lit (33 # 100)) (lit (75 # 100)) (lit (85 # 100)).
Definition q_xi_y : array2 :=
  flatten 2 q_p q_v (qx g) (qy g) (ng g) smallp
          (lit (33 # 100)) (lit (75 # 100)) (lit (85 # 100)).
Definition q_xi : array2 := flatten_multid q_xi_x q_xi_y q_p (qx g) (qy g) (ng g).

(** The four conserved interface states before the correction. *)
Definition predicted_faces : faces :=
  {| U_xl := fst (sweep_U vs gamma g k dt 1 (dx g) q_xi in_dens q_u q_v q_p);
     U_xr := snd (sweep_U vs gamma g k dt 1 (dx g) q_xi in_dens q_u q_v q_p);
     U_yl := fst (sweep_U vs gamma g k dt 2 (dy g) q_xi in_dens q_u q_v q_p);
     U_yr := snd (sweep_U vs gamma g k dt 2 (dy g) q_xi in_dens q_u q_v q_p) |}.

(** The calls made before the first Riemann call, in order: every one
    that takes the pressure is given [q_p]. *)
Definition calls_before_riemann : list event :=
  [ EvFlatten 1 q_p q_u; EvFlatten 2 q_p q_v; EvFlattenMultid q_xi_x q_xi_y q_p ]
    ++ sweep_calls g 1 q_xi in_dens q_u q_v q_p
    ++ sweep_calls g 2 q_xi in_dens q_u q_v q_p.

(** What [unsplitFluxes] needs of its arguments and of the store: a
    grid with three ghost layers, the data array of the grid, with the
    four conserved variables among its [nvar] variables. *)
End Dataflow.

Section Ready.
Context {A : Arith}.

(** What [unsplitFluxes] needs of its arguments and of the store: a
    grid with three ghost layers and the data array [U0] of the grid,
    with the four conserved variables among its [nvar] variables, at the
    positions [kd], [kx], [ky], [ke]. *)
Definition unsplit_ready (vs : vars.t) (U0 : array3) (kd kx ky ke : Z)
           (myData : CellCenterData2d) (w : world) : Prop :=
  grid_ok (grid myData) /\ 3 <= ng (grid myData) /\
  vars.ok vs /\ nvar myData = vars.nvar vs /\
  names_at myData kd kx ky ke /\
  heap w (data myData) = Some U0 /\ (data myData < next w)%nat /\
  on_grid (grid myData) (nvar myData) U0.
End Ready.

(** ** The data flow of [fluxes] *)

Section RKSpec.
Context {A : Arith} {C : Collaborators}.

(** The rows [s0..s0+l0-1] and the columns [s1..s1+l1-1] of [a]. *)
Definition window2 (a : array2) (s0 l0 s1 l1 : Z) : array2 :=
  mk2 l0 l1 (fun i j => elt2 a (s0 + i) (s1 + j)).

(** [a] after that window of its component [n] is assigned [x]. *)
Definition put_window (a : array3) (s0 l0 s1 l1 n : Z) (x : array2) : array3 :=
  mk3 (dim0 a) (dim1 a) (dim2 a)
      (fun i j k =>
         if inside s0 l0 i && inside s1 l1 j && (k =? n)
         then elt2 x (i - s0) (j - s1) else elt3 a i j k).

(** [xi*a] when the shapes agree. *)
Definition scaled (xi : coefficient) (a : array2) : array2 :=
  match xi with
  | Scalar c => map2 (fun x => (c * x)%num) a
  | Field x => zip2 mul x a
  end.

(** The cells of the view [v(buf=(lo, hi))] shifted by [(is, js)]. *)
Definition in_view (g : Grid2d) (ishift jshift : Z) (buf : Z * Z) (i j : Z) : bool :=
  (ilo g - fst buf + ishift <=? i) && (i <=? ihi g + snd buf + ishift) &&
  (jlo g - fst buf + jshift <=? j) && (j <=? jhi g + snd buf + jshift).

(** The window of a view that lies on the grid: first row, rows, first
    column, columns. *)
Definition view_s0 (g : Grid2d) (ishift : Z) (buf : Z * Z) : Z :=
  ilo g - fst buf + ishift.
Definition view_l0 (g : Grid2d) (buf : Z * Z) : Z :=
  ihi g + 1 + snd buf - (ilo g - fst buf).
Definition view_s1 (g : Grid2d) (jshift : Z) (buf : Z * Z) : Z :=
  jlo g - fst buf + jshift.
Definition view_l1 (g : Grid2d) (buf : Z * Z) : Z :=
  jhi g + 1 + snd buf - (jlo g - fst buf).

Definition view_fits (g : Grid2d) (ishift jshift : Z) (buf : Z * Z) : Prop :=
  0 <= fst buf /\ 0 <= snd buf /\
  0 <= ilo g - fst buf + ishift /\ ihi g + 1 + snd buf + ishift <= qx g /\
  0 <= jlo g - fst buf + jshift /\ jhi g + 1 + snd buf + jshift <= qy g.

(** The collaborators return arrays over the padded grid (of the
    dimensions they are given, for the Fortran routines). *)
Class CollaboratorShapes : Prop := {
  cons_to_prim_shape : forall U gamma ivars g,
    on_grid g (vars.nvar ivars) (cons_to_prim U gamma ivars g);
  reconstruction_flatten_multid_shape : forall g q x y ivars,
    on_grid2 g (reconstruction_flatten_multid g q x y ivars);
  reconstruction_limit_shape : forall a g idir limiter,
    on_grid2 g (reconstruction_limit a g idir limiter);
  riemann_hllc_shape : forall idir m n k nv i1 i2 i3 i4 lo hi gamma Ul Ur,
    let f := riemann_hllc idir m n k nv i1 i2 i3 i4 lo hi gamma Ul Ur in
    dim0 f = m /\ dim1 f = n /\ dim2 f = nv;
  riemann_cgf_shape : forall idir m n k nv i1 i2 i3 i4 lo hi gamma Ul Ur,
    let f := riemann_cgf idir m n k nv i1 i2 i3 i4 lo hi gamma Ul Ur in
    dim0 f = m /\ dim1 f = n /\ dim2 f = nv;
  artificial_viscosity_shape : forall m n k hx hy cvisc u v,
    let a := artificial_viscosity m n k hx hy cvisc u v in
    (rows (fst a) = m /\ cols (fst a) = n) /\
    (rows (snd a) = m /\ cols (snd a) = n)
}.

(** The flattening coefficient of lines 126-134. *)
Definition rk_xi (g : Grid2d) (q : array3) (ivars : vars.t) (rp : RuntimeParameters)
  : coefficient :=
  if compressible_use_flattening rp =? 0 then Scalar (lit 1)
  else Field (reconstruction_flatten_multid
                g q (reconstruction_flatten g q 1 ivars rp)
                (reconstruction_flatten g q 2 ivars rp) ivars).

Definition flattening_calls (g : Grid2d) (q : array3) (ivars : vars.t)
           (rp : RuntimeParameters) : list event :=
  if compressible_use_flattening rp =? 0 then []
  else [ EvRkFlatten q 1; EvRkFlatten q 2;
         EvRkFlattenMultid q (reconstruction_flatten g q 1 ivars rp)
                           (reconstruction_flatten g q 2 ivars rp) ].

(** The limited slope of variable [n] in direction [idir]. *)
Definition limited_slope (g : Grid2d) (q : array3) (xi : coefficient)
           (limiter idir n : Z) : array2 :=
  scaled xi (reconstruction_limit (comp_of q n) g idir limiter).

(** [0, 1, ..., k-1] *)
Definition upto (k : Z) : list Z := map Z.of_nat (seq 0 (Z.to_nat k)).

(** The calls of the limiting loop. *)
Definition limit_calls (q : array3) (limiter : Z) (k : Z) : list event :=
  flat_map (fun n => [ EvLimit (comp_of q n) 1 limiter;
                       EvLimit (comp_of q n) 2 limiter ]) (upto k).

(** The solver calls among the calls of a trace. *)
Definition solver_calls (t : list event) : list event :=
  filter (fun e => match e with
                   | EvRiemannSolver _ _ _ _ => true
                   | EvArtificialViscosity _ _ => true
                   | _ => false
                   end) t.

(** The flattening coefficient, when an array, is an array of the
    grid. *)
Definition xi_fits (g : Grid2d) (xi : coefficient) : Prop :=
  match xi with
  | Scalar _ => True
  | Field x => on_grid2 g x
  end.

(** The slopes array after the limiting loop: component [n] is the
    limited slope of variable [n]. *)
Definition slopes_of (g : Grid2d) (nv : Z) (q : array3) (xi : coefficient)
           (limiter idir : Z) (L : array3) : Prop :=
  on_grid g nv L /\
  forall i j n, 0 <= n < nv ->
                elt3 L i j n = elt2 (limited_slope g q xi limiter idir n) i j.

(** Lines 165 and 184: the left state of the interface on the high side
    of zone [(i - is, j - js)], stored at [(i, j)]; lines 166 and 185:
    the right state of the interface on the low side of zone [(i, j)]. *)
Definition state_left (q L : array3) (ishift jshift i j n : Z) : num :=
  (elt3 q (i - ishift) (j - jshift) n
   + lit (1 # 2) * elt3 L (i - ishift) (j - jshift) n)%num.
Definition state_right (q L : array3) (i j n : Z) : num :=
  (elt3 q i j n - lit (1 # 2) * elt3 L i j n)%num.

(** The state arrays after the first [nv] variables of a sweep: the
    cells of the two views hold the states, the others are as in
    [Vl0] and [Vr0]. *)
Definition swept (g : Grid2d) (nv : Z) (q L : array3) (ishift jshift : Z)
           (Vl0 Vr0 Vl Vr : array3) : Prop :=
  forall i j n,
    elt3 Vl i j n
    = (if (0 <=? n) && (n <? nv) && in_view g ishift jshift (2, 2) i j
       then state_left q L ishift jshift i j n else elt3 Vl0 i j n) /\
    elt3 Vr i j n
    = (if (0 <=? n) && (n <? nv) && in_view g 0 0 (2, 2) i j
       then state_right q L i j n else elt3 Vr0 i j n).

(** Lines 244-249: the element [(i, j, n)] of a flux array after the
    viscosity pass over the first [nv] variables; [(is, js)] is [(1, 0)]
    for [F_x] and [(0, 1)] for [F_y]. *)
Definition viscous (g : Grid2d) (nv : Z) (ishift jshift : Z) (F : array3)
           (avisco : array2) (U : array3) (i j n : Z) : num :=
  if (0 <=? n) && (n <? nv) && in_view g 0 0 (2, 1) i j
  then (elt3 F i j n
        + elt2 avisco i j * (elt3 U (i - ishift) (j - jshift) n - elt3 U i j n))%num
  else elt3 F i j n.

(** The solver a name stands for, if any. *)
Definition solver_named (name : string) : option solver :=
  if String.eqb name "HLLC" then Some HLLC
  else if String.eqb name "CGF" then Some CGF
  else None.

(** The result of a solver call of lines 210-218. *)
Definition solved (s : solver) (idir : Z) (g : Grid2d) (ivars : vars.t)
           (lo hi : Z) (gamma : num) (U_l U_r : array3) : array3 :=
  (match s with HLLC => riemann_hllc | CGF => riemann_cgf end)
    idir (qx g) (qy g) (ng g) (vars.nvar ivars)
    (vars.idens ivars) (vars.ixmom ivars) (vars.iymom ivars) (vars.iener ivars)
    lo hi gamma U_l U_r.

(** The velocities given to the viscosity routine: [q.v(n=iu, buf=ng)]
    and [q.v(n=iv, buf=ng)]. *)
Definition velocity_view (g : Grid2d) (q : array3) (n : Z) : array2 :=
  window2 (comp_of q n) (view_s0 g 0 (ng g, ng g)) (view_l0 g (ng g, ng g))
          (view_s1 g 0 (ng g, ng g)) (view_l1 g (ng g, ng g)).

(** The arrays given to [prim_to_cons], oldest call first. *)
Definition prim_to_cons_calls (t : list event) : list array3 :=
  flat_map (fun e => match e with
                     | EvPrimToCons V => [V]
                     | _ => []
                     end) t.

(** The calls of lines 104-192, in order: the primitive variables, the
    flattening, the limiting loop, and the four conversions of the state
    arrays. *)
Definition state_calls (g : Grid2d) (U0 : array3) (ivars : vars.t)
           (rp : RuntimeParameters) (Vxl Vxr Vyl Vyr : array3) : list event :=
  let q := cons_to_prim U0 (eos_gamma rp) ivars g in
  [EvConsToPrim U0] ++ flattening_calls g q ivars rp
    ++ limit_calls q (compressible_limiter rp) (vars.nvar ivars)
    ++ [EvPrimToCons Vxl; EvPrimToCons Vxr; EvPrimToCons Vyl; EvPrimToCons Vyr].

(** The number of calls of the limiter in a trace. *)
Definition limit_count (t : list event) : nat :=
  List.length (filter (fun e => match e with
                                | EvLimit _ _ _ => true
                                | _ => false
                                end) t).

(** What [fluxes] needs of its arguments and of the store. *)
Definition rk_ready (ivars : vars.t) (U0 : array3)
           (my_data : CellCenterData2d) (w : world) : Prop :=
  grid_ok (grid my_data) /\ 3 <= ng (grid my_data) /\
  vars.ok ivars /\ vars.nvar ivars <= nvar my_data /\
  (exists kd kx ky ke, names_at my_data kd kx ky ke) /\
  heap w (data my_data) = Some U0 /\ (data my_data < next w)%nat /\
  on_grid (grid my_data) (nvar my_data) U0.
End RKSpec.

(** ** The exceptions of [interfaceStates] *)

Section ZoneErrors.
Context {A : Arith}.

(** The exception the sound speed of zone [(i, j)] raises, if any (lines
    521 and 530): [math.sqrt] rejects a negative [gamma p / rho], and
    [0.5/(cs*cs)], a division of Python floats, rejects a zero divisor. *)
Definition zone_exn (gamma : num) (r p : array2) (i j : Z) : option exn :=
  if ltb (gamma * elt2 p i j / elt2 r i j)%num (lit 0)
  then Some (ValueError "math domain error")
  else if eqb (zone_cs gamma r p i j * zone_cs gamma r p i j)%num (lit 0)
       then Some ZeroDivisionError
       else None.

(** Zone [(i', j')] comes before zone [(i, j)] in the loops of lines
    508-610: [j] is the outer variable. *)
Definition zone_before (i' j' i j : Z) : Prop := j' < j \/ (j' = j /\ i' < i).

(** The cells that receive a left state: the targets of the visited
    zones. *)
Definition left_cells (idir : Z) (g : Grid2d) (k l : Z) : Prop :=
  if idir =? 1
  then ilo g - 1 <= k <= ihi g + 3 /\ jlo g - 2 <= l <= jhi g + 2
  else ilo g - 2 <= k <= ihi g + 2 /\ jlo g - 1 <= l <= jhi g + 3.

(** The state arrays [s] have the shape of the grid, and the cells that
    no zone of [D] writes are as in [s0]: the left states outside the
    targets of [D], the right states outside [D]. *)
Definition kept (idir : Z) (g : Grid2d) (s0 : array3 * array3)
           (D : Z -> Z -> Prop) (s : array3 * array3) : Prop :=
  (on_grid g 4 (fst s) /\ on_grid g 4 (snd s)) /\
  (forall k l m, (forall i j, D i j -> (k, l) <> left_target idir i j) ->
                 elt3 (fst s) k l m = elt3 (fst s0) k l m) /\
  (forall k l m, ~ D k l -> elt3 (snd s) k l m = elt3 (snd s0) k l m).

(** The arguments of [interfaceStates]: eight arrays over the padded
    grid. *)
Definition states_inputs (g : Grid2d)
           (r u v p ldelta_r ldelta_u ldelta_v ldelta_p : array2) : Prop :=
  on_grid2 g r /\ on_grid2 g u /\ on_grid2 g v /\ on_grid2 g p /\
  on_grid2 g ldelta_r /\ on_grid2 g ldelta_u /\
  on_grid2 g ldelta_v /\ on_grid2 g ldelta_p.
End ZoneErrors.

(** ** The eigensystem of [interfaceStates] *)

Section Eigenvectors.
Context {A : Arith}.

(** The Jacobian matrix [A] of the docstring of [interfaceStates] (lines
    459-466), for the density [r], the normal velocity [u] and the sound
    speed [c]. *)
Definition jacobian_x (r u c : num) : mat4 :=
  let z := lit 0 in
  {| r0 := {| c0 := u; c1 := r; c2 := z; c3 := z |};
     r1 := {| c0 := z; c1 := u; c2 := z; c3 := (lit 1 / r)%num |};
     r2 := {| c0 := z; c1 := z; c2 := u; c3 := z |};
     r3 := {| c0 := z; c1 := (r * (c * c))%num; c2 := z; c3 := u |} |}.

(** [M x] and [x M] for a vector [x]. *)
Definition mat_vec (M : mat4) (x : vec4) : vec4 :=
  build4 (fun m => dot4 (row M m) x).
Definition vec_mat (x : vec4) (M : mat4) : vec4 :=
  build4 (fun m => dot4 x (col M m)).

(** The velocity normal to the interfaces of a sweep: [u] in the x
    sweep, [v] otherwise. *)
Definition normal_velocity (idir : Z) (u v : array2) (i j : Z) : num :=
  if idir =? 1 then elt2 u i j else elt2 v i j.

(** The position of a primitive variable when [u] and [v] change
    places. *)
Definition swap_uv (k : Z) : Z := if k =? 1 then 2 else if k =? 2 then 1 else k.
End Eigenvectors.

(** ** [unsplitFluxes] and [fluxes] on grids with two ghost layers *)

Section Inputs.
Context {A : Arith}.

(** The arguments of [unsplitFluxes] and the store, on any grid: the data
    array [U0] of the grid, with the four conserved variables among its
    [nvar] variables, at the positions [kd], [kx], [ky], [ke]. *)
Definition unsplit_inputs (vs : vars.t) (U0 : array3) (kd kx ky ke : Z)
           (myData : CellCenterData2d) (w : world) : Prop :=
  grid_ok (grid myData) /\
  vars.ok vs /\ nvar myData = vars.nvar vs /\
  names_at myData kd kx ky ke /\
  heap w (data myData) = Some U0 /\ (data myData < next w)%nat /\
  on_grid (grid myData) (nvar myData) U0.

(** The arguments of [fluxes] and the store, on any grid. *)
Definition rk_inputs (ivars : vars.t) (U0 : array3)
           (my_data : CellCenterData2d) (w : world) : Prop :=
  grid_ok (grid my_data) /\
  vars.ok ivars /\ vars.nvar ivars <= nvar my_data /\
  (exists kd kx ky ke, names_at my_data kd kx ky ke) /\
  heap w (data my_data) = Some U0 /\ (data my_data < next w)%nat /\
  on_grid (grid my_data) (nvar my_data) U0.

(** Component [n] of an array of the grid, as an array of the grid's
    shape: what the view [a.v(n=n, buf=myg.ng)] shows. *)
Definition comp_of_grid (g : Grid2d) (a : array3) (n : Z) : array2 :=
  mk2 (qx g) (qy g) (fun i j => elt3 a i j n).
End Inputs.

(** ** multigrid/project_periodic.py: error *)

Section ProjectPeriodic.
Context {A : Arith}.

(** [numpy.sum] of a one-dimensional sequence.  numpy adds the elements
    pairwise, in an order of its own; the function is a parameter. *)
Variable np_sum : list num -> num.

(** [a.flat]: the elements in row-major order. *)
Definition flat (a : array2) : list num :=
  flat_map (fun i => map (fun j => elt2 a i j) (upto (cols a))) (upto (rows a)).

(** [error(myg, r)]: the L2 norm of the interior of [r]. *)
Definition error (myg : Grid2d) (r : array2) : num :=
  sqrt (dx myg * dy myg
        * np_sum (flat (map2 sq (slice2 r (ilo myg) (ihi myg + 1)
                                        (jlo myg) (jhi myg + 1)))))%num.
End ProjectPeriodic.

(** ** Sums along a row of cells *)

(** [f a + f (a+1) + ... + f (a+n-1)] in exact arithmetic. *)
Fixpoint run_sum (f : Z -> Q) (a : Z) (n : nat) : Q :=
  match n with
  | O => 0%Q
  | S n' => (f a + run_sum f (a + 1) n')%Q
  end.

(** ** Sample data for the worked instances *)

#[local] Existing Instance ExactArith.

(** A grid of 2 by 1 interior cells with three ghost layers, and one with
    two ghost layers. *)
Definition grid3 : @Grid2d ExactArith :=
  {| qx := 8; qy := 7; ng := 3; ilo := 3; ihi := 4; jlo := 3; jhi := 3;
     dx := 1 # 2; dy := 1 # 4 |}.

Definition grid2 : @Grid2d ExactArith :=
  {| qx := 6; qy := 5; ng := 2; ilo := 2; ihi := 3; jlo := 2; jhi := 2;
     dx := 1 # 2; dy := 1 # 4 |}.

(** An array whose element [(i, j, n)] is [a*i + b*j + c*n + d]. *)
Definition ramp3 (m n k a b c d : Z) : @array3 ExactArith :=
  mk3 m n k (fun i j l => inject_Z (a * i + b * j + c * l + d)).

Definition ramp2 (m n a b d : Z) : @array2 ExactArith :=
  mk2 m n (fun i j => inject_Z (a * i + b * j + d)).

Definition sample_faces (m n : Z) : @faces ExactArith :=
  {| U_xl := ramp3 m n 4 1 10 100 0; U_xr := ramp3 m n 4 2 10 100 1;
     U_yl := ramp3 m n 4 1 20 100 2; U_yr := ramp3 m n 4 3 10 200 3 |}.

(** A constant field. *)
Definition const2 (m n : Z) (c : Q) : @array2 ExactArith := mk2 m n (fun _ _ => c).

(** Stand-ins for the Fortran routines, for the worked instances: no
    flattening, central differences for the slopes, piecewise-linear
    interface states, and the mean of the Euler fluxes of the two states
    as the Riemann flux. *)
Definition sample_flatten (idir : Z) (p u : @array2 ExactArith) (m n k : Z)
           (sp d z0 z1 : Q) : @array2 ExactArith :=
  mk2 m n (fun _ _ => 1%Q).

Definition sample_flatten_multid (x y p : @array2 ExactArith) (m n k : Z)
  : @array2 ExactArith :=
  mk2 m n (fun i j => (elt2 x i j * elt2 y i j)%Q).

Definition sample_limit4 (idir : Z) (a : @array2 ExactArith) (m n k : Z)
  : @array2 ExactArith :=
  mk2 m n (fun i j =>
             if idir =? 1 then ((elt2 a (i + 1) j - elt2 a (i - 1) j) / 2)%Q
             else ((elt2 a i (j + 1) - elt2 a i (j - 1)) / 2)%Q).

Definition sample_states (idir m n k : Z) (h dt : Q) (nv : Z) (gamma : Q)
           (r u v p dr du dv dp : @array2 ExactArith)
  : @array3 ExactArith * @array3 ExactArith :=
  let V := fun i j c => nth4 (zone_V r u v p i j) c in
  let dV := fun i j c => nth4 (zone_dV dr du dv dp i j) c in
  (mk3 m n nv (fun i j c =>
                 let i0 := if idir =? 1 then i - 1 else i in
                 let j0 := if idir =? 1 then j else j - 1 in
                 (V i0 j0 c + (1 # 2) * dV i0 j0 c)%Q),
   mk3 m n nv (fun i j c => (V i j c - (1 # 2) * dV i j c)%Q)).

Definition euler_flux (idir i1 i2 i3 i4 : Z) (gamma : Q) (U : Z -> Q) (c : Z) : Q :=
  let d := U i1 in
  let mx := U i2 in
  let my := U i3 in
  let E := U i4 in
  let p := ((gamma - 1) * (E - (1 # 2) * (mx * mx + my * my) / d))%Q in
  let mn := if idir =? 1 then mx else my in
  (if c =? i1 then mn
   else if c =? i2 then mn * mx / d + (if idir =? 1 then p else 0)
   else if c =? i3 then mn * my / d + (if idir =? 1 then 0 else p)
   else (E + p) * mn / d)%Q.

Definition sample_riemann (idir m n k nv i1 i2 i3 i4 : Z) (gamma : Q)
           (Ul Ur : @array3 ExactArith) : @array3 ExactArith :=
  mk3 m n nv (fun i j c =>
                ((euler_flux idir i1 i2 i3 i4 gamma (elt3 Ul i j) c
                  + euler_flux idir i1 i2 i3 i4 gamma (elt3 Ur i j) c) / 2)%Q).

Definition sample_fortran : @Fortran ExactArith :=
  {| flatten := sample_flatten;
     flatten_multid := sample_flatten_multid;
     limit4 := sample_limit4;
     states := sample_states;
     riemann := sample_riemann |}.

(** A data object on [grid3]: a smooth state with positive density and
    pressure, in the store at location 0. *)
Definition sample_U0 : @array3 ExactArith :=
  mk3 8 7 4 (fun i j c =>
               if c =? 0 then (1 + inject_Z (i + j) / 10)%Q
               else if c =? 1 then (inject_Z i / 20)%Q
               else if c =? 2 then (inject_Z (- j) / 20)%Q
               else (5 # 2)%Q).

Definition sample_data : @CellCenterData2d ExactArith :=
  {| grid := grid3; data := 0%nat; nvar := 4;
     names := ["density"; "x-momentum"; "y-momentum"; "energy"]%string |}.

Definition sample_world : @world ExactArith :=
  {| heap := fun l => if Nat.eqb l 0 then Some sample_U0 else None;
     next := 1%nat; trace := [] |}.

(** A one-cell field in binary64. *)
Definition cell2 (c : float) : @array2 FloatArith := @mk2 FloatArith 1 1 (fun _ _ => c).

(** Stand-ins for the collaborators of [fluxes], for the worked
    instances: the gamma-law transforms, no flattening, central differences
    for the slopes, the mean of the two states as the flux of either
    solver, and a constant viscosity coefficient. *)
Definition sample_cons_to_prim (U : @array3 ExactArith) (gamma : Q) (ivars : vars.t)
           (g : @Grid2d ExactArith) : @array3 ExactArith :=
  mk3 (qx g) (qy g) (vars.nvar ivars)
      (fun i j c =>
         let d := elt3 U i j (vars.idens ivars) in
         let mx := elt3 U i j (vars.ixmom ivars) in
         let my := elt3 U i j (vars.iymom ivars) in
         let E := elt3 U i j (vars.iener ivars) in
         (if c =? vars.irho ivars then d
          else if c =? vars.iu ivars then mx / d
          else if c =? vars.iv ivars then my / d
          else (gamma - 1) * (E - (1 # 2) * (mx * mx + my * my) / d))%Q).

Definition sample_prim_to_cons (V : @array3 ExactArith) (gamma : Q) (ivars : vars.t)
           (g : @Grid2d ExactArith) : @array3 ExactArith :=
  mk3 (qx g) (qy g) (vars.nvar ivars)
      (fun i j c =>
         let r := elt3 V i j (vars.irho ivars) in
         let u := elt3 V i j (vars.iu ivars) in
         let v := elt3 V i j (vars.iv ivars) in
         let p := elt3 V i j (vars.ip ivars) in
         (if c =? vars.idens ivars then r
          else if c =? vars.ixmom ivars then r * u
          else if c =? vars.iymom ivars then r * v
          else p / (gamma - 1) + (1 # 2) * r * (u * u + v * v))%Q).

Definition sample_limit (a : @array2 ExactArith) (g : @Grid2d ExactArith)
           (idir limiter : Z) : @array2 ExactArith :=
  mk2 (qx g) (qy g)
      (fun i j =>
         if limiter =? 0 then 0%Q
         else if idir =? 1 then ((elt2 a (i + 1) j - elt2 a (i - 1) j) / 2)%Q
         else ((elt2 a i (j + 1) - elt2 a i (j - 1)) / 2)%Q).

Definition sample_solver (idir m n k nv i1 i2 i3 i4 lo hi : Z) (gamma : Q)
           (Ul Ur : @array3 ExactArith) : @array3 ExactArith :=
  mk3 m n nv (fun i j c => ((elt3 Ul i j c + elt3 Ur i j c) / 2)%Q).

Definition sample_collaborators : @Collaborators ExactArith :=
  {| cons_to_prim := sample_cons_to_prim;
     prim_to_cons := sample_prim_to_cons;
     reconstruction_flatten := fun g _ _ _ _ => const2 (qx g) (qy g) 1;
     reconstruction_flatten_multid := fun g _ _ _ _ => const2 (qx g) (qy g) 1;
     reconstruction_limit := sample_limit;
     riemann_hllc := sample_solver;
     riemann_cgf := sample_solver;
     artificial_viscosity := fun m n _ _ _ cvisc _ _ =>
                               (const2 m n cvisc, const2 m n cvisc) |}.

(** Run-time parameters naming a solver of the code, and naming one that
    it does not have. *)
Definition sample_rp : @RuntimeParameters ExactArith :=
  {| eos_gamma := 7 # 5; compressible_use_flattening := 1;
     compressible_limiter := 1; compressible_riemann := "HLLC";
     compressible_cvisc := 1 # 10 |}.

Definition sample_rp_roe : @RuntimeParameters ExactArith :=
  {| eos_gamma := 7 # 5; compressible_use_flattening := 1;
     compressible_limiter := 1; compressible_riemann := "Roe";
     compressible_cvisc := 1 # 10 |}.

Definition sample_solid : Solid := {| xl := 0; xr := 0; yl := 0; yr := 0 |}.

(** The element [(i, j, n)] of the array at location [l], if there is
    one. *)
Definition cell_of (w : @world ExactArith) (l : loc) (i j n : Z) : option Q :=
  match heap w l with
  | Some a => Some (elt3 a i j n)
  | None => None
  end.

(** ** Sample data in binary64 *)






(** ** Sample arguments of [interfaceStates] *)

(** A uniform density and pressure and sheared velocities on [grid3],
    with linear slopes. *)
Definition flat_r : @array2 ExactArith := const2 8 7 1.
Definition shear_u : @array2 ExactArith := ramp2 8 7 1 2 0.
Definition shear_v : @array2 ExactArith := ramp2 8 7 (-1) 1 3.
Definition flat_p : @array2 ExactArith := const2 8 7 1.
Definition slope_r : @array2 ExactArith := ramp2 8 7 1 0 0.
Definition slope_u : @array2 ExactArith := ramp2 8 7 0 1 0.
Definition slope_v : @array2 ExactArith := ramp2 8 7 1 1 0.
Definition slope_p : @array2 ExactArith := ramp2 8 7 2 1 1.

(** A negative pressure, and a zero pressure, everywhere. *)
Definition negative_p : @array2 ExactArith := const2 8 7 (-1).
Definition zero_p : @array2 ExactArith := const2 8 7 0.

(** The same state on [grid2]. *)
Definition flat_r2 : @array2 ExactArith := const2 6 5 1.
Definition shear_u2 : @array2 ExactArith := ramp2 6 5 1 2 0.
Definition shear_v2 : @array2 ExactArith := ramp2 6 5 (-1) 1 3.
Definition flat_p2 : @array2 ExactArith := const2 6 5 1.
Definition slope_r2 : @array2 ExactArith := ramp2 6 5 1 0 0.
Definition slope_u2 : @array2 ExactArith := ramp2 6 5 0 1 0.
Definition slope_v2 : @array2 ExactArith := ramp2 6 5 1 1 0.
Definition slope_p2 : @array2 ExactArith := ramp2 6 5 2 1 1.

(** ** A data object on the grid with two ghost layers *)

Definition sample_U0_2 : @array3 ExactArith :=
  mk3 6 5 4 (fun i j c =>
               if c =? 0 then (1 + inject_Z (i + j) / 10)%Q
               else if c =? 1 then (inject_Z i / 20)%Q
               else if c =? 2 then (inject_Z (- j) / 20)%Q
               else (5 # 2)%Q).

Definition sample_data_2 : @CellCenterData2d ExactArith :=
  {| grid := grid2; data := 0%nat; nvar := 4;
     names := ["density"; "x-momentum"; "y-momentum"; "energy"]%string |}.

Definition sample_world_2 : @world ExactArith :=
  {| heap := fun l => if Nat.eqb l 0 then Some sample_U0_2 else None;
     next := 1%nat; trace := [] |}.

(** ** Sample arguments of [error] *)

(** Left-to-right summation, and two residuals on [grid3] that differ in
    the ghost cells only. *)
Definition sum_list (l : list Q) : Q := fold_left Qplus l 0%Q.

Definition residual_a : @array2 ExactArith := ramp2 8 7 1 2 0.

Definition residual_b : @array2 ExactArith :=
  mk2 8 7 (fun i j => if (3 <=? i) && (i <=? 4) && (j =? 3)
                      then inject_Z (1 * i + 2 * j + 0) else 100%Q).

(** ** A data object without an energy variable *)

Definition sample_data_short : @CellCenterData2d ExactArith :=
  {| grid := grid3; data := 0%nat; nvar := 4;
     names := ["density"; "x-momentum"; "y-momentum"; "pressure"]%string |}.

(** A one-cell field in binary64 that holds a NaN. *)
Definition nan_cell : @array2 FloatArith := cell2 PrimFloat.nan.

(** * Proofs *)

(** ** Indexing and loops *)

Lemma py_index_plain (n k : Z) : 0 <= k < n -> py_index n k = Ok k.
Proof.
  intros H. unfold py_index.
  destruct (Z.leb_spec 0 k); destruct (Z.ltb_spec k n); simpl; try lia.
  reflexivity.
Qed.

Lemma py_index_wraps (n k : Z) : - n <= k < 0 -> py_index n k = Ok (k + n).
Proof.
  intros H. unfold py_index.
  destruct (Z.leb_spec 0 k); simpl; try lia.
  destruct (Z.leb_spec (- n) k); destruct (Z.ltb_spec k 0); simpl; try lia.
  reflexivity.
Qed.

Lemma py_index_past (n k : Z) : 0 <= n <= k -> py_index n k = Raise IndexError.
Proof.
  intros H. unfold py_index.
  destruct (Z.ltb_spec k n); try lia. rewrite andb_false_r.
  destruct (Z.ltb_spec k 0); try lia. rewrite andb_false_r. reflexivity.
Qed.

Section ArrayFacts.
Context {A : Arith}.

Lemma get3_plain (a : array3) (i j n : Z) :
  0 <= i < dim0 a -> 0 <= j < dim1 a -> 0 <= n < dim2 a ->
  get3 a i j n = Ok (elt3 a i j n).
Proof.
  intros Hi Hj Hn. unfold get3.
  rewrite !py_index_plain by assumption. reflexivity.
Qed.

Lemma set3_plain (a : array3) (i j n : Z) (x : num) :
  0 <= i < dim0 a -> 0 <= j < dim1 a -> 0 <= n < dim2 a ->
  set3 a i j n x = Ok (upd3 a i j n x).
Proof.
  intros Hi Hj Hn. unfold set3.
  rewrite !py_index_plain by assumption. reflexivity.
Qed.

Lemma upd3_same (a : array3) (i j n : Z) (x : num) :
  elt3 (upd3 a i j n x) i j n = x.
Proof. simpl. rewrite !Z.eqb_refl. reflexivity. Qed.

Lemma upd3_other (a : array3) (i j n i' j' n' : Z) (x : num) :
  (i', j', n') <> (i, j, n) ->
  elt3 (upd3 a i j n x) i' j' n' = elt3 a i' j' n'.
Proof.
  intros H. simpl.
  destruct (Z.eqb_spec i' i); destruct (Z.eqb_spec j' j);
    destruct (Z.eqb_spec n' n); simpl; try reflexivity.
  subst. contradiction H. reflexivity.
Qed.
End ArrayFacts.

Section LoopFacts.
Context {S : Type}.
Variable body : Z -> S -> result S.
Variable Inv : Z -> S -> Prop.

Lemma iterate_inv (lo0 hi : Z) :
  (forall i s, lo0 <= i <= hi -> Inv i s ->
               exists s', body i s = Ok s' /\ Inv (i + 1) s') ->
  forall fuel lo s,
    lo0 <= lo -> Z.of_nat fuel = hi + 1 - lo -> Inv lo s ->
    exists s', iterate body fuel lo s = Ok s' /\ Inv (hi + 1) s'.
Proof.
  intros Hstep. induction fuel as [|fuel IH]; intros lo s Hlo Hf Hinv.
  - simpl. exists s. split; [reflexivity|].
    replace (hi + 1) with lo by lia. exact Hinv.
  - destruct (Hstep lo s) as [s1 [E1 I1]]; [lia|exact Hinv|].
    simpl. rewrite E1. simpl. apply IH; [lia|lia|exact I1].
Qed.

(** A loop whose body keeps an invariant runs to its end and establishes
    the invariant there. *)
Lemma while_le_inv (lo hi : Z) (s : S) :
  lo <= hi + 1 -> Inv lo s ->
  (forall i s, lo <= i <= hi -> Inv i s ->
               exists s', body i s = Ok s' /\ Inv (i + 1) s') ->
  exists s', while_le body lo hi s = Ok s' /\ Inv (hi + 1) s'.
Proof.
  intros Hle Hinv Hstep. unfold while_le.
  apply (iterate_inv lo hi Hstep); [lia|lia|exact Hinv].
Qed.
End LoopFacts.

(** ** The transverse correction (unsplitFluxes.py, lines 375-398) *)

Section TransverseFacts.
Context {A : Arith}.
Variables (g : Grid2d) (dt : num) (nvar : Z) (F_x F_y : array3) (s0 : faces).
Hypothesis Hg : grid_ok g.
Hypothesis Hng : 3 <= ng g.
Hypothesis Hnvar : 0 <= nvar.
Hypothesis HFx : on_grid g nvar F_x.
Hypothesis HFy : on_grid g nvar F_y.

Local Abbreviation progress := (progress g dt F_x F_y s0 nvar).

Lemma progress_ext (D D' : Z -> Z -> Z -> Prop) (s : faces) :
  (forall i j n, D i j n <-> D' i j n) -> progress D s -> progress D' s.
Proof.
  intros E [Hs H]. split; [exact Hs|]. intros i j n.
  destruct (H i j n) as [H1 H2]. split; intros H'.
  - apply H1, E, H'.
  - apply H2. intros HD. apply H', E, HD.
Qed.

(** One execution of the loop body corrects its cell and no other. *)
Lemma correct_cell_progress (D : Z -> Z -> Z -> Prop) (i j n : Z) (s : faces) :
  visited g i j -> 0 <= n < nvar -> ~ D i j n -> progress D s ->
  exists s', correct_cell g dt F_x F_y i j n s = Ok s' /\
             progress (fun i' j' n' => D i' j' n' \/ (i', j', n') = (i, j, n)) s'.
Proof.
  intros [Hi Hj] Hn HD [Hs H].
  destruct Hg as (G0 & G1 & G2 & G3 & G4 & G5 & G6).
  destruct HFx as (X0 & X1 & X2). destruct HFy as (Y0 & Y1 & Y2).
  destruct Hs as ((a0 & a1 & a2) & (b0 & b1 & b2) & (c0 & c1 & c2) & (d0 & d1 & d2)).
  destruct (H i j n) as [_ Hu]. destruct (Hu HD) as (u1 & u2 & u3 & u4).
  unfold correct_cell.
  repeat (first [rewrite get3_plain by lia | rewrite set3_plain by lia];
          cbn [rbind]).
  eexists. split; [reflexivity|].
  split.
  - repeat split; simpl; lia.
  - intros i' j' n'.
    destruct (H i' j' n') as [Hc' Hu'].
    assert (Hdec : (i', j', n') = (i, j, n) \/ (i', j', n') <> (i, j, n)).
    { destruct (Z.eq_dec i' i); destruct (Z.eq_dec j' j); destruct (Z.eq_dec n' n);
        try (right; congruence). left; congruence. }
    split.
    + intros HD'. destruct Hdec as [E|NE].
      * inversion E; subst i' j' n'.
        unfold corrected_at. cbn [U_xl U_xr U_yl U_yr].
        rewrite !upd3_same, u1, u2, u3, u4. repeat split.
      * destruct HD' as [HD'|E]; [|contradiction].
        unfold corrected_at. cbn [U_xl U_xr U_yl U_yr].
        rewrite !upd3_other by assumption. apply Hc', HD'.
    + intros HD'. assert (NE : (i', j', n') <> (i, j, n)) by tauto.
      unfold untouched_at. cbn [U_xl U_xr U_yl U_yr].
      rewrite !upd3_other by assumption. apply Hu'. tauto.
Qed.

(** The innermost loop corrects every component of its cell. *)
Lemma component_loop_progress (D : Z -> Z -> Z -> Prop) (i j : Z) (s : faces) :
  visited g i j -> (forall n, ~ D i j n) -> progress D s ->
  exists s',
    while_le (fun n => correct_cell g dt F_x F_y i j n) 0 (nvar - 1) s = Ok s' /\
    progress (fun i' j' n' => D i' j' n' \/ (i' = i /\ j' = j /\ 0 <= n' < nvar)) s'.
Proof.
  intros Hv HD Hp.
  destruct (while_le_inv
              (fun n => correct_cell g dt F_x F_y i j n)
              (fun N => progress (fun i' j' n' =>
                                    D i' j' n' \/ (i' = i /\ j' = j /\ 0 <= n' < N)))
              0 (nvar - 1) s) as [s' [E H]].
  - lia.
  - revert Hp. apply progress_ext. intros; split; [tauto|].
    intros [H|H]; [exact H|lia].
  - intros n s1 Hn H1.
    assert (Hn' : 0 <= n < nvar) by lia.
    assert (Hfresh : ~ (D i j n \/ (i = i /\ j = j /\ 0 <= n < n))).
    { intros [H|H]; [exact (HD n H)|lia]. }
    destruct (correct_cell_progress _ i j n s1 Hv Hn' Hfresh H1) as [s2 [E2 H2]].
    exists s2. split; [exact E2|]. revert H2. apply progress_ext.
      intros i' j' n'. split.
      * intros [[H|H]|H]; [tauto|right; lia|inversion H; right; lia].
      * intros [H|H]; [tauto|].
        destruct (Z.eq_dec n' n); [right; f_equal; [f_equal|]; lia|left; right; lia].
  - exists s'. split; [exact E|]. revert H. apply progress_ext.
    intros; split; (intros [H|H]; [tauto|right; lia]).
Qed.

(** The middle loop corrects every cell of its row. *)
Lemma row_loop_progress (D : Z -> Z -> Z -> Prop) (j : Z) (s : faces) :
  jlo g - 2 <= j <= jhi g + 2 -> (forall i n, ~ D i j n) -> progress D s ->
  exists s',
    while_le (fun i => while_le (fun n => correct_cell g dt F_x F_y i j n) 0 (nvar - 1))
             (ilo g - 2) (ihi g + 2) s = Ok s' /\
    progress (fun i' j' n' =>
                D i' j' n' \/ (j' = j /\ ilo g - 2 <= i' <= ihi g + 2 /\ 0 <= n' < nvar)) s'.
Proof.
  intros Hj HD Hp.
  assert (Hlen : ilo g <= ihi g) by (destruct Hg; tauto).
  destruct (while_le_inv
              (fun i => while_le (fun n => correct_cell g dt F_x F_y i j n) 0 (nvar - 1))
              (fun I => progress (fun i' j' n' =>
                 D i' j' n' \/ (j' = j /\ ilo g - 2 <= i' < I /\ 0 <= n' < nvar)))
              (ilo g - 2) (ihi g + 2) s) as [s' [E H]].
  - lia.
  - revert Hp. apply progress_ext. intros; split; [tauto|].
    intros [H|H]; [exact H|lia].
  - intros i s1 Hi H1.
    assert (Hv : visited g i j) by (split; assumption).
    assert (Hfresh : forall n, ~ (D i j n \/
               (j = j /\ ilo g - 2 <= i < i /\ 0 <= n < nvar))).
    { intros n [H|H]; [exact (HD i n H)|lia]. }
    destruct (component_loop_progress _ i j s1 Hv Hfresh H1) as [s2 [E2 H2]].
    exists s2. split; [exact E2|]. revert H2. apply progress_ext.
      intros i' j' n'. split.
      * intros [[H|H]|H]; [tauto|right; lia|right; lia].
      * intros [H|H]; [tauto|].
        destruct (Z.eq_dec i' i); [right; lia|left; right; lia].
  - exists s'. split; [exact E|]. revert H. apply progress_ext.
    intros; split; (intros [H|H]; [tauto|right; lia]).
Qed.

(** The whole loop corrects every visited cell. *)
Lemma transverse_progress :
  faces_on_grid g nvar s0 ->
  exists s',
    transverse g dt nvar F_x F_y s0 = Ok s' /\
    progress (fun i j n => visited g i j /\ 0 <= n < nvar) s'.
Proof.
  intros Hs.
  assert (Hlen : jlo g <= jhi g) by (destruct Hg; tauto).
  unfold transverse.
  destruct (while_le_inv
              (fun j => while_le (fun i => while_le
                 (fun n => correct_cell g dt F_x F_y i j n) 0 (nvar - 1))
                 (ilo g - 2) (ihi g + 2))
              (fun J => progress (fun i' j' n' =>
                 ilo g - 2 <= i' <= ihi g + 2 /\ jlo g - 2 <= j' < J /\ 0 <= n' < nvar))
              (jlo g - 2) (jhi g + 2) s0) as [s' [E H]].
  - lia.
  - split; [exact Hs|]. intros i j n. split; [lia|].
    intros _. repeat split.
  - intros j s1 Hj H1.
    assert (Hfresh : forall i n, ~ (ilo g - 2 <= i <= ihi g + 2 /\
               jlo g - 2 <= j < j /\ 0 <= n < nvar)) by (intros; lia).
    destruct (row_loop_progress _ j s1 Hj Hfresh H1) as [s2 [E2 H2]].
    exists s2. split; [exact E2|]. revert H2. apply progress_ext.
      intros i' j' n'. split; [lia|].
      intros H. destruct (Z.eq_dec j' j); [right; lia|left; lia].
  - exists s'. split; [exact E|]. revert H. apply progress_ext.
    unfold visited. intros; lia.
Qed.
End TransverseFacts.

(** C1. On a grid with at least three ghost layers the correction loop of
    [unsplitFluxes] runs to its end, and for every cell [(i, j)] with
    [ilo-2 <= i <= ihi+2] and [jlo-2 <= j <= jhi+2] and every component
    [n] it has subtracted from [U_xl], [U_xr], [U_yl] and [U_yr] exactly
    [0.5*dt/dy*(F_y[i-1,j+1,n] - F_y[i-1,j,n])],
    [0.5*dt/dy*(F_y[i,j+1,n] - F_y[i,j,n])],
    [0.5*dt/dx*(F_x[i+1,j-1,n] - F_x[i,j-1,n])] and
    [0.5*dt/dx*(F_x[i+1,j,n] - F_x[i,j,n])]. *)
Theorem transverse_correction_formulas
        {A : Arith} (g : Grid2d) (dt : num) (nvar : Z) (F_x F_y : array3) (s0 : faces) :
  grid_ok g -> 3 <= ng g -> 0 <= nvar ->
  on_grid g nvar F_x -> on_grid g nvar F_y -> faces_on_grid g nvar s0 ->
  exists s',
    transverse g dt nvar F_x F_y s0 = Ok s' /\
    forall i j n,
      ilo g - 2 <= i <= ihi g + 2 -> jlo g - 2 <= j <= jhi g + 2 -> 0 <= n < nvar ->
      elt3 (U_xl s') i j n
      = (elt3 (U_xl s0) i j n
         - lit (1 # 2) * dt / dy g * (elt3 F_y (i - 1) (j + 1) n - elt3 F_y (i - 1) j n))%num /\
      elt3 (U_xr s') i j n
      = (elt3 (U_xr s0) i j n
         - lit (1 # 2) * dt / dy g * (elt3 F_y i (j + 1) n - elt3 F_y i j n))%num /\
      elt3 (U_yl s') i j n
      = (elt3 (U_yl s0) i j n
         - lit (1 # 2) * dt / dx g * (elt3 F_x (i + 1) (j - 1) n - elt3 F_x i (j - 1) n))%num /\
      elt3 (U_yr s') i j n
      = (elt3 (U_yr s0) i j n
         - lit (1 # 2) * dt / dx g * (elt3 F_x (i + 1) j n - elt3 F_x i j n))%num.
Proof.
  intros Hg Hng Hnvar HFx HFy Hs.
  destruct (transverse_progress g dt nvar F_x F_y s0 Hg Hng Hnvar HFx HFy Hs)
    as [s' [E [_ H]]].
  exists s'. split; [exact E|].
  intros i j n Hi Hj Hn.
  destruct (H i j n) as [Hc _].
  apply Hc. split; [split; assumption|assumption].
Qed.

Lemma transverse_correction_formulas_witness :
  exists s',
    transverse grid3 (1 # 10) 4 (ramp3 8 7 4 1 2 3 4) (ramp3 8 7 4 5 (-1) 2 0)
               (sample_faces 8 7) = Ok s' /\
    forall i j n,
      ilo grid3 - 2 <= i <= ihi grid3 + 2 -> jlo grid3 - 2 <= j <= jhi grid3 + 2 ->
      0 <= n < 4 ->
      elt3 (U_xl s') i j n
      = (elt3 (U_xl (sample_faces 8 7)) i j n
         - lit (1 # 2) * (1 # 10) / dy grid3
           * (elt3 (ramp3 8 7 4 5 (-1) 2 0) (i - 1) (j + 1) n
              - elt3 (ramp3 8 7 4 5 (-1) 2 0) (i - 1) j n))%num /\
      elt3 (U_xr s') i j n
      = (elt3 (U_xr (sample_faces 8 7)) i j n
         - lit (1 # 2) * (1 # 10) / dy grid3
           * (elt3 (ramp3 8 7 4 5 (-1) 2 0) i (j + 1) n
              - elt3 (ramp3 8 7 4 5 (-1) 2 0) i j n))%num /\
      elt3 (U_yl s') i j n
      = (elt3 (U_yl (sample_faces 8 7)) i j n
         - lit (1 # 2) * (1 # 10) / dx grid3
           * (elt3 (ramp3 8 7 4 1 2 3 4) (i + 1) (j - 1) n
              - elt3 (ramp3 8 7 4 1 2 3 4) i (j - 1) n))%num /\
      elt3 (U_yr s') i j n
      = (elt3 (U_yr (sample_faces 8 7)) i j n
         - lit (1 # 2) * (1 # 10) / dx grid3
           * (elt3 (ramp3 8 7 4 1 2 3 4) (i + 1) j n
              - elt3 (ramp3 8 7 4 1 2 3 4) i j n))%num.
Proof.
  apply (transverse_correction_formulas (A := ExactArith) grid3).
  - unfold grid_ok; simpl; lia.
  - simpl; lia.
  - lia.
  - unfold on_grid; simpl; lia.
  - unfold on_grid; simpl; lia.
  - unfold faces_on_grid, on_grid; simpl; lia.
Defined.

(** ** The index range of the correction loop *)

Lemma py_index_valid (n k : Z) :
  - n <= k < n -> exists k', py_index n k = Ok k' /\ 0 <= k' < n.
Proof.
  intros H. destruct (Z_lt_le_dec k 0).
  - exists (k + n). rewrite py_index_wraps by lia. split; [reflexivity|lia].
  - exists k. rewrite py_index_plain by lia. split; [reflexivity|lia].
Qed.

Section LoopRaises.
Context {S : Type}.
Variable body : Z -> S -> result S.
Variable Inv : S -> Prop.
Variables (lo0 k : Z) (e : exn).
Hypothesis before : forall i s, lo0 <= i < k -> Inv s ->
                                exists s', body i s = Ok s' /\ Inv s'.
Hypothesis at_k : forall s, Inv s -> body k s = Raise e.

Lemma iterate_raises :
  forall fuel lo s,
    lo0 <= lo <= k -> k - lo < Z.of_nat fuel -> Inv s ->
    iterate body fuel lo s = Raise e.
Proof.
  induction fuel as [|fuel IH]; intros lo s Hlo Hf Hinv; [lia|].
  simpl. destruct (Z.eq_dec lo k) as [->|Hne].
  - rewrite at_k by assumption. reflexivity.
  - destruct (before lo s) as [s1 [E1 I1]]; [lia|assumption|].
    rewrite E1. simpl. apply IH; [lia|lia|assumption].
Qed.

(** A loop whose body raises at iteration [k], after iterations that
    succeed, raises. *)
Lemma while_le_raises (hi : Z) (s : S) :
  lo0 <= k <= hi -> Inv s -> while_le body lo0 hi s = Raise e.
Proof.
  intros Hk Hinv. unfold while_le. apply iterate_raises; [lia|lia|assumption].
Qed.
End LoopRaises.

Section TransverseRaises.
Context {A : Arith}.
Variables (g : Grid2d) (dt : num) (nvar : Z) (F_x F_y : array3).
Hypothesis Hg : grid_ok g.
Hypothesis HFx : on_grid g nvar F_x.
Hypothesis HFy : on_grid g nvar F_y.

Lemma get3_valid (a : array3) (i j n : Z) :
  - dim0 a <= i < dim0 a -> - dim1 a <= j < dim1 a -> - dim2 a <= n < dim2 a ->
  exists x, get3 a i j n = Ok x.
Proof.
  intros Hi Hj Hn. unfold get3.
  destruct (py_index_valid _ _ Hi) as [i' [-> _]].
  destruct (py_index_valid _ _ Hj) as [j' [-> _]].
  destruct (py_index_valid _ _ Hn) as [n' [-> _]].
  simpl. eexists. reflexivity.
Qed.

Lemma set3_valid (a : array3) (i j n : Z) (x : num) :
  - dim0 a <= i < dim0 a -> - dim1 a <= j < dim1 a -> - dim2 a <= n < dim2 a ->
  exists a', set3 a i j n x = Ok a' /\
             dim0 a' = dim0 a /\ dim1 a' = dim1 a /\ dim2 a' = dim2 a.
Proof.
  intros Hi Hj Hn. unfold set3.
  destruct (py_index_valid _ _ Hi) as [i' [-> _]].
  destruct (py_index_valid _ _ Hj) as [j' [-> _]].
  destruct (py_index_valid _ _ Hn) as [n' [-> _]].
  simpl. eexists. split; [reflexivity|]. simpl. auto.
Qed.

Lemma get3_past0 (a : array3) (i j n : Z) :
  0 <= dim0 a <= i -> get3 a i j n = Raise IndexError.
Proof. intros H. unfold get3. rewrite py_index_past by assumption. reflexivity. Qed.

Ltac read_ok :=
  match goal with
  | |- context [get3 ?a ?i ?j ?n] =>
    let x := fresh "x" in let E := fresh "E" in
    destruct (get3_valid a i j n) as [x E]; [lia|lia|lia|]; rewrite E; cbn [rbind]
  end.

Ltac write_ok :=
  match goal with
  | |- context [set3 ?a ?i ?j ?n ?x] =>
    let a' := fresh "a" in let E := fresh "E" in
    let d0 := fresh "d" in let d1 := fresh "d" in let d2 := fresh "d" in
    destruct (set3_valid a i j n x) as [a' [E [d0 [d1 d2]]]]; [lia|lia|lia|];
    rewrite E; cbn [rbind]
  end.

(** The body succeeds wherever Python accepts all its indices. *)
Lemma correct_cell_succeeds (i j n : Z) (s : faces) :
  - qx g <= i - 1 -> i + 1 < qx g -> - qy g <= j - 1 -> j + 1 < qy g ->
  0 <= n < nvar -> faces_on_grid g nvar s ->
  exists s', correct_cell g dt F_x F_y i j n s = Ok s' /\ faces_on_grid g nvar s'.
Proof.
  intros Hi0 Hi1 Hj0 Hj1 Hn Hs.
  destruct HFx as (X0 & X1 & X2). destruct HFy as (Y0 & Y1 & Y2).
  destruct Hs as ((a0 & a1 & a2) & (b0 & b1 & b2) & (c0 & c1 & c2) & (d0 & d1 & d2)).
  unfold correct_cell.
  do 3 read_ok. write_ok. do 3 read_ok. write_ok.
  do 3 read_ok. write_ok. do 3 read_ok. write_ok.
  eexists. split; [reflexivity|].
  unfold faces_on_grid, on_grid. simpl. lia.
Qed.

(** At the last column of a grid with two ghost layers the statement for
    [U_yl] reads [F_x[qx, ...]]. *)
Lemma correct_cell_raises (j n : Z) (s : faces) :
  ng g = 2 -> - qy g <= j - 1 -> j + 1 < qy g ->
  0 <= n < nvar -> faces_on_grid g nvar s ->
  correct_cell g dt F_x F_y (ihi g + 2) j n s = Raise IndexError.
Proof.
  intros Hng Hj0 Hj1 Hn Hs.
  destruct Hg as (G0 & G1 & G2 & G3 & G4 & G5 & G6).
  destruct HFx as (X0 & X1 & X2). destruct HFy as (Y0 & Y1 & Y2).
  destruct Hs as ((a0 & a1 & a2) & (b0 & b1 & b2) & (c0 & c1 & c2) & (d0 & d1 & d2)).
  unfold correct_cell.
  do 3 read_ok. write_ok. do 3 read_ok. write_ok. read_ok.
  rewrite get3_past0 by lia. reflexivity.
Qed.

(** With two ghost layers the loop ends in an [IndexError], in its first
    row. *)
Lemma transverse_raises (s : faces) :
  ng g = 2 -> 0 < nvar -> faces_on_grid g nvar s ->
  transverse g dt nvar F_x F_y s = Raise IndexError.
Proof.
  intros Hng Hnvar Hs.
  pose proof Hg as (G0 & G1 & G2 & G3 & G4 & G5 & G6).
  unfold transverse.
  apply while_le_raises with (Inv := faces_on_grid g nvar) (k := jlo g - 2);
    [lia| |lia|exact Hs].
  intros s1 H1.
  apply while_le_raises with (Inv := faces_on_grid g nvar) (k := ihi g + 2);
    [| |lia|exact H1].
  - intros i s2 Hi H2.
    destruct (while_le_inv (fun n => correct_cell g dt F_x F_y i (jlo g - 2) n)
                           (fun _ => faces_on_grid g nvar) 0 (nvar - 1) s2)
      as [s3 [E3 H3]]; [lia|exact H2| |exists s3; split; assumption].
    intros n s4 Hn H4. apply correct_cell_succeeds; try lia. exact H4.
  - intros s2 H2.
    apply while_le_raises with (Inv := faces_on_grid g nvar) (k := 0);
      [lia| |lia|exact H2].
    intros s3 H3. apply correct_cell_raises; try lia. exact H3.
Qed.
End TransverseRaises.

(** ** The subscripts of the transverse correction *)

Section TracedFacts.
Context {S : Type}.

Lemma tbind_snd {T U : Type} (m : traced T) (k : T -> traced U) (k' : T -> result U) :
  (forall x, snd (k x) = k' x) -> snd (tbind m k) = rbind (snd m) k'.
Proof.
  intros H. destruct m as [l [x|e]]; simpl; [|reflexivity].
  rewrite <- H. destruct (k x). reflexivity.
Qed.

Lemma tbind_prefix {T U : Type} (m : traced T) (k : T -> traced U)
      (p r : list access) :
  fst m = p ++ r -> exists r', fst (tbind m k) = p ++ r'.
Proof.
  intros H. destruct m as [l [x|e]]; simpl in *; subst l.
  - destruct (k x) as [l' r']. exists (r ++ l'). simpl.
    rewrite app_assoc. reflexivity.
  - exists r. reflexivity.
Qed.

Lemma iterate_ext (body body' : Z -> S -> result S) :
  (forall i s, body i s = body' i s) ->
  forall fuel i s, iterate body fuel i s = iterate body' fuel i s.
Proof.
  intros H. induction fuel as [|fuel IH]; intros i s; simpl; [reflexivity|].
  rewrite H. destruct (body' i s); simpl; [apply IH|reflexivity].
Qed.

Lemma while_le_ext (body body' : Z -> S -> result S) (lo hi : Z) (s : S) :
  (forall i s, body i s = body' i s) ->
  while_le body lo hi s = while_le body' lo hi s.
Proof. intros H. unfold while_le. apply iterate_ext. exact H. Qed.

Variable body : Z -> S -> traced S.

Lemma iterate_traced_snd (fuel : nat) :
  forall i s, snd (iterate_traced body fuel i s)
              = iterate (fun i s => snd (body i s)) fuel i s.
Proof.
  induction fuel as [|fuel IH]; intros i s; simpl; [reflexivity|].
  apply tbind_snd. intros x. apply IH.
Qed.

(** Without its subscripts a traced loop is the loop. *)
Lemma while_le_traced_snd (lo hi : Z) (s : S) :
  snd (while_le_traced body lo hi s) = while_le (fun i s => snd (body i s)) lo hi s.
Proof. unfold while_le_traced, while_le. apply iterate_traced_snd. Qed.

(** The subscripts of a loop start with those of its first iteration. *)
Lemma while_le_traced_prefix (lo hi : Z) (s : S) (p r : list access) :
  lo <= hi -> fst (body lo s) = p ++ r ->
  exists r', fst (while_le_traced body lo hi s) = p ++ r'.
Proof.
  intros Hle H. unfold while_le_traced.
  destruct (Z.to_nat (hi + 1 - lo)) as [|fuel] eqn:E; [lia|].
  simpl. apply tbind_prefix with (r := r). exact H.
Qed.

Variable Inv : S -> Prop.
Variable PL : list access -> Prop.
Hypothesis PL_nil : PL [].
Hypothesis PL_app : forall l1 l2, PL l1 -> PL l2 -> PL (l1 ++ l2).

Lemma iterate_traced_inv (lo0 hi : Z) :
  (forall i s, lo0 <= i <= hi -> Inv s ->
               exists l s', body i s = (l, Ok s') /\ Inv s' /\ PL l) ->
  forall fuel lo s,
    lo0 <= lo -> Z.of_nat fuel = hi + 1 - lo -> Inv s ->
    exists l s', iterate_traced body fuel lo s = (l, Ok s') /\ Inv s' /\ PL l.
Proof.
  intros Hstep. induction fuel as [|fuel IH]; intros lo s Hlo Hf Hinv.
  - simpl. exists [], s. auto.
  - destruct (Hstep lo s) as (l1 & s1 & E1 & I1 & P1); [lia|exact Hinv|].
    destruct (IH (lo + 1) s1) as (l2 & s2 & E2 & I2 & P2); [lia|lia|exact I1|].
    simpl. rewrite E1. simpl. rewrite E2.
    exists (l1 ++ l2), s2. auto.
Qed.

(** A traced loop whose body keeps an invariant runs to its end, and its
    subscripts are those of its iterations. *)
Lemma while_le_traced_inv (lo hi : Z) (s : S) :
  lo <= hi + 1 -> Inv s ->
  (forall i s, lo <= i <= hi -> Inv s ->
               exists l s', body i s = (l, Ok s') /\ Inv s' /\ PL l) ->
  exists l s', while_le_traced body lo hi s = (l, Ok s') /\ Inv s' /\ PL l.
Proof.
  intros Hle Hinv Hstep. unfold while_le_traced.
  apply (iterate_traced_inv lo hi Hstep); [lia|lia|exact Hinv].
Qed.

Variable Q : list access -> Prop.
Hypothesis Q_app : forall l1 l2, PL l1 -> Q l2 -> Q (l1 ++ l2).
Variables (lo0 k : Z) (e : exn).
Hypothesis before : forall i s, lo0 <= i < k -> Inv s ->
                                exists l s', body i s = (l, Ok s') /\ Inv s' /\ PL l.
Hypothesis at_k : forall s, Inv s -> exists l, body k s = (l, Raise e) /\ Q l.

Lemma iterate_traced_raises :
  forall fuel lo s,
    lo0 <= lo <= k -> k - lo < Z.of_nat fuel -> Inv s ->
    exists l, iterate_traced body fuel lo s = (l, Raise e) /\ Q l.
Proof.
  induction fuel as [|fuel IH]; intros lo s Hlo Hf Hinv; [lia|].
  simpl. destruct (Z.eq_dec lo k) as [->|Hne].
  - destruct (at_k s Hinv) as (l & E & HQ). rewrite E. simpl.
    exists l. auto.
  - destruct (before lo s) as (l1 & s1 & E1 & I1 & P1); [lia|assumption|].
    destruct (IH (lo + 1) s1) as (l2 & E2 & Q2); [lia|lia|assumption|].
    rewrite E1. simpl. rewrite E2.
    exists (l1 ++ l2). auto.
Qed.

(** A traced loop whose body raises at iteration [k], after iterations
    that succeed, raises there: its subscripts are those of the iterations
    before [k] followed by those of iteration [k]. *)
Lemma while_le_traced_raises (hi : Z) (s : S) :
  lo0 <= k <= hi -> Inv s ->
  exists l, while_le_traced body lo0 hi s = (l, Raise e) /\ Q l.
Proof.
  intros Hk Hinv. unfold while_le_traced.
  apply iterate_traced_raises; [lia|lia|assumption].
Qed.
End TracedFacts.

Section SubscriptFacts.
Context {A : Arith}.
Variables (g : Grid2d) (dt : num) (nvar : Z) (F_x F_y : array3).
Hypothesis Hg : grid_ok g.
Hypothesis HFx : on_grid g nvar F_x.
Hypothesis HFy : on_grid g nvar F_y.

(** Without its subscripts the traced body is the body of the loop. *)
Lemma correct_cell_accesses_result (i j n : Z) (s : faces) :
  snd (correct_cell_accesses g dt F_x F_y i j n s) = correct_cell g dt F_x F_y i j n s.
Proof.
  unfold correct_cell_accesses, correct_cell.
  do 16 (apply tbind_snd; intros ?). reflexivity.
Qed.

(** Without its subscripts the traced loop is the loop of lines 375-398. *)
Lemma transverse_accesses_result (s : faces) :
  snd (transverse_accesses g dt nvar F_x F_y s) = transverse g dt nvar F_x F_y s.
Proof.
  unfold transverse_accesses, transverse.
  rewrite while_le_traced_snd. apply while_le_ext. intros j s1.
  rewrite while_le_traced_snd. apply while_le_ext. intros i s2.
  rewrite while_le_traced_snd. apply while_le_ext. intros n s3.
  apply correct_cell_accesses_result.
Qed.

Ltac read_at_ok :=
  match goal with
  | |- context [get3 ?a ?i ?j ?n] =>
    let x := fresh "x" in let E := fresh "E" in
    destruct (get3_valid a i j n) as [x E]; [lia|lia|lia|];
    rewrite E; cbn [tbind app]
  end.

Ltac write_at_ok :=
  match goal with
  | |- context [set3 ?a ?i ?j ?n ?x] =>
    let a' := fresh "a" in let E := fresh "E" in
    let d0 := fresh "d" in let d1 := fresh "d" in let d2 := fresh "d" in
    destruct (set3_valid a i j n x) as [a' [E [d0 [d1 d2]]]]; [lia|lia|lia|];
    rewrite E; cbn [tbind app]
  end.

Ltac each_access :=
  repeat match goal with
         | |- Forall _ (_ :: _) => constructor; [cbn; lia|]
         | |- Forall _ [] => constructor
         end.

(** The traced body succeeds wherever Python accepts all its indices, and
    its subscripts lie within one cell of [(i, j)]. *)
Lemma correct_cell_accesses_ok (i j n : Z) (s : faces) :
  - qx g <= i - 1 -> i + 1 < qx g -> - qy g <= j - 1 -> j + 1 < qy g ->
  0 <= n < nvar -> faces_on_grid g nvar s ->
  exists l s',
    correct_cell_accesses g dt F_x F_y i j n s = (l, Ok s') /\
    faces_on_grid g nvar s' /\
    Forall (fun a => i - 1 <= acc_i a <= i + 1 /\ j - 1 <= acc_j a <= j + 1) l.
Proof.
  intros Hi0 Hi1 Hj0 Hj1 Hn Hs.
  destruct HFx as (X0 & X1 & X2). destruct HFy as (Y0 & Y1 & Y2).
  destruct Hs as ((a0 & a1 & a2) & (b0 & b1 & b2) & (c0 & c1 & c2) & (d0 & d1 & d2)).
  unfold correct_cell_accesses, get3_at, set3_at. cbn [tbind].
  repeat first [read_at_ok | write_at_ok].
  eexists. eexists. split; [reflexivity|]. split.
  - unfold faces_on_grid, on_grid. simpl. lia.
  - each_access.
Qed.

(** At the last column of a grid with two ghost layers the body stops at
    the subscript [F_x[ihi+3, j-1, n]]. *)
Lemma correct_cell_accesses_raise (j n : Z) (s : faces) :
  ng g = 2 -> - qy g <= j - 1 -> j + 1 < qy g ->
  0 <= n < nvar -> faces_on_grid g nvar s ->
  exists l,
    correct_cell_accesses g dt F_x F_y (ihi g + 2) j n s = (l, Raise IndexError) /\
    Forall (fun a => j - 1 <= acc_j a <= j + 1) l /\
    exists before,
      l = before ++ [{| acc_array := in_F_x; acc_i := ihi g + 3;
                        acc_j := j - 1; acc_n := n |}].
Proof.
  intros Hng Hj0 Hj1 Hn Hs.
  destruct Hg as (G0 & G1 & G2 & G3 & G4 & G5 & G6).
  destruct HFx as (X0 & X1 & X2). destruct HFy as (Y0 & Y1 & Y2).
  destruct Hs as ((a0 & a1 & a2) & (b0 & b1 & b2) & (c0 & c1 & c2) & (d0 & d1 & d2)).
  unfold correct_cell_accesses, get3_at, set3_at. cbn [tbind].
  repeat first [read_at_ok | write_at_ok].
  rewrite (get3_past0 F_x (ihi g + 2 + 1)) by lia. cbn [tbind app].
  replace (ihi g + 2 + 1) with (ihi g + 3) by lia.
  eexists. split; [reflexivity|]. split.
  - each_access.
  - eexists (_ :: _ :: _ :: _ :: _ :: _ :: _ :: _ :: _ :: []). reflexivity.
Qed.

(** The first subscript of the body is [U_xl[i, j, n]]; when Python
    accepts it, the second is [F_y[i-1, j+1, n]]. *)
Lemma correct_cell_accesses_first (i j n : Z) (s : faces) :
  exists r,
    fst (correct_cell_accesses g dt F_x F_y i j n s)
    = [{| acc_array := in_U_xl; acc_i := i; acc_j := j; acc_n := n |}] ++ r.
Proof.
  unfold correct_cell_accesses.
  apply tbind_prefix with (r := []). reflexivity.
Qed.

Lemma correct_cell_accesses_second (i j n : Z) (s : faces) (x : num) :
  get3 (U_xl s) i j n = Ok x ->
  exists r,
    fst (correct_cell_accesses g dt F_x F_y i j n s)
    = [{| acc_array := in_U_xl; acc_i := i; acc_j := j; acc_n := n |};
       {| acc_array := in_F_y; acc_i := i - 1; acc_j := j + 1; acc_n := n |}] ++ r.
Proof.
  intros E. unfold correct_cell_accesses.
  unfold get3_at at 1. rewrite E. unfold tbind at 1.
  match goal with
  | |- context [tbind ?m ?k] =>
    destruct (tbind_prefix m k
                [{| acc_array := in_F_y; acc_i := i - 1; acc_j := j + 1; acc_n := n |}]
                [] eq_refl) as [r' Hr];
    destruct (tbind m k) as [l' r0]
  end.
  simpl in Hr. subst l'. exists r'. reflexivity.
Qed.
End SubscriptFacts.

Section SubscriptRuns.
Context {A : Arith}.
Variables (g : Grid2d) (dt : num) (nvar : Z) (F_x F_y : array3).
Hypothesis Hg : grid_ok g.
Hypothesis Hnvar : 0 < nvar.
Hypothesis HFx : on_grid g nvar F_x.
Hypothesis HFy : on_grid g nvar F_y.

(** With three ghost layers the traced loop runs to its end, and every
    subscript addresses the arrays as it stands. *)
Lemma transverse_accesses_returns (s : faces) :
  3 <= ng g -> faces_on_grid g nvar s ->
  exists l s',
    transverse_accesses g dt nvar F_x F_y s = (l, Ok s') /\
    faces_on_grid g nvar s' /\ Forall (plain_access g) l.
Proof.
  intros Hng Hs.
  pose proof Hg as (G0 & G1 & G2 & G3 & G4 & G5 & G6).
  unfold transverse_accesses.
  apply while_le_traced_inv;
    [constructor|intros; apply Forall_app; auto|lia|exact Hs|].
  intros j s1 Hj H1.
  apply while_le_traced_inv;
    [constructor|intros; apply Forall_app; auto|lia|exact H1|].
  intros i s2 Hi H2.
  apply while_le_traced_inv;
    [constructor|intros; apply Forall_app; auto|lia|exact H2|].
  intros n s3 Hn H3.
  destruct (correct_cell_accesses_ok g dt nvar F_x F_y HFx HFy i j n s3)
    as (l & s4 & E & H4 & Hl); try lia; [exact H3|].
  exists l, s4. split; [exact E|]. split; [exact H4|].
  eapply Forall_impl; [|exact Hl].
  intros a Ha. unfold plain_access. cbv beta in Ha. lia.
Qed.

(** With two ghost layers the traced loop stops in its first row, at the
    subscript [F_x[ihi+3, jlo-3, 0]]. *)
Lemma transverse_accesses_raises (s : faces) :
  ng g = 2 -> faces_on_grid g nvar s ->
  exists l,
    transverse_accesses g dt nvar F_x F_y s = (l, Raise IndexError) /\
    Forall (fun a => jlo g - 3 <= acc_j a <= jlo g - 1) l /\
    exists before,
      l = before ++ [{| acc_array := in_F_x; acc_i := ihi g + 3;
                        acc_j := jlo g - 3; acc_n := 0 |}].
Proof.
  intros Hng Hs.
  pose proof Hg as (G0 & G1 & G2 & G3 & G4 & G5 & G6).
  set (Pj := fun a : access => jlo g - 3 <= acc_j a <= jlo g - 1).
  set (x := {| acc_array := in_F_x; acc_i := ihi g + 3;
               acc_j := jlo g - 3; acc_n := 0 |}).
  set (Q := fun l : list access => Forall Pj l /\ exists before, l = before ++ [x]).
  assert (Q_app : forall l1 l2, Forall Pj l1 -> Q l2 -> Q (l1 ++ l2)).
  { intros l1 l2 H1 [H2 [b ->]]. split.
    - apply Forall_app. auto.
    - exists (l1 ++ b). rewrite app_assoc. reflexivity. }
  unfold transverse_accesses.
  apply (while_le_traced_raises _ (faces_on_grid g nvar) (Forall Pj) Q Q_app
           (jlo g - 2) (jlo g - 2) IndexError); [lia| |lia|exact Hs].
  intros s1 H1.
  apply (while_le_traced_raises _ (faces_on_grid g nvar) (Forall Pj) Q Q_app
           (ilo g - 2) (ihi g + 2) IndexError); [| |lia|exact H1].
  - intros i s2 Hi H2.
    apply while_le_traced_inv;
      [constructor|intros; apply Forall_app; auto|lia|exact H2|].
    intros n s3 Hn H3.
    destruct (correct_cell_accesses_ok g dt nvar F_x F_y HFx HFy i (jlo g - 2) n s3)
      as (l & s4 & E & H4 & Hl); try lia; [exact H3|].
    exists l, s4. split; [exact E|]. split; [exact H4|].
    eapply Forall_impl; [|exact Hl].
    intros a Ha. unfold Pj. cbv beta in Ha. lia.
  - intros s2 H2.
    apply (while_le_traced_raises _ (faces_on_grid g nvar) (Forall Pj) Q Q_app
             0 0 IndexError); [lia| |lia|exact H2].
    intros s3 H3.
    destruct (correct_cell_accesses_raise g dt nvar F_x F_y Hg HFx HFy (jlo g - 2) 0 s3)
      as (l & E & Hl & b & Hb); try lia; [exact H3|].
    exists l. split; [exact E|]. split.
    + eapply Forall_impl; [|exact Hl].
      intros a Ha. unfold Pj. cbv beta in Ha. lia.
    + exists b. rewrite Hb. unfold x.
      replace (jlo g - 2 - 1) with (jlo g - 3) by lia. reflexivity.
Qed.

(** The run starts with the subscript [U_xl[ilo-2, jlo-2, 0]]; when
    Python accepts it, [F_y[ilo-3, jlo-1, 0]] is next. *)
Lemma transverse_accesses_first (s : faces) :
  exists r,
    fst (transverse_accesses g dt nvar F_x F_y s)
    = [{| acc_array := in_U_xl; acc_i := ilo g - 2; acc_j := jlo g - 2;
          acc_n := 0 |}] ++ r.
Proof.
  pose proof Hg as (G0 & G1 & G2 & G3 & G4 & G5 & G6).
  destruct (correct_cell_accesses_first g dt F_x F_y (ilo g - 2) (jlo g - 2) 0 s)
    as [r0 H0].
  destruct (while_le_traced_prefix
              (fun n => correct_cell_accesses g dt F_x F_y (ilo g - 2) (jlo g - 2) n)
              0 (nvar - 1) s _ r0 ltac:(lia) H0) as [r1 H1].
  destruct (while_le_traced_prefix
              (fun i => while_le_traced
                          (fun n => correct_cell_accesses g dt F_x F_y i (jlo g - 2) n)
                          0 (nvar - 1))
              (ilo g - 2) (ihi g + 2) s _ r1 ltac:(lia) H1) as [r2 H2].
  unfold transverse_accesses.
  apply while_le_traced_prefix with (r := r2); [lia|exact H2].
Qed.

Lemma transverse_accesses_second (s : faces) (x : num) :
  get3 (U_xl s) (ilo g - 2) (jlo g - 2) 0 = Ok x ->
  exists r,
    fst (transverse_accesses g dt nvar F_x F_y s)
    = [{| acc_array := in_U_xl; acc_i := ilo g - 2; acc_j := jlo g - 2;
          acc_n := 0 |};
       {| acc_array := in_F_y; acc_i := ilo g - 2 - 1; acc_j := jlo g - 2 + 1;
          acc_n := 0 |}] ++ r.
Proof.
  intros E.
  pose proof Hg as (G0 & G1 & G2 & G3 & G4 & G5 & G6).
  destruct (correct_cell_accesses_second g dt F_x F_y (ilo g - 2) (jlo g - 2) 0 s x E)
    as [r0 H0].
  destruct (while_le_traced_prefix
              (fun n => correct_cell_accesses g dt F_x F_y (ilo g - 2) (jlo g - 2) n)
              0 (nvar - 1) s _ r0 ltac:(lia) H0) as [r1 H1].
  destruct (while_le_traced_prefix
              (fun i => while_le_traced
                          (fun n => correct_cell_accesses g dt F_x F_y i (jlo g - 2) n)
                          0 (nvar - 1))
              (ilo g - 2) (ihi g + 2) s _ r1 ltac:(lia) H1) as [r2 H2].
  unfold transverse_accesses.
  apply while_le_traced_prefix with (r := r2); [lia|exact H2].
Qed.
End SubscriptRuns.

(** C7, as amended.  On a grid with two ghost layers the correction loop
    leaves the flux arrays and ends in an [IndexError], in its first row
    [j = jlo-2]: its second subscript, [F_y[ilo-3, jlo-1, 0]], has the
    first index [-1], which Python resolves to [qx-1], the opposite edge;
    its last subscript, [F_x[ihi+3, jlo-3, 0]] of the cell [i = ihi+2], has
    the first index [qx], which Python rejects.  Every subscript of the run
    has its second index within [jlo-3..jlo-1], so [F_y[., jhi+3]] is never
    evaluated.  The subscripts of a run all address the arrays as they
    stand, in range and without wrapping, exactly when the grid has at
    least three ghost layers, and then the loop returns. *)
Theorem transverse_index_bounds {A : Arith} (g : Grid2d) (dt : num) (nvar : Z)
        (F_x F_y : array3) (s : faces) :
  grid_ok g -> 0 < nvar ->
  on_grid g nvar F_x -> on_grid g nvar F_y -> faces_on_grid g nvar s ->
  let run := transverse_accesses g dt nvar F_x F_y s in
  snd run = transverse g dt nvar F_x F_y s /\
  (ng g = 2 ->
   transverse g dt nvar F_x F_y s = Raise IndexError /\
   (exists rest,
       fst run
       = {| acc_array := in_U_xl; acc_i := ilo g - 2; acc_j := jlo g - 2; acc_n := 0 |}
           :: {| acc_array := in_F_y; acc_i := ilo g - 3; acc_j := jlo g - 1;
                 acc_n := 0 |}
           :: rest) /\
   ilo g - 3 = -1 /\
   get3 F_y (ilo g - 3) (jlo g - 1) 0 = Ok (elt3 F_y (qx g - 1) (jlo g - 1) 0) /\
   (exists before,
       fst run
       = before ++ [{| acc_array := in_F_x; acc_i := ihi g + 3; acc_j := jlo g - 3;
                       acc_n := 0 |}]) /\
   ihi g + 3 = qx g /\
   get3 F_x (ihi g + 3) (jlo g - 3) 0 = Raise IndexError /\
   (forall a, In a (fst run) -> jlo g - 3 <= acc_j a <= jlo g - 1) /\
   (forall i n, ~ In {| acc_array := in_F_y; acc_i := i; acc_j := jhi g + 3;
                        acc_n := n |} (fst run))) /\
  (Forall (plain_access g) (fst run) <-> 3 <= ng g) /\
  (3 <= ng g -> exists s', transverse g dt nvar F_x F_y s = Ok s').
Proof.
  intros Hg Hnvar HFx HFy Hs run.
  pose proof Hg as (G0 & G1 & G2 & G3 & G4 & G5 & G6).
  pose proof HFx as (X0 & X1 & X2). pose proof HFy as (Y0 & Y1 & Y2).
  pose proof Hs as ((a0 & a1 & a2) & _).
  assert (Hrun : snd run = transverse g dt nvar F_x F_y s)
    by apply transverse_accesses_result.
  split; [exact Hrun|]. split; [|split].
  - intros Hng.
    destruct (transverse_accesses_raises g dt nvar F_x F_y Hg Hnvar HFx HFy s Hng Hs)
      as (l & E & Hl & b & Hb).
    assert (Hfst : fst run = l) by (unfold run; rewrite E; reflexivity).
    assert (Hj : forall a, In a (fst run) -> jlo g - 3 <= acc_j a <= jlo g - 1).
    { intros a Ha. rewrite Hfst in Ha.
      exact (proj1 (Forall_forall _ l) Hl a Ha). }
    split; [rewrite <- Hrun; unfold run; rewrite E; reflexivity|].
    split.
    { destruct (get3_valid (U_xl s) (ilo g - 2) (jlo g - 2) 0) as [x Ex];
        [lia|lia|lia|].
      destruct (transverse_accesses_second g dt nvar F_x F_y Hg Hnvar s x Ex)
        as [r Hr].
      exists r. fold run in Hr. rewrite Hr.
      replace (ilo g - 2 - 1) with (ilo g - 3) by lia.
      replace (jlo g - 2 + 1) with (jlo g - 1) by lia. reflexivity. }
    split; [lia|]. split.
    { unfold get3.
      replace (ilo g - 3) with (-1) by lia.
      rewrite py_index_wraps by lia. rewrite !py_index_plain by lia.
      cbn [rbind]. replace (-1 + dim0 F_y) with (qx g - 1) by lia. reflexivity. }
    split; [exists b; rewrite Hfst; exact Hb|].
    split; [lia|]. split; [apply get3_past0; lia|].
    split; [exact Hj|].
    intros i n Hin. specialize (Hj _ Hin). cbn [acc_j] in Hj. lia.
  - split.
    + intros Hall.
      destruct (Z.le_gt_cases 3 (ng g)) as [H3|H3]; [exact H3|exfalso].
      destruct (Z.eq_dec (ng g) 2) as [H2|H2].
      * destruct (get3_valid (U_xl s) (ilo g - 2) (jlo g - 2) 0) as [x Ex];
          [lia|lia|lia|].
        destruct (transverse_accesses_second g dt nvar F_x F_y Hg Hnvar s x Ex)
          as [r Hr].
        fold run in Hr. rewrite Hr in Hall.
        inversion Hall as [|? ? _ Hrest]. inversion Hrest as [|? ? Hbad _].
        unfold plain_access in Hbad. cbn [acc_i acc_j] in Hbad. lia.
      * destruct (transverse_accesses_first g dt nvar F_x F_y Hg Hnvar s) as [r Hr].
        fold run in Hr. rewrite Hr in Hall.
        inversion Hall as [|? ? Hbad _].
        unfold plain_access in Hbad. cbn [acc_i acc_j] in Hbad. lia.
    + intros Hng.
      destruct (transverse_accesses_returns g dt nvar F_x F_y Hg Hnvar HFx HFy s Hng Hs)
        as (l & s' & E & _ & Hl).
      unfold run. rewrite E. exact Hl.
  - intros Hng.
    destruct (transverse_accesses_returns g dt nvar F_x F_y Hg Hnvar HFx HFy s Hng Hs)
      as (l & s' & E & _ & _).
    exists s'. rewrite <- Hrun. unfold run. rewrite E. reflexivity.
Qed.

Lemma transverse_index_bounds_witness :
  let g := grid2 in
  let F_x := ramp3 6 5 4 1 2 3 4 in
  let F_y := ramp3 6 5 4 5 (-1) 2 0 in
  let s := sample_faces 6 5 in
  let run := transverse_accesses g (1 # 10) 4 F_x F_y s in
  snd run = transverse g (1 # 10) 4 F_x F_y s /\
  (ng g = 2 ->
   transverse g (1 # 10) 4 F_x F_y s = Raise IndexError /\
   (exists rest,
       fst run
       = {| acc_array := in_U_xl; acc_i := ilo g - 2; acc_j := jlo g - 2; acc_n := 0 |}
           :: {| acc_array := in_F_y; acc_i := ilo g - 3; acc_j := jlo g - 1;
                 acc_n := 0 |}
           :: rest) /\
   ilo g - 3 = -1 /\
   get3 F_y (ilo g - 3) (jlo g - 1) 0 = Ok (elt3 F_y (qx g - 1) (jlo g - 1) 0) /\
   (exists before,
       fst run
       = before ++ [{| acc_array := in_F_x; acc_i := ihi g + 3; acc_j := jlo g - 3;
                       acc_n := 0 |}]) /\
   ihi g + 3 = qx g /\
   get3 F_x (ihi g + 3) (jlo g - 3) 0 = Raise IndexError /\
   (forall a, In a (fst run) -> jlo g - 3 <= acc_j a <= jlo g - 1) /\
   (forall i n, ~ In {| acc_array := in_F_y; acc_i := i; acc_j := jhi g + 3;
                        acc_n := n |} (fst run))) /\
  (Forall (plain_access g) (fst run) <-> 3 <= ng g) /\
  (3 <= ng g -> exists s', transverse g (1 # 10) 4 F_x F_y s = Ok s').
Proof.
  apply (transverse_index_bounds (A := ExactArith) grid2 (1 # 10) 4
           (ramp3 6 5 4 1 2 3 4) (ramp3 6 5 4 5 (-1) 2 0) (sample_faces 6 5)).
  - unfold grid_ok; simpl; lia.
  - lia.
  - unfold on_grid; simpl; lia.
  - unfold on_grid; simpl; lia.
  - unfold faces_on_grid, on_grid; simpl; lia.
Defined.

(** C7, as stated, on the sample grid with two ghost layers: the run ends
    in an [IndexError] at the subscript [F_x[6, -1, 0]], after 330
    subscripts that all belong to the first row [j = jlo-2 = 0]; none has
    the second index [jhi+3 = qy], so the read of [F_y[., jhi+3]] at
    [j = jhi+2] does not take place. *)
Lemma transverse_last_row_counterexample :
  let run := transverse_accesses grid2 (1 # 10) 4 (ramp3 6 5 4 1 2 3 4)
                                 (ramp3 6 5 4 5 (-1) 2 0) (sample_faces 6 5) in
  ng grid2 = 2 /\
  jhi grid2 + 3 = qy grid2 /\
  snd run = Raise IndexError /\
  hd_error (rev (fst run))
  = Some {| acc_array := in_F_x; acc_i := 6; acc_j := -1; acc_n := 0 |} /\
  List.length (fst run) = 330%nat /\
  forallb (fun a => acc_j a <=? jlo grid2 - 1) (fst run) = true /\
  existsb (fun a => acc_j a =? jhi grid2 + 3) (fst run) = false.
Proof. vm_compute. repeat split. Qed.

(** The run the theorem describes, on the sample grid with two ghost
    layers. *)
Example transverse_grid2_run :
  transverse grid2 (1 # 10) 4 (ramp3 6 5 4 1 2 3 4) (ramp3 6 5 4 5 (-1) 2 0)
             (sample_faces 6 5) = Raise IndexError.
Proof. vm_compute. reflexivity. Qed.

(** ** interfaceStates *)

Section PredictorFacts.
Context {A : Arith}.

Lemma get2_plain (a : array2) (i j : Z) :
  0 <= i < rows a -> 0 <= j < cols a -> get2 a i j = Ok (elt2 a i j).
Proof.
  intros Hi Hj. unfold get2. rewrite !py_index_plain by assumption. reflexivity.
Qed.

Lemma set_cell_plain (a : array3) (i j : Z) (x : vec4) :
  0 <= i < dim0 a -> 0 <= j < dim1 a -> dim2 a = 4 ->
  set_cell a i j x
  = Ok (mk3 (dim0 a) (dim1 a) (dim2 a)
            (fun k l m => if (k =? i) && (l =? j) then nth4 x m else elt3 a k l m)).
Proof.
  intros Hi Hj Hn. unfold set_cell.
  rewrite !py_index_plain by assumption. cbn [rbind].
  rewrite Hn. reflexivity.
Qed.

Lemma upd3_other_cell (a : array3) (i j n k l m : Z) (x : num) :
  (k, l) <> (i, j) -> elt3 (upd3 a i j n x) k l m = elt3 a k l m.
Proof. intros H. apply upd3_other. intros E. apply H. congruence. Qed.

Lemma eigensystem_analytic (idir : Z) (gamma r u v p : num) :
  ltb (gamma * p / r)%num (lit 0) = false ->
  eqb (sqrt (gamma * p / r) * sqrt (gamma * p / r))%num (lit 0) = false ->
  eigensystem idir gamma r u v p
  = Ok (analytic_eigen idir (sqrt (gamma * p / r)%num) r u v).
Proof.
  intros H1 H2. unfold eigensystem, py_sqrt, py_fdiv.
  rewrite H1. cbn [rbind]. rewrite H2. cbn [rbind].
  unfold analytic_eigen. destruct (idir =? 1); reflexivity.
Qed.

(** The four [+=] statements of lines 594-605. *)
Lemma bump_loop (Vl Vr : array3) (il jl i j : Z) (f h : Z -> num) :
  0 <= il < dim0 Vl -> 0 <= jl < dim1 Vl -> dim2 Vl = 4 ->
  0 <= i < dim0 Vr -> 0 <= j < dim1 Vr -> dim2 Vr = 4 ->
  exists Vl' Vr',
    while_le
      (fun m '(V_l, V_r) =>
         a <- get3 V_l il jl m ;;
         V_l <- set3 V_l il jl m (a + f m)%num ;;
         b <- get3 V_r i j m ;;
         V_r <- set3 V_r i j m (b + h m)%num ;;
         Ok (V_l, V_r))
      0 3 (Vl, Vr) = Ok (Vl', Vr') /\
    (dim0 Vl' = dim0 Vl /\ dim1 Vl' = dim1 Vl /\ dim2 Vl' = dim2 Vl) /\
    (dim0 Vr' = dim0 Vr /\ dim1 Vr' = dim1 Vr /\ dim2 Vr' = dim2 Vr) /\
    (forall m, 0 <= m < 4 ->
               elt3 Vl' il jl m = (elt3 Vl il jl m + f m)%num /\
               elt3 Vr' i j m = (elt3 Vr i j m + h m)%num) /\
    (forall k l m, (k, l) <> (il, jl) -> elt3 Vl' k l m = elt3 Vl k l m) /\
    (forall k l m, (k, l) <> (i, j) -> elt3 Vr' k l m = elt3 Vr k l m).
Proof.
  intros Hil Hjl Hl Hi Hj Hr.
  unfold while_le. change (Z.to_nat (3 + 1 - 0)) with 4%nat.
  cbn [iterate].
  repeat (first [rewrite get3_plain by (cbn [dim0 dim1 dim2 upd3]; lia)
                |rewrite set3_plain by (cbn [dim0 dim1 dim2 upd3]; lia)];
          cbn [rbind]).
  do 2 eexists. split; [reflexivity|].
  split; [cbn; auto|]. split; [cbn; auto|].
  split; [|split].
  - intros m Hm.
    assert (Hc : m = 0 \/ m = 1 \/ m = 2 \/ m = 3) by lia.
    destruct Hc as [ -> | [ -> | [ -> | -> ] ] ]; cbn [elt3 upd3];
      rewrite !Z.eqb_refl; cbn; split; reflexivity.
  - intros k l m H. rewrite !upd3_other_cell by assumption. reflexivity.
  - intros k l m H. rewrite !upd3_other_cell by assumption. reflexivity.
Qed.
End PredictorFacts.

Section PredictorLoop.
Context {A : Arith}.
Variables (idir : Z) (g : Grid2d) (dtdx gamma : num).
Variables (r u v p ldelta_r ldelta_u ldelta_v ldelta_p : array2).
Hypothesis Hg : grid_ok g.
Hypothesis Hng : 3 <= ng g.
Hypothesis Hr : on_grid2 g r.
Hypothesis Hu : on_grid2 g u.
Hypothesis Hv : on_grid2 g v.
Hypothesis Hp : on_grid2 g p.
Hypothesis Hdr : on_grid2 g ldelta_r.
Hypothesis Hdu : on_grid2 g ldelta_u.
Hypothesis Hdv : on_grid2 g ldelta_v.
Hypothesis Hdp : on_grid2 g ldelta_p.

Local Abbreviation zV := (zone_V r u v p).
Local Abbreviation zdV := (zone_dV ldelta_r ldelta_u ldelta_v ldelta_p).
Local Abbreviation zE := (zone_eigen gamma r u v p idir).
Local Abbreviation sound := (zone_sound gamma r p).
Local Abbreviation predicted :=
  (predicted gamma r u v p ldelta_r ldelta_u ldelta_v ldelta_p idir dtdx g).
Local Abbreviation zone :=
  (states_zone idir dtdx gamma r u v p ldelta_r ldelta_u ldelta_v ldelta_p).

Lemma predicted_left_code (E : eigen) (V dV : vec4) (m : Z) :
  0 <= m < 4 ->
  (nth4 (axpy V (factor_l dtdx E) dV) m
   + dot4 (betal (lit (1 # 4) * dtdx) E dV) (col (rvec E) m))%num
  = predicted_left dtdx E V dV m.
Proof.
  intros Hm. assert (Hc : m = 0 \/ m = 1 \/ m = 2 \/ m = 3) by lia.
  destruct Hc as [ -> | [ -> | [ -> | -> ] ] ]; reflexivity.
Qed.

Lemma predicted_right_code (E : eigen) (V dV : vec4) (m : Z) :
  0 <= m < 4 ->
  (nth4 (axmy V (factor_r dtdx E) dV) m
   + dot4 (betar (lit (1 # 4) * dtdx) E dV) (col (rvec E) m))%num
  = predicted_right dtdx E V dV m.
Proof.
  intros Hm. assert (Hc : m = 0 \/ m = 1 \/ m = 2 \/ m = 3) by lia.
  destruct Hc as [ -> | [ -> | [ -> | -> ] ] ]; reflexivity.
Qed.

Lemma left_target_plain (i j : Z) :
  visited g i j ->
  0 <= fst (left_target idir i j) < qx g /\ 0 <= snd (left_target idir i j) < qy g.
Proof.
  intros [Hi Hj]. destruct Hg as (G0 & G1 & G2 & G3 & G4 & G5 & G6).
  unfold left_target. destruct (idir =? 1); simpl; lia.
Qed.

Lemma left_target_inj (i j i' j' : Z) :
  left_target idir i j = left_target idir i' j' -> (i, j) = (i', j').
Proof.
  unfold left_target. destruct (idir =? 1); intros H; inversion H; f_equal; lia.
Qed.

(** One zone: its two states are written, all others are kept. *)
Lemma states_zone_step (i j : Z) (s : array3 * array3) :
  visited g i j -> sound i j ->
  on_grid g 4 (fst s) -> on_grid g 4 (snd s) ->
  exists s',
    zone i j s = Ok s' /\
    on_grid g 4 (fst s') /\ on_grid g 4 (snd s') /\
    (forall m, 0 <= m < 4 ->
       elt3 (fst s') (fst (left_target idir i j)) (snd (left_target idir i j)) m
       = predicted_left dtdx (zE i j) (zV i j) (zdV i j) m /\
       elt3 (snd s') i j m
       = predicted_right dtdx (zE i j) (zV i j) (zdV i j) m) /\
    (forall k l m, (k, l) <> left_target idir i j ->
                   elt3 (fst s') k l m = elt3 (fst s) k l m) /\
    (forall k l m, (k, l) <> (i, j) -> elt3 (snd s') k l m = elt3 (snd s) k l m).
Proof.
  intros Hvis [S1 S2] Hl Hrr. destruct s as [Vl Vr]. simpl in Hl, Hrr.
  pose proof (left_target_plain i j Hvis) as [T1 T2].
  destruct Hvis as [Hi Hj].
  destruct Hg as (G0 & G1 & G2 & G3 & G4 & G5 & G6).
  destruct Hr as [? ?], Hu as [? ?], Hv as [? ?], Hp as [? ?].
  destruct Hdr as [? ?], Hdu as [? ?], Hdv as [? ?], Hdp as [? ?].
  destruct Hl as (l0 & l1 & l2). destruct Hrr as (q0 & q1 & q2).
  unfold states_zone.
  rewrite !get2_plain by lia. cbn [rbind].
  rewrite eigensystem_analytic by assumption. cbn [rbind].
  destruct (left_target idir i j) as [il jl] eqn:T. simpl in T1, T2.
  rewrite !set_cell_plain by lia. cbn [rbind].
  match goal with
  | |- context [while_le _ 0 3 (?a, ?b)] =>
    destruct (bump_loop a b il jl i j
                (fun m => dot4 (betal (lit (1 # 4) * dtdx)%num
                                      (analytic_eigen idir (zone_cs gamma r p i j)
                                         (elt2 r i j) (elt2 u i j) (elt2 v i j))
                                      (zdV i j))
                               (col (rvec (analytic_eigen idir (zone_cs gamma r p i j)
                                         (elt2 r i j) (elt2 u i j) (elt2 v i j))) m))
                (fun m => dot4 (betar (lit (1 # 4) * dtdx)%num
                                      (analytic_eigen idir (zone_cs gamma r p i j)
                                         (elt2 r i j) (elt2 u i j) (elt2 v i j))
                                      (zdV i j))
                               (col (rvec (analytic_eigen idir (zone_cs gamma r p i j)
                                         (elt2 r i j) (elt2 u i j) (elt2 v i j))) m)))
      as (Vl' & Vr' & E & (e0 & e1 & e2) & (f0 & f1 & f2) & Hnew & Hol & Hor);
      try (cbn [dim0 dim1 dim2]; lia)
  end.
  exists (Vl', Vr'). split; [exact E|].
  cbn [dim0 dim1 dim2] in e0, e1, e2, f0, f1, f2.
  split; [unfold on_grid; cbn [fst]; lia|].
  split; [unfold on_grid; cbn [snd]; lia|].
  cbn [fst snd]. split; [|split].
  - intros m Hm. destruct (Hnew m Hm) as [N1 N2].
    rewrite N1, N2. cbn [elt3]. rewrite !Z.eqb_refl. cbn [andb].
    split.
    + apply predicted_left_code. exact Hm.
    + apply predicted_right_code. exact Hm.
  - intros k l m Hne. rewrite Hol by assumption. cbn [elt3].
    destruct (Z.eqb_spec k il); destruct (Z.eqb_spec l jl); cbn [andb];
      try reflexivity.
    subst. contradiction Hne. reflexivity.
  - intros k l m Hne. rewrite Hor by assumption. cbn [elt3].
    destruct (Z.eqb_spec k i); destruct (Z.eqb_spec l j); cbn [andb];
      try reflexivity.
    subst. contradiction Hne. reflexivity.
Qed.

Lemma predicted_ext (D D' : Z -> Z -> Prop) (s : array3 * array3) :
  (forall i j, D' i j -> D i j) -> predicted D s -> predicted D' s.
Proof.
  intros E (H1 & H2 & H). split; [exact H1|]. split; [exact H2|].
  intros i j m HD Hm. apply H; [apply E; exact HD|exact Hm].
Qed.

Lemma predicted_step (D : Z -> Z -> Prop) (i j : Z) (s : array3 * array3) :
  visited g i j -> sound i j -> predicted D s ->
  exists s', zone i j s = Ok s' /\
             predicted (fun i' j' => D i' j' \/ (i', j') = (i, j)) s'.
Proof.
  intros Hvis Hs (H1 & H2 & H).
  destruct (states_zone_step i j s Hvis Hs H1 H2)
    as (s' & E & G1 & G2 & Hnew & Hl & Hrr).
  exists s'. split; [exact E|]. split; [exact G1|]. split; [exact G2|].
  intros i' j' m HD Hm.
  assert (Hdec : (i', j') = (i, j) \/ (i', j') <> (i, j)).
  { destruct (Z.eq_dec i' i); destruct (Z.eq_dec j' j);
      try (right; congruence). left; congruence. }
  destruct Hdec as [Heq|Hne].
  - inversion Heq; subst i' j'. apply Hnew. exact Hm.
  - destruct HD as [HD|HD]; [|contradiction].
    rewrite Hl, Hrr.
    + apply H; assumption.
    + exact Hne.
    + rewrite <- surjective_pairing. intros Ht. apply Hne.
      apply left_target_inj. exact Ht.
Qed.

Lemma zone_row_predicted (D : Z -> Z -> Prop) (j : Z) (s : array3 * array3) :
  jlo g - 2 <= j <= jhi g + 2 ->
  (forall i, ilo g - 2 <= i <= ihi g + 2 -> sound i j) ->
  predicted D s ->
  exists s',
    while_le (fun i => zone i j) (ilo g - 2) (ihi g + 2) s = Ok s' /\
    predicted (fun i' j' => D i' j' \/ (j' = j /\ ilo g - 2 <= i' <= ihi g + 2)) s'.
Proof.
  intros Hj Hs Hp0.
  assert (Hlen : ilo g <= ihi g) by (destruct Hg; tauto).
  destruct (while_le_inv
              (fun i => zone i j)
              (fun I => predicted (fun i' j' =>
                 D i' j' \/ (j' = j /\ ilo g - 2 <= i' < I)))
              (ilo g - 2) (ihi g + 2) s) as [s' [E H]].
  - lia.
  - revert Hp0. apply predicted_ext. intros i' j' [H|H]; [exact H|lia].
  - intros i s1 Hi H1.
    assert (Hvis : visited g i j) by (split; assumption).
    destruct (predicted_step _ i j s1 Hvis (Hs i Hi) H1) as [s2 [E2 H2]].
    exists s2. split; [exact E2|]. revert H2. apply predicted_ext.
    intros i' j' [H|H]; [left; left; exact H|].
    destruct (Z.eq_dec i' i); [right; f_equal; lia|left; right; lia].
  - exists s'. split; [exact E|]. revert H. apply predicted_ext.
    intros i' j' [H|H]; [left; exact H|right; lia].
Qed.

Lemma zone_loops_predicted (s : array3 * array3) :
  (forall i j, visited g i j -> sound i j) ->
  on_grid g 4 (fst s) -> on_grid g 4 (snd s) ->
  exists s',
    while_le (fun j => while_le (fun i => zone i j) (ilo g - 2) (ihi g + 2))
             (jlo g - 2) (jhi g + 2) s = Ok s' /\
    predicted (visited g) s'.
Proof.
  intros Hs H1 H2.
  assert (Hlen : jlo g <= jhi g) by (destruct Hg; tauto).
  destruct (while_le_inv
              (fun j => while_le (fun i => zone i j) (ilo g - 2) (ihi g + 2))
              (fun J => predicted (fun i' j' =>
                 ilo g - 2 <= i' <= ihi g + 2 /\ jlo g - 2 <= j' < J))
              (jlo g - 2) (jhi g + 2) s) as [s' [E H]].
  - lia.
  - split; [exact H1|]. split; [exact H2|]. intros i j m HD. lia.
  - intros j s1 Hj Hp1.
    assert (Hrow : forall i, ilo g - 2 <= i <= ihi g + 2 -> sound i j).
    { intros i Hi. apply Hs. split; assumption. }
    destruct (zone_row_predicted
                (fun i' j' => ilo g - 2 <= i' <= ihi g + 2 /\ jlo g - 2 <= j' < j)
                j s1 Hj Hrow Hp1) as [s2 [E2 Hp2]].
    exists s2. split; [exact E2|]. revert Hp2. apply predicted_ext.
    intros i' j' H. destruct (Z.eq_dec j' j); [right; lia|left; lia].
  - exists s'. split; [exact E|]. revert H. apply predicted_ext.
    unfold visited. intros; lia.
Qed.
End PredictorLoop.

(** C2. On a grid with at least three ghost layers whose zones have a sound
    speed, [interfaceStates] returns the two state arrays, and for every
    zone [(i, j)] of the interior and its 2-cell buffer the left state at
    the high-side interface ([V_l[i+1,j]] in the x sweep, [V_l[i,j+1]] in
    the y sweep) is [V + 0.5 (1 - (dt/dx) max(lambda_max,0)) dV + sum_m
    beta_l[m] r_m] and the right state at the low-side interface
    ([V_r[i,j]]) is [V - 0.5 (1 + (dt/dx) min(lambda_min,0)) dV + sum_m
    beta_r[m] r_m], with the eigenvalues [u-cs, u, u, u+cs] ([v] in the y
    sweep), [cs = sqrt(gamma p / rho)] and the analytic eigenvectors. *)
Theorem interface_states_formulas
        {A : Arith} (nvar : Z) (gamma : num) (idir : Z) (g : Grid2d) (dt : num)
        (r u v p ldelta_r ldelta_u ldelta_v ldelta_p : array2) :
  grid_ok g -> 3 <= ng g -> nvar = 4 ->
  on_grid2 g r -> on_grid2 g u -> on_grid2 g v -> on_grid2 g p ->
  on_grid2 g ldelta_r -> on_grid2 g ldelta_u ->
  on_grid2 g ldelta_v -> on_grid2 g ldelta_p ->
  (forall i j, visited g i j -> zone_sound gamma r p i j) ->
  exists V_l V_r,
    interfaceStates nvar gamma idir g dt
                    r u v p ldelta_r ldelta_u ldelta_v ldelta_p = Ok (V_l, V_r) /\
    forall i j m,
      ilo g - 2 <= i <= ihi g + 2 -> jlo g - 2 <= j <= jhi g + 2 -> 0 <= m < 4 ->
      let dtdx := if idir =? 1 then (dt / dx g)%num else (dt / dy g)%num in
      let V := zone_V r u v p i j in
      let dV := zone_dV ldelta_r ldelta_u ldelta_v ldelta_p i j in
      let cs := sqrt (gamma * elt2 p i j / elt2 r i j)%num in
      let E := analytic_eigen idir cs (elt2 r i j) (elt2 u i j) (elt2 v i j) in
      (idir = 1 -> elt3 V_l (i + 1) j m = predicted_left dtdx E V dV m) /\
      (idir <> 1 -> elt3 V_l i (j + 1) m = predicted_left dtdx E V dV m) /\
      elt3 V_r i j m = predicted_right dtdx E V dV m.
Proof.
  intros Hg Hng Hnvar Hr Hu Hv Hp Hdr Hdu Hdv Hdp Hs. subst nvar.
  unfold interfaceStates.
  destruct (zone_loops_predicted idir g
              (if idir =? 1 then (dt / dx g)%num else (dt / dy g)%num) gamma
              r u v p ldelta_r ldelta_u ldelta_v ldelta_p
              Hg Hng Hr Hu Hv Hp Hdr Hdu Hdv Hdp
              (zeros3 (qx g) (qy g) 4, zeros3 (qx g) (qy g) 4) Hs)
    as ([V_l V_r] & E & _ & _ & H).
  - unfold on_grid. simpl. auto.
  - unfold on_grid. simpl. auto.
  - exists V_l, V_r. split; [exact E|].
    intros i j m Hi Hj Hm. cbv zeta.
    destruct (H i j m) as [Hl Hrr]; [split; assumption|exact Hm|].
    cbn [fst snd] in Hl, Hrr. unfold left_target in Hl.
    split; [|split].
    + intros ->. exact Hl.
    + intros Hne. destruct (Z.eqb_spec idir 1); [contradiction|]. exact Hl.
    + exact Hrr.
Qed.

Lemma interface_states_formulas_witness :
  exists V_l V_r,
    interfaceStates 4 (7 # 5) 1 grid3 (1 # 10)
                    (const2 8 7 1) (ramp2 8 7 1 2 0) (ramp2 8 7 (-1) 1 3) (const2 8 7 1)
                    (ramp2 8 7 1 0 0) (ramp2 8 7 0 1 0) (ramp2 8 7 1 1 0) (ramp2 8 7 2 1 1)
    = Ok (V_l, V_r) /\
    forall i j m,
      ilo grid3 - 2 <= i <= ihi grid3 + 2 -> jlo grid3 - 2 <= j <= jhi grid3 + 2 ->
      0 <= m < 4 ->
      let dtdx := if 1 =? 1 then ((1 # 10) / dx grid3)%num else ((1 # 10) / dy grid3)%num in
      let V := zone_V (const2 8 7 1) (ramp2 8 7 1 2 0) (ramp2 8 7 (-1) 1 3) (const2 8 7 1) i j in
      let dV := zone_dV (ramp2 8 7 1 0 0) (ramp2 8 7 0 1 0) (ramp2 8 7 1 1 0)
                        (ramp2 8 7 2 1 1) i j in
      let cs := sqrt ((7 # 5) * elt2 (const2 8 7 1) i j / elt2 (const2 8 7 1) i j)%num in
      let E := analytic_eigen 1 cs (elt2 (const2 8 7 1) i j)
                              (elt2 (ramp2 8 7 1 2 0) i j) (elt2 (ramp2 8 7 (-1) 1 3) i j) in
      (1 = 1 -> elt3 V_l (i + 1) j m = predicted_left dtdx E V dV m) /\
      (1 <> 1 -> elt3 V_l i (j + 1) m = predicted_left dtdx E V dV m) /\
      elt3 V_r i j m = predicted_right dtdx E V dV m.
Proof.
  apply (interface_states_formulas (A := ExactArith) 4 (7 # 5) 1 grid3).
  - unfold grid_ok; simpl; lia.
  - simpl; lia.
  - reflexivity.
  - unfold on_grid2; simpl; lia.
  - unfold on_grid2; simpl; lia.
  - unfold on_grid2; simpl; lia.
  - unfold on_grid2; simpl; lia.
  - unfold on_grid2; simpl; lia.
  - unfold on_grid2; simpl; lia.
  - unfold on_grid2; simpl; lia.
  - unfold on_grid2; simpl; lia.
  - intros i j _. split; vm_compute; reflexivity.
Defined.

(** ** The frame of the two flux routines *)

Section FrameFacts.
Context {A : Arith}.

Lemma keeps_weaken {T : Type} (b : loc) (m : M T) (P Q : T -> Prop) :
  keeps b m P -> (forall x, P x -> Q x) -> keeps b m Q.
Proof.
  intros H HPQ w Hb. destruct (H w Hb) as (H1 & H2 & H3).
  repeat split; auto.
Qed.

Lemma keeps_ret {T : Type} (b : loc) (x : T) (P : T -> Prop) :
  P x -> keeps b (ret x) P.
Proof.
  intros HP w Hb. simpl. repeat split; auto. intros y E. inversion E; subst; exact HP.
Qed.

Lemma keeps_lift {T : Type} (b : loc) (r : result T) :
  keeps b (lift r) (fun _ => True).
Proof. intros w Hb. simpl. repeat split; auto. Qed.

Lemma keeps_log (b : loc) (e : event) : keeps b (log e) (fun _ => True).
Proof. intros w Hb. simpl. repeat split; auto. Qed.

Lemma keeps_load (b : loc) (l : loc) : keeps b (load l) (fun _ => True).
Proof.
  intros w Hb. unfold load. destruct (heap w l); simpl; repeat split; auto.
Qed.

(** A new array lies above the frame. *)
Lemma keeps_alloc (b : loc) (a : array3) :
  keeps b (alloc a) (fun l => (b <= l)%nat).
Proof.
  intros w Hb. simpl. split; [lia|]. split.
  - intros l Hl. unfold put. destruct (Nat.eqb_spec l (next w)); [lia|reflexivity].
  - intros x E. inversion E; subst. exact Hb.
Qed.

(** A write above the frame. *)
Lemma keeps_store (b : loc) (l : loc) (a : array3) :
  (b <= l)%nat -> keeps b (store l a) (fun _ => True).
Proof.
  intros Hl w Hb. simpl. split; [exact Hb|]. split; [|auto].
  intros l' Hl'. unfold put. destruct (Nat.eqb_spec l' l); [lia|reflexivity].
Qed.

Lemma keeps_bind {T U : Type} (b : loc) (m : M T) (k : T -> M U)
      (P : T -> Prop) (Q : U -> Prop) :
  keeps b m P -> (forall x, P x -> keeps b (k x) Q) -> keeps b (bind m k) Q.
Proof.
  intros Hm Hk w Hb. destruct (Hm w Hb) as (H1 & H2 & H3).
  unfold bind. destruct (m w) as [[x|e] w1] eqn:E; simpl in *.
  - destruct (Hk x (H3 x eq_refl) w1 H1) as (K1 & K2 & K3).
    split; [exact K1|]. split; [|exact K3].
    intros l Hl. rewrite K2 by exact Hl. apply H2. exact Hl.
  - split; [exact H1|]. split; [exact H2|]. intros y Ey. discriminate.
Qed.

Lemma keeps_modify (b : loc) (l : loc) (f : array3 -> result array3) :
  (b <= l)%nat -> keeps b (modify l f) (fun _ => True).
Proof.
  intros Hl. unfold modify.
  eapply keeps_bind; [apply keeps_load|]. intros a _.
  eapply keeps_bind; [apply keeps_lift|]. intros a' _.
  apply keeps_store. exact Hl.
Qed.

Lemma keeps_for_each (b : loc) (body : Z -> M unit) :
  (forall n, keeps b (body n) (fun _ => True)) ->
  forall fuel n, keeps b (for_each fuel n body) (fun _ => True).
Proof.
  intros Hbody. induction fuel as [|fuel IH]; intros n; simpl.
  - apply keeps_ret. exact I.
  - eapply keeps_bind; [apply Hbody|]. intros _ _. apply IH.
Qed.

Lemma keeps_for_range (b : loc) (k : Z) (body : Z -> M unit) :
  (forall n, keeps b (body n) (fun _ => True)) ->
  keeps b (for_range k body) (fun _ => True).
Proof. intros H. apply keeps_for_each. exact H. Qed.
End FrameFacts.

Section ProgramFrames.
Context {A : Arith}.

Lemma keeps_bind_any {T U : Type} (b : loc) (m : M T) (k : T -> M U)
      (Q : U -> Prop) :
  keeps b m (fun _ => True) -> (forall x, keeps b (k x) Q) -> keeps b (bind m k) Q.
Proof. intros Hm Hk. eapply keeps_bind; [exact Hm|]. intros x _. apply Hk. Qed.

Lemma keeps_any {T : Type} (b : loc) (m : M T) (P : T -> Prop) :
  keeps b m P -> keeps b m (fun _ => True).
Proof. intros H. eapply keeps_weaken; [exact H|]. auto. Qed.

Ltac frame :=
  repeat
    match goal with
    | |- keeps _ (ret _) _ => apply keeps_ret; try exact I; try lia
    | |- keeps _ (lift _) _ => apply keeps_lift
    | |- keeps _ (msg_fail _) _ => apply keeps_lift
    | |- keeps _ (log _) _ => apply keeps_log
    | |- keeps _ (load _) _ => apply keeps_load
    | |- keeps _ (store _ _) _ => apply keeps_store; lia
    | |- keeps _ (modify _ _) _ => apply keeps_modify; lia
    | |- keeps _ (for_range _ _) _ => apply keeps_for_range; intros ?
    | |- keeps _ (bind (alloc _) _) _ =>
      eapply keeps_bind; [apply keeps_alloc|intros ? ?; cbv beta in *]
    | |- keeps _ (bind (scratch_array _ _) _) _ =>
      eapply keeps_bind; [apply keeps_alloc|intros ? ?; cbv beta in *]
    | |- keeps _ (bind _ _) _ => apply keeps_bind_any; [|intros ?]
    | |- keeps _ (match ?x with _ => _ end) _ => destruct x
    | |- keeps _ (let _ := _ in _) _ => cbv zeta
    end.

Lemma keeps_getVarPtr (b : loc) (d : CellCenterData2d) (name : string) :
  keeps b (getVarPtr d name) (fun _ => True).
Proof. unfold getVarPtr. frame. Qed.

Lemma keeps_read (b : loc) (x : view) : keeps b (read x) (fun _ => True).
Proof. unfold read. frame. Qed.

Section Unsplit.
Context {F : Fortran}.

Lemma keeps_limited (b : loc) (idir : Z) (xi a : array2) (g : Grid2d) :
  keeps b (limited idir xi a g) (fun _ => True).
Proof. unfold limited, call_limit4. frame. Qed.

Lemma keeps_sweep (b : loc) vs gamma myData dt idir h r xi u v p :
  keeps b (sweep vs gamma myData dt idir h r xi u v p)
        (fun U => (b <= fst U)%nat /\ (b <= snd U)%nat).
Proof.
  unfold sweep, call_states.
  repeat first [apply keeps_read | apply keeps_limited | progress frame].
  simpl. lia.
Qed.

Lemma keeps_corrected_fluxes (b : loc) vs gamma myData dt U_xl U_xr U_yl U_yr :
  (b <= U_xl)%nat -> (b <= U_xr)%nat -> (b <= U_yl)%nat -> (b <= U_yr)%nat ->
  keeps b (corrected_fluxes vs gamma myData dt U_xl U_xr U_yl U_yr)
        (fun _ => True).
Proof.
  intros H1 H2 H3 H4. unfold corrected_fluxes, call_riemann. frame.
Qed.

Lemma keeps_unsplitFluxes (b : loc) vs gamma myData dt :
  keeps b (unsplitFluxes vs gamma myData dt) (fun _ => True).
Proof.
  unfold unsplitFluxes, call_flatten, call_flatten_multid.
  repeat
    match goal with
    | |- keeps _ (read _) _ => apply keeps_read
    | |- keeps _ (getVarPtr _ _) _ => apply keeps_getVarPtr
    | |- keeps _ (bind (sweep _ _ _ _ _ _ _ _ _ _ _) _) _ =>
      eapply keeps_bind;
      [apply keeps_sweep|intros [? ?] [? ?]; cbn [fst snd] in *]
    | |- keeps _ (corrected_fluxes _ _ _ _ _ _ _ _) _ =>
      apply keeps_corrected_fluxes; assumption
    | |- keeps _ (bind _ _) _ => apply keeps_bind_any; [|intros ?]
    | |- keeps _ (match ?x with _ => _ end) _ => destruct x
    | |- keeps _ (let _ := _ in _) _ => cbv zeta
    | |- keeps _ (lift _) _ => apply keeps_lift
    | |- keeps _ (log _) _ => apply keeps_log
    | |- keeps _ (ret _) _ => apply keeps_ret; exact I
    end.
Qed.
End Unsplit.

Section RK.
Context {C : Collaborators}.

Lemma keeps_get_var_by_index (b : loc) (d : CellCenterData2d) (n : Z) :
  keeps b (get_var_by_index d n) (fun _ => True).
Proof. unfold get_var_by_index. frame. Qed.

Lemma keeps_sweep_states (b : loc) g ivars q ld V_l V_r ishift jshift :
  (b <= V_l)%nat -> (b <= V_r)%nat ->
  keeps b (sweep_states g ivars q ld V_l V_r ishift jshift) (fun _ => True).
Proof. intros H1 H2. unfold sweep_states. frame. Qed.

Lemma keeps_add_viscosity (b : loc) g ivars my_data ax ay F_x F_y :
  (b <= F_x)%nat -> (b <= F_y)%nat ->
  keeps b (add_viscosity g ivars my_data ax ay F_x F_y) (fun _ => True).
Proof.
  intros H1 H2. unfold add_viscosity. cbv zeta.
  apply keeps_for_range. intros n.
  repeat
    match goal with
    | |- keeps _ (read _) _ => apply keeps_read
    | |- keeps _ (get_var_by_index _ _) _ => apply keeps_get_var_by_index
    | |- keeps _ (bind _ _) _ => apply keeps_bind_any; [|intros ?]
    | |- keeps _ (lift _) _ => apply keeps_lift
    | |- keeps _ (load _) _ => apply keeps_load
    | |- keeps _ (modify _ _) _ => apply keeps_modify; lia
    end.
Qed.

Lemma keeps_flattening (b : loc) g q ivars rp :
  keeps b (flattening g q ivars rp) (fun _ => True).
Proof.
  unfold flattening. destruct (compressible_use_flattening rp =? 0); frame.
Qed.

Lemma keeps_limit_slopes (b : loc) g ivars q xi limiter ldx ldy :
  (b <= ldx)%nat -> (b <= ldy)%nat ->
  keeps b (limit_slopes g ivars q xi limiter ldx ldy) (fun _ => True).
Proof. intros H1 H2. unfold limit_slopes, call_limit. frame. Qed.

Lemma keeps_interface_states (b : loc) my_data rp ivars :
  keeps b (interface_states my_data rp ivars) (fun _ => True).
Proof.
  unfold interface_states, call_prim_to_cons.
  repeat
    match goal with
    | |- keeps _ (getVarPtr _ _) _ => apply keeps_getVarPtr
    | |- keeps _ (flattening _ _ _ _) _ => apply keeps_flattening
    | |- keeps _ (limit_slopes _ _ _ _ _ _ _) _ =>
      apply keeps_limit_slopes; lia
    | |- keeps _ (sweep_states _ _ _ _ _ _ _ _) _ =>
      apply keeps_sweep_states; lia
    | _ => progress frame
    end.
Qed.

Lemma keeps_select_solver (b : loc) name :
  keeps b (select_solver name) (fun _ => True).
Proof.
  unfold select_solver.
  destruct (String.eqb name "HLLC"); [frame|].
  destruct (String.eqb name "CGF"); frame.
Qed.

Lemma keeps_normal_fluxes (b : loc) my_data rp ivars solid f q U_xl U_xr U_yl U_yr :
  keeps b (normal_fluxes my_data rp ivars solid f q U_xl U_xr U_yl U_yr)
        (fun _ => True).
Proof.
  unfold normal_fluxes, call_riemannFunc.
  repeat
    match goal with
    | |- keeps _ (add_viscosity _ _ _ _ _ _ _) _ =>
      apply keeps_add_viscosity; lia
    | _ => progress frame
    end.
Qed.

Lemma keeps_fluxes (b : loc) my_data rp ivars solid :
  keeps b (fluxes my_data rp ivars solid) (fun _ => True).
Proof.
  unfold fluxes.
  apply keeps_bind_any; [apply keeps_interface_states|].
  intros [[q [U_xl U_xr]] [U_yl U_yr]].
  apply keeps_bind_any; [apply keeps_select_solver|].
  intros f. apply keeps_normal_fluxes.
Qed.
End RK.
End ProgramFrames.

(** C8. Whatever their outcome, [unsplitFluxes] and [fluxes] leave every
    array that exists in the store on entry as it is, the data array of the
    conserved variables among them: the arrays they write are the ones they
    create. *)
Theorem flux_routines_keep_their_input
        {A : Arith} {F : Fortran} {C : Collaborators}
        (vs : vars.t) (gamma : num) (myData : CellCenterData2d) (dt : num)
        (rp : RuntimeParameters) (solid : Solid) (w : world) (l : loc) :
  (l < next w)%nat ->
  heap (snd (unsplitFluxes vs gamma myData dt w)) l = heap w l /\
  heap (snd (fluxes myData rp vs solid w)) l = heap w l.
Proof.
  intros Hl. split.
  - destruct (keeps_unsplitFluxes (next w) vs gamma myData dt w) as (_ & H & _);
      [lia|]. apply H. exact Hl.
  - destruct (keeps_fluxes (next w) myData rp vs solid w) as (_ & H & _);
      [lia|]. apply H. exact Hl.
Qed.


(** ** The primitive variables and the conserved transform *)

Section TotalsFacts.
Context {A : Arith}.

Lemma comp_plain (a : array3) (n : Z) :
  0 <= n < dim2 a -> comp a n = Ok (comp_of a n).
Proof. intros H. unfold comp. rewrite py_index_plain by assumption. reflexivity. Qed.

Lemma ew2_plain (f : num -> num -> num) (a b : array2) :
  rows a = rows b -> cols a = cols b -> ew2 f a b = Ok (zip2 f a b).
Proof.
  intros H1 H2. unfold ew2, same_shape.
  rewrite (proj2 (Z.eqb_eq _ _) H1), (proj2 (Z.eqb_eq _ _) H2). reflexivity.
Qed.

Lemma set_comp_plain (a : array3) (n : Z) (x : array2) :
  0 <= n < dim2 a -> rows x = dim0 a -> cols x = dim1 a ->
  set_comp a n x = Ok (put_comp a n x).
Proof.
  intros H H1 H2. unfold set_comp. rewrite py_index_plain by assumption.
  cbn [rbind].
  rewrite (proj2 (Z.eqb_eq _ _) H1), (proj2 (Z.eqb_eq _ _) H2). reflexivity.
Qed.

Lemma primitives_plain (gamma : num) (dens xmom ymom ener : array2) :
  rows xmom = rows dens -> cols xmom = cols dens ->
  rows ymom = rows dens -> cols ymom = cols dens ->
  rows ener = rows dens -> cols ener = cols dens ->
  primitives gamma dens xmom ymom ener
  = Ok (prim_u dens xmom, prim_v dens ymom, prim_p gamma dens xmom ymom ener).
Proof.
  intros. unfold primitives, eos_pres.
  repeat (rewrite ew2_plain by (cbn [rows cols zip2 map2 half]; congruence);
          cbn [rbind]).
  reflexivity.
Qed.

Lemma to_conserved_plain (vs : vars.t) (gamma : num) (V U : array3) :
  vars.ok vs ->
  dim2 V = vars.nvar vs -> dim2 U = vars.nvar vs ->
  dim0 V = dim0 U -> dim1 V = dim1 U ->
  to_conserved vs gamma V U = Ok (conserved vs gamma V U).
Proof.
  intros Hv HV HU H0 H1. unfold vars.ok in Hv. unfold to_conserved.
  repeat (first [rewrite comp_plain by lia
                |rewrite ew2_plain
                   by (cbn [rows cols zip2 map2 half comp_of eos_rhoe]; congruence)
                |rewrite set_comp_plain
                   by (cbn [rows cols dim0 dim1 dim2 zip2 map2 comp_of put_comp
                                 eos_rhoe half]; lia)];
          cbn [rbind]).
  reflexivity.
Qed.
End TotalsFacts.

(** ** Running the flux routines *)

Section RunFacts.
Context {A : Arith}.

Lemma bind_run {T U : Type} (m : M T) (k : T -> M U) (w w1 : world) (x : T)
      (R : result U * world) :
  m w = (Ok x, w1) -> k x w1 = R -> bind m k w = R.
Proof. intros E1 E2. unfold bind. rewrite E1. exact E2. Qed.

Lemma load_run (w : world) (l : loc) (a : array3) :
  heap w l = Some a -> load l w = (Ok a, w).
Proof. intros H. unfold load. rewrite H. reflexivity. Qed.

Lemma lift_run {T : Type} (r : result T) (x : T) (w : world) :
  r = Ok x -> lift r w = (Ok x, w).
Proof. intros ->. reflexivity. Qed.

Lemma modify_run (w : world) (l : loc) (f : array3 -> result array3) (a a' : array3) :
  heap w l = Some a -> f a = Ok a' ->
  modify l f w
  = (Ok tt, {| heap := put (heap w) l a'; next := next w; trace := trace w |}).
Proof.
  intros H E. unfold modify.
  eapply bind_run; [apply load_run; exact H|].
  eapply bind_run; [apply lift_run; exact E|]. reflexivity.
Qed.

Lemma put_same (h : loc -> option array3) (l : loc) (a : array3) :
  put h l a l = Some a.
Proof. unfold put. rewrite Nat.eqb_refl. reflexivity. Qed.

Lemma put_other (h : loc -> option array3) (l l' : loc) (a : array3) :
  l' <> l -> put h l a l' = h l'.
Proof. intros H. unfold put. destruct (Nat.eqb_spec l' l); [contradiction|reflexivity]. Qed.

Lemma getVarPtr_run (d : CellCenterData2d) (name : string) (k : Z) (w : world) :
  index_of name (names d) 0 = Ok k ->
  getVarPtr d name w = (Ok {| base := data d; component := k |}, w).
Proof.
  intros H. unfold getVarPtr.
  eapply bind_run; [apply lift_run; exact H|]. reflexivity.
Qed.

Lemma read_run (x : view) (a : array3) (w : world) :
  heap w (base x) = Some a -> 0 <= component x < dim2 a ->
  read x w = (Ok (comp_of a (component x)), w).
Proof.
  intros H Hc. unfold read.
  eapply bind_run; [apply load_run; exact H|].
  apply lift_run. apply comp_plain. exact Hc.
Qed.
End RunFacts.

Ltac heap_lookup :=
  cbn [heap next trace];
  repeat first [rewrite put_same | rewrite put_other by lia];
  first [reflexivity | eassumption].

Section UnsplitRun.
Context {A : Arith} {F : Fortran} {FS : FortranShapes}.
Variables (vs : vars.t) (gamma : num) (myData : CellCenterData2d) (dt : num).
Hypothesis Hvs : vars.ok vs.
Hypothesis Hnvar : nvar myData = vars.nvar vs.

Local Abbreviation g := (grid myData).

Lemma limited_run (idir : Z) (xi a : array2) (w : world) :
  on_grid2 g xi ->
  limited idir xi a g w
  = (Ok (slope idir xi a g),
     {| heap := heap w; next := next w; trace := trace w ++ [EvLimit4 idir a] |}).
Proof.
  intros [H1 H2]. unfold limited, call_limit4.
  eapply bind_run; [reflexivity|].
  apply lift_run. apply ew2_plain.
  - rewrite H1. symmetry. apply limit4_shape.
  - rewrite H2. symmetry. apply limit4_shape.
Qed.

Lemma slope_on_grid (idir : Z) (xi a : array2) :
  on_grid2 g xi -> on_grid2 g (slope idir xi a g).
Proof. intros H. exact H. Qed.

(** One sweep: five calls, and two new arrays that hold the conserved
    interface states. *)
Lemma sweep_run (idir : Z) (h : num) (r : view) (xi u v p : array2)
      (U0 : array3) (w : world) :
  heap w (base r) = Some U0 -> (base r < next w)%nat ->
  on_grid g (nvar myData) U0 -> 0 <= component r < nvar myData ->
  on_grid2 g xi ->
  exists w',
    sweep vs gamma myData dt idir h r xi u v p w
    = (Ok (next w, S (next w)), w') /\
    next w' = S (S (next w)) /\
    trace w' = trace w ++ sweep_calls g idir xi (comp_of U0 (component r)) u v p /\
    heap w' (next w)
    = Some (fst (sweep_U vs gamma g (nvar myData) dt idir h xi
                         (comp_of U0 (component r)) u v p)) /\
    heap w' (S (next w))
    = Some (snd (sweep_U vs gamma g (nvar myData) dt idir h xi
                         (comp_of U0 (component r)) u v p)) /\
    forall l, (l < next w)%nat -> heap w' l = heap w l.
Proof.
  intros HU Hb (u0 & u1 & u2) Hc Hxi.
  pose proof (states_shape idir (qx g) (qy g) (ng g) h dt (vars.nvar vs) gamma
                (comp_of U0 (component r)) u v p
                (slope idir xi (comp_of U0 (component r)) g) (slope idir xi u g)
                (slope idir xi v g) (slope idir xi p g)) as Hst.
  cbv zeta in Hst. destruct Hst as ((s0 & s1 & s2) & (t0 & t1 & t2)).
  unfold sweep, sweep_U, sweep_V. cbv zeta.
  destruct (states idir (qx g) (qy g) (ng g) h dt (vars.nvar vs) gamma
              (comp_of U0 (component r)) u v p
              (slope idir xi (comp_of U0 (component r)) g) (slope idir xi u g)
              (slope idir xi v g) (slope idir xi p g)) as [V_l V_r] eqn:EV.
  cbn [fst snd] in *.
  eexists. split.
  - eapply bind_run; [apply read_run; [exact HU|lia]|].
    eapply bind_run; [apply limited_run; exact Hxi|].
    eapply bind_run; [apply limited_run; exact Hxi|].
    eapply bind_run; [apply limited_run; exact Hxi|].
    eapply bind_run; [apply limited_run; exact Hxi|].
    eapply bind_run; [apply read_run; [exact HU|lia]|].
    unfold call_states.
    eapply bind_run; [eapply bind_run; [reflexivity|reflexivity]|].
    rewrite EV. cbn [heap next trace].
    eapply bind_run; [reflexivity|].
    eapply bind_run; [reflexivity|].
    eapply bind_run.
    { eapply modify_run; [heap_lookup|].
      apply to_conserved_plain; cbn [dim0 dim1 dim2 zeros3]; try assumption; lia. }
    eapply bind_run.
    { eapply modify_run; [heap_lookup|].
      apply to_conserved_plain; cbn [dim0 dim1 dim2 zeros3]; try assumption; lia. }
    reflexivity.
  - cbn [heap next trace].
    split; [reflexivity|]. split.
    + rewrite <- !app_assoc. reflexivity.
    + split; [|split].
      * rewrite put_other by lia. rewrite put_same. reflexivity.
      * rewrite put_same. reflexivity.
      * intros l Hl. rewrite !put_other by lia. reflexivity.
Qed.
End UnsplitRun.

Section UnsplitWhole.
Context {A : Arith} {F : Fortran} {FS : FortranShapes}.
Variables (vs : vars.t) (gamma : num) (myData : CellCenterData2d) (dt : num).
Hypothesis Hvs : vars.ok vs.
Hypothesis Hnvar : nvar myData = vars.nvar vs.
Hypothesis Hg : grid_ok (grid myData).
Hypothesis Hng : 3 <= ng (grid myData).

Local Abbreviation g := (grid myData).
Local Abbreviation rsolve := (solve vs gamma g).

Lemma solve_on_grid (idir : Z) (Ul Ur : array3) :
  on_grid g (nvar myData) (rsolve idir Ul Ur).
Proof.
  unfold on_grid, solve. rewrite Hnvar.
  apply (riemann_shape idir (qx g) (qy g) (ng g) (vars.nvar vs)).
Qed.

(** Lines 308-429: two Riemann calls on the states as predicted, the
    correction, two Riemann calls on the corrected states, whose results
    are returned. *)
Lemma corrected_fluxes_run (l_xl l_xr l_yl l_yr : loc) (s0 : faces) (w : world) :
  l_xl <> l_xr -> l_xl <> l_yl -> l_xl <> l_yr ->
  l_xr <> l_yl -> l_xr <> l_yr -> l_yl <> l_yr ->
  heap w l_xl = Some (U_xl s0) -> heap w l_xr = Some (U_xr s0) ->
  heap w l_yl = Some (U_yl s0) -> heap w l_yr = Some (U_yr s0) ->
  faces_on_grid g (nvar myData) s0 ->
  exists s1 w',
    transverse g dt (nvar myData)
               (rsolve 1 (U_xl s0) (U_xr s0))
               (rsolve 2 (U_yl s0) (U_yr s0)) s0 = Ok s1 /\
    corrected_fluxes vs gamma myData dt l_xl l_xr l_yl l_yr w
    = (Ok (rsolve 1 (U_xl s1) (U_xr s1),
           rsolve 2 (U_yl s1) (U_yr s1)), w') /\
    trace w' = trace w ++
               [ EvRiemann 1 (U_xl s0) (U_xr s0);
                 EvRiemann 2 (U_yl s0) (U_yr s0);
                 EvRiemann 1 (U_xl s1) (U_xr s1);
                 EvRiemann 2 (U_yl s1) (U_yr s1) ].
Proof.
  intros N1 N2 N3 N4 N5 N6 H1 H2 H3 H4 Hs.
  assert (Hk : 0 <= nvar myData).
  { rewrite Hnvar. unfold vars.ok in Hvs. lia. }
  destruct (transverse_progress g dt (nvar myData)
              (rsolve 1 (U_xl s0) (U_xr s0))
              (rsolve 2 (U_yl s0) (U_yr s0)) s0
              Hg Hng Hk (solve_on_grid _ _ _) (solve_on_grid _ _ _) Hs)
    as [s1 [E _]].
  exists s1. destruct s0 as [xl xr yl yr]. destruct s1 as [xl' xr' yl' yr'].
  cbn [U_xl U_xr U_yl U_yr] in *.
  eexists. split; [exact E|]. split.
  - unfold corrected_fluxes, call_riemann. cbv zeta.
    eapply bind_run; [apply load_run; exact H1|].
    eapply bind_run; [apply load_run; exact H2|].
    eapply bind_run; [eapply bind_run; [reflexivity|reflexivity]|].
    eapply bind_run; [apply load_run; heap_lookup|].
    eapply bind_run; [apply load_run; heap_lookup|].
    eapply bind_run; [eapply bind_run; [reflexivity|reflexivity]|].
    eapply bind_run; [apply load_run; heap_lookup|].
    eapply bind_run; [apply load_run; heap_lookup|].
    eapply bind_run; [apply load_run; heap_lookup|].
    eapply bind_run; [apply load_run; heap_lookup|].
    eapply bind_run; [apply lift_run; exact E|].
    eapply bind_run; [reflexivity|].
    eapply bind_run; [reflexivity|].
    eapply bind_run; [reflexivity|].
    eapply bind_run; [reflexivity|].
    eapply bind_run; [apply load_run; heap_lookup|].
    eapply bind_run; [apply load_run; heap_lookup|].
    eapply bind_run; [eapply bind_run; [reflexivity|reflexivity]|].
    eapply bind_run; [apply load_run; heap_lookup|].
    eapply bind_run; [apply load_run; heap_lookup|].
    eapply bind_run; [eapply bind_run; [reflexivity|reflexivity]|].
    reflexivity.
  - cbn [trace]. rewrite <- !app_assoc. reflexivity.
Qed.
End UnsplitWhole.

Section UnsplitRunWhole.
Context {A : Arith} {F : Fortran} {FS : FortranShapes}.
Variables (vs : vars.t) (gamma : num) (myData : CellCenterData2d) (dt : num).
Variables (U0 : array3) (kd kx ky ke : Z).

Local Abbreviation g := (grid myData).
Local Abbreviation k := (nvar myData).
Local Abbreviation s0 := (predicted_faces vs gamma g k dt U0 kd kx ky ke).
Local Abbreviation rsolve := (solve vs gamma g).

Lemma conserved_on_grid (V : array3) :
  on_grid g k (conserved vs gamma V (zeros3 (qx g) (qy g) k)).
Proof. unfold on_grid, conserved. cbn. auto. Qed.

Lemma predicted_faces_on_grid : faces_on_grid g k s0.
Proof.
  unfold faces_on_grid, predicted_faces, sweep_U. cbv zeta.
  cbn [U_xl U_xr U_yl U_yr fst snd].
  repeat split; apply conserved_on_grid.
Qed.

(** The whole of [unsplitFluxes]: it returns the results of the last two
    Riemann calls, and its calls are the ones listed. *)
Lemma unsplit_run (w : world) :
  unsplit_ready vs U0 kd kx ky ke myData w ->
  exists s1 w',
    transverse g dt k (rsolve 1 (U_xl s0) (U_xr s0))
               (rsolve 2 (U_yl s0) (U_yr s0)) s0 = Ok s1 /\
    unsplitFluxes vs gamma myData dt w
    = (Ok (rsolve 1 (U_xl s1) (U_xr s1), rsolve 2 (U_yl s1) (U_yr s1)), w') /\
    trace w' = trace w
               ++ calls_before_riemann gamma g U0 kd kx ky ke
               ++ [ EvRiemann 1 (U_xl s0) (U_xr s0);
                    EvRiemann 2 (U_yl s0) (U_yr s0);
                    EvRiemann 1 (U_xl s1) (U_xr s1);
                    EvRiemann 2 (U_yl s1) (U_yr s1) ].
Proof.
  intros (Hg & Hng & Hvs & Hnvar & Hn & HU & Hb & HU0).
  destruct Hn as (Nd & Nx & Ny & Ne & Rd & Rx & Ry & Re).
  pose proof HU0 as (u0 & u1 & u2).
  assert (Hxi : on_grid2 g (q_xi gamma g U0 kd kx ky ke)).
  { unfold on_grid2, q_xi. apply flatten_multid_shape. }
  (* the first sweep *)
  set (w1 := {| heap := heap w; next := next w;
                trace := ((trace w ++ [EvFlatten 1 (q_p gamma U0 kd kx ky ke)
                                                 (q_u U0 kd kx)])
                            ++ [EvFlatten 2 (q_p gamma U0 kd kx ky ke)
                                            (q_v U0 kd ky)])
                           ++ [EvFlattenMultid (q_xi_x gamma g U0 kd kx ky ke)
                                               (q_xi_y gamma g U0 kd kx ky ke)
                                               (q_p gamma U0 kd kx ky ke)] |}).
  destruct (sweep_run vs gamma myData dt Hvs Hnvar 1 (dx g)
              {| base := data myData; component := kd |}
              (q_xi gamma g U0 kd kx ky ke) (q_u U0 kd kx) (q_v U0 kd ky)
              (q_p gamma U0 kd kx ky ke) U0 w1)
    as (w2 & E2 & X2 & T2 & A2 & B2 & K2);
    try assumption; try (cbn [base component]; lia).
  destruct (sweep_run vs gamma myData dt Hvs Hnvar 2 (dy g)
              {| base := data myData; component := kd |}
              (q_xi gamma g U0 kd kx ky ke) (q_u U0 kd kx) (q_v U0 kd ky)
              (q_p gamma U0 kd kx ky ke) U0 w2)
    as (w3 & E3 & X3 & T3 & A3 & B3 & K3);
    try assumption; try (cbn [base component]; lia).
  { cbn [base]. rewrite K2 by exact Hb. exact HU. }
  { cbn [base]. rewrite X2. cbn [next w1]. lia. }
  cbn [base component next w1] in *.
  destruct (corrected_fluxes_run vs gamma myData dt Hvs Hnvar Hg Hng
              (next w) (S (next w)) (next w2) (S (next w2)) s0 w3)
    as (s1 & w4 & Et & E4 & T4); try lia.
  { rewrite K3 by lia. exact A2. }
  { rewrite K3 by lia. exact B2. }
  { exact A3. }
  { exact B3. }
  { apply predicted_faces_on_grid. }
  exists s1, w4. split; [exact Et|]. split.
  - unfold unsplitFluxes. cbv zeta.
    eapply bind_run; [apply getVarPtr_run; exact Nd|].
    eapply bind_run; [apply getVarPtr_run; exact Nx|].
    eapply bind_run; [apply getVarPtr_run; exact Ny|].
    eapply bind_run; [apply getVarPtr_run; exact Ne|].
    eapply bind_run; [apply read_run; [exact HU|cbn [component]; lia]|].
    eapply bind_run; [apply read_run; [exact HU|cbn [component]; lia]|].
    eapply bind_run; [apply read_run; [exact HU|cbn [component]; lia]|].
    eapply bind_run; [apply read_run; [exact HU|cbn [component]; lia]|].
    cbn [component].
    eapply bind_run; [apply lift_run; apply primitives_plain; reflexivity|].
    cbv iota beta.
    unfold call_flatten, call_flatten_multid.
    eapply bind_run; [eapply bind_run; [reflexivity|reflexivity]|].
    eapply bind_run; [eapply bind_run; [reflexivity|reflexivity]|].
    eapply bind_run; [eapply bind_run; [reflexivity|reflexivity]|].
    eapply bind_run; [exact E2|]. cbv iota beta.
    eapply bind_run; [exact E3|]. cbv iota beta.
    exact E4.
  - rewrite T4, T3, T2. cbn [trace w1]. unfold calls_before_riemann.
    rewrite <- !app_assoc. reflexivity.
Qed.
End UnsplitRunWhole.

(** C3. [unsplitFluxes] calls the Riemann solver four times: on the x and
    on the y interface states as predicted, and then on the x and on the y
    interface states as the transverse correction left them.  The
    correction is given the two fluxes of the first pair of calls, and the
    pair of arrays that is returned is the result of the second pair of
    calls. *)
Theorem second_riemann_pass_is_returned
        {A : Arith} {F : Fortran} {FS : FortranShapes}
        (vs : vars.t) (gamma : num) (myData : CellCenterData2d) (dt : num)
        (U0 : array3) (kd kx ky ke : Z) (w : world) :
  unsplit_ready vs U0 kd kx ky ke myData w ->
  let g := grid myData in
  let s0 := predicted_faces vs gamma g (nvar myData) dt U0 kd kx ky ke in
  exists s1 w',
    transverse g dt (nvar myData)
               (solve vs gamma g 1 (U_xl s0) (U_xr s0))
               (solve vs gamma g 2 (U_yl s0) (U_yr s0)) s0 = Ok s1 /\
    unsplitFluxes vs gamma myData dt w
    = (Ok (solve vs gamma g 1 (U_xl s1) (U_xr s1),
           solve vs gamma g 2 (U_yl s1) (U_yr s1)), w') /\
    riemann_calls (trace w')
    = riemann_calls (trace w)
      ++ [ (1, U_xl s0, U_xr s0); (2, U_yl s0, U_yr s0);
           (1, U_xl s1, U_xr s1); (2, U_yl s1, U_yr s1) ].
Proof.
  intros Hr g s0.
  destruct (unsplit_run vs gamma myData dt U0 kd kx ky ke w Hr)
    as (s1 & w' & Et & E & T).
  exists s1, w'. split; [exact Et|]. split; [exact E|].
  rewrite T. unfold riemann_calls. rewrite !flat_map_app. reflexivity.
Qed.

(** ** Comparisons and the pressure floor *)

Section SpecFloatCompare.




End SpecFloatCompare.


(** So are those of the rationals, where every value is a number. *)
Lemma exact_compare : ArithCompare ExactArith.
Proof.
  split; unfold is_num; cbn [num eqb leb ltb ExactArith].
  - intros x _. apply Qle_bool_iff. apply Qle_refl.
  - intros x y _ _ H. apply negb_false_iff in H. exact H.
  - intros x y _. apply Qeq_bool_iff. reflexivity.
  - intros x y _. apply Qeq_bool_iff. reflexivity.
Qed.

Section Floor.
Context {A : Arith} {AC : ArithCompare A}.

End Floor.


(** ** Worked instances of [unsplitFluxes] *)

Lemma sample_fortran_shapes : @FortranShapes ExactArith sample_fortran.
Proof. split; intros; cbn; auto. Qed.

Lemma sample_ready :
  unsplit_ready vars.standard sample_U0 0 1 2 3 sample_data sample_world.
Proof.
  unfold unsplit_ready, grid_ok, vars.ok, names_at, on_grid. cbn.
  repeat split; try lia; try reflexivity.
Qed.

Lemma second_riemann_pass_is_returned_witness :
  let g := grid sample_data in
  let s0 := predicted_faces (F := sample_fortran) vars.standard (7 # 5) g
                            (nvar sample_data) (1 # 10) sample_U0 0 1 2 3 in
  exists s1 w',
    transverse g (1 # 10) (nvar sample_data)
               (solve (F := sample_fortran) vars.standard (7 # 5) g 1 (U_xl s0) (U_xr s0))
               (solve (F := sample_fortran) vars.standard (7 # 5) g 2 (U_yl s0) (U_yr s0))
               s0 = Ok s1 /\
    unsplitFluxes (F := sample_fortran) vars.standard (7 # 5) sample_data (1 # 10)
                  sample_world
    = (Ok (solve (F := sample_fortran) vars.standard (7 # 5) g 1 (U_xl s1) (U_xr s1),
           solve (F := sample_fortran) vars.standard (7 # 5) g 2 (U_yl s1) (U_yr s1)),
       w') /\
    riemann_calls (trace w')
    = riemann_calls (trace sample_world)
      ++ [ (1, U_xl s0, U_xr s0); (2, U_yl s0, U_yr s0);
           (1, U_xl s1, U_xr s1); (2, U_yl s1, U_yr s1) ].
Proof.
  exact (second_riemann_pass_is_returned
           (F := sample_fortran) (FS := sample_fortran_shapes)
           vars.standard (7 # 5) sample_data (1 # 10) sample_U0 0 1 2 3
           sample_world sample_ready).
Defined.





(** ** The conserved transform after the primitive derivation *)

Section TransformFacts.
Context {A : Arith}.
Variables (vs : vars.t) (gamma : num).

Ltac decide_positions :=
  unfold vars.ok, prim_distinct in *;
  repeat match goal with
         | |- context [?a =? ?b] => destruct (Z.eqb_spec a b); try lia
         end.


Lemma conserved_elements (V U : array3) (i j : Z) :
  vars.ok vs ->
  elt3 (conserved vs gamma V U) i j (vars.idens vs) = elt3 V i j (vars.irho vs) /\
  elt3 (conserved vs gamma V U) i j (vars.ixmom vs)
  = (elt3 V i j (vars.irho vs) * elt3 V i j (vars.iu vs))%num /\
  elt3 (conserved vs gamma V U) i j (vars.iymom vs)
  = (elt3 V i j (vars.irho vs) * elt3 V i j (vars.iv vs))%num /\
  elt3 (conserved vs gamma V U) i j (vars.iener vs)
  = (elt3 V i j (vars.ip vs) / (gamma - lit 1)
     + lit (1 # 2) * elt3 V i j (vars.irho vs)
       * (elt3 V i j (vars.iu vs) * elt3 V i j (vars.iu vs)
          + elt3 V i j (vars.iv vs) * elt3 V i j (vars.iv vs)))%num.
Proof.
  intros Hvs.
  unfold conserved. cbv zeta. cbn [elt3 put_comp].
  repeat split; decide_positions; reflexivity.
Qed.
End TransformFacts.





(** ** Running [fluxes] *)

Lemma py_slice_plain (n lo hi : Z) :
  0 <= lo <= hi -> hi <= n -> py_slice n lo hi = (lo, hi - lo).
Proof.
  intros H1 H2. unfold py_slice, py_bound.
  destruct (Z.ltb_spec lo 0); [lia|]. destruct (Z.ltb_spec hi 0); [lia|].
  f_equal; lia.
Qed.

Section ViewFacts.
Context {A : Arith}.
Variable g : Grid2d.
Hypothesis Hg : grid_ok g.

Lemma slice2_plain (a : array2) (lo0 hi0 lo1 hi1 : Z) :
  0 <= lo0 <= hi0 -> hi0 <= rows a -> 0 <= lo1 <= hi1 -> hi1 <= cols a ->
  slice2 a lo0 hi0 lo1 hi1 = window2 a lo0 (hi0 - lo0) lo1 (hi1 - lo1).
Proof.
  intros. unfold slice2. rewrite !py_slice_plain by assumption. reflexivity.
Qed.

Lemma set_slice3_plain (a : array3) (lo0 hi0 lo1 hi1 n : Z) (x : array2) :
  0 <= lo0 <= hi0 -> hi0 <= dim0 a -> 0 <= lo1 <= hi1 -> hi1 <= dim1 a ->
  0 <= n < dim2 a -> rows x = hi0 - lo0 -> cols x = hi1 - lo1 ->
  set_slice3 a lo0 hi0 lo1 hi1 n x
  = Ok (put_window a lo0 (hi0 - lo0) lo1 (hi1 - lo1) n x).
Proof.
  intros H0 H1 H2 H3 Hn R Cx. unfold set_slice3.
  rewrite py_index_plain by assumption. cbn [rbind].
  rewrite !py_slice_plain by assumption.
  rewrite (proj2 (Z.eqb_eq _ _) R), (proj2 (Z.eqb_eq _ _) Cx). reflexivity.
Qed.


Lemma ip_jp2_plain (a : array2) (ishift jshift : Z) (buf : Z * Z) :
  on_grid2 g a -> view_fits g ishift jshift buf ->
  ip_jp2 g a ishift jshift buf
  = window2 a (view_s0 g ishift buf) (view_l0 g buf) (view_s1 g jshift buf) (view_l1 g buf).
Proof.
  intros [R Cx] (B0 & B1 & F0 & F1 & F2 & F3).
  destruct Hg as (G0 & G1 & G2 & G3 & G4 & G5 & G6).
  unfold ip_jp2. rewrite slice2_plain by lia.
  unfold view_s0, view_l0, view_s1, view_l1. f_equal; lia.
Qed.

Lemma ip_jp_plain (a : array3) (ishift jshift : Z) (buf : Z * Z) (n k : Z) :
  on_grid g k a -> 0 <= n < k -> view_fits g ishift jshift buf ->
  ip_jp g a ishift jshift buf n
  = Ok (window2 (comp_of a n) (view_s0 g ishift buf) (view_l0 g buf)
                (view_s1 g jshift buf) (view_l1 g buf)).
Proof.
  intros (D0 & D1 & D2) Hn Hf. unfold ip_jp, slice3.
  rewrite comp_plain by lia. cbn [rbind]. f_equal.
  apply (ip_jp2_plain (comp_of a n)); [|exact Hf].
  split; cbn; assumption.
Qed.

Lemma set_ip_jp_plain (a : array3) (ishift jshift : Z) (buf : Z * Z) (n k : Z)
      (x : array2) :
  on_grid g k a -> 0 <= n < k -> view_fits g ishift jshift buf ->
  rows x = view_l0 g buf -> cols x = view_l1 g buf ->
  set_ip_jp g a ishift jshift buf n x
  = Ok (put_window a (view_s0 g ishift buf) (view_l0 g buf)
                   (view_s1 g jshift buf) (view_l1 g buf) n x).
Proof.
  intros (D0 & D1 & D2) Hn (B0 & B1 & F0 & F1 & F2 & F3) R Cx.
  destruct Hg as (G0 & G1 & G2 & G3 & G4 & G5 & G6).
  unfold view_l0, view_l1 in *.
  unfold set_ip_jp. rewrite set_slice3_plain by lia.
  unfold view_s0, view_l0, view_s1, view_l1. f_equal. f_equal; lia.
Qed.

(** The cells of a window are the cells of the view. *)
Lemma inside_view (ishift jshift : Z) (buf : Z * Z) (i j : Z) :
  inside (view_s0 g ishift buf) (view_l0 g buf) i
  && inside (view_s1 g jshift buf) (view_l1 g buf) j
  = in_view g ishift jshift buf i j.
Proof.
  unfold inside, in_view, view_s0, view_l0, view_s1, view_l1.
  apply eq_true_iff_eq. rewrite !andb_true_iff, !Z.leb_le, !Z.ltb_lt. lia.
Qed.
End ViewFacts.

Section ForRange.
Context {A : Arith}.
Variable body : Z -> M unit.
Variable Inv : Z -> world -> Prop.

Lemma for_each_inv (k : Z) :
  (forall n w, 0 <= n < k -> Inv n w ->
               exists w', body n w = (Ok tt, w') /\ Inv (n + 1) w') ->
  forall fuel n w,
    0 <= n -> Z.of_nat fuel = k - n -> Inv n w ->
    exists w', for_each fuel n body w = (Ok tt, w') /\ Inv k w'.
Proof.
  intros Hstep. induction fuel as [|fuel IH]; intros n w Hn Hf Hinv.
  - exists w. split; [reflexivity|]. replace k with n by lia. exact Hinv.
  - destruct (Hstep n w) as [w1 [E1 I1]]; [lia|exact Hinv|].
    destruct (IH (n + 1) w1) as [w2 [E2 I2]]; [lia|lia|exact I1|].
    exists w2. split; [|exact I2].
    cbn [for_each]. eapply bind_run; [exact E1|exact E2].
Qed.

(** [for n in range(k)] with an invariant. *)
Lemma for_range_inv (k : Z) (w : world) :
  0 <= k -> Inv 0 w ->
  (forall n w, 0 <= n < k -> Inv n w ->
               exists w', body n w = (Ok tt, w') /\ Inv (n + 1) w') ->
  exists w', for_range k body w = (Ok tt, w') /\ Inv k w'.
Proof.
  intros Hk H0 Hstep. unfold for_range.
  apply (for_each_inv k Hstep); [lia|lia|exact H0].
Qed.
End ForRange.

Section RKLoops.
Context {A : Arith} {C : Collaborators} {CS : CollaboratorShapes}.
Variables (g : Grid2d) (ivars : vars.t) (q : array3).
Hypothesis Hg : grid_ok g.
Hypothesis Hng : 3 <= ng g.
Hypothesis Hnv : 0 <= vars.nvar ivars.
Hypothesis Hq : on_grid g (vars.nvar ivars) q.

Local Abbreviation nv := (vars.nvar ivars).

Lemma upto_succ (k : Z) : 0 <= k -> upto (k + 1) = upto k ++ [k].
Proof.
  intros Hk. unfold upto.
  replace (Z.to_nat (k + 1)) with (S (Z.to_nat k)) by lia.
  rewrite seq_S, map_app. cbn [map Nat.add]. rewrite Z2Nat.id by lia. reflexivity.
Qed.

Lemma limit_calls_succ (limiter k : Z) :
  0 <= k ->
  limit_calls q limiter (k + 1)
  = limit_calls q limiter k
    ++ [EvLimit (comp_of q k) 1 limiter; EvLimit (comp_of q k) 2 limiter].
Proof.
  intros Hk. unfold limit_calls. rewrite upto_succ by exact Hk.
  rewrite flat_map_app. cbn [flat_map]. rewrite app_nil_r. reflexivity.
Qed.

Lemma scale_plain (xi : coefficient) (a : array2) :
  xi_fits g xi -> on_grid2 g a -> scale xi a = Ok (scaled xi a).
Proof.
  intros Hxi [R Cx]. destruct xi as [c|x]; [reflexivity|].
  destruct Hxi as [R' C']. cbn [scale scaled]. apply ew2_plain; congruence.
Qed.

Lemma scaled_on_grid (xi : coefficient) (a : array2) :
  xi_fits g xi -> on_grid2 g a -> on_grid2 g (scaled xi a).
Proof.
  intros Hxi Ha. destruct xi as [c|x]; [exact Ha|exact Hxi].
Qed.

(** The limiting loop fills the two slope arrays and makes its calls in
    the order of the variables. *)
Lemma limit_slopes_run (xi : coefficient) (limiter : Z) (ldx ldy : loc)
      (Lx Ly : array3) (w : world) :
  xi_fits g xi -> ldx <> ldy ->
  heap w ldx = Some Lx -> heap w ldy = Some Ly ->
  on_grid g nv Lx -> on_grid g nv Ly ->
  exists w' Lx' Ly',
    limit_slopes g ivars q xi limiter ldx ldy w = (Ok tt, w') /\
    next w' = next w /\
    trace w' = trace w ++ limit_calls q limiter nv /\
    heap w' ldx = Some Lx' /\ heap w' ldy = Some Ly' /\
    (forall l, l <> ldx -> l <> ldy -> heap w' l = heap w l) /\
    slopes_of g nv q xi limiter 1 Lx' /\ slopes_of g nv q xi limiter 2 Ly'.
Proof.
  intros Hxi Hne HLx HLy Gx Gy.
  destruct (for_range_inv
    (fun n =>
       (qn <- lift (comp q n) ;;
        l <- call_limit qn g 1 limiter ;;
        x <- lift (scale xi l) ;;
        modify ldx (fun a => set_comp a n x) ;;
        qn <- lift (comp q n) ;;
        l <- call_limit qn g 2 limiter ;;
        x <- lift (scale xi l) ;;
        modify ldy (fun a => set_comp a n x))%M)
    (fun N w1 =>
       next w1 = next w /\
       trace w1 = trace w ++ limit_calls q limiter N /\
       (forall l, l <> ldx -> l <> ldy -> heap w1 l = heap w l) /\
       exists Lx' Ly',
         heap w1 ldx = Some Lx' /\ heap w1 ldy = Some Ly' /\
         on_grid g nv Lx' /\ on_grid g nv Ly' /\
         forall i j n, 0 <= n < N ->
           elt3 Lx' i j n = elt2 (limited_slope g q xi limiter 1 n) i j /\
           elt3 Ly' i j n = elt2 (limited_slope g q xi limiter 2 n) i j)
    nv w Hnv) as (w' & E & X & T & K & Lx' & Ly' & Hx & Hy & Gx' & Gy' & Hel).
  - split; [reflexivity|]. split; [cbn; rewrite app_nil_r; reflexivity|].
    split; [reflexivity|]. exists Lx, Ly.
    split; [exact HLx|]. split; [exact HLy|]. split; [exact Gx|].
    split; [exact Gy|]. intros; lia.
  - intros n w1 Hn (X1 & T1 & K1 & Lx1 & Ly1 & Hx1 & Hy1 & Gx1 & Gy1 & Hel1).
    pose proof Hq as (q0 & q1 & q2).
    pose proof Gx1 as (x0 & x1 & x2). pose proof Gy1 as (y0 & y1 & y2).
    pose proof (reconstruction_limit_shape (comp_of q n) g 1 limiter) as S1.
    pose proof (reconstruction_limit_shape (comp_of q n) g 2 limiter) as S2.
    pose proof (scaled_on_grid xi _ Hxi S1) as [sx0 sx1].
    pose proof (scaled_on_grid xi _ Hxi S2) as [sy0 sy1].
    eexists. split.
    + eapply bind_run; [apply lift_run; apply comp_plain; lia|].
      unfold call_limit.
      eapply bind_run; [eapply bind_run; [reflexivity|reflexivity]|].
      eapply bind_run; [apply lift_run; apply scale_plain; assumption|].
      eapply bind_run.
      { eapply modify_run; [cbn [heap]; exact Hx1|].
        apply set_comp_plain; [lia|congruence|congruence]. }
      eapply bind_run; [apply lift_run; apply comp_plain; lia|].
      eapply bind_run; [eapply bind_run; [reflexivity|reflexivity]|].
      eapply bind_run; [apply lift_run; apply scale_plain; assumption|].
      eapply modify_run.
      { cbn [heap]. rewrite put_other by congruence. exact Hy1. }
      apply set_comp_plain; [lia|congruence|congruence].
    + cbn [heap next trace]. split; [exact X1|]. split.
      { rewrite T1, limit_calls_succ by lia. rewrite <- !app_assoc. reflexivity. }
      split.
      { intros l H1 H2. rewrite !put_other by assumption. apply K1; assumption. }
      eexists. eexists.
      split; [rewrite put_other by congruence; apply put_same|].
      split; [apply put_same|].
      split; [unfold on_grid; cbn; lia|]. split; [unfold on_grid; cbn; lia|].
      intros i j m Hm. cbn [elt3 put_comp].
      destruct (Z.eqb_spec m n) as [->|Hmn].
      * split; reflexivity.
      * apply Hel1. lia.
  - exists w', Lx', Ly'. split; [exact E|]. split; [exact X|]. split; [exact T|].
    split; [exact Hx|]. split; [exact Hy|]. split; [exact K|].
    split; (split; [assumption|]); intros i j n Hn; apply Hel; exact Hn.
Qed.
End RKLoops.

Section RKSweep.
Context {A : Arith}.
Variables (g : Grid2d) (ivars : vars.t) (q : array3).
Hypothesis Hg : grid_ok g.
Hypothesis Hng : 3 <= ng g.
Hypothesis Hnv : 0 <= vars.nvar ivars.
Hypothesis Hq : on_grid g (vars.nvar ivars) q.

Local Abbreviation nv := (vars.nvar ivars).

Lemma view_fits_sweep (ishift jshift : Z) :
  0 <= ishift <= 1 -> 0 <= jshift <= 1 -> view_fits g ishift jshift (2, 2).
Proof.
  intros Hi Hj. destruct Hg as (G0 & G1 & G2 & G3 & G4 & G5 & G6).
  unfold view_fits. cbn [fst snd]. lia.
Qed.

(** One sweep: the views of every variable are written, left states
    shifted by [(ishift, jshift)]; nothing is called. *)
Lemma sweep_states_run (ld V_l V_r : loc) (ishift jshift : Z)
      (L Vl0 Vr0 : array3) (w : world) :
  0 <= ishift <= 1 -> 0 <= jshift <= 1 ->
  V_l <> V_r -> ld <> V_l -> ld <> V_r ->
  heap w ld = Some L -> heap w V_l = Some Vl0 -> heap w V_r = Some Vr0 ->
  on_grid g nv L -> on_grid g nv Vl0 -> on_grid g nv Vr0 ->
  exists w' Vl Vr,
    sweep_states g ivars q ld V_l V_r ishift jshift w = (Ok tt, w') /\
    next w' = next w /\ trace w' = trace w /\
    heap w' V_l = Some Vl /\ heap w' V_r = Some Vr /\
    (forall l, l <> V_l -> l <> V_r -> heap w' l = heap w l) /\
    on_grid g nv Vl /\ on_grid g nv Vr /\
    swept g nv q L ishift jshift Vl0 Vr0 Vl Vr.
Proof.
  intros Hi Hj N1 N2 N3 HL HVl HVr GL GVl GVr.
  pose proof (view_fits_sweep ishift jshift Hi Hj) as Fs.
  pose proof (view_fits_sweep 0 0 ltac:(lia) ltac:(lia)) as F0.
  destruct (for_range_inv
    (fun n =>
       (qv <- lift (ip_jp g q 0 0 (2, 2) n) ;;
        ld_ <- load ld ;;
        lv <- lift (ip_jp g ld_ 0 0 (2, 2) n) ;;
        x <- lift (ew2 add qv (map2 (fun y => (lit (1 # 2) * y)%num) lv)) ;;
        modify V_l (fun a => set_ip_jp g a ishift jshift (2, 2) n x) ;;
        qv <- lift (ip_jp g q 0 0 (2, 2) n) ;;
        ld_ <- load ld ;;
        lv <- lift (ip_jp g ld_ 0 0 (2, 2) n) ;;
        x <- lift (ew2 sub qv (map2 (fun y => (lit (1 # 2) * y)%num) lv)) ;;
        modify V_r (fun a => set_ip_jp g a 0 0 (2, 2) n x))%M)
    (fun N w1 =>
       next w1 = next w /\ trace w1 = trace w /\
       (forall l, l <> V_l -> l <> V_r -> heap w1 l = heap w l) /\
       exists Vl Vr,
         heap w1 V_l = Some Vl /\ heap w1 V_r = Some Vr /\
         on_grid g nv Vl /\ on_grid g nv Vr /\
         swept g N q L ishift jshift Vl0 Vr0 Vl Vr)
    nv w Hnv) as (w' & E & X & T & K & Vl & Vr & H1 & H2 & G1 & G2 & Hs).
  - split; [reflexivity|]. split; [reflexivity|]. split; [reflexivity|].
    exists Vl0, Vr0. split; [exact HVl|]. split; [exact HVr|].
    split; [exact GVl|]. split; [exact GVr|].
    intros i j n. destruct (Z.leb_spec 0 n); destruct (Z.ltb_spec n 0);
      cbn [andb]; try lia; split; reflexivity.
  - intros n w1 Hn (X1 & T1 & K1 & Vl & Vr & H1 & H2 & G1 & G2 & Hs).
    assert (HL1 : heap w1 ld = Some L) by (rewrite K1 by assumption; exact HL).
    eexists. split.
    + eapply bind_run; [apply lift_run; eapply ip_jp_plain; eassumption|].
      eapply bind_run; [apply load_run; exact HL1|].
      eapply bind_run; [apply lift_run; eapply ip_jp_plain; eassumption|].
      eapply bind_run; [apply lift_run; apply ew2_plain; reflexivity|].
      eapply bind_run.
      { eapply modify_run; [exact H1|].
        eapply set_ip_jp_plain; try eassumption; reflexivity. }
      eapply bind_run; [apply lift_run; eapply ip_jp_plain; eassumption|].
      eapply bind_run.
      { apply load_run. cbn [heap]. rewrite put_other by assumption. exact HL1. }
      eapply bind_run; [apply lift_run; eapply ip_jp_plain; eassumption|].
      eapply bind_run; [apply lift_run; apply ew2_plain; reflexivity|].
      eapply modify_run.
      { cbn [heap]. rewrite put_other by congruence. exact H2. }
      eapply set_ip_jp_plain; try eassumption; reflexivity.
    + cbn [heap next trace]. split; [exact X1|]. split; [exact T1|]. split.
      { intros l L1 L2. rewrite !put_other by assumption. apply K1; assumption. }
      eexists. eexists.
      split; [rewrite put_other by congruence; apply put_same|].
      split; [apply put_same|].
      split; [destruct G1 as (? & ? & ?); unfold on_grid; cbn; auto|].
      split; [destruct G2 as (? & ? & ?); unfold on_grid; cbn; auto|].
      intros i j m. destruct (Hs i j m) as [Sl Sr].
      cbn [elt3 put_window]. rewrite !inside_view, Sl, Sr.
      assert (Hb : (0 <=? m) && (m <? n + 1)
                   = ((0 <=? m) && (m <? n)) || (m =? n)).
      { apply eq_true_iff_eq.
        rewrite orb_true_iff, !andb_true_iff, !Z.leb_le, !Z.ltb_lt, Z.eqb_eq. lia. }
      assert (Hc : (m =? n) = true -> (0 <=? m) && (m <? n) = false).
      { intros Em. apply Z.eqb_eq in Em. apply andb_false_iff. right.
        apply Z.ltb_ge. lia. }
      rewrite Hb. clear Hb Sl Sr.
      destruct (m =? n) eqn:Em.
      * rewrite (Hc eq_refl). apply Z.eqb_eq in Em. subst m.
        rewrite !andb_true_r. cbn [orb andb].
        split.
        -- destruct (in_view g ishift jshift (2, 2) i j); [|reflexivity].
           unfold state_left, zip2, map2, window2, comp_of, view_s0, view_s1.
           cbn [elt2 fst snd].
           replace (ilo g - 2 + 0 + (i - (ilo g - 2 + ishift)))
             with (i - ishift) by lia.
           replace (jlo g - 2 + 0 + (j - (jlo g - 2 + jshift)))
             with (j - jshift) by lia.
           reflexivity.
        -- destruct (in_view g 0 0 (2, 2) i j); [|reflexivity].
           unfold state_right, zip2, map2, window2, comp_of, view_s0, view_s1.
           cbn [elt2 fst snd].
           replace (ilo g - 2 + 0 + (i - (ilo g - 2 + 0))) with i by lia.
           replace (jlo g - 2 + 0 + (j - (jlo g - 2 + 0))) with j by lia.
           reflexivity.
      * rewrite !andb_false_r, !orb_false_r. split; reflexivity.
  - exists w', Vl, Vr. split; [exact E|]. split; [exact X|]. split; [exact T|].
    split; [exact H1|]. split; [exact H2|]. split; [exact K|].
    split; [exact G1|]. split; [exact G2|]. exact Hs.
Qed.
End RKSweep.

Section RKStates.
Context {A : Arith} {C : Collaborators} {CS : CollaboratorShapes}.
Variables (my_data : CellCenterData2d) (rp : RuntimeParameters) (ivars : vars.t).
Variable U0 : array3.

Local Abbreviation g := (grid my_data).
Local Abbreviation nv := (vars.nvar ivars).
Local Abbreviation q := (cons_to_prim U0 (eos_gamma rp) ivars (grid my_data)).
Local Abbreviation xi := (rk_xi (grid my_data) q ivars rp).
Local Abbreviation limiter := (compressible_limiter rp).

Lemma flattening_run (w : world) :
  flattening g q ivars rp w
  = (Ok xi, {| heap := heap w; next := next w;
               trace := trace w ++ flattening_calls g q ivars rp |}).
Proof.
  unfold flattening, rk_xi, flattening_calls.
  destruct (compressible_use_flattening rp =? 0).
  - unfold ret. rewrite app_nil_r. destruct w; reflexivity.
  - unfold bind, log, ret. cbn [heap next trace].
    rewrite <- !app_assoc. reflexivity.
Qed.

Lemma rk_xi_fits : xi_fits g xi.
Proof.
  unfold rk_xi. destruct (compressible_use_flattening rp =? 0); [exact I|].
  apply reconstruction_flatten_multid_shape.
Qed.

Lemma zeros3_on_grid (k : Z) : on_grid g k (zeros3 (qx g) (qy g) k).
Proof. repeat split. Qed.

(** Lines 104-192 run to their end; the four arrays given to
    [prim_to_cons] are the state arrays after the x sweep and after the
    y sweep, the second pair written over the first. *)
Lemma interface_states_run (w : world) :
  rk_ready ivars U0 my_data w ->
  exists w' Lx Ly Vxl Vxr Vyl Vyr,
    interface_states my_data rp ivars w
    = (Ok (q, (prim_to_cons Vxl (eos_gamma rp) ivars g,
               prim_to_cons Vxr (eos_gamma rp) ivars g),
              (prim_to_cons Vyl (eos_gamma rp) ivars g,
               prim_to_cons Vyr (eos_gamma rp) ivars g)), w') /\
    trace w' = trace w ++ [EvConsToPrim U0] ++ flattening_calls g q ivars rp
                       ++ limit_calls q limiter nv
                       ++ [EvPrimToCons Vxl; EvPrimToCons Vxr;
                           EvPrimToCons Vyl; EvPrimToCons Vyr] /\
    next w' = (next w + 4)%nat /\
    (forall l, (l < next w)%nat -> heap w' l = heap w l) /\
    slopes_of g nv q xi limiter 1 Lx /\ slopes_of g nv q xi limiter 2 Ly /\
    swept g nv q Lx 1 0 (zeros3 (qx g) (qy g) nv) (zeros3 (qx g) (qy g) nv) Vxl Vxr /\
    swept g nv q Ly 0 1 Vxl Vxr Vyl Vyr.
Proof.
  intros (Hg & Hng & Hvs & Hle & (kd & kx & ky & ke & Hn) & HU & Hd & GU).
  destruct Hn as (Nd & Nx & Ny & Ne & _).
  assert (Hnv : 0 <= nv) by (destruct Hvs as [? _]; lia).
  pose proof (cons_to_prim_shape U0 (eos_gamma rp) ivars g) as Hq.
  pose proof rk_xi_fits as Hxi.
  set (w1 := {| heap := heap w; next := next w;
                trace := (trace w ++ [EvConsToPrim U0])
                           ++ flattening_calls g q ivars rp |}).
  set (h2 := put (put (heap w) (next w) (zeros3 (qx g) (qy g) nv))
                 (S (next w)) (zeros3 (qx g) (qy g) nv)).
  set (w2 := {| heap := h2; next := S (S (next w)); trace := trace w1 |}).
  destruct (limit_slopes_run g ivars q Hnv Hq xi limiter (next w) (S (next w))
              (zeros3 (qx g) (qy g) nv) (zeros3 (qx g) (qy g) nv) w2)
    as (w3 & Lx & Ly & E3 & X3 & T3 & HLx & HLy & K3 & Sx & Sy);
    [exact Hxi|lia| | |apply zeros3_on_grid|apply zeros3_on_grid|].
  { unfold w2, h2. cbn [heap]. rewrite put_other by lia. apply put_same. }
  { unfold w2, h2. cbn [heap]. apply put_same. }
  set (Vl := next w3). set (Vr := S (next w3)).
  set (h4 := put (put (heap w3) Vl (zeros3 (qx g) (qy g) nv))
                 Vr (zeros3 (qx g) (qy g) nv)).
  set (w4 := {| heap := h4; next := S (S (next w3)); trace := trace w3 |}).
  assert (X3' : next w3 = S (S (next w))) by exact X3.
  assert (HLx4 : heap w4 (next w) = Some Lx).
  { unfold w4, h4, Vl, Vr. cbn [heap]. rewrite !put_other by lia. exact HLx. }
  assert (HLy4 : heap w4 (S (next w)) = Some Ly).
  { unfold w4, h4, Vl, Vr. cbn [heap]. rewrite !put_other by lia. exact HLy. }
  destruct (sweep_states_run g ivars q Hg Hng Hnv Hq (next w) Vl Vr 1 0
              Lx (zeros3 (qx g) (qy g) nv) (zeros3 (qx g) (qy g) nv) w4)
    as (w5 & Vxl & Vxr & E5 & X5 & T5 & HVl5 & HVr5 & K5 & GVxl & GVxr & S5);
    [lia|lia|unfold Vl, Vr; lia|unfold Vl; lia|unfold Vr; lia|exact HLx4
     | | |apply Sx|apply zeros3_on_grid|apply zeros3_on_grid|].
  { unfold w4, h4. cbn [heap]. rewrite put_other by (unfold Vl, Vr; lia).
    apply put_same. }
  { unfold w4, h4. cbn [heap]. apply put_same. }
  set (w6 := {| heap := heap w5; next := next w5;
                trace := (trace w5 ++ [EvPrimToCons Vxl]) ++ [EvPrimToCons Vxr] |}).
  assert (HLy6 : heap w6 (S (next w)) = Some Ly).
  { unfold w6. cbn [heap]. rewrite K5 by (unfold Vl, Vr; lia). exact HLy4. }
  destruct (sweep_states_run g ivars q Hg Hng Hnv Hq (S (next w)) Vl Vr 0 1
              Ly Vxl Vxr w6)
    as (w7 & Vyl & Vyr & E7 & X7 & T7 & HVl7 & HVr7 & K7 & GVyl & GVyr & S7);
    [lia|lia|unfold Vl, Vr; lia|unfold Vl; lia|unfold Vr; lia|exact HLy6
     |exact HVl5|exact HVr5|apply Sy|exact GVxl|exact GVxr|].
  exists {| heap := heap w7; next := next w7;
            trace := (trace w7 ++ [EvPrimToCons Vyl]) ++ [EvPrimToCons Vyr] |}.
  exists Lx, Ly, Vxl, Vxr, Vyl, Vyr.
  split.
  { unfold interface_states.
    eapply bind_run; [apply getVarPtr_run; exact Nd|].
    eapply bind_run; [apply getVarPtr_run; exact Nx|].
    eapply bind_run; [apply getVarPtr_run; exact Ny|].
    eapply bind_run; [apply getVarPtr_run; exact Ne|].
    eapply bind_run; [apply load_run; exact HU|].
    eapply bind_run; [reflexivity|].
    eapply bind_run; [apply flattening_run|].
    eapply bind_run; [reflexivity|].
    eapply bind_run; [reflexivity|].
    eapply bind_run; [exact E3|].
    eapply bind_run; [reflexivity|].
    eapply bind_run; [reflexivity|].
    eapply bind_run; [exact E5|].
    eapply bind_run; [apply load_run; exact HVl5|].
    eapply bind_run; [reflexivity|].
    eapply bind_run; [apply load_run; exact HVr5|].
    eapply bind_run; [reflexivity|].
    eapply bind_run; [exact E7|].
    eapply bind_run; [apply load_run; exact HVl7|].
    eapply bind_run; [reflexivity|].
    eapply bind_run; [apply load_run; cbn [heap]; exact HVr7|].
    reflexivity. }
  cbn [heap next trace].
  split.
  { rewrite T7. unfold w6. cbn [trace]. rewrite T5. unfold w4. cbn [trace].
    rewrite T3. unfold w2, w1. cbn [trace]. rewrite <- !app_assoc. reflexivity. }
  split.
  { rewrite X7. unfold w6. cbn [next]. rewrite X5. unfold w4. cbn [next].
    rewrite X3'. lia. }
  split.
  { intros l Hl. rewrite K7 by (unfold Vl, Vr; lia). unfold w6. cbn [heap].
    rewrite K5 by (unfold Vl, Vr; lia). unfold w4, h4. cbn [heap].
    rewrite !put_other by (unfold Vl, Vr; lia).
    rewrite K3 by lia. unfold w2, h2. cbn [heap].
    rewrite !put_other by lia. reflexivity. }
  split; [exact Sx|]. split; [exact Sy|]. split; [exact S5|exact S7].
Qed.
End RKStates.

Section RKViscosity.
Context {A : Arith}.
Variables (my_data : CellCenterData2d) (ivars : vars.t) (U0 : array3).

Local Abbreviation g := (grid my_data).
Local Abbreviation nv := (vars.nvar ivars).

Hypothesis Hg : grid_ok g.
Hypothesis Hng : 3 <= ng g.
Hypothesis Hnv : 0 <= nv <= nvar my_data.
Hypothesis GU : on_grid g (nvar my_data) U0.

Lemma get_var_by_index_run (n : Z) (w : world) :
  heap w (data my_data) = Some U0 -> 0 <= n < nvar my_data ->
  get_var_by_index my_data n w
  = (Ok {| base := data my_data; component := n |}, w).
Proof.
  intros H Hn. destruct GU as (_ & _ & D2). unfold get_var_by_index.
  eapply bind_run; [apply load_run; exact H|].
  eapply bind_run; [apply lift_run; apply py_index_plain; lia|]. reflexivity.
Qed.

Lemma view_fits_viscosity (ishift jshift : Z) :
  -1 <= ishift <= 0 -> -1 <= jshift <= 0 -> view_fits g ishift jshift (2, 1).
Proof.
  intros Hi Hj. destruct Hg as (G0 & G1 & G2 & G3 & G4 & G5 & G6).
  unfold view_fits. cbn [fst snd]. lia.
Qed.

(** The viscosity loop adds its term to the two flux arrays, variable by
    variable, and calls nothing. *)
Lemma add_viscosity_run (ax ay : array2) (F_x F_y : loc) (Fx0 Fy0 : array3)
      (w : world) :
  F_x <> F_y -> F_x <> data my_data -> F_y <> data my_data ->
  heap w (data my_data) = Some U0 ->
  heap w F_x = Some Fx0 -> heap w F_y = Some Fy0 ->
  on_grid g nv Fx0 -> on_grid g nv Fy0 -> on_grid2 g ax -> on_grid2 g ay ->
  exists w' Fx Fy,
    add_viscosity g ivars my_data ax ay F_x F_y w = (Ok tt, w') /\
    next w' = next w /\ trace w' = trace w /\
    heap w' F_x = Some Fx /\ heap w' F_y = Some Fy /\
    (forall l, l <> F_x -> l <> F_y -> heap w' l = heap w l) /\
    forall i j n,
      elt3 Fx i j n = viscous g nv 1 0 Fx0 ax U0 i j n /\
      elt3 Fy i j n = viscous g nv 0 1 Fy0 ay U0 i j n.
Proof.
  intros N1 N2 N3 HU HFx HFy GFx GFy Gax Gay.
  pose proof (view_fits_viscosity 0 0 ltac:(lia) ltac:(lia)) as F00.
  pose proof (view_fits_viscosity (-1) 0 ltac:(lia) ltac:(lia)) as F10.
  pose proof (view_fits_viscosity 0 (-1) ltac:(lia) ltac:(lia)) as F01.
  unfold add_viscosity. cbv zeta.
  match goal with
  | |- exists w' Fx Fy, for_range _ ?body w = _ /\ _ =>
    destruct (for_range_inv body
      (fun N w1 =>
         next w1 = next w /\ trace w1 = trace w /\
         (forall l, l <> F_x -> l <> F_y -> heap w1 l = heap w l) /\
         exists Fx Fy,
           heap w1 F_x = Some Fx /\ heap w1 F_y = Some Fy /\
           on_grid g nv Fx /\ on_grid g nv Fy /\
           forall i j n,
             elt3 Fx i j n = viscous g N 1 0 Fx0 ax U0 i j n /\
             elt3 Fy i j n = viscous g N 0 1 Fy0 ay U0 i j n)
      nv w (proj1 Hnv))
      as (w' & E & X & T & K & Fx & Fy & H1 & H2 & G1 & G2 & Hs)
  end.
  - split; [reflexivity|]. split; [reflexivity|]. split; [reflexivity|].
    exists Fx0, Fy0. split; [exact HFx|]. split; [exact HFy|].
    split; [exact GFx|]. split; [exact GFy|].
    intros i j n. unfold viscous.
    destruct (Z.leb_spec 0 n); destruct (Z.ltb_spec n 0);
      cbn [andb]; try lia; split; reflexivity.
  - intros n w1 Hn (X1 & T1 & K1 & Fx & Fy & H1 & H2 & G1 & G2 & Hs).
    assert (HU1 : heap w1 (data my_data) = Some U0)
      by (rewrite K1 by congruence; exact HU).
    assert (GUn : on_grid2 g (comp_of U0 n))
      by (destruct GU as (? & ? & ?); split; assumption).
    assert (Dn : 0 <= n < dim2 U0) by (destruct GU as (? & ? & ->); lia).
    eexists. split.
    + eapply bind_run; [apply get_var_by_index_run; [exact HU1|lia]|].
      eapply bind_run; [apply load_run; exact H1|].
      eapply bind_run; [apply lift_run; eapply ip_jp_plain; eassumption|].
      eapply bind_run; [apply read_run; [exact HU1|exact Dn]|].
      cbn [component].
      rewrite !(ip_jp2_plain g Hg (comp_of U0 n)) by assumption.
      rewrite (ip_jp2_plain g Hg ax) by assumption.
      eapply bind_run; [apply lift_run; apply ew2_plain; reflexivity|].
      eapply bind_run; [apply lift_run; apply ew2_plain; reflexivity|].
      eapply bind_run; [apply lift_run; apply ew2_plain; reflexivity|].
      eapply bind_run.
      { eapply modify_run; [exact H1|].
        eapply set_ip_jp_plain; try eassumption; reflexivity. }
      eapply bind_run.
      { apply load_run. cbn [heap]. rewrite put_other by congruence. exact H2. }
      eapply bind_run; [apply lift_run; eapply ip_jp_plain; eassumption|].
      eapply bind_run.
      { apply read_run; [|exact Dn]. cbn [heap base].
        rewrite put_other by congruence. exact HU1. }
      cbn [component].
      rewrite !(ip_jp2_plain g Hg (comp_of U0 n)) by assumption.
      rewrite (ip_jp2_plain g Hg ay) by assumption.
      eapply bind_run; [apply lift_run; apply ew2_plain; reflexivity|].
      eapply bind_run; [apply lift_run; apply ew2_plain; reflexivity|].
      eapply bind_run; [apply lift_run; apply ew2_plain; reflexivity|].
      eapply modify_run.
      { cbn [heap]. rewrite put_other by congruence. exact H2. }
      eapply set_ip_jp_plain; try eassumption; reflexivity.
    + cbn [heap next trace]. split; [exact X1|]. split; [exact T1|]. split.
      { intros l L1 L2. rewrite !put_other by assumption. apply K1; assumption. }
      eexists. eexists.
      split; [rewrite put_other by congruence; apply put_same|].
      split; [apply put_same|].
      split; [destruct G1 as (? & ? & ?); unfold on_grid; cbn; auto|].
      split; [destruct G2 as (? & ? & ?); unfold on_grid; cbn; auto|].
      intros i j m. destruct (Hs i j m) as [Sl Sr].
      cbn [elt3 put_window]. rewrite !inside_view. unfold viscous in *.
      assert (Hb : (0 <=? m) && (m <? n + 1)
                   = ((0 <=? m) && (m <? n)) || (m =? n)).
      { apply eq_true_iff_eq.
        rewrite orb_true_iff, !andb_true_iff, !Z.leb_le, !Z.ltb_lt, Z.eqb_eq. lia. }
      assert (Hc : (m =? n) = true -> (0 <=? m) && (m <? n) = false).
      { intros Em. apply Z.eqb_eq in Em. apply andb_false_iff. right.
        apply Z.ltb_ge. lia. }
      rewrite Hb. clear Hb.
      destruct (m =? n) eqn:Em.
      * rewrite (Hc eq_refl) in *. apply Z.eqb_eq in Em. subst m.
        cbn [andb orb] in *. rewrite !andb_true_r.
        destruct (in_view g 0 0 (2, 1) i j); [|split; assumption].
        unfold zip2, window2, comp_of, view_s0, view_s1.
        cbn [elt2 fst snd].
        replace (ilo g - 2 + 0 + (i - (ilo g - 2 + 0))) with i by lia.
        replace (jlo g - 2 + 0 + (j - (jlo g - 2 + 0))) with j by lia.
        replace (ilo g - 2 + -1 + (i - (ilo g - 2 + 0))) with (i - 1) by lia.
        replace (jlo g - 2 + -1 + (j - (jlo g - 2 + 0))) with (j - 1) by lia.
        replace (i - 0) with i by lia. replace (j - 0) with j by lia.
        rewrite Sl, Sr. split; reflexivity.
      * rewrite !andb_false_r, !orb_false_r. cbn [andb]. split; assumption.
  - exists w', Fx, Fy. split; [exact E|]. split; [exact X|]. split; [exact T|].
    split; [exact H1|]. split; [exact H2|]. split; [exact K|]. exact Hs.
Qed.
End RKViscosity.

Section RKWhole.
Context {A : Arith} {C : Collaborators} {CS : CollaboratorShapes}.
Variables (my_data : CellCenterData2d) (rp : RuntimeParameters) (ivars : vars.t).
Variables (solid : Solid) (U0 : array3).

Local Abbreviation g := (grid my_data).
Local Abbreviation nv := (vars.nvar ivars).
Local Abbreviation gamma := (eos_gamma rp).
Local Abbreviation q := (cons_to_prim U0 (eos_gamma rp) ivars (grid my_data)).

Lemma view_fits_whole : grid_ok g -> view_fits g 0 0 (ng g, ng g).
Proof.
  intros (G0 & G1 & G2 & G3 & G4 & G5 & G6).
  unfold view_fits. cbn [fst snd]. lia.
Qed.

Lemma solved_on_grid (s : solver) (idir lo hi : Z) (Ul Ur : array3) :
  on_grid g nv (solved s idir g ivars lo hi gamma Ul Ur).
Proof.
  unfold solved. destruct s;
    [apply riemann_hllc_shape|apply riemann_cgf_shape].
Qed.

(** Lines 210-253 run to their end: two solver calls, the viscosity
    call, then the additive pass on the two solver results. *)
Lemma normal_fluxes_run (s : solver) (Uxl Uxr Uyl Uyr : array3) (w : world) :
  rk_ready ivars U0 my_data w ->
  let fx := solved s 1 g ivars (xl solid) (xr solid) gamma Uxl Uxr in
  let fy := solved s 2 g ivars (yl solid) (yr solid) gamma Uyl Uyr in
  let uq := velocity_view g q (vars.iu ivars) in
  let vq := velocity_view g q (vars.iv ivars) in
  let av := artificial_viscosity (qx g) (qy g) (ng g) (dx g) (dy g)
                                 (compressible_cvisc rp) uq vq in
  exists w' Fx Fy,
    normal_fluxes my_data rp ivars solid s q Uxl Uxr Uyl Uyr w = (Ok (Fx, Fy), w') /\
    trace w' = trace w ++ [EvRiemannSolver (solver_name s) 1 Uxl Uxr;
                           EvRiemannSolver (solver_name s) 2 Uyl Uyr;
                           EvArtificialViscosity uq vq] /\
    (forall l, (l < next w)%nat -> heap w' l = heap w l) /\
    forall i j n,
      elt3 Fx i j n = viscous g nv 1 0 fx (fst av) U0 i j n /\
      elt3 Fy i j n = viscous g nv 0 1 fy (snd av) U0 i j n.
Proof.
  intros (Hg & Hng & Hvs & Hle & _ & HU & Hd & GU) fx fy uq vq av.
  pose proof (cons_to_prim_shape U0 gamma ivars g) as Hq.
  pose proof (view_fits_whole Hg) as Fw.
  assert (Hnv : 0 <= nv <= nvar my_data) by (destruct Hvs as [? _]; lia).
  assert (Hiu : 0 <= vars.iu ivars < nv) by (unfold vars.ok in Hvs; tauto).
  assert (Hiv : 0 <= vars.iv ivars < nv) by (unfold vars.ok in Hvs; tauto).
  pose proof (artificial_viscosity_shape (qx g) (qy g) (ng g) (dx g) (dy g)
                (compressible_cvisc rp) uq vq) as [Sax Say].
  fold av in Sax, Say.
  set (F_x := next w). set (F_y := S (next w)).
  set (w4 := {| heap := put (put (heap w) F_x fx) F_y fy;
                next := S (S (next w));
                trace := ((trace w ++ [EvRiemannSolver (solver_name s) 1 Uxl Uxr])
                            ++ [EvRiemannSolver (solver_name s) 2 Uyl Uyr])
                           ++ [EvArtificialViscosity uq vq] |}).
  destruct (add_viscosity_run my_data ivars U0 Hg Hng Hnv GU (fst av) (snd av)
              F_x F_y fx fy w4)
    as (w5 & Fx & Fy & E5 & X5 & T5 & HFx & HFy & K5 & Hel);
    [unfold F_x, F_y; lia|unfold F_x; lia|unfold F_y; lia| | |
     |apply solved_on_grid|apply solved_on_grid|exact Sax|exact Say|].
  { unfold w4. cbn [heap]. rewrite !put_other by (unfold F_x, F_y; lia). exact HU. }
  { unfold w4. cbn [heap]. rewrite put_other by (unfold F_x, F_y; lia).
    apply put_same. }
  { unfold w4. cbn [heap]. apply put_same. }
  exists w5, Fx, Fy. split.
  { unfold normal_fluxes. cbv zeta.
    eapply bind_run; [reflexivity|].
    eapply bind_run; [reflexivity|].
    eapply bind_run; [reflexivity|].
    eapply bind_run; [reflexivity|].
    eapply bind_run; [apply lift_run; eapply ip_jp_plain; eassumption|].
    eapply bind_run; [apply lift_run; eapply ip_jp_plain; eassumption|].
    eapply bind_run; [reflexivity|].
    match goal with
    | |- context [artificial_viscosity ?a ?b ?c ?d ?e ?f ?u ?v] =>
      change (artificial_viscosity a b c d e f u v) with av
    end.
    destruct av as [_ax _ay]. cbn [fst snd] in *.
    eapply bind_run; [exact E5|].
    eapply bind_run; [apply load_run; exact HFx|].
    eapply bind_run; [apply load_run; exact HFy|]. reflexivity. }
  split.
  { rewrite T5. unfold w4. cbn [trace]. rewrite <- !app_assoc. reflexivity. }
  split.
  { intros l Hl. rewrite K5 by (unfold F_x, F_y; lia). unfold w4. cbn [heap].
    rewrite !put_other by (unfold F_x, F_y; lia). reflexivity. }
  exact Hel.
Qed.
End RKWhole.

Section RKTrace.
Context {A : Arith} {C : Collaborators}.

Lemma solver_calls_app (s t : list event) :
  solver_calls (s ++ t) = solver_calls s ++ solver_calls t.
Proof. apply filter_app. Qed.

Lemma prim_to_cons_calls_app (s t : list event) :
  prim_to_cons_calls (s ++ t) = prim_to_cons_calls s ++ prim_to_cons_calls t.
Proof. apply flat_map_app. Qed.

Lemma limit_calls_quiet (q : array3) (limiter k : Z) :
  solver_calls (limit_calls q limiter k) = [] /\
  prim_to_cons_calls (limit_calls q limiter k) = [].
Proof.
  unfold limit_calls. induction (upto k) as [|n l [IH1 IH2]].
  - split; reflexivity.
  - split; cbn; assumption.
Qed.

Lemma flattening_calls_quiet (g : Grid2d) (q : array3) (ivars : vars.t)
      (rp : RuntimeParameters) :
  solver_calls (flattening_calls g q ivars rp) = [] /\
  prim_to_cons_calls (flattening_calls g q ivars rp) = [].
Proof.
  unfold flattening_calls.
  destruct (compressible_use_flattening rp =? 0); split; reflexivity.
Qed.

(** Lines 104-192 call no solver and convert four arrays. *)
Lemma state_calls_quiet (g : Grid2d) (U0 : array3) (ivars : vars.t)
      (rp : RuntimeParameters) (Vxl Vxr Vyl Vyr : array3) :
  solver_calls (state_calls g U0 ivars rp Vxl Vxr Vyl Vyr) = [] /\
  prim_to_cons_calls (state_calls g U0 ivars rp Vxl Vxr Vyl Vyr)
  = [Vxl; Vxr; Vyl; Vyr].
Proof.
  unfold state_calls. cbv zeta.
  rewrite !solver_calls_app, !prim_to_cons_calls_app.
  destruct (limit_calls_quiet (cons_to_prim U0 (eos_gamma rp) ivars g)
                              (compressible_limiter rp) (vars.nvar ivars)) as [-> ->].
  destruct (flattening_calls_quiet g (cons_to_prim U0 (eos_gamma rp) ivars g)
                                   ivars rp) as [-> ->].
  split; reflexivity.
Qed.

Lemma select_solver_known (name : string) (s : solver) (w : world) :
  solver_named name = Some s ->
  select_solver name w = (Ok s, w) /\ solver_name s = name.
Proof.
  unfold solver_named, select_solver. intros H.
  destruct (String.eqb_spec name "HLLC") as [->|_].
  - injection H as <-. split; reflexivity.
  - destruct (String.eqb_spec name "CGF") as [->|_]; [|discriminate].
    injection H as <-. split; reflexivity.
Qed.

Lemma select_solver_unknown (name : string) (w : world) :
  solver_named name = None ->
  select_solver name w = (Raise (SystemExit "ERROR: Riemann solver undefined"), w).
Proof.
  unfold solver_named, select_solver. intros H.
  destruct (String.eqb name "HLLC"); [discriminate|].
  destruct (String.eqb name "CGF"); [discriminate|]. reflexivity.
Qed.

Lemma solver_named_none (name : string) :
  solver_named name = None <-> name <> "HLLC"%string /\ name <> "CGF"%string.
Proof.
  unfold solver_named.
  destruct (String.eqb_spec name "HLLC"); destruct (String.eqb_spec name "CGF");
    split; intros H; try discriminate; try tauto.
Qed.
End RKTrace.

Section RKRun.
Context {A : Arith} {C : Collaborators} {CS : CollaboratorShapes}.
Variables (my_data : CellCenterData2d) (rp : RuntimeParameters) (ivars : vars.t).
Variables (solid : Solid) (U0 : array3).

Local Abbreviation g := (grid my_data).
Local Abbreviation nv := (vars.nvar ivars).
Local Abbreviation gamma := (eos_gamma rp).
Local Abbreviation q := (cons_to_prim U0 (eos_gamma rp) ivars (grid my_data)).
Local Abbreviation xi := (rk_xi (grid my_data) q ivars rp).
Local Abbreviation limiter := (compressible_limiter rp).
Local Abbreviation zero := (zeros3 (qx (grid my_data)) (qy (grid my_data))
                                   (vars.nvar ivars)).

(** The whole of [fluxes]: the state arrays of the two sweeps, then
    either the failure of the solver selection or the two solver calls
    and the viscosity pass. *)
Lemma fluxes_run (w : world) :
  rk_ready ivars U0 my_data w ->
  exists Lx Ly Vxl Vxr Vyl Vyr,
    slopes_of g nv q xi limiter 1 Lx /\ slopes_of g nv q xi limiter 2 Ly /\
    swept g nv q Lx 1 0 zero zero Vxl Vxr /\
    swept g nv q Ly 0 1 Vxl Vxr Vyl Vyr /\
    let calls := state_calls g U0 ivars rp Vxl Vxr Vyl Vyr in
    match solver_named (compressible_riemann rp) with
    | None =>
      exists w',
        fluxes my_data rp ivars solid w
        = (Raise (SystemExit "ERROR: Riemann solver undefined"), w') /\
        trace w' = trace w ++ calls /\
        (forall l, (l < next w)%nat -> heap w' l = heap w l)
    | Some s =>
      let Uxl := prim_to_cons Vxl gamma ivars g in
      let Uxr := prim_to_cons Vxr gamma ivars g in
      let Uyl := prim_to_cons Vyl gamma ivars g in
      let Uyr := prim_to_cons Vyr gamma ivars g in
      let fx := solved s 1 g ivars (xl solid) (xr solid) gamma Uxl Uxr in
      let fy := solved s 2 g ivars (yl solid) (yr solid) gamma Uyl Uyr in
      let uq := velocity_view g q (vars.iu ivars) in
      let vq := velocity_view g q (vars.iv ivars) in
      let av := artificial_viscosity (qx g) (qy g) (ng g) (dx g) (dy g)
                                     (compressible_cvisc rp) uq vq in
      exists w' Fx Fy,
        fluxes my_data rp ivars solid w = (Ok (Fx, Fy), w') /\
        trace w' = trace w ++ calls
                     ++ [EvRiemannSolver (compressible_riemann rp) 1 Uxl Uxr;
                         EvRiemannSolver (compressible_riemann rp) 2 Uyl Uyr;
                         EvArtificialViscosity uq vq] /\
        (forall l, (l < next w)%nat -> heap w' l = heap w l) /\
        forall i j n,
          elt3 Fx i j n = viscous g nv 1 0 fx (fst av) U0 i j n /\
          elt3 Fy i j n = viscous g nv 0 1 fy (snd av) U0 i j n
    end.
Proof.
  intros Hr.
  destruct (interface_states_run my_data rp ivars U0 w Hr)
    as (w1 & Lx & Ly & Vxl & Vxr & Vyl & Vyr & E1 & T1 & X1 & K1 & Sx & Sy & S1 & S2).
  exists Lx, Ly, Vxl, Vxr, Vyl, Vyr.
  split; [exact Sx|]. split; [exact Sy|]. split; [exact S1|]. split; [exact S2|].
  cbv zeta.
  assert (Hr1 : rk_ready ivars U0 my_data w1).
  { destruct Hr as (Hg & Hng & Hvs & Hle & Hn & HU & Hd & GU).
    split; [exact Hg|]. split; [exact Hng|]. split; [exact Hvs|].
    split; [exact Hle|]. split; [exact Hn|].
    split; [rewrite K1 by exact Hd; exact HU|]. split; [lia|exact GU]. }
  destruct (solver_named (compressible_riemann rp)) as [s|] eqn:Es.
  - destruct (select_solver_known _ s w1 Es) as [E2 Hname].
    destruct (normal_fluxes_run my_data rp ivars solid U0 s
                (prim_to_cons Vxl gamma ivars g) (prim_to_cons Vxr gamma ivars g)
                (prim_to_cons Vyl gamma ivars g) (prim_to_cons Vyr gamma ivars g)
                w1 Hr1) as (w3 & Fx & Fy & E3 & T3 & K3 & Hel).
    exists w3, Fx, Fy. split.
    { unfold fluxes. eapply bind_run; [exact E1|]. cbv beta iota.
      eapply bind_run; [exact E2|]. exact E3. }
    split.
    { rewrite T3, T1, Hname. unfold state_calls. cbv zeta.
      rewrite <- !app_assoc. reflexivity. }
    split; [|exact Hel].
    intros l Hl. rewrite K3 by lia. apply K1. exact Hl.
  - exists w1. split.
    { unfold fluxes. eapply bind_run; [exact E1|]. cbv beta iota.
      unfold bind. rewrite (select_solver_unknown _ w1 Es). reflexivity. }
    split; [|exact K1].
    rewrite T1. unfold state_calls. cbv zeta. reflexivity.
Qed.
End RKRun.

Section ViewCells.
Context {A : Arith}.

Lemma in_view_cells (g : Grid2d) (ishift jshift lo hi i j : Z) :
  in_view g ishift jshift (lo, hi) i j = true <->
  ilo g - lo + ishift <= i <= ihi g + hi + ishift /\
  jlo g - lo + jshift <= j <= jhi g + hi + jshift.
Proof.
  unfold in_view. cbn [fst snd]. rewrite !andb_true_iff, !Z.leb_le. lia.
Qed.

Lemma in_view_outside (g : Grid2d) (ishift jshift lo hi i j : Z) :
  ~ (ilo g - lo + ishift <= i <= ihi g + hi + ishift /\
     jlo g - lo + jshift <= j <= jhi g + hi + jshift) ->
  in_view g ishift jshift (lo, hi) i j = false.
Proof.
  intros H. destruct (in_view g ishift jshift (lo, hi) i j) eqn:E; [|reflexivity].
  apply in_view_cells in E. contradiction.
Qed.

Lemma variable_index (n nv : Z) : 0 <= n < nv -> (0 <=? n) && (n <? nv) = true.
Proof.
  intros H. apply andb_true_iff. split; [apply Z.leb_le|apply Z.ltb_lt]; lia.
Qed.
End ViewCells.

(** C10. In [fluxes] the state arrays [V_l] and [V_r] of the x sweep are
    the arrays the y sweep writes, and nothing resets them in between.  The
    x sweep writes the left states to the cells [ilo-1..ihi+3] by
    [jlo-2..jhi+2], the y sweep to the cells [ilo-2..ihi+2] by
    [jlo-1..jhi+3]; so in the array [prim_to_cons] is given to form [U_yl],
    every cell of the first region outside the second, the cells
    [i = ihi+3] among them, still holds the left state of the x sweep.  The
    right states of both sweeps go to the same cells, so those of the x
    sweep are all overwritten. *)
Theorem y_sweep_reuses_state_arrays
        {A : Arith} {C : Collaborators} {CS : CollaboratorShapes}
        (my_data : CellCenterData2d) (rp : RuntimeParameters) (ivars : vars.t)
        (solid : Solid) (U0 : array3) (w : world) :
  rk_ready ivars U0 my_data w ->
  let g := grid my_data in
  let nv := vars.nvar ivars in
  let q := cons_to_prim U0 (eos_gamma rp) ivars g in
  let xi := rk_xi g q ivars rp in
  exists Lx Ly Vxl Vxr Vyl Vyr,
    slopes_of g nv q xi (compressible_limiter rp) 1 Lx /\
    slopes_of g nv q xi (compressible_limiter rp) 2 Ly /\
    prim_to_cons_calls (trace (snd (fluxes my_data rp ivars solid w)))
    = prim_to_cons_calls (trace w) ++ [Vxl; Vxr; Vyl; Vyr] /\
    forall i j n,
      0 <= n < nv ->
      (ilo g - 1 <= i <= ihi g + 3 /\ jlo g - 2 <= j <= jhi g + 2 ->
       elt3 Vxl i j n = state_left q Lx 1 0 i j n) /\
      (ilo g - 2 <= i <= ihi g + 2 /\ jlo g - 1 <= j <= jhi g + 3 ->
       elt3 Vyl i j n = state_left q Ly 0 1 i j n) /\
      (ilo g - 1 <= i <= ihi g + 3 /\ jlo g - 2 <= j <= jhi g + 2 ->
       ~ (ilo g - 2 <= i <= ihi g + 2 /\ jlo g - 1 <= j <= jhi g + 3) ->
       elt3 Vyl i j n = state_left q Lx 1 0 i j n) /\
      (i = ihi g + 3 -> jlo g - 2 <= j <= jhi g + 2 ->
       elt3 Vyl i j n = state_left q Lx 1 0 i j n) /\
      (ilo g - 2 <= i <= ihi g + 2 /\ jlo g - 2 <= j <= jhi g + 2 ->
       elt3 Vxr i j n = state_right q Lx i j n /\
       elt3 Vyr i j n = state_right q Ly i j n) /\
      (~ (ilo g - 2 <= i <= ihi g + 2 /\ jlo g - 2 <= j <= jhi g + 2) ->
       elt3 Vxr i j n = lit 0 /\ elt3 Vyr i j n = lit 0).
Proof.
  intros Hr. cbv zeta.
  pose proof Hr as ((G0 & G1 & G2 & G3 & G4 & G5 & G6) & _).
  destruct (fluxes_run my_data rp ivars solid U0 w Hr)
    as (Lx & Ly & Vxl & Vxr & Vyl & Vyr & Sx & Sy & S1 & S2 & Hrun).
  cbv zeta in Hrun.
  exists Lx, Ly, Vxl, Vxr, Vyl, Vyr.
  split; [exact Sx|]. split; [exact Sy|]. split.
  - pose proof (state_calls_quiet (grid my_data) U0 ivars rp Vxl Vxr Vyl Vyr)
      as [_ Hp].
    destruct (solver_named (compressible_riemann rp)) as [s|].
    + destruct Hrun as (w' & Fx & Fy & E & T & _). rewrite E. cbn [snd].
      rewrite T, !prim_to_cons_calls_app, Hp. cbn [prim_to_cons_calls flat_map app].
      reflexivity.
    + destruct Hrun as (w' & E & T & _). rewrite E. cbn [snd].
      rewrite T, prim_to_cons_calls_app, Hp. reflexivity.
  - intros i j n Hn.
    destruct (S1 i j n) as [L1 R1]. destruct (S2 i j n) as [L2 R2].
    rewrite (variable_index n (vars.nvar ivars) Hn) in L1, R1, L2, R2.
    cbn [andb] in *.
    assert (Hx : ilo (grid my_data) - 1 <= i <= ihi (grid my_data) + 3 /\
                 jlo (grid my_data) - 2 <= j <= jhi (grid my_data) + 2 ->
                 ~ (ilo (grid my_data) - 2 <= i <= ihi (grid my_data) + 2 /\
                    jlo (grid my_data) - 1 <= j <= jhi (grid my_data) + 3) ->
                 elt3 Vyl i j n
                 = state_left (cons_to_prim U0 (eos_gamma rp) ivars (grid my_data))
                              Lx 1 0 i j n).
    { intros Hin Hout.
      rewrite (in_view_outside (grid my_data) 0 1 2 2 i j) in L2 by lia.
      rewrite (proj2 (in_view_cells (grid my_data) 1 0 2 2 i j)) in L1 by lia.
      rewrite L2. exact L1. }
    split.
    { intros Hin.
      rewrite (proj2 (in_view_cells (grid my_data) 1 0 2 2 i j)) in L1 by lia.
      exact L1. }
    split.
    { intros Hin.
      rewrite (proj2 (in_view_cells (grid my_data) 0 1 2 2 i j)) in L2 by lia.
      exact L2. }
    split; [exact Hx|]. split.
    { intros Hi Hj. apply Hx; lia. }
    split.
    { intros Hin.
      rewrite (proj2 (in_view_cells (grid my_data) 0 0 2 2 i j)) in R1, R2 by lia.
      split; assumption. }
    intros Hout. rewrite (in_view_outside (grid my_data) 0 0 2 2 i j) in R1, R2 by lia.
    rewrite R2, R1. split; reflexivity.
Qed.

(** C9. When the solver name is one the code has, [fluxes] calls the
    solver for the x and for the y fluxes, then the viscosity routine, and
    returns the two solver results with the viscosity term added: for
    every variable [n] and every cell [ilo-2..ihi+1] by [jlo-2..jhi+1],
    [F_x] gains [avisco_x*(U[i-1,j,n] - U[i,j,n])] and [F_y] gains
    [avisco_y*(U[i,j-1,n] - U[i,j,n])]; every other element is as the
    solver returned it. *)
Theorem viscosity_is_added_after_the_solve
        {A : Arith} {C : Collaborators} {CS : CollaboratorShapes}
        (my_data : CellCenterData2d) (rp : RuntimeParameters) (ivars : vars.t)
        (solid : Solid) (U0 : array3) (s : solver) (w : world) :
  rk_ready ivars U0 my_data w ->
  solver_named (compressible_riemann rp) = Some s ->
  let g := grid my_data in
  exists Uxl Uxr Uyl Uyr uq vq Fx Fy w',
    fluxes my_data rp ivars solid w = (Ok (Fx, Fy), w') /\
    solver_calls (trace w')
    = solver_calls (trace w)
      ++ [ EvRiemannSolver (compressible_riemann rp) 1 Uxl Uxr;
           EvRiemannSolver (compressible_riemann rp) 2 Uyl Uyr;
           EvArtificialViscosity uq vq ] /\
    let fx := solved s 1 g ivars (xl solid) (xr solid) (eos_gamma rp) Uxl Uxr in
    let fy := solved s 2 g ivars (yl solid) (yr solid) (eos_gamma rp) Uyl Uyr in
    let av := artificial_viscosity (qx g) (qy g) (ng g) (dx g) (dy g)
                                   (compressible_cvisc rp) uq vq in
    forall i j n,
      (0 <= n < vars.nvar ivars ->
       ilo g - 2 <= i <= ihi g + 1 /\ jlo g - 2 <= j <= jhi g + 1 ->
       elt3 Fx i j n
       = (elt3 fx i j n
          + elt2 (fst av) i j * (elt3 U0 (i - 1) j n - elt3 U0 i j n))%num /\
       elt3 Fy i j n
       = (elt3 fy i j n
          + elt2 (snd av) i j * (elt3 U0 i (j - 1) n - elt3 U0 i j n))%num) /\
      (~ (0 <= n < vars.nvar ivars /\
          ilo g - 2 <= i <= ihi g + 1 /\ jlo g - 2 <= j <= jhi g + 1) ->
       elt3 Fx i j n = elt3 fx i j n /\ elt3 Fy i j n = elt3 fy i j n).
Proof.
  intros Hr Hs. cbv zeta.
  destruct (fluxes_run my_data rp ivars solid U0 w Hr)
    as (Lx & Ly & Vxl & Vxr & Vyl & Vyr & _ & _ & _ & _ & Hrun).
  cbv zeta in Hrun. rewrite Hs in Hrun.
  destruct Hrun as (w' & Fx & Fy & E & T & _ & Hel).
  do 6 eexists. exists Fx, Fy, w'.
  split; [exact E|]. split.
  - pose proof (state_calls_quiet (grid my_data) U0 ivars rp Vxl Vxr Vyl Vyr)
      as [Hq _].
    rewrite T, !solver_calls_app, Hq. reflexivity.
  - intros i j n. destruct (Hel i j n) as [Hx Hy]. unfold viscous in Hx, Hy.
    split.
    + intros Hn Hin.
      rewrite (variable_index n _ Hn) in Hx, Hy.
      rewrite (proj2 (in_view_cells (grid my_data) 0 0 2 1 i j)) in Hx, Hy by lia.
      cbn [andb] in Hx, Hy.
      replace (i - 0) with i in Hy by lia. replace (j - 0) with j in Hx by lia.
      split; assumption.
    + intros Hout.
      destruct ((0 <=? n) && (n <? vars.nvar ivars)) eqn:En.
      * apply andb_true_iff in En. destruct En as [E1 E2].
        apply Z.leb_le in E1. apply Z.ltb_lt in E2.
        rewrite (in_view_outside (grid my_data) 0 0 2 1 i j) in Hx, Hy by lia.
        split; assumption.
      * cbn [andb] in Hx, Hy. split; assumption.
Qed.

(** C4. When the solver name is neither HLLC nor CGF, [fluxes] ends with
    the diagnostic [ERROR: Riemann solver undefined], at the place where
    the solver is chosen: the primitive variables, the flattening, the
    limiting of every variable and the interface states of both sweeps
    have been computed by then, and neither solver nor the viscosity
    routine has been called. *)
Theorem unknown_solver_fails_at_selection
        {A : Arith} {C : Collaborators} {CS : CollaboratorShapes}
        (my_data : CellCenterData2d) (rp : RuntimeParameters) (ivars : vars.t)
        (solid : Solid) (U0 : array3) (w : world) :
  rk_ready ivars U0 my_data w ->
  compressible_riemann rp <> "HLLC"%string ->
  compressible_riemann rp <> "CGF"%string ->
  exists Vxl Vxr Vyl Vyr w',
    fluxes my_data rp ivars solid w
    = (Raise (SystemExit "ERROR: Riemann solver undefined"), w') /\
    trace w' = trace w ++ state_calls (grid my_data) U0 ivars rp Vxl Vxr Vyl Vyr /\
    solver_calls (trace w') = solver_calls (trace w).
Proof.
  intros Hr H1 H2.
  destruct (fluxes_run my_data rp ivars solid U0 w Hr)
    as (Lx & Ly & Vxl & Vxr & Vyl & Vyr & _ & _ & _ & _ & Hrun).
  cbv zeta in Hrun.
  rewrite (proj2 (solver_named_none _) (conj H1 H2)) in Hrun.
  destruct Hrun as (w' & E & T & _).
  exists Vxl, Vxr, Vyl, Vyr, w'. split; [exact E|]. split; [exact T|].
  pose proof (state_calls_quiet (grid my_data) U0 ivars rp Vxl Vxr Vyl Vyr)
    as [Hq _].
  rewrite T, solver_calls_app, Hq. apply app_nil_r.
Qed.

(** ** Worked instances of [fluxes] *)

Lemma sample_collaborator_shapes :
  @CollaboratorShapes ExactArith sample_collaborators.
Proof. split; intros; cbn; repeat split. Qed.

Lemma sample_rk_ready : rk_ready vars.standard sample_U0 sample_data sample_world.
Proof.
  unfold rk_ready, grid_ok, vars.ok, on_grid. cbn.
  repeat split; try lia.
  exists 0, 1, 2, 3. unfold names_at. cbn. repeat split; lia.
Qed.

Lemma flux_routines_keep_their_input_witness :
  (0 < next sample_world)%nat /\
  heap (snd (unsplitFluxes (F := sample_fortran) vars.standard (7 # 5) sample_data
                           (1 # 10) sample_world)) 0%nat
  = heap sample_world 0%nat /\
  heap (snd (fluxes (C := sample_collaborators) sample_data sample_rp vars.standard
                    sample_solid sample_world)) 0%nat
  = heap sample_world 0%nat.
Proof.
  split; [cbn; lia|].
  apply (flux_routines_keep_their_input
           (F := sample_fortran) (C := sample_collaborators)
           vars.standard (7 # 5) sample_data (1 # 10) sample_rp sample_solid
           sample_world 0%nat).
  cbn. lia.
Defined.

Lemma y_sweep_reuses_state_arrays_witness :
  let g := grid sample_data in
  let nv := vars.nvar vars.standard in
  let q := cons_to_prim (Collaborators := sample_collaborators)
                        sample_U0 (eos_gamma sample_rp) vars.standard g in
  let xi := rk_xi (C := sample_collaborators) g q vars.standard sample_rp in
  exists Lx Ly Vxl Vxr Vyl Vyr,
    slopes_of (C := sample_collaborators) g nv q xi
              (compressible_limiter sample_rp) 1 Lx /\
    slopes_of (C := sample_collaborators) g nv q xi
              (compressible_limiter sample_rp) 2 Ly /\
    prim_to_cons_calls
      (trace (snd (fluxes (C := sample_collaborators) sample_data sample_rp
                          vars.standard sample_solid sample_world)))
    = prim_to_cons_calls (trace sample_world) ++ [Vxl; Vxr; Vyl; Vyr] /\
    forall i j n,
      0 <= n < nv ->
      (ilo g - 1 <= i <= ihi g + 3 /\ jlo g - 2 <= j <= jhi g + 2 ->
       elt3 Vxl i j n = state_left q Lx 1 0 i j n) /\
      (ilo g - 2 <= i <= ihi g + 2 /\ jlo g - 1 <= j <= jhi g + 3 ->
       elt3 Vyl i j n = state_left q Ly 0 1 i j n) /\
      (ilo g - 1 <= i <= ihi g + 3 /\ jlo g - 2 <= j <= jhi g + 2 ->
       ~ (ilo g - 2 <= i <= ihi g + 2 /\ jlo g - 1 <= j <= jhi g + 3) ->
       elt3 Vyl i j n = state_left q Lx 1 0 i j n) /\
      (i = ihi g + 3 -> jlo g - 2 <= j <= jhi g + 2 ->
       elt3 Vyl i j n = state_left q Lx 1 0 i j n) /\
      (ilo g - 2 <= i <= ihi g + 2 /\ jlo g - 2 <= j <= jhi g + 2 ->
       elt3 Vxr i j n = state_right q Lx i j n /\
       elt3 Vyr i j n = state_right q Ly i j n) /\
      (~ (ilo g - 2 <= i <= ihi g + 2 /\ jlo g - 2 <= j <= jhi g + 2) ->
       elt3 Vxr i j n = lit 0 /\ elt3 Vyr i j n = lit 0).
Proof.
  exact (y_sweep_reuses_state_arrays
           (C := sample_collaborators) (CS := sample_collaborator_shapes)
           sample_data sample_rp vars.standard sample_solid sample_U0
           sample_world sample_rk_ready).
Defined.

Lemma viscosity_is_added_after_the_solve_witness :
  let g := grid sample_data in
  exists Uxl Uxr Uyl Uyr uq vq Fx Fy w',
    fluxes (C := sample_collaborators) sample_data sample_rp vars.standard
           sample_solid sample_world = (Ok (Fx, Fy), w') /\
    solver_calls (trace w')
    = solver_calls (trace sample_world)
      ++ [ EvRiemannSolver (compressible_riemann sample_rp) 1 Uxl Uxr;
           EvRiemannSolver (compressible_riemann sample_rp) 2 Uyl Uyr;
           EvArtificialViscosity uq vq ] /\
    let fx := solved (C := sample_collaborators) HLLC 1 g vars.standard
                     (xl sample_solid) (xr sample_solid) (eos_gamma sample_rp)
                     Uxl Uxr in
    let fy := solved (C := sample_collaborators) HLLC 2 g vars.standard
                     (yl sample_solid) (yr sample_solid) (eos_gamma sample_rp)
                     Uyl Uyr in
    let av := artificial_viscosity (Collaborators := sample_collaborators)
                                   (qx g) (qy g) (ng g) (dx g) (dy g)
                                   (compressible_cvisc sample_rp) uq vq in
    forall i j n,
      (0 <= n < vars.nvar vars.standard ->
       ilo g - 2 <= i <= ihi g + 1 /\ jlo g - 2 <= j <= jhi g + 1 ->
       elt3 Fx i j n
       = (elt3 fx i j n
          + elt2 (fst av) i j * (elt3 sample_U0 (i - 1) j n - elt3 sample_U0 i j n))%num /\
       elt3 Fy i j n
       = (elt3 fy i j n
          + elt2 (snd av) i j * (elt3 sample_U0 i (j - 1) n - elt3 sample_U0 i j n))%num) /\
      (~ (0 <= n < vars.nvar vars.standard /\
          ilo g - 2 <= i <= ihi g + 1 /\ jlo g - 2 <= j <= jhi g + 1) ->
       elt3 Fx i j n = elt3 fx i j n /\ elt3 Fy i j n = elt3 fy i j n).
Proof.
  exact (viscosity_is_added_after_the_solve
           (C := sample_collaborators) (CS := sample_collaborator_shapes)
           sample_data sample_rp vars.standard sample_solid sample_U0 HLLC
           sample_world sample_rk_ready eq_refl).
Defined.

Lemma unknown_solver_fails_at_selection_witness :
  exists Vxl Vxr Vyl Vyr w',
    fluxes (C := sample_collaborators) sample_data sample_rp_roe vars.standard
           sample_solid sample_world
    = (Raise (SystemExit "ERROR: Riemann solver undefined"), w') /\
    trace w' = trace sample_world
                 ++ state_calls (C := sample_collaborators) (grid sample_data)
                                sample_U0 vars.standard sample_rp_roe
                                Vxl Vxr Vyl Vyr /\
    solver_calls (trace w') = solver_calls (trace sample_world).
Proof.
  apply (unknown_solver_fails_at_selection
           (C := sample_collaborators) (CS := sample_collaborator_shapes)
           sample_data sample_rp_roe vars.standard sample_solid sample_U0
           sample_world sample_rk_ready);
    cbn; discriminate.
Defined.

(** With the solver name [Roe] the run ends with the diagnostic only after
    the limiter has been called twice for each of the four variables and
    the state arrays have been filled: the left state at [(ihi+3, jlo, 0)]
    is [39/20]. *)
Lemma unknown_solver_fails_fast_counterexample :
  compressible_riemann sample_rp_roe <> "HLLC"%string /\
  compressible_riemann sample_rp_roe <> "CGF"%string /\
  fst (fluxes (C := sample_collaborators) sample_data sample_rp_roe vars.standard
              sample_solid sample_world)
  = Raise (SystemExit "ERROR: Riemann solver undefined") /\
  limit_count
    (trace (snd (fluxes (C := sample_collaborators) sample_data sample_rp_roe
                        vars.standard sample_solid sample_world))) = 8%nat /\
  List.length
    (prim_to_cons_calls
       (trace (snd (fluxes (C := sample_collaborators) sample_data sample_rp_roe
                           vars.standard sample_solid sample_world)))) = 4%nat /\
  option_map Qred
    (cell_of (snd (fluxes (C := sample_collaborators) sample_data sample_rp_roe
                          vars.standard sample_solid sample_world)) 3%nat 7 3 0)
  = Some (39 # 20).
Proof.
  split; [cbn; discriminate|]. split; [cbn; discriminate|].
  split; [vm_compute; reflexivity|]. split; [vm_compute; reflexivity|].
  split; [vm_compute; reflexivity|]. vm_compute. reflexivity.
Qed.

(** * Further properties of the flux routines *)

(** ** Loops that return *)

Section LoopReturns.
Context {S : Type}.
Variable body : Z -> S -> result S.

Lemma iterate_ok_body :
  forall fuel lo s s',
    iterate body fuel lo s = Ok s' ->
    forall k, lo <= k < lo + Z.of_nat fuel -> exists s1 s2, body k s1 = Ok s2.
Proof.
  induction fuel as [|fuel IH]; intros lo s s' E k Hk; [lia|].
  cbn [iterate] in E. destruct (body lo s) as [s1|e] eqn:E1; [|discriminate].
  cbn [rbind] in E.
  destruct (Z.eq_dec k lo) as [->|Hne].
  - exists s, s1. exact E1.
  - apply (IH (lo + 1) s1 s' E). lia.
Qed.

(** Every iteration of a loop that returns has returned. *)
Lemma while_le_ok_body (lo hi : Z) (s s' : S) :
  while_le body lo hi s = Ok s' ->
  forall k, lo <= k <= hi -> exists s1 s2, body k s1 = Ok s2.
Proof.
  unfold while_le. intros E k Hk. apply (iterate_ok_body _ _ _ _ E). lia.
Qed.
End LoopReturns.

(** ** One zone of [interfaceStates], on any grid with two ghost layers *)

Section ZoneFacts.
Context {A : Arith}.
Variables (idir : Z) (g : Grid2d) (dtdx gamma : num).
Variables (r u v p ldelta_r ldelta_u ldelta_v ldelta_p : array2).
Hypothesis Hg : grid_ok g.
Hypothesis Hng : 2 <= ng g.
Hypothesis Hr : on_grid2 g r.
Hypothesis Hu : on_grid2 g u.
Hypothesis Hv : on_grid2 g v.
Hypothesis Hp : on_grid2 g p.
Hypothesis Hdr : on_grid2 g ldelta_r.
Hypothesis Hdu : on_grid2 g ldelta_u.
Hypothesis Hdv : on_grid2 g ldelta_v.
Hypothesis Hdp : on_grid2 g ldelta_p.

Local Abbreviation zV := (zone_V r u v p).
Local Abbreviation zdV := (zone_dV ldelta_r ldelta_u ldelta_v ldelta_p).
Local Abbreviation zE := (zone_eigen gamma r u v p idir).
Local Abbreviation sound := (zone_sound gamma r p).
Local Abbreviation zone :=
  (states_zone idir dtdx gamma r u v p ldelta_r ldelta_u ldelta_v ldelta_p).

Lemma zone_exn_sound (i j : Z) : zone_exn gamma r p i j = None <-> sound i j.
Proof.
  unfold zone_exn, zone_sound.
  destruct (ltb (gamma * elt2 p i j / elt2 r i j)%num (lit 0));
    destruct (eqb (zone_cs gamma r p i j * zone_cs gamma r p i j)%num (lit 0));
    split; intros H; try discriminate; try (destruct H; discriminate);
      try (split; reflexivity); reflexivity.
Qed.

(** The reads of a zone and its sound speed: what is left is the writes. *)
Lemma zone_reads (i j : Z) (s : array3 * array3) :
  visited g i j ->
  zone i j s
  = (E <- eigensystem idir gamma (elt2 r i j) (elt2 u i j) (elt2 v i j) (elt2 p i j) ;;
     let '(il, jl) := left_target idir i j in
     V_l <- set_cell (fst s) il jl (axpy (zV i j) (factor_l dtdx E) (zdV i j)) ;;
     V_r <- set_cell (snd s) i j (axmy (zV i j) (factor_r dtdx E) (zdV i j)) ;;
     while_le
       (fun m '(V_l, V_r) =>
          a <- get3 V_l il jl m ;;
          V_l <- set3 V_l il jl m
                      (a + dot4 (betal (lit (1 # 4) * dtdx) E (zdV i j))
                                (col (rvec E) m))%num ;;
          b <- get3 V_r i j m ;;
          V_r <- set3 V_r i j m
                      (b + dot4 (betar (lit (1 # 4) * dtdx) E (zdV i j))
                                (col (rvec E) m))%num ;;
          Ok (V_l, V_r))
       0 3 (V_l, V_r))%result.
Proof.
  intros [Hi Hj]. destruct s as [Vl Vr].
  destruct Hg as (G0 & G1 & G2 & G3 & G4 & G5 & G6).
  destruct Hr as [? ?], Hu as [? ?], Hv as [? ?], Hp as [? ?].
  destruct Hdr as [? ?], Hdu as [? ?], Hdv as [? ?], Hdp as [? ?].
  unfold states_zone. rewrite !get2_plain by lia. reflexivity.
Qed.

(** A zone whose sound speed raises ends the sweep with that exception. *)
Lemma zone_raises (i j : Z) (e : exn) (s : array3 * array3) :
  visited g i j -> zone_exn gamma r p i j = Some e -> zone i j s = Raise e.
Proof.
  intros Hvis He. rewrite zone_reads by exact Hvis.
  unfold zone_exn in He. unfold eigensystem, py_sqrt, py_fdiv.
  destruct (ltb (gamma * elt2 p i j / elt2 r i j)%num (lit 0)).
  - injection He as <-. reflexivity.
  - cbn [rbind]. fold (zone_cs gamma r p i j).
    destruct (eqb (zone_cs gamma r p i j * zone_cs gamma r p i j)%num (lit 0));
      [|discriminate].
    injection He as <-. reflexivity.
Qed.

(** A zone that returns has a sound speed. *)
Lemma zone_ok_sound (i j : Z) (s s' : array3 * array3) :
  visited g i j -> zone i j s = Ok s' -> sound i j.
Proof.
  intros Hvis E. apply zone_exn_sound.
  destruct (zone_exn gamma r p i j) as [e|] eqn:He; [|reflexivity].
  rewrite (zone_raises i j e s Hvis He) in E. discriminate.
Qed.

(** One zone whose target cell is on the grid: its two states are
    written, all others are kept. *)
Lemma zone_step_at (i j : Z) (s : array3 * array3) :
  visited g i j -> sound i j ->
  fst (left_target idir i j) < qx g -> snd (left_target idir i j) < qy g ->
  on_grid g 4 (fst s) -> on_grid g 4 (snd s) ->
  exists s',
    zone i j s = Ok s' /\
    on_grid g 4 (fst s') /\ on_grid g 4 (snd s') /\
    (forall k l m, (k, l) <> left_target idir i j ->
                   elt3 (fst s') k l m = elt3 (fst s) k l m) /\
    (forall k l m, (k, l) <> (i, j) -> elt3 (snd s') k l m = elt3 (snd s) k l m).
Proof.
  intros Hvis [S1 S2] T1 T2 Hl Hrr.
  rewrite zone_reads by exact Hvis.
  destruct s as [Vl Vr]. cbn [fst snd] in *.
  destruct Hvis as [Hi Hj].
  destruct Hg as (G0 & G1 & G2 & G3 & G4 & G5 & G6).
  destruct Hl as (l0 & l1 & l2). destruct Hrr as (q0 & q1 & q2).
  rewrite eigensystem_analytic by assumption. cbn [rbind].
  assert (T0 : 0 <= fst (left_target idir i j) /\ 0 <= snd (left_target idir i j)).
  { unfold left_target. destruct (idir =? 1); cbn [fst snd]; lia. }
  destruct (left_target idir i j) as [il jl] eqn:T. cbn [fst snd] in T0, T1, T2.
  rewrite !set_cell_plain by lia. cbn [rbind].
  match goal with
  | |- context [while_le ?b 0 3 (?a, ?c)] =>
    match b with
    | (fun m '(V_l, V_r) =>
         a' <- get3 V_l _ _ m ;;
         V_l' <- set3 V_l _ _ m (a' + @?f m)%num ;;
         b' <- get3 V_r _ _ m ;;
         V_r' <- set3 V_r _ _ m (b' + @?h m)%num ;; _)%result =>
      destruct (bump_loop a c il jl i j f h)
        as (Vl' & Vr' & E & (e0 & e1 & e2) & (f0 & f1 & f2) & _ & Hol & Hor);
        try (cbn [dim0 dim1 dim2]; lia)
    end
  end.
  exists (Vl', Vr'). split; [exact E|].
  cbn [dim0 dim1 dim2] in e0, e1, e2, f0, f1, f2.
  split; [unfold on_grid; cbn [fst]; lia|].
  split; [unfold on_grid; cbn [snd]; lia|].
  cbn [fst snd]. split.
  - intros k l m Hne. rewrite Hol by assumption. cbn [elt3].
    destruct (Z.eqb_spec k il); destruct (Z.eqb_spec l jl); cbn [andb];
      try reflexivity.
    subst. contradiction Hne. reflexivity.
  - intros k l m Hne. rewrite Hor by assumption. cbn [elt3].
    destruct (Z.eqb_spec k i); destruct (Z.eqb_spec l j); cbn [andb];
      try reflexivity.
    subst. contradiction Hne. reflexivity.
Qed.

(** A zone whose target cell is past the end of the grid. *)
Lemma zone_raises_index (i j : Z) (s : array3 * array3) :
  visited g i j -> sound i j ->
  qx g <= fst (left_target idir i j) \/ qy g <= snd (left_target idir i j) ->
  on_grid g 4 (fst s) ->
  zone i j s = Raise IndexError.
Proof.
  intros Hvis [S1 S2] T Hl.
  rewrite zone_reads by exact Hvis.
  destruct Hvis as [Hi Hj].
  destruct Hg as (G0 & G1 & G2 & G3 & G4 & G5 & G6).
  destruct Hl as (l0 & l1 & l2).
  rewrite eigensystem_analytic by assumption. cbn [rbind].
  assert (T0 : 0 <= fst (left_target idir i j) < qx g \/
               qx g <= fst (left_target idir i j)).
  { unfold left_target. destruct (idir =? 1); cbn [fst snd]; lia. }
  destruct (left_target idir i j) as [il jl] eqn:Et. cbn [fst snd] in T, T0.
  unfold set_cell.
  destruct T0 as [T0|T0].
  - rewrite py_index_plain by lia. cbn [rbind].
    destruct T as [T|T]; [lia|].
    rewrite py_index_past by lia. reflexivity.
  - rewrite py_index_past by lia. reflexivity.
Qed.

(** A zone of state arrays that do not have four components. *)
Lemma zone_raises_shape (i j : Z) (s : array3 * array3) (k : Z) :
  visited g i j -> sound i j ->
  fst (left_target idir i j) < qx g -> snd (left_target idir i j) < qy g ->
  on_grid g k (fst s) -> k <> 4 ->
  zone i j s = Raise (ValueError "could not broadcast input array").
Proof.
  intros Hvis [S1 S2] T1 T2 Hl Hk.
  rewrite zone_reads by exact Hvis.
  destruct Hvis as [Hi Hj].
  destruct Hg as (G0 & G1 & G2 & G3 & G4 & G5 & G6).
  destruct Hl as (l0 & l1 & l2).
  rewrite eigensystem_analytic by assumption. cbn [rbind].
  assert (T0 : 0 <= fst (left_target idir i j) /\ 0 <= snd (left_target idir i j)).
  { unfold left_target. destruct (idir =? 1); cbn [fst snd]; lia. }
  destruct (left_target idir i j) as [il jl] eqn:Et. cbn [fst snd] in T0, T1, T2.
  unfold set_cell. rewrite !py_index_plain by lia. cbn [rbind].
  destruct (Z.eqb_spec (dim2 (fst s)) 4); [lia|]. reflexivity.
Qed.
End ZoneFacts.

(** ** The zone loops of [interfaceStates] *)

Section ZoneLoops.
Context {A : Arith}.
Variables (idir : Z) (g : Grid2d) (dtdx gamma : num).
Variables (r u v p ldelta_r ldelta_u ldelta_v ldelta_p : array2).
Hypothesis Hg : grid_ok g.
Hypothesis Hng : 2 <= ng g.
Hypothesis Hr : on_grid2 g r.
Hypothesis Hu : on_grid2 g u.
Hypothesis Hv : on_grid2 g v.
Hypothesis Hp : on_grid2 g p.
Hypothesis Hdr : on_grid2 g ldelta_r.
Hypothesis Hdu : on_grid2 g ldelta_u.
Hypothesis Hdv : on_grid2 g ldelta_v.
Hypothesis Hdp : on_grid2 g ldelta_p.

Local Abbreviation sound := (zone_sound gamma r p).
Local Abbreviation zone :=
  (states_zone idir dtdx gamma r u v p ldelta_r ldelta_u ldelta_v ldelta_p).
Local Abbreviation zrow :=
  (fun j => while_le (fun i => zone i j) (ilo g - 2) (ihi g + 2)).
Local Abbreviation shaped :=
  (fun s : array3 * array3 => on_grid g 4 (fst s) /\ on_grid g 4 (snd s)).

Lemma left_target_on_grid (i j : Z) :
  3 <= ng g -> visited g i j ->
  fst (left_target idir i j) < qx g /\ snd (left_target idir i j) < qy g.
Proof.
  intros H3 [Hi Hj]. destruct Hg as (G0 & G1 & G2 & G3 & G4 & G5 & G6).
  unfold left_target. destruct (idir =? 1); cbn [fst snd]; lia.
Qed.

(** The zones of a loop that returns all have a sound speed. *)
Lemma zone_loops_ok_sound (s s' : array3 * array3) :
  while_le zrow (jlo g - 2) (jhi g + 2) s = Ok s' ->
  forall i j, visited g i j -> sound i j.
Proof.
  intros E i j Hvis. pose proof Hvis as [Hi Hj].
  destruct (while_le_ok_body _ _ _ _ _ E j Hj) as (s1 & s2 & E1).
  destruct (while_le_ok_body _ _ _ _ _ E1 i Hi) as (t1 & t2 & E2).
  exact (zone_ok_sound idir g dtdx gamma r u v p ldelta_r ldelta_u ldelta_v ldelta_p
                       Hg Hng Hr Hu Hv Hp Hdr Hdu Hdv Hdp i j t1 t2 Hvis E2).
Qed.

(** A row of zones with sound speeds and targets on the grid. *)
Lemma zone_row_shaped (j : Z) (s : array3 * array3) :
  jlo g - 2 <= j <= jhi g + 2 ->
  (forall i, ilo g - 2 <= i <= ihi g + 2 ->
             sound i j /\
             fst (left_target idir i j) < qx g /\ snd (left_target idir i j) < qy g) ->
  shaped s -> exists s', zrow j s = Ok s' /\ shaped s'.
Proof.
  intros Hj Hs Hsh.
  assert (Hlen : ilo g <= ihi g) by (destruct Hg; tauto).
  apply (while_le_inv (fun i => zone i j) (fun _ => shaped)); [lia|exact Hsh|].
  intros i s1 Hi [H1 H2]. destruct (Hs i Hi) as (S & T1 & T2).
  destruct (zone_step_at idir g dtdx gamma r u v p ldelta_r ldelta_u ldelta_v ldelta_p
                         Hg Hng Hr Hu Hv Hp Hdr Hdu Hdv Hdp i j s1)
    as (s2 & E & G1 & G2 & _); try assumption; [split; assumption|].
  exists s2. split; [exact E|split; assumption].
Qed.

(** The first zone, in loop order, whose sound speed raises ends the
    loops with its exception. *)
Lemma zone_loops_first_failure (i j : Z) (e : exn) (s : array3 * array3) :
  3 <= ng g -> visited g i j -> zone_exn gamma r p i j = Some e ->
  (forall i' j', visited g i' j' -> zone_before i' j' i j ->
                 zone_exn gamma r p i' j' = None) ->
  shaped s ->
  while_le zrow (jlo g - 2) (jhi g + 2) s = Raise e.
Proof.
  intros H3 Hvis He Hbefore Hsh. pose proof Hvis as [Hi Hj].
  apply while_le_raises with (Inv := shaped) (k := j); [| |lia|exact Hsh].
  - intros j' s1 Hj' H1. apply zone_row_shaped; [lia| |exact H1].
    intros i' Hi'.
    assert (Hv' : visited g i' j') by (split; [exact Hi'|lia]).
    split; [|apply left_target_on_grid; assumption].
    apply zone_exn_sound. apply Hbefore; [exact Hv'|left; lia].
  - intros s1 H1.
    apply while_le_raises with (Inv := shaped) (k := i); [| |lia|exact H1].
    + intros i' s2 Hi' [H2 H2'].
      assert (Hv' : visited g i' j) by (split; [lia|exact Hj]).
      destruct (left_target_on_grid i' j H3 Hv') as [T1 T2].
      destruct (zone_step_at idir g dtdx gamma r u v p
                             ldelta_r ldelta_u ldelta_v ldelta_p
                             Hg Hng Hr Hu Hv Hp Hdr Hdu Hdv Hdp i' j s2)
        as (s3 & E & G1 & G2 & _); try assumption.
      { apply zone_exn_sound. apply Hbefore; [exact Hv'|right; lia]. }
      exists s3. split; [exact E|split; assumption].
    + intros s2 _.
      apply (zone_raises idir g dtdx gamma r u v p ldelta_r ldelta_u ldelta_v ldelta_p
                         Hg Hng Hr Hu Hv Hp Hdr Hdu Hdv Hdp); assumption.
Qed.

(** On a grid with exactly two ghost layers the target of the last zone
    of a row (x sweep) or of the zones of the last row (y sweep) is past
    the end of the state array. *)
Lemma zone_loops_two_layers (s : array3 * array3) :
  ng g = 2 -> (forall i j, visited g i j -> sound i j) -> shaped s ->
  while_le zrow (jlo g - 2) (jhi g + 2) s = Raise IndexError.
Proof.
  intros H2 Hs Hsh. pose proof Hg as (G0 & G1 & G2 & G3 & G4 & G5 & G6).
  assert (Hstep : forall i j s1,
             visited g i j ->
             fst (left_target idir i j) < qx g -> snd (left_target idir i j) < qy g ->
             shaped s1 -> exists s2, zone i j s1 = Ok s2 /\ shaped s2).
  { intros i j s1 Hvis T1 T2 [S1 S2].
    destruct (zone_step_at idir g dtdx gamma r u v p
                           ldelta_r ldelta_u ldelta_v ldelta_p
                           Hg Hng Hr Hu Hv Hp Hdr Hdu Hdv Hdp i j s1)
      as (s2 & E & K1 & K2 & _); try assumption; [apply Hs; exact Hvis|].
    exists s2. split; [exact E|split; assumption]. }
  assert (Hlast : forall i j s1,
             visited g i j ->
             qx g <= fst (left_target idir i j) \/ qy g <= snd (left_target idir i j) ->
             shaped s1 -> zone i j s1 = Raise IndexError).
  { intros i j s1 Hvis T [S1 _].
    apply (zone_raises_index idir g dtdx gamma r u v p
                             ldelta_r ldelta_u ldelta_v ldelta_p
                             Hg Hng Hr Hu Hv Hp Hdr Hdu Hdv Hdp);
      try assumption. apply Hs; exact Hvis. }
  destruct (Z.eqb_spec idir 1) as [Hd|Hd].
  - (* x sweep: the first row, at i = ihi+2 *)
    apply while_le_raises with (Inv := shaped) (k := jlo g - 2);
      [intros; lia| |lia|exact Hsh].
    intros s1 H1.
    apply while_le_raises with (Inv := shaped) (k := ihi g + 2);
      [| |lia|exact H1].
    + intros i s2 Hi Hs2. apply Hstep; try assumption.
      * split; lia.
      * unfold left_target. rewrite (proj2 (Z.eqb_eq idir 1) Hd). cbn [fst]. lia.
      * unfold left_target. rewrite (proj2 (Z.eqb_eq idir 1) Hd). cbn [snd]. lia.
    + intros s2 Hs2. apply Hlast; [split; lia| |exact Hs2].
      left. unfold left_target. rewrite (proj2 (Z.eqb_eq idir 1) Hd). cbn [fst]. lia.
  - (* y sweep: the last row, at its first zone *)
    apply while_le_raises with (Inv := shaped) (k := jhi g + 2);
      [| |lia|exact Hsh].
    + intros j s1 Hj H1. apply zone_row_shaped; [lia| |exact H1].
      intros i Hi. split; [apply Hs; split; lia|].
      unfold left_target. rewrite (proj2 (Z.eqb_neq idir 1) Hd). cbn [fst snd]. lia.
    + intros s1 H1.
      apply while_le_raises with (Inv := shaped) (k := ilo g - 2);
        [intros; lia| |lia|exact H1].
      intros s2 Hs2. apply Hlast; [split; lia| |exact Hs2].
      right. unfold left_target. rewrite (proj2 (Z.eqb_neq idir 1) Hd). cbn [snd]. lia.
Qed.

(** State arrays that do not have four components are rejected at the
    first zone. *)
Lemma zone_loops_shape (k : Z) (s : array3 * array3) :
  k <> 4 -> sound (ilo g - 2) (jlo g - 2) -> on_grid g k (fst s) ->
  while_le zrow (jlo g - 2) (jhi g + 2) s
  = Raise (ValueError "could not broadcast input array").
Proof.
  intros Hk Hs Hsh. pose proof Hg as (G0 & G1 & G2 & G3 & G4 & G5 & G6).
  apply while_le_raises with (Inv := fun s => on_grid g k (fst s)) (k := jlo g - 2);
    [intros; lia| |lia|exact Hsh].
  intros s1 H1.
  apply while_le_raises with (Inv := fun s => on_grid g k (fst s)) (k := ilo g - 2);
    [intros; lia| |lia|exact H1].
  intros s2 H2.
  apply (zone_raises_shape idir g dtdx gamma r u v p
                           ldelta_r ldelta_u ldelta_v ldelta_p
                           Hg Hng Hr Hu Hv Hp Hdr Hdu Hdv Hdp _ _ s2 k);
    try assumption.
  - split; lia.
  - unfold left_target. destruct (idir =? 1); cbn [fst]; lia.
  - unfold left_target. destruct (idir =? 1); cbn [snd]; lia.
Qed.

Local Abbreviation kept := (kept idir g).

Lemma kept_ext (s0 : array3 * array3) (D D' : Z -> Z -> Prop) (s : array3 * array3) :
  (forall i j, D i j -> D' i j) -> kept s0 D s -> kept s0 D' s.
Proof.
  intros E (H0 & H1 & H2). split; [exact H0|]. split.
  - intros k l m H. apply H1. intros i j HD. apply H. apply E. exact HD.
  - intros k l m H. apply H2. intros HD. apply H. apply E. exact HD.
Qed.

Lemma kept_step (s0 : array3 * array3) (D : Z -> Z -> Prop) (i j : Z)
      (s : array3 * array3) :
  3 <= ng g -> visited g i j -> sound i j -> kept s0 D s ->
  exists s', zone i j s = Ok s' /\
             kept s0 (fun i' j' => D i' j' \/ (i', j') = (i, j)) s'.
Proof.
  intros H3 Hvis Hs ([S1 S2] & K1 & K2).
  destruct (left_target_on_grid i j H3 Hvis) as [T1 T2].
  destruct (zone_step_at idir g dtdx gamma r u v p
                         ldelta_r ldelta_u ldelta_v ldelta_p
                         Hg Hng Hr Hu Hv Hp Hdr Hdu Hdv Hdp i j s)
    as (s' & E & G1 & G2 & Fl & Fr); try assumption.
  exists s'. split; [exact E|]. split; [split; assumption|]. split.
  - intros k l m H. rewrite Fl.
    + apply K1. intros i' j' HD. apply H. left. exact HD.
    + apply H. right. reflexivity.
  - intros k l m H. rewrite Fr.
    + apply K2. intros HD. apply H. left. exact HD.
    + intros Heq. apply H. right. exact Heq.
Qed.

Lemma zone_loops_kept (s0 : array3 * array3) :
  3 <= ng g -> (forall i j, visited g i j -> sound i j) -> shaped s0 ->
  exists s', while_le zrow (jlo g - 2) (jhi g + 2) s0 = Ok s' /\
             kept s0 (visited g) s'.
Proof.
  intros H3 Hs Hsh. pose proof Hg as (G0 & G1 & G2 & G3 & G4 & G5 & G6).
  destruct (while_le_inv zrow
              (fun J => kept s0 (fun i' j' =>
                 ilo g - 2 <= i' <= ihi g + 2 /\ jlo g - 2 <= j' < J))
              (jlo g - 2) (jhi g + 2) s0) as [s' [E H]].
  - lia.
  - split; [exact Hsh|]. split; reflexivity.
  - intros j s1 Hj K1.
    destruct (while_le_inv (fun i => zone i j)
                (fun I => kept s0 (fun i' j' =>
                   (ilo g - 2 <= i' <= ihi g + 2 /\ jlo g - 2 <= j' < j)
                   \/ (j' = j /\ ilo g - 2 <= i' < I)))
                (ilo g - 2) (ihi g + 2) s1) as [s2 [E2 K2]].
    + lia.
    + revert K1. apply kept_ext. intros i' j' H. left. exact H.
    + intros i s2 Hi K2.
      assert (Hvis : visited g i j) by (split; assumption).
      destruct (kept_step s0 _ i j s2 H3 Hvis (Hs i j Hvis) K2) as [s3 [E3 K3]].
      exists s3. split; [exact E3|]. revert K3. apply kept_ext.
      intros i' j' [[H|H]|H]; [left; exact H|right; lia|].
      inversion H; subst. right. lia.
    + exists s2. split; [exact E2|]. revert K2. apply kept_ext.
      intros i' j' [H|H]; lia.
  - exists s'. split; [exact E|]. revert H. apply kept_ext.
    unfold visited. intros; lia.
Qed.
End ZoneLoops.


(** ** [interfaceStates]: when it returns and how it fails *)

Lemma grid3_ok : grid_ok grid3.
Proof. unfold grid_ok; simpl; lia. Qed.

Lemma grid2_ok : grid_ok grid2.
Proof. unfold grid_ok; simpl; lia. Qed.

Lemma sample_states_inputs :
  states_inputs grid3 flat_r shear_u shear_v flat_p slope_r slope_u slope_v slope_p.
Proof. unfold states_inputs, on_grid2; simpl; lia. Qed.

Lemma sample_states_inputs2 :
  states_inputs grid2 flat_r2 shear_u2 shear_v2 flat_p2
                slope_r2 slope_u2 slope_v2 slope_p2.
Proof. unfold states_inputs, on_grid2; simpl; lia. Qed.

(** X1. [interfaceStates] returns exactly when no zone of the interior and its
    2-cell buffer has a negative [gamma p / rho] or a zero [cs*cs]: the
    sweep has no other way to fail on a grid with three ghost layers. *)
Theorem interface_states_returns_iff_sound
        {A : Arith} (nvar : Z) (gamma : num) (idir : Z) (g : Grid2d) (dt : num)
        (r u v p ldelta_r ldelta_u ldelta_v ldelta_p : array2) :
  grid_ok g -> 3 <= ng g -> nvar = 4 ->
  states_inputs g r u v p ldelta_r ldelta_u ldelta_v ldelta_p ->
  (exists V, interfaceStates nvar gamma idir g dt
                             r u v p ldelta_r ldelta_u ldelta_v ldelta_p = Ok V)
  <-> (forall i j, visited g i j -> zone_exn gamma r p i j = None).
Proof.
  intros Hg Hng -> (Hr & Hu & Hv & Hp & Hdr & Hdu & Hdv & Hdp).
  assert (Hng2 : 2 <= ng g) by lia.
  unfold interfaceStates. split.
  - intros [V E] i j Hvis. apply zone_exn_sound.
    exact (zone_loops_ok_sound idir g _ gamma r u v p
             ldelta_r ldelta_u ldelta_v ldelta_p
             Hg Hng2 Hr Hu Hv Hp Hdr Hdu Hdv Hdp _ _ E i j Hvis).
  - intros Hs.
    destruct (zone_loops_predicted idir g
                (if idir =? 1 then (dt / dx g)%num else (dt / dy g)%num) gamma
                r u v p ldelta_r ldelta_u ldelta_v ldelta_p
                Hg Hng Hr Hu Hv Hp Hdr Hdu Hdv Hdp
                (zeros3 (qx g) (qy g) 4, zeros3 (qx g) (qy g) 4))
      as (V & E & _).
    + intros i j Hvis. apply zone_exn_sound. apply Hs. exact Hvis.
    + unfold on_grid. simpl. auto.
    + unfold on_grid. simpl. auto.
    + exists V. exact E.
Qed.

Lemma interface_states_returns_iff_sound_witness :
  (exists V, interfaceStates 4 (7 # 5) 1 grid3 (1 # 10)
                             flat_r shear_u shear_v flat_p
                             slope_r slope_u slope_v slope_p = Ok V)
  <-> (forall i j, visited grid3 i j -> zone_exn (7 # 5) flat_r flat_p i j = None).
Proof.
  apply (interface_states_returns_iff_sound (A := ExactArith) 4 (7 # 5) 1 grid3 (1 # 10)).
  - exact grid3_ok.
  - simpl; lia.
  - reflexivity.
  - exact sample_states_inputs.
Defined.

(** X2. The exception of [interfaceStates] is the one of the first zone, in
    loop order ([j] outer, [i] inner), whose sound speed raises:
    [ValueError] for a negative [gamma p / rho], [ZeroDivisionError] for a
    zero [cs*cs]. *)
Theorem interface_states_first_failure
        {A : Arith} (nvar : Z) (gamma : num) (idir : Z) (g : Grid2d) (dt : num)
        (r u v p ldelta_r ldelta_u ldelta_v ldelta_p : array2)
        (i j : Z) (e : exn) :
  grid_ok g -> 3 <= ng g -> nvar = 4 ->
  states_inputs g r u v p ldelta_r ldelta_u ldelta_v ldelta_p ->
  visited g i j -> zone_exn gamma r p i j = Some e ->
  (forall i' j', visited g i' j' -> zone_before i' j' i j ->
                 zone_exn gamma r p i' j' = None) ->
  interfaceStates nvar gamma idir g dt r u v p ldelta_r ldelta_u ldelta_v ldelta_p
  = Raise e /\
  (e = ValueError "math domain error" \/ e = ZeroDivisionError).
Proof.
  intros Hg Hng -> (Hr & Hu & Hv & Hp & Hdr & Hdu & Hdv & Hdp) Hvis He Hbefore.
  assert (Hng2 : 2 <= ng g) by lia.
  split.
  - unfold interfaceStates.
    apply (zone_loops_first_failure idir g _ gamma r u v p
             ldelta_r ldelta_u ldelta_v ldelta_p
             Hg Hng2 Hr Hu Hv Hp Hdr Hdu Hdv Hdp i j e); try assumption.
    split; unfold on_grid; simpl; auto.
  - unfold zone_exn in He.
    destruct (ltb (gamma * elt2 p i j / elt2 r i j)%num (lit 0));
      [left; congruence|].
    destruct (eqb (zone_cs gamma r p i j * zone_cs gamma r p i j)%num (lit 0));
      [right; congruence|discriminate].
Qed.

Lemma interface_states_first_failure_witness :
  (interfaceStates 4 (7 # 5) 1 grid3 (1 # 10)
                   flat_r shear_u shear_v negative_p
                   slope_r slope_u slope_v slope_p
   = Raise (ValueError "math domain error") /\
   (ValueError "math domain error" = ValueError "math domain error" \/
    ValueError "math domain error" = ZeroDivisionError)) /\
  (interfaceStates 4 (7 # 5) 2 grid3 (1 # 10)
                   flat_r shear_u shear_v zero_p
                   slope_r slope_u slope_v slope_p
   = Raise ZeroDivisionError /\
   (ZeroDivisionError = ValueError "math domain error" \/
    ZeroDivisionError = ZeroDivisionError)).
Proof.
  split.
  - apply (interface_states_first_failure (A := ExactArith) 4 (7 # 5) 1 grid3 (1 # 10)
             flat_r shear_u shear_v negative_p slope_r slope_u slope_v slope_p 1 1).
    + exact grid3_ok.
    + simpl; lia.
    + reflexivity.
    + unfold states_inputs, on_grid2; simpl; lia.
    + unfold visited; simpl; lia.
    + vm_compute; reflexivity.
    + unfold visited, zone_before; simpl; intros; lia.
  - apply (interface_states_first_failure (A := ExactArith) 4 (7 # 5) 2 grid3 (1 # 10)
             flat_r shear_u shear_v zero_p slope_r slope_u slope_v slope_p 1 1).
    + exact grid3_ok.
    + simpl; lia.
    + reflexivity.
    + unfold states_inputs, on_grid2; simpl; lia.
    + unfold visited; simpl; lia.
    + vm_compute; reflexivity.
    + unfold visited, zone_before; simpl; intros; lia.
Defined.

(** X3. On a grid with exactly two ghost layers [interfaceStates] cannot
    return: the left state of the last zone of a row ([V_l[ihi+3, j]], x
    sweep) or of a zone of the last row ([V_l[i, jhi+3]], y sweep) lies
    past the end of the array, and the sweep ends in [IndexError]. *)
Theorem interface_states_two_ghost_layers
        {A : Arith} (nvar : Z) (gamma : num) (idir : Z) (g : Grid2d) (dt : num)
        (r u v p ldelta_r ldelta_u ldelta_v ldelta_p : array2) :
  grid_ok g -> ng g = 2 -> nvar = 4 ->
  states_inputs g r u v p ldelta_r ldelta_u ldelta_v ldelta_p ->
  (forall i j, visited g i j -> zone_exn gamma r p i j = None) ->
  interfaceStates nvar gamma idir g dt r u v p ldelta_r ldelta_u ldelta_v ldelta_p
  = Raise IndexError.
Proof.
  intros Hg Hng -> (Hr & Hu & Hv & Hp & Hdr & Hdu & Hdv & Hdp) Hs.
  assert (Hng2 : 2 <= ng g) by lia.
  unfold interfaceStates.
  apply (zone_loops_two_layers idir g _ gamma r u v p
           ldelta_r ldelta_u ldelta_v ldelta_p
           Hg Hng2 Hr Hu Hv Hp Hdr Hdu Hdv Hdp); [exact Hng| |].
  - intros i j Hvis. apply zone_exn_sound. apply Hs. exact Hvis.
  - split; unfold on_grid; simpl; auto.
Qed.

Lemma interface_states_two_ghost_layers_witness :
  interfaceStates 4 (7 # 5) 1 grid2 (1 # 10)
                  flat_r2 shear_u2 shear_v2 flat_p2
                  slope_r2 slope_u2 slope_v2 slope_p2 = Raise IndexError /\
  interfaceStates 4 (7 # 5) 2 grid2 (1 # 10)
                  flat_r2 shear_u2 shear_v2 flat_p2
                  slope_r2 slope_u2 slope_v2 slope_p2 = Raise IndexError.
Proof.
  split.
  - apply (interface_states_two_ghost_layers (A := ExactArith) 4 (7 # 5) 1 grid2).
    + exact grid2_ok.
    + reflexivity.
    + reflexivity.
    + exact sample_states_inputs2.
    + intros i j _. vm_compute. reflexivity.
  - apply (interface_states_two_ghost_layers (A := ExactArith) 4 (7 # 5) 2 grid2).
    + exact grid2_ok.
    + reflexivity.
    + reflexivity.
    + exact sample_states_inputs2.
    + intros i j _. vm_compute. reflexivity.
Defined.

(** X4. [interfaceStates] assigns vectors of four primitive variables to
    [V_l[i, j, :]]: when [vars.nvar] is not 4 the first assignment fails
    with numpy's broadcast [ValueError]. *)
Theorem interface_states_needs_four_variables
        {A : Arith} (nvar : Z) (gamma : num) (idir : Z) (g : Grid2d) (dt : num)
        (r u v p ldelta_r ldelta_u ldelta_v ldelta_p : array2) :
  grid_ok g -> 2 <= ng g -> 0 <= nvar -> nvar <> 4 ->
  states_inputs g r u v p ldelta_r ldelta_u ldelta_v ldelta_p ->
  zone_exn gamma r p (ilo g - 2) (jlo g - 2) = None ->
  interfaceStates nvar gamma idir g dt r u v p ldelta_r ldelta_u ldelta_v ldelta_p
  = Raise (ValueError "could not broadcast input array").
Proof.
  intros Hg Hng Hn0 Hn (Hr & Hu & Hv & Hp & Hdr & Hdu & Hdv & Hdp) Hs.
  unfold interfaceStates.
  apply (zone_loops_shape idir g _ gamma r u v p
           ldelta_r ldelta_u ldelta_v ldelta_p
           Hg Hng Hr Hu Hv Hp Hdr Hdu Hdv Hdp nvar); [exact Hn| |].
  - apply zone_exn_sound. exact Hs.
  - unfold on_grid. simpl. auto.
Qed.

Lemma interface_states_needs_four_variables_witness :
  interfaceStates 5 (7 # 5) 1 grid3 (1 # 10)
                  flat_r shear_u shear_v flat_p
                  slope_r slope_u slope_v slope_p
  = Raise (ValueError "could not broadcast input array").
Proof.
  apply (interface_states_needs_four_variables (A := ExactArith) 5 (7 # 5) 1 grid3).
  - exact grid3_ok.
  - simpl; lia.
  - lia.
  - lia.
  - exact sample_states_inputs.
  - vm_compute. reflexivity.
Defined.

(** X5. The state arrays [interfaceStates] returns are zero wherever no zone
    writes: [V_l] outside the cells [ilo-1..ihi+3] by [jlo-2..jhi+2] (x
    sweep) or [ilo-2..ihi+2] by [jlo-1..jhi+3] (y sweep), [V_r] outside the
    interior and its 2-cell buffer. *)
Theorem interface_states_zero_elsewhere
        {A : Arith} (nvar : Z) (gamma : num) (idir : Z) (g : Grid2d) (dt : num)
        (r u v p ldelta_r ldelta_u ldelta_v ldelta_p : array2) :
  grid_ok g -> 3 <= ng g -> nvar = 4 ->
  states_inputs g r u v p ldelta_r ldelta_u ldelta_v ldelta_p ->
  (forall i j, visited g i j -> zone_exn gamma r p i j = None) ->
  exists V_l V_r,
    interfaceStates nvar gamma idir g dt
                    r u v p ldelta_r ldelta_u ldelta_v ldelta_p = Ok (V_l, V_r) /\
    on_grid g 4 V_l /\ on_grid g 4 V_r /\
    forall k l m,
      (~ left_cells idir g k l -> elt3 V_l k l m = lit 0) /\
      (~ visited g k l -> elt3 V_r k l m = lit 0).
Proof.
  intros Hg Hng -> (Hr & Hu & Hv & Hp & Hdr & Hdu & Hdv & Hdp) Hs.
  assert (Hng2 : 2 <= ng g) by lia.
  unfold interfaceStates.
  destruct (zone_loops_kept idir g
              (if idir =? 1 then (dt / dx g)%num else (dt / dy g)%num) gamma
              r u v p ldelta_r ldelta_u ldelta_v ldelta_p
              Hg Hng2 Hr Hu Hv Hp Hdr Hdu Hdv Hdp
              (zeros3 (qx g) (qy g) 4, zeros3 (qx g) (qy g) 4) Hng)
    as ([V_l V_r] & E & (G1 & G2) & K1 & K2).
  - intros i j Hvis. apply zone_exn_sound. apply Hs. exact Hvis.
  - split; unfold on_grid; simpl; auto.
  - exists V_l, V_r. split; [exact E|]. split; [exact G1|]. split; [exact G2|].
    cbn [fst snd] in K1, K2. intros k l m. split.
    + intros Hout. rewrite K1; [reflexivity|].
      intros i j [Hi Hj] Heq. apply Hout.
      unfold left_cells. unfold left_target in Heq.
      destruct (idir =? 1); inversion Heq; subst; lia.
    + intros Hout. rewrite K2; [reflexivity|exact Hout].
Qed.

Lemma interface_states_zero_elsewhere_witness :
  exists V_l V_r,
    interfaceStates 4 (7 # 5) 1 grid3 (1 # 10)
                    flat_r shear_u shear_v flat_p
                    slope_r slope_u slope_v slope_p = Ok (V_l, V_r) /\
    on_grid grid3 4 V_l /\ on_grid grid3 4 V_r /\
    forall k l m,
      (~ left_cells 1 grid3 k l -> elt3 V_l k l m = lit 0) /\
      (~ visited grid3 k l -> elt3 V_r k l m = lit 0).
Proof.
  apply (interface_states_zero_elsewhere (A := ExactArith) 4 (7 # 5) 1 grid3).
  - exact grid3_ok.
  - simpl; lia.
  - reflexivity.
  - exact sample_states_inputs.
  - intros i j _. vm_compute. reflexivity.
Defined.


(** ** The eigensystem in exact arithmetic *)

Section ExactEigen.

Lemma eigensystem_exact (idir : Z) (gamma r u v p : Q) (E : @eigen ExactArith) :
  eigensystem (A := ExactArith) idir gamma r u v p = Ok E ->
  exists cs : Q,
    ~ cs == 0 /\ cs = Qsqrt (gamma * p / r) /\
    E = analytic_eigen (A := ExactArith) idir cs r u v.
Proof.
  unfold eigensystem, py_sqrt, py_fdiv. cbn [ltb leb eqb ExactArith lit mul div sqrt].
  destruct (negb (Qle_bool 0 (gamma * p / r))); [discriminate|]. cbn [rbind].
  destruct (Qeq_bool (Qsqrt (gamma * p / r) * Qsqrt (gamma * p / r)) 0) eqn:Ec;
    [discriminate|]. cbn [rbind].
  intros H. exists (Qsqrt (gamma * p / r)). split; [|split; [reflexivity|]].
  - intros Hz. apply Qeq_bool_neq in Ec. apply Ec. rewrite Hz. reflexivity.
  - unfold analytic_eigen. destruct (idir =? 1); injection H as <-; reflexivity.
Qed.

End ExactEigen.

Ltac four_cases m :=
  let H := fresh in
  assert (H : m = 0 \/ m = 1 \/ m = 2 \/ m = 3) by lia;
  destruct H as [ -> | [ -> | [ -> | -> ] ] ].

Ltac exact_arith :=
  cbn [analytic_eigen jacobian_x mat_vec vec_mat build4 dot4 row col nth4
       eval lvec rvec r0 r1 r2 r3 c0 c1 c2 c3 Z.eqb Pos.eqb
       num lit add sub mul div neg ExactArith].

(** X6. In exact arithmetic the rows of [lvec] and [rvec] that
    [interfaceStates] builds for a zone are biorthonormal: [l_m . r_k] is 1
    for [m = k] and 0 otherwise, in both sweeps. *)
Theorem eigenvectors_biorthonormal
        (idir : Z) (gamma r u v p : Q) (E : @eigen ExactArith) (m k : Z) :
  eigensystem (A := ExactArith) idir gamma r u v p = Ok E ->
  ~ r == 0 -> 0 <= m < 4 -> 0 <= k < 4 ->
  dot4 (A := ExactArith) (row (lvec E) m) (row (rvec E) k)
  == (if m =? k then 1 else 0).
Proof.
  intros HE Hr Hm Hk.
  destruct (eigensystem_exact idir gamma r u v p E HE) as (cs & Hcs & _ & ->).
  unfold analytic_eigen.
  destruct (idir =? 1); four_cases m; four_cases k; exact_arith;
    field; auto.
Qed.

Lemma eigenvectors_biorthonormal_witness :
  exists E : @eigen ExactArith,
    eigensystem (A := ExactArith) 1 (7 # 5) 1%Q (1 # 2) 0%Q 1%Q = Ok E /\
    dot4 (A := ExactArith) (row (lvec E) 0) (row (rvec E) 0) == 1 /\
    dot4 (A := ExactArith) (row (lvec E) 0) (row (rvec E) 3) == 0.
Proof.
  eexists. split; [reflexivity|]. split.
  - apply (eigenvectors_biorthonormal 1 (7 # 5) 1 (1 # 2) 0 1 _ 0 0);
      [reflexivity|intros H; discriminate H|lia|lia].
  - apply (eigenvectors_biorthonormal 1 (7 # 5) 1 (1 # 2) 0 1 _ 0 3);
      [reflexivity|intros H; discriminate H|lia|lia].
Defined.

(** X7. In exact arithmetic the x sweep's [rvec] rows are right eigenvectors
    and its [lvec] rows left eigenvectors of the Jacobian of the
    docstring, for the eigenvalues [eval]: [A r_m = eval[m] r_m] and
    [l_m A = eval[m] l_m], with the sound speed the code computes. *)
Theorem eigenvectors_of_the_jacobian
        (gamma r u v p : Q) (E : @eigen ExactArith) (m k : Z) :
  eigensystem (A := ExactArith) 1 gamma r u v p = Ok E ->
  ~ r == 0 -> 0 <= m < 4 -> 0 <= k < 4 ->
  let cs := Qsqrt (gamma * p / r) in
  nth4 (mat_vec (A := ExactArith) (jacobian_x r u cs) (row (rvec E) m)) k
  == nth4 (eval E) m * nth4 (row (rvec E) m) k /\
  nth4 (vec_mat (A := ExactArith) (row (lvec E) m) (jacobian_x r u cs)) k
  == nth4 (eval E) m * nth4 (row (lvec E) m) k.
Proof.
  intros HE Hr Hm Hk cs.
  destruct (eigensystem_exact 1 gamma r u v p E HE) as (cs' & Hcs & Ecs & ->).
  subst cs'. fold cs in Hcs |- *.
  four_cases m; four_cases k; exact_arith; split; field; auto.
Qed.

Lemma eigenvectors_of_the_jacobian_witness :
  exists E : @eigen ExactArith,
    eigensystem (A := ExactArith) 1 (7 # 5) 1%Q (1 # 2) 0%Q 1%Q = Ok E /\
    let cs := Qsqrt ((7 # 5) * 1 / 1) in
    nth4 (mat_vec (A := ExactArith) (jacobian_x 1%Q (1 # 2) cs) (row (rvec E) 3)) 1
    == nth4 (eval E) 3 * nth4 (row (rvec E) 3) 1 /\
    nth4 (vec_mat (A := ExactArith) (row (lvec E) 3) (jacobian_x 1%Q (1 # 2) cs)) 1
    == nth4 (eval E) 3 * nth4 (row (lvec E) 3) 1.
Proof.
  eexists. split; [reflexivity|].
  apply (eigenvectors_of_the_jacobian (7 # 5) 1 (1 # 2) 0 1 _ 3 1);
    [reflexivity|intros H; discriminate H|lia|lia].
Defined.

Section FlatSlopes.

Ltac expose :=
  cbn [predicted_left predicted_right beta_l beta_r sum4 dot4 row col nth4
       Z.eqb Pos.eqb num lit add sub mul div neg ExactArith].

Lemma predicted_of_flat_slopes (dtdx : Q) (E : @eigen ExactArith)
      (V dV : @vec4 ExactArith) (m : Z) :
  c0 dV == 0 -> c1 dV == 0 -> c2 dV == 0 -> c3 dV == 0 -> 0 <= m < 4 ->
  predicted_left (A := ExactArith) dtdx E V dV m == nth4 V m /\
  predicted_right (A := ExactArith) dtdx E V dV m == nth4 V m.
Proof.
  intros H0 H1 H2 H3 Hm.
  unfold predicted_left, predicted_right, beta_l, beta_r, sum4, dot4.
  four_cases m; expose; rewrite H0, H1, H2, H3; split; ring.
Qed.
End FlatSlopes.

(** X8. In exact arithmetic, where all four limited slopes vanish the
    interface states are the cell values: each visited zone gives its own
    state [(rho, u, v, p)] to the left state of its high-side interface and
    to the right state of its low-side interface, whatever the time step
    and the sound speed. *)
Theorem interface_states_of_flat_slopes
        (nvar : Z) (gamma : Q) (idir : Z) (g : @Grid2d ExactArith) (dt : Q)
        (r u v p ldelta_r ldelta_u ldelta_v ldelta_p : @array2 ExactArith) :
  grid_ok g -> 3 <= ng g -> nvar = 4 ->
  states_inputs g r u v p ldelta_r ldelta_u ldelta_v ldelta_p ->
  (forall i j, visited g i j -> zone_exn (A := ExactArith) gamma r p i j = None) ->
  (forall i j, elt2 ldelta_r i j == 0 /\ elt2 ldelta_u i j == 0 /\
               elt2 ldelta_v i j == 0 /\ elt2 ldelta_p i j == 0) ->
  exists V_l V_r,
    interfaceStates (A := ExactArith) nvar gamma idir g dt
                    r u v p ldelta_r ldelta_u ldelta_v ldelta_p = Ok (V_l, V_r) /\
    forall i j m,
      visited g i j -> 0 <= m < 4 ->
      elt3 V_l (fst (left_target idir i j)) (snd (left_target idir i j)) m
      == nth4 (zone_V r u v p i j) m /\
      elt3 V_r i j m == nth4 (zone_V r u v p i j) m.
Proof.
  intros Hg Hng -> (Hr & Hu & Hv & Hp & Hdr & Hdu & Hdv & Hdp) Hs Hflat.
  unfold interfaceStates.
  destruct (zone_loops_predicted (A := ExactArith) idir g
              (if idir =? 1 then (dt / dx g)%Q else (dt / dy g)%Q) gamma
              r u v p ldelta_r ldelta_u ldelta_v ldelta_p
              Hg Hng Hr Hu Hv Hp Hdr Hdu Hdv Hdp
              (zeros3 (qx g) (qy g) 4, zeros3 (qx g) (qy g) 4))
    as ([V_l V_r] & E & _ & _ & H).
  - intros i j Hvis. apply zone_exn_sound. apply Hs. exact Hvis.
  - unfold on_grid. simpl. auto.
  - unfold on_grid. simpl. auto.
  - exists V_l, V_r. split; [exact E|].
    intros i j m Hvis Hm.
    destruct (H i j m Hvis Hm) as [Hl Hrr]. cbn [fst snd] in Hl, Hrr.
    destruct (Hflat i j) as (F0 & F1 & F2 & F3).
    rewrite Hl, Hrr.
    apply predicted_of_flat_slopes; assumption.
Qed.

Lemma interface_states_of_flat_slopes_witness :
  exists V_l V_r,
    interfaceStates (A := ExactArith) 4 (7 # 5) 1 grid3 (1 # 10)
                    flat_r shear_u shear_v flat_p
                    (const2 8 7 0) (const2 8 7 0) (const2 8 7 0) (const2 8 7 0)
    = Ok (V_l, V_r) /\
    forall i j m,
      visited grid3 i j -> 0 <= m < 4 ->
      elt3 V_l (fst (left_target 1 i j)) (snd (left_target 1 i j)) m
      == nth4 (zone_V flat_r shear_u shear_v flat_p i j) m /\
      elt3 V_r i j m == nth4 (zone_V flat_r shear_u shear_v flat_p i j) m.
Proof.
  apply (interface_states_of_flat_slopes 4 (7 # 5) 1 grid3 (1 # 10)).
  - exact grid3_ok.
  - simpl; lia.
  - reflexivity.
  - unfold states_inputs, on_grid2; simpl; lia.
  - intros i j _. vm_compute. reflexivity.
  - intros i j. simpl. repeat split; reflexivity.
Defined.


(** ** The correction loop of [unsplitFluxes] *)

(** X9. The correction loop leaves every cell outside the interior and its
    2-cell buffer, in all four state arrays, as it was, and keeps the
    shapes of the arrays. *)
Theorem transverse_keeps_other_cells
        {A : Arith} (g : Grid2d) (dt : num) (nvar : Z) (F_x F_y : array3) (s0 : faces) :
  grid_ok g -> 3 <= ng g -> 0 <= nvar ->
  on_grid g nvar F_x -> on_grid g nvar F_y -> faces_on_grid g nvar s0 ->
  exists s',
    transverse g dt nvar F_x F_y s0 = Ok s' /\
    faces_on_grid g nvar s' /\
    forall i j n,
      ~ (ilo g - 2 <= i <= ihi g + 2 /\ jlo g - 2 <= j <= jhi g + 2) ->
      elt3 (U_xl s') i j n = elt3 (U_xl s0) i j n /\
      elt3 (U_xr s') i j n = elt3 (U_xr s0) i j n /\
      elt3 (U_yl s') i j n = elt3 (U_yl s0) i j n /\
      elt3 (U_yr s') i j n = elt3 (U_yr s0) i j n.
Proof.
  intros Hg Hng Hnvar HFx HFy Hs.
  destruct (transverse_progress g dt nvar F_x F_y s0 Hg Hng Hnvar HFx HFy Hs)
    as [s' [E [Hsh H]]].
  exists s'. split; [exact E|]. split; [exact Hsh|].
  intros i j n Hout. destruct (H i j n) as [_ Hu].
  apply Hu. intros [Hvis _]. apply Hout. exact Hvis.
Qed.

Lemma transverse_keeps_other_cells_witness :
  exists s',
    transverse grid3 (1 # 10) 4 (ramp3 8 7 4 1 2 3 4) (ramp3 8 7 4 5 (-1) 2 0)
               (sample_faces 8 7) = Ok s' /\
    faces_on_grid grid3 4 s' /\
    forall i j n,
      ~ (ilo grid3 - 2 <= i <= ihi grid3 + 2 /\ jlo grid3 - 2 <= j <= jhi grid3 + 2) ->
      elt3 (U_xl s') i j n = elt3 (U_xl (sample_faces 8 7)) i j n /\
      elt3 (U_xr s') i j n = elt3 (U_xr (sample_faces 8 7)) i j n /\
      elt3 (U_yl s') i j n = elt3 (U_yl (sample_faces 8 7)) i j n /\
      elt3 (U_yr s') i j n = elt3 (U_yr (sample_faces 8 7)) i j n.
Proof.
  apply (transverse_keeps_other_cells (A := ExactArith) grid3 (1 # 10) 4).
  - exact grid3_ok.
  - simpl; lia.
  - lia.
  - unfold on_grid; simpl; lia.
  - unfold on_grid; simpl; lia.
  - unfold faces_on_grid, on_grid; simpl; lia.
Defined.

(** X10. In exact arithmetic a zero time step makes the correction vanish:
    the loop returns the four state arrays with the values they had. *)
Theorem transverse_of_zero_time_step
        (g : @Grid2d ExactArith) (dt : Q) (nvar : Z)
        (F_x F_y : @array3 ExactArith) (s0 : @faces ExactArith) :
  grid_ok g -> 3 <= ng g -> 0 <= nvar ->
  on_grid g nvar F_x -> on_grid g nvar F_y -> faces_on_grid g nvar s0 ->
  dt == 0 ->
  exists s',
    transverse (A := ExactArith) g dt nvar F_x F_y s0 = Ok s' /\
    forall i j n,
      elt3 (U_xl s') i j n == elt3 (U_xl s0) i j n /\
      elt3 (U_xr s') i j n == elt3 (U_xr s0) i j n /\
      elt3 (U_yl s') i j n == elt3 (U_yl s0) i j n /\
      elt3 (U_yr s') i j n == elt3 (U_yr s0) i j n.
Proof.
  intros Hg Hng Hnvar HFx HFy Hs Hdt.
  destruct (transverse_progress (A := ExactArith) g dt nvar F_x F_y s0
                                Hg Hng Hnvar HFx HFy Hs)
    as [s' [E [_ H]]].
  exists s'. split; [exact E|].
  intros i j n. destruct (H i j n) as [Hc Hu].
  assert (Hdec : (visited g i j /\ 0 <= n < nvar) \/ ~ (visited g i j /\ 0 <= n < nvar)).
  { unfold visited. lia. }
  destruct Hdec as [Hin|Hout].
  - destruct (Hc Hin) as (C1 & C2 & C3 & C4). rewrite C1, C2, C3, C4.
    unfold xl_corrected, xr_corrected, yl_corrected, yr_corrected.
    cbn [num lit add sub mul div neg ExactArith].
    unfold Qdiv. rewrite Hdt. repeat split; ring.
  - destruct (Hu Hout) as (U1 & U2 & U3 & U4). rewrite U1, U2, U3, U4.
    repeat split; reflexivity.
Qed.

Lemma transverse_of_zero_time_step_witness :
  exists s',
    transverse (A := ExactArith) grid3 0%Q 4 (ramp3 8 7 4 1 2 3 4)
               (ramp3 8 7 4 5 (-1) 2 0) (sample_faces 8 7) = Ok s' /\
    forall i j n,
      elt3 (U_xl s') i j n == elt3 (U_xl (sample_faces 8 7)) i j n /\
      elt3 (U_xr s') i j n == elt3 (U_xr (sample_faces 8 7)) i j n /\
      elt3 (U_yl s') i j n == elt3 (U_yl (sample_faces 8 7)) i j n /\
      elt3 (U_yr s') i j n == elt3 (U_yr (sample_faces 8 7)) i j n.
Proof.
  apply (transverse_of_zero_time_step grid3 0 4).
  - exact grid3_ok.
  - simpl; lia.
  - lia.
  - unfold on_grid; simpl; lia.
  - unfold on_grid; simpl; lia.
  - unfold faces_on_grid, on_grid; simpl; lia.
  - reflexivity.
Defined.

(** ** [unsplitFluxes] on a grid with two ghost layers *)

Section RaiseFacts.
Context {A : Arith}.

Lemma bind_raise {T U : Type} (m : M T) (k : T -> M U) (w w1 : world) (e : exn) :
  m w = (Raise e, w1) -> bind m k w = (Raise e, w1).
Proof. intros E. unfold bind. rewrite E. reflexivity. Qed.

Lemma lift_raise {T : Type} (r : result T) (e : exn) (w : world) :
  r = Raise e -> lift r w = (Raise e, w).
Proof. intros ->. reflexivity. Qed.
End RaiseFacts.

Section UnsplitTwoLayers.
Context {A : Arith} {F : Fortran} {FS : FortranShapes}.
Variables (vs : vars.t) (gamma : num) (myData : CellCenterData2d) (dt : num).
Variables (U0 : array3) (kd kx ky ke : Z).

Local Abbreviation g := (grid myData).
Local Abbreviation k := (nvar myData).
Local Abbreviation s0 := (predicted_faces vs gamma g k dt U0 kd kx ky ke).
Local Abbreviation rsolve := (solve vs gamma g).

Lemma solve_shape (idir : Z) (Ul Ur : array3) :
  nvar myData = vars.nvar vs -> on_grid g (nvar myData) (rsolve idir Ul Ur).
Proof.
  intros Hnvar. unfold on_grid, solve. rewrite Hnvar.
  apply (riemann_shape idir (qx g) (qy g) (ng g) (vars.nvar vs)).
Qed.

(** Lines 308-398 on such a grid: the two Riemann calls of the first
    pass are made, and the correction loop raises. *)
Lemma corrected_fluxes_two_layers (l_xl l_xr l_yl l_yr : loc) (w : world) :
  grid_ok g -> ng g = 2 -> vars.ok vs -> nvar myData = vars.nvar vs ->
  heap w l_xl = Some (U_xl s0) -> heap w l_xr = Some (U_xr s0) ->
  heap w l_yl = Some (U_yl s0) -> heap w l_yr = Some (U_yr s0) ->
  exists w',
    corrected_fluxes vs gamma myData dt l_xl l_xr l_yl l_yr w
    = (Raise IndexError, w') /\
    trace w' = trace w ++ [ EvRiemann 1 (U_xl s0) (U_xr s0);
                            EvRiemann 2 (U_yl s0) (U_yr s0) ] /\
    heap w' = heap w /\ next w' = next w.
Proof.
  intros Hg Hng Hvs Hnvar H1 H2 H3 H4.
  assert (Hk : 0 < nvar myData).
  { rewrite Hnvar. unfold vars.ok in Hvs. lia. }
  pose proof (transverse_raises g dt (nvar myData)
                (rsolve 1 (U_xl s0) (U_xr s0)) (rsolve 2 (U_yl s0) (U_yr s0))
                Hg (solve_shape _ _ _ Hnvar) (solve_shape _ _ _ Hnvar)
                s0 Hng Hk (predicted_faces_on_grid vs gamma myData dt U0 kd kx ky ke))
    as E.
  eexists. split.
  - unfold corrected_fluxes, call_riemann. cbv zeta.
    eapply bind_run; [apply load_run; exact H1|].
    eapply bind_run; [apply load_run; exact H2|].
    eapply bind_run; [eapply bind_run; [reflexivity|reflexivity]|].
    eapply bind_run; [apply load_run; cbn [heap]; exact H3|].
    eapply bind_run; [apply load_run; cbn [heap]; exact H4|].
    eapply bind_run; [eapply bind_run; [reflexivity|reflexivity]|].
    eapply bind_run; [apply load_run; cbn [heap]; exact H1|].
    eapply bind_run; [apply load_run; cbn [heap]; exact H2|].
    eapply bind_run; [apply load_run; cbn [heap]; exact H3|].
    eapply bind_run; [apply load_run; cbn [heap]; exact H4|].
    apply bind_raise. apply lift_raise.
    destruct (predicted_faces vs gamma (grid myData) (nvar myData) dt U0 kd kx ky ke)
      as [xl xr yl yr]. exact E.
  - cbn [trace heap next]. rewrite <- !app_assoc. repeat split; reflexivity.
Qed.

(** The whole of [unsplitFluxes] on such a grid. *)
Lemma unsplit_run_two_layers (w : world) :
  unsplit_inputs vs U0 kd kx ky ke myData w -> ng g = 2 ->
  exists w',
    unsplitFluxes vs gamma myData dt w = (Raise IndexError, w') /\
    trace w' = trace w
               ++ calls_before_riemann gamma g U0 kd kx ky ke
               ++ [ EvRiemann 1 (U_xl s0) (U_xr s0);
                    EvRiemann 2 (U_yl s0) (U_yr s0) ].
Proof.
  intros (Hg & Hvs & Hnvar & Hn & HU & Hb & HU0) Hng.
  destruct Hn as (Nd & Nx & Ny & Ne & Rd & Rx & Ry & Re).
  pose proof HU0 as (u0 & u1 & u2).
  assert (Hxi : on_grid2 g (q_xi gamma g U0 kd kx ky ke)).
  { unfold on_grid2, q_xi. apply flatten_multid_shape. }
  set (w1 := {| heap := heap w; next := next w;
                trace := ((trace w ++ [EvFlatten 1 (q_p gamma U0 kd kx ky ke)
                                                 (q_u U0 kd kx)])
                            ++ [EvFlatten 2 (q_p gamma U0 kd kx ky ke)
                                            (q_v U0 kd ky)])
                           ++ [EvFlattenMultid (q_xi_x gamma g U0 kd kx ky ke)
                                               (q_xi_y gamma g U0 kd kx ky ke)
                                               (q_p gamma U0 kd kx ky ke)] |}).
  destruct (sweep_run vs gamma myData dt Hvs Hnvar 1 (dx g)
              {| base := data myData; component := kd |}
              (q_xi gamma g U0 kd kx ky ke) (q_u U0 kd kx) (q_v U0 kd ky)
              (q_p gamma U0 kd kx ky ke) U0 w1)
    as (w2 & E2 & X2 & T2 & A2 & B2 & K2);
    try assumption; try (cbn [base component]; lia).
  destruct (sweep_run vs gamma myData dt Hvs Hnvar 2 (dy g)
              {| base := data myData; component := kd |}
              (q_xi gamma g U0 kd kx ky ke) (q_u U0 kd kx) (q_v U0 kd ky)
              (q_p gamma U0 kd kx ky ke) U0 w2)
    as (w3 & E3 & X3 & T3 & A3 & B3 & K3);
    try assumption; try (cbn [base component]; lia).
  { cbn [base]. rewrite K2 by exact Hb. exact HU. }
  { cbn [base]. rewrite X2. cbn [next w1]. lia. }
  cbn [base component next w1] in *.
  destruct (corrected_fluxes_two_layers
              (next w) (S (next w)) (next w2) (S (next w2)) w3 Hg Hng Hvs Hnvar)
    as (w4 & E4 & T4 & _).
  { rewrite K3 by lia. exact A2. }
  { rewrite K3 by lia. exact B2. }
  { exact A3. }
  { exact B3. }
  exists w4. split.
  - unfold unsplitFluxes. cbv zeta.
    eapply bind_run; [apply getVarPtr_run; exact Nd|].
    eapply bind_run; [apply getVarPtr_run; exact Nx|].
    eapply bind_run; [apply getVarPtr_run; exact Ny|].
    eapply bind_run; [apply getVarPtr_run; exact Ne|].
    eapply bind_run; [apply read_run; [exact HU|cbn [component]; lia]|].
    eapply bind_run; [apply read_run; [exact HU|cbn [component]; lia]|].
    eapply bind_run; [apply read_run; [exact HU|cbn [component]; lia]|].
    eapply bind_run; [apply read_run; [exact HU|cbn [component]; lia]|].
    cbn [component].
    eapply bind_run; [apply lift_run; apply primitives_plain; reflexivity|].
    cbv iota beta.
    unfold call_flatten, call_flatten_multid.
    eapply bind_run; [eapply bind_run; [reflexivity|reflexivity]|].
    eapply bind_run; [eapply bind_run; [reflexivity|reflexivity]|].
    eapply bind_run; [eapply bind_run; [reflexivity|reflexivity]|].
    eapply bind_run; [exact E2|]. cbv iota beta.
    eapply bind_run; [exact E3|]. cbv iota beta.
    exact E4.
  - rewrite T4, T3, T2. cbn [trace w1]. unfold calls_before_riemann.
    rewrite <- !app_assoc. reflexivity.
Qed.
End UnsplitTwoLayers.

(** X11. On a grid with exactly two ghost layers [unsplitFluxes] returns no
    fluxes: it makes the two Riemann calls of the first pass and then ends
    in the [IndexError] of the correction loop, without a second pass. *)
Theorem unsplit_fluxes_two_ghost_layers
        {A : Arith} {F : Fortran} {FS : FortranShapes}
        (vs : vars.t) (gamma : num) (myData : CellCenterData2d) (dt : num)
        (U0 : array3) (kd kx ky ke : Z) (w : world) :
  unsplit_inputs vs U0 kd kx ky ke myData w -> ng (grid myData) = 2 ->
  let g := grid myData in
  let s0 := predicted_faces vs gamma g (nvar myData) dt U0 kd kx ky ke in
  fst (unsplitFluxes vs gamma myData dt w) = Raise IndexError /\
  riemann_calls (trace (snd (unsplitFluxes vs gamma myData dt w)))
  = riemann_calls (trace w)
    ++ [ (1, U_xl s0, U_xr s0); (2, U_yl s0, U_yr s0) ].
Proof.
  intros Hin Hng g s0.
  destruct (unsplit_run_two_layers vs gamma myData dt U0 kd kx ky ke w Hin Hng)
    as (w' & E & T).
  rewrite E. cbn [fst snd]. split; [reflexivity|].
  rewrite T. unfold riemann_calls. rewrite !flat_map_app. reflexivity.
Qed.

Lemma sample_unsplit_inputs_2 :
  unsplit_inputs vars.standard sample_U0_2 0 1 2 3 sample_data_2 sample_world_2.
Proof.
  unfold unsplit_inputs, grid_ok, vars.ok, names_at, on_grid. cbn.
  repeat split; try lia; try reflexivity.
Qed.

Lemma unsplit_fluxes_two_ghost_layers_witness :
  fst (unsplitFluxes (F := sample_fortran) vars.standard (7 # 5) sample_data_2
                     (1 # 10) sample_world_2) = Raise IndexError.
Proof.
  apply (proj1 (unsplit_fluxes_two_ghost_layers
                  (F := sample_fortran) (FS := sample_fortran_shapes)
                  vars.standard (7 # 5) sample_data_2 (1 # 10) sample_U0_2 0 1 2 3
                  sample_world_2 sample_unsplit_inputs_2 eq_refl)).
Defined.

(** ** [fluxes] on a grid with two ghost layers *)

Section RKTwoLayers.
Context {A : Arith} {C : Collaborators} {CS : CollaboratorShapes}.
Variables (my_data : CellCenterData2d) (rp : RuntimeParameters) (ivars : vars.t).
Variables (solid : Solid) (U0 : array3).

Local Abbreviation g := (grid my_data).
Local Abbreviation nv := (vars.nvar ivars).
Local Abbreviation q := (cons_to_prim U0 (eos_gamma rp) ivars (grid my_data)).
Local Abbreviation xi := (rk_xi (grid my_data) q ivars rp).
Local Abbreviation limiter := (compressible_limiter rp).

Hypothesis Hg : grid_ok g.
Hypothesis Hng : ng g = 2.
Hypothesis Hnv : 0 < nv.

Lemma for_range_first {e : exn} (body : Z -> M unit) (k : Z) (w w1 : world) :
  0 < k -> body 0 w = (Raise e, w1) -> for_range k body w = (Raise e, w1).
Proof.
  intros Hk E. unfold for_range.
  destruct (Z.to_nat k) as [|n] eqn:En; [lia|].
  cbn [for_each]. apply bind_raise. exact E.
Qed.

(** The view [V_l.ip(1, buf=2)] has one row less than the value it is
    assigned: its slice is clipped at the end of the array. *)
Lemma set_shifted_view_raises (a : array3) (n : Z) (y : array2) :
  on_grid g nv a -> 0 <= n < nv -> rows y = view_l0 g (2, 2) ->
  set_ip_jp g a 1 0 (2, 2) n y
  = Raise (ValueError "could not broadcast input array").
Proof.
  intros (D0 & D1 & D2) Hn R.
  destruct Hg as (G0 & G1 & G2 & G3 & G4 & G5 & G6).
  unfold set_ip_jp, set_slice3. cbn [fst snd].
  rewrite py_index_plain by lia. cbn [rbind].
  unfold py_slice, py_bound. rewrite D0, D1.
  destruct (Z.ltb_spec (ilo g - 2 + 1) 0); [lia|].
  destruct (Z.ltb_spec (ihi g + 1 + 2 + 1) 0); [lia|].
  destruct (Z.ltb_spec (jlo g - 2 + 0) 0); [lia|].
  destruct (Z.ltb_spec (jhi g + 1 + 2 + 0) 0); [lia|].
  unfold view_l0 in R. cbn [fst snd] in R.
  destruct (Z.eqb_spec (rows y)
              (Z.max (Z.min (ihi g + 1 + 2 + 1) (qx g) - Z.min (ilo g - 2 + 1) (qx g)) 0));
    [lia|].
  reflexivity.
Qed.

(** Lines 164-166 on such a grid: the first assignment of the x sweep
    raises. *)
Lemma sweep_states_two_layers (ld V_l V_r : loc) (L Vl0 : array3) (w : world) :
  heap w ld = Some L -> heap w V_l = Some Vl0 ->
  on_grid g nv q -> on_grid g nv L -> on_grid g nv Vl0 ->
  sweep_states g ivars q ld V_l V_r 1 0 w
  = (Raise (ValueError "could not broadcast input array"), w).
Proof.
  intros HL HVl Hq GL GVl.
  assert (F0 : view_fits g 0 0 (2, 2)).
  { destruct Hg as (G0 & G1 & G2 & G3 & G4 & G5 & G6).
    unfold view_fits. cbn [fst snd]. lia. }
  assert (H0 : 0 <= 0 < nv) by lia.
  unfold sweep_states. apply for_range_first; [exact Hnv|].
  eapply bind_run; [apply lift_run; eapply ip_jp_plain; eassumption|].
  eapply bind_run; [apply load_run; exact HL|].
  eapply bind_run; [apply lift_run; eapply ip_jp_plain; eassumption|].
  eapply bind_run; [apply lift_run; apply ew2_plain; reflexivity|].
  apply bind_raise. unfold modify.
  eapply bind_run; [apply load_run; exact HVl|].
  apply bind_raise. apply lift_raise.
  apply (set_shifted_view_raises Vl0 0); [exact GVl|exact H0|reflexivity].
Qed.

(** The whole of [fluxes] on such a grid: the primitive variables, the
    flattening and the limiting are computed, and the x sweep raises. *)
Lemma fluxes_run_two_layers (w : world) :
  rk_inputs ivars U0 my_data w ->
  exists w',
    fluxes my_data rp ivars solid w
    = (Raise (ValueError "could not broadcast input array"), w') /\
    trace w' = trace w ++ [EvConsToPrim U0] ++ flattening_calls g q ivars rp
                       ++ limit_calls q limiter nv /\
    (forall l, (l < next w)%nat -> heap w' l = heap w l).
Proof.
  intros (_ & Hvs & Hle & (kd & kx & ky & ke & Hn) & HU & Hd & GU).
  destruct Hn as (Nd & Nx & Ny & Ne & _).
  assert (Hnv0 : 0 <= nv) by lia.
  pose proof (cons_to_prim_shape U0 (eos_gamma rp) ivars g) as Hq.
  pose proof (rk_xi_fits my_data rp ivars U0) as Hxi.
  set (w1 := {| heap := heap w; next := next w;
                trace := (trace w ++ [EvConsToPrim U0])
                           ++ flattening_calls g q ivars rp |}).
  set (h2 := put (put (heap w) (next w) (zeros3 (qx g) (qy g) nv))
                 (S (next w)) (zeros3 (qx g) (qy g) nv)).
  set (w2 := {| heap := h2; next := S (S (next w)); trace := trace w1 |}).
  destruct (limit_slopes_run g ivars q Hnv0 Hq xi limiter (next w) (S (next w))
              (zeros3 (qx g) (qy g) nv) (zeros3 (qx g) (qy g) nv) w2)
    as (w3 & Lx & Ly & E3 & X3 & T3 & HLx & HLy & K3 & Sx & Sy);
    [exact Hxi|lia| | |apply zeros3_on_grid|apply zeros3_on_grid|].
  { unfold w2, h2. cbn [heap]. rewrite put_other by lia. apply put_same. }
  { unfold w2, h2. cbn [heap]. apply put_same. }
  assert (X3' : next w3 = S (S (next w))) by exact X3.
  set (Vl := next w3). set (Vr := S (next w3)).
  set (h4 := put (put (heap w3) Vl (zeros3 (qx g) (qy g) nv))
                 Vr (zeros3 (qx g) (qy g) nv)).
  set (w4 := {| heap := h4; next := S (S (next w3)); trace := trace w3 |}).
  exists w4. split; [|split].
  - unfold fluxes. apply bind_raise. unfold interface_states.
    eapply bind_run; [apply getVarPtr_run; exact Nd|].
    eapply bind_run; [apply getVarPtr_run; exact Nx|].
    eapply bind_run; [apply getVarPtr_run; exact Ny|].
    eapply bind_run; [apply getVarPtr_run; exact Ne|].
    eapply bind_run; [apply load_run; exact HU|].
    eapply bind_run; [reflexivity|].
    eapply bind_run; [apply flattening_run|].
    eapply bind_run; [reflexivity|].
    eapply bind_run; [reflexivity|].
    eapply bind_run; [exact E3|].
    eapply bind_run; [reflexivity|].
    eapply bind_run; [reflexivity|].
    apply bind_raise.
    apply (sweep_states_two_layers (next w) Vl Vr Lx (zeros3 (qx g) (qy g) nv) w4).
    + unfold w4, h4, Vl, Vr. cbn [heap]. rewrite !put_other by lia. exact HLx.
    + unfold w4, h4. cbn [heap]. rewrite put_other by (unfold Vl, Vr; lia).
      apply put_same.
    + exact Hq.
    + apply Sx.
    + apply zeros3_on_grid.
  - unfold w4. cbn [trace]. rewrite T3. unfold w2, w1. cbn [trace].
    rewrite <- !app_assoc. reflexivity.
  - intros l Hl. unfold w4, h4. cbn [heap].
    rewrite !put_other by (unfold Vl, Vr; lia).
    rewrite K3 by lia. unfold w2, h2. cbn [heap].
    rewrite !put_other by lia. reflexivity.
Qed.
End RKTwoLayers.

(** X12. On a grid with exactly two ghost layers [fluxes] returns no fluxes:
    the view [V_l.ip(1, buf=2)] of the x sweep is clipped at the end of the
    array, and its assignment ends the run in numpy's broadcast
    [ValueError], after the limiting and before any conversion to
    conserved variables or Riemann solve. *)
Theorem rk_fluxes_two_ghost_layers
        {A : Arith} {C : Collaborators} {CS : CollaboratorShapes}
        (my_data : CellCenterData2d) (rp : RuntimeParameters) (ivars : vars.t)
        (solid : Solid) (U0 : array3) (w : world) :
  rk_inputs ivars U0 my_data w -> ng (grid my_data) = 2 ->
  let q := cons_to_prim U0 (eos_gamma rp) ivars (grid my_data) in
  fst (fluxes my_data rp ivars solid w)
  = Raise (ValueError "could not broadcast input array") /\
  trace (snd (fluxes my_data rp ivars solid w))
  = trace w ++ [EvConsToPrim U0] ++ flattening_calls (grid my_data) q ivars rp
            ++ limit_calls q (compressible_limiter rp) (vars.nvar ivars).
Proof.
  intros Hin Hng q.
  assert (Hnv : 0 < vars.nvar ivars).
  { destruct Hin as (_ & Hvs & _). unfold vars.ok in Hvs. lia. }
  destruct (fluxes_run_two_layers my_data rp ivars solid U0
              (proj1 Hin) Hng Hnv w Hin) as (w' & E & T & _).
  rewrite E. cbn [fst snd]. split; [reflexivity|exact T].
Qed.

Lemma sample_rk_inputs_2 :
  rk_inputs vars.standard sample_U0_2 sample_data_2 sample_world_2.
Proof.
  unfold rk_inputs, grid_ok, vars.ok, on_grid. cbn.
  repeat split; try lia.
  exists 0, 1, 2, 3. unfold names_at. cbn. repeat split; lia.
Qed.

Lemma rk_fluxes_two_ghost_layers_witness :
  fst (fluxes (C := sample_collaborators) sample_data_2 sample_rp vars.standard
              sample_solid sample_world_2)
  = Raise (ValueError "could not broadcast input array").
Proof.
  apply (proj1 (rk_fluxes_two_ghost_layers
                  (C := sample_collaborators) (CS := sample_collaborator_shapes)
                  sample_data_2 sample_rp vars.standard sample_solid sample_U0_2
                  sample_world_2 sample_rk_inputs_2 eq_refl)).
Defined.


(** ** The conserved transform of [unsplitFluxes] *)

(** X13. The transform of lines 239-243 (and its three repetitions) writes
    exactly the four conserved components of [U]: the density passes
    through, the momenta are [rho u] and [rho v], the energy is
    [rhoe(p) + 0.5 rho (u^2 + v^2)]; every other component of [U], and its
    shape, are as they were. *)
Theorem to_conserved_writes_four_components
        {A : Arith} (vs : vars.t) (gamma : num) (V U : array3) :
  vars.ok vs ->
  dim2 V = vars.nvar vs -> dim2 U = vars.nvar vs ->
  dim0 V = dim0 U -> dim1 V = dim1 U ->
  exists U',
    to_conserved vs gamma V U = Ok U' /\
    (dim0 U' = dim0 U /\ dim1 U' = dim1 U /\ dim2 U' = dim2 U) /\
    forall i j,
      elt3 U' i j (vars.idens vs) = elt3 V i j (vars.irho vs) /\
      elt3 U' i j (vars.ixmom vs)
      = (elt3 V i j (vars.irho vs) * elt3 V i j (vars.iu vs))%num /\
      elt3 U' i j (vars.iymom vs)
      = (elt3 V i j (vars.irho vs) * elt3 V i j (vars.iv vs))%num /\
      elt3 U' i j (vars.iener vs)
      = (elt3 V i j (vars.ip vs) / (gamma - lit 1)
         + lit (1 # 2) * elt3 V i j (vars.irho vs)
           * (elt3 V i j (vars.iu vs) * elt3 V i j (vars.iu vs)
              + elt3 V i j (vars.iv vs) * elt3 V i j (vars.iv vs)))%num /\
      forall n, n <> vars.idens vs -> n <> vars.ixmom vs ->
                n <> vars.iymom vs -> n <> vars.iener vs ->
                elt3 U' i j n = elt3 U i j n.
Proof.
  intros Hvs HV HU H0 H1.
  exists (conserved vs gamma V U).
  split; [apply to_conserved_plain; assumption|].
  split; [unfold conserved; cbn; auto|].
  intros i j.
  destruct (conserved_elements vs gamma V U i j Hvs) as (C1 & C2 & C3 & C4).
  split; [exact C1|]. split; [exact C2|]. split; [exact C3|]. split; [exact C4|].
  intros n N1 N2 N3 N4. unfold conserved. cbv zeta. cbn [elt3 put_comp].
  destruct (Z.eqb_spec n (vars.iener vs)); [contradiction|].
  destruct (Z.eqb_spec n (vars.iymom vs)); [contradiction|].
  destruct (Z.eqb_spec n (vars.ixmom vs)); [contradiction|].
  destruct (Z.eqb_spec n (vars.idens vs)); [contradiction|].
  reflexivity.
Qed.

Lemma to_conserved_writes_four_components_witness :
  exists U',
    to_conserved (A := ExactArith) vars.standard (7 # 5)
                 (ramp3 8 7 4 1 2 3 4) (ramp3 8 7 4 0 0 0 9) = Ok U' /\
    (dim0 U' = 8 /\ dim1 U' = 7 /\ dim2 U' = 4).
Proof.
  destruct (to_conserved_writes_four_components (A := ExactArith)
              vars.standard (7 # 5) (ramp3 8 7 4 1 2 3 4) (ramp3 8 7 4 0 0 0 9))
    as (U' & E & D & _); try reflexivity.
  - unfold vars.ok; cbn; lia.
  - exists U'. split; [exact E|exact D].
Defined.

(** ** The data flow of [fluxes] *)

(** X14. A run of [fluxes] with a solver name of the code makes its calls in
    one order: the primitive variables, the flattening, the limiter for
    each variable in x and in y, the conversion of the four state arrays,
    the solver in x on the converted x states with the x wall flags, the
    solver in y on the converted y states with the y wall flags, and the
    viscosity routine on the velocities [u] and [v] of the primitive
    variables over the whole padded grid. *)
Theorem rk_fluxes_call_sequence
        {A : Arith} {C : Collaborators} {CS : CollaboratorShapes}
        (my_data : CellCenterData2d) (rp : RuntimeParameters) (ivars : vars.t)
        (solid : Solid) (U0 : array3) (s : solver) (w : world) :
  rk_ready ivars U0 my_data w ->
  solver_named (compressible_riemann rp) = Some s ->
  let g := grid my_data in
  let gamma := eos_gamma rp in
  let q := cons_to_prim U0 gamma ivars g in
  exists Vxl Vxr Vyl Vyr Fx Fy w',
    fluxes my_data rp ivars solid w = (Ok (Fx, Fy), w') /\
    trace w'
    = trace w
      ++ [EvConsToPrim U0] ++ flattening_calls g q ivars rp
      ++ limit_calls q (compressible_limiter rp) (vars.nvar ivars)
      ++ [ EvPrimToCons Vxl; EvPrimToCons Vxr; EvPrimToCons Vyl; EvPrimToCons Vyr ]
      ++ [ EvRiemannSolver (solver_name s) 1
                           (prim_to_cons Vxl gamma ivars g)
                           (prim_to_cons Vxr gamma ivars g);
           EvRiemannSolver (solver_name s) 2
                           (prim_to_cons Vyl gamma ivars g)
                           (prim_to_cons Vyr gamma ivars g);
           EvArtificialViscosity (comp_of_grid g q (vars.iu ivars))
                                 (comp_of_grid g q (vars.iv ivars)) ].
Proof.
  intros Hr Hs. cbv zeta.
  destruct (fluxes_run my_data rp ivars solid U0 w Hr)
    as (Lx & Ly & Vxl & Vxr & Vyl & Vyr & _ & _ & _ & _ & Hrun).
  cbv zeta in Hrun. rewrite Hs in Hrun.
  destruct Hrun as (w' & Fx & Fy & E & T & _).
  exists Vxl, Vxr, Vyl, Vyr, Fx, Fy, w'. split; [exact E|].
  destruct (select_solver_known _ s w Hs) as [_ Hname].
  rewrite T, Hname. unfold state_calls. cbv zeta. rewrite <- !app_assoc.
  destruct Hr as ((G0 & G1 & G2 & G3 & G4 & G5 & G6) & _).
  unfold velocity_view, comp_of_grid, view_s0, view_l0, view_s1, view_l1, window2.
  cbn [fst snd].
  replace (ilo (grid my_data) - ng (grid my_data) + 0) with 0 by lia.
  replace (jlo (grid my_data) - ng (grid my_data) + 0) with 0 by lia.
  replace (ihi (grid my_data) + 1 + ng (grid my_data)
           - (ilo (grid my_data) - ng (grid my_data))) with (qx (grid my_data)) by lia.
  replace (jhi (grid my_data) + 1 + ng (grid my_data)
           - (jlo (grid my_data) - ng (grid my_data))) with (qy (grid my_data)) by lia.
  reflexivity.
Qed.

Lemma rk_fluxes_call_sequence_witness :
  exists F w',
    fluxes (C := sample_collaborators) sample_data sample_rp vars.standard
           sample_solid sample_world = (Ok F, w').
Proof.
  destruct (rk_fluxes_call_sequence
              (C := sample_collaborators) (CS := sample_collaborator_shapes)
              sample_data sample_rp vars.standard sample_solid sample_U0 HLLC
              sample_world sample_rk_ready eq_refl)
    as (Vxl & Vxr & Vyl & Vyr & Fx & Fy & w' & E & _).
  exists (Fx, Fy), w'. exact E.
Defined.

(** X15. In exact arithmetic the two interface states that a zone gives, the
    left state of its high-side interface and the right state of its
    low-side interface, average to the zone's primitive variables, in the
    x sweep and in the y sweep, whatever the limiter and the flattening
    return. *)
Theorem rk_states_average_to_cell
        {C : @Collaborators ExactArith} {CS : @CollaboratorShapes ExactArith C}
        (my_data : @CellCenterData2d ExactArith) (rp : @RuntimeParameters ExactArith)
        (ivars : vars.t) (solid : Solid) (U0 : @array3 ExactArith)
        (w : @world ExactArith) :
  rk_ready ivars U0 my_data w ->
  let g := grid my_data in
  let q := cons_to_prim U0 (eos_gamma rp) ivars g in
  exists Vxl Vxr Vyl Vyr,
    prim_to_cons_calls (trace (snd (fluxes my_data rp ivars solid w)))
    = prim_to_cons_calls (trace w) ++ [Vxl; Vxr; Vyl; Vyr] /\
    forall i j n,
      0 <= n < vars.nvar ivars ->
      ilo g - 2 <= i <= ihi g + 2 -> jlo g - 2 <= j <= jhi g + 2 ->
      elt3 Vxl (i + 1) j n + elt3 Vxr i j n == 2 * elt3 q i j n /\
      elt3 Vyl i (j + 1) n + elt3 Vyr i j n == 2 * elt3 q i j n.
Proof.
  intros Hr. cbv zeta.
  destruct (fluxes_run my_data rp ivars solid U0 w Hr)
    as (Lx & Ly & Vxl & Vxr & Vyl & Vyr & _ & _ & S1 & S2 & Hrun).
  cbv zeta in Hrun.
  exists Vxl, Vxr, Vyl, Vyr. split.
  - pose proof (state_calls_quiet (grid my_data) U0 ivars rp Vxl Vxr Vyl Vyr)
      as [_ Hp].
    destruct (solver_named (compressible_riemann rp)) as [s|].
    + destruct Hrun as (w' & Fx & Fy & E & T & _). rewrite E. cbn [snd].
      rewrite T, !prim_to_cons_calls_app, Hp. cbn [prim_to_cons_calls flat_map app].
      reflexivity.
    + destruct Hrun as (w' & E & T & _). rewrite E. cbn [snd].
      rewrite T, prim_to_cons_calls_app, Hp. reflexivity.
  - intros i j n Hn Hi Hj.
    destruct (S1 (i + 1) j n) as [L1 _]. destruct (S1 i j n) as [_ R1].
    destruct (S2 i (j + 1) n) as [L2 _]. destruct (S2 i j n) as [_ R2].
    rewrite (variable_index n _ Hn) in L1, R1, L2, R2. cbn [andb] in *.
    rewrite (proj2 (in_view_cells (grid my_data) 1 0 2 2 (i + 1) j)) in L1 by lia.
    rewrite (proj2 (in_view_cells (grid my_data) 0 1 2 2 i (j + 1))) in L2 by lia.
    rewrite (proj2 (in_view_cells (grid my_data) 0 0 2 2 i j)) in R1, R2 by lia.
    rewrite L1, R1, L2, R2. unfold state_left, state_right.
    replace (i + 1 - 1) with i by lia. replace (j + 1 - 1) with j by lia.
    replace (i - 0) with i by lia. replace (j - 0) with j by lia.
    cbn [num lit add sub mul div neg ExactArith]. split; ring.
Qed.

Lemma rk_states_average_to_cell_witness :
  exists Vxl Vxr Vyl Vyr,
    prim_to_cons_calls
      (trace (snd (fluxes (C := sample_collaborators) sample_data sample_rp
                          vars.standard sample_solid sample_world)))
    = prim_to_cons_calls (trace sample_world) ++ [Vxl; Vxr; Vyl; Vyr] /\
    forall i j n,
      0 <= n < vars.nvar vars.standard ->
      ilo grid3 - 2 <= i <= ihi grid3 + 2 -> jlo grid3 - 2 <= j <= jhi grid3 + 2 ->
      elt3 Vxl (i + 1) j n + elt3 Vxr i j n
      == 2 * elt3 (sample_cons_to_prim sample_U0 (7 # 5) vars.standard grid3) i j n /\
      elt3 Vyl i (j + 1) n + elt3 Vyr i j n
      == 2 * elt3 (sample_cons_to_prim sample_U0 (7 # 5) vars.standard grid3) i j n.
Proof.
  exact (rk_states_average_to_cell
           (C := sample_collaborators) (CS := sample_collaborator_shapes)
           sample_data sample_rp vars.standard sample_solid sample_U0
           sample_world sample_rk_ready).
Defined.

(** ** The two sweeps of [interfaceStates] *)

(** X16. For any direction other than 1, [interfaceStates] builds the
    eigensystem of the y sweep, and that is the eigensystem of the x sweep
    of the state with [u] and [v] exchanged, with the two velocity
    components of every eigenvector exchanged: the same eigenvalues, and
    [lvec[m][k]] and [rvec[m][k]] of the one at the places of [u] and [v]
    of the other. *)
Theorem y_sweep_mirrors_x_sweep
        {A : Arith} (idir : Z) (gamma r u v p : num) (E : eigen) :
  idir <> 1 ->
  eigensystem idir gamma r u v p = Ok E ->
  exists E1,
    eigensystem 1 gamma r v u p = Ok E1 /\
    eval E = eval E1 /\
    forall m k, 0 <= m < 4 -> 0 <= k < 4 ->
      nth4 (row (lvec E) m) k = nth4 (row (lvec E1) m) (swap_uv k) /\
      nth4 (row (rvec E) m) k = nth4 (row (rvec E1) m) (swap_uv k).
Proof.
  intros Hd. unfold eigensystem.
  destruct (Z.eqb_spec idir 1) as [|_]; [contradiction|].
  change (1 =? 1) with true. cbv iota.
  destruct (py_sqrt (gamma * p / r)%num) as [cs|e]; [|discriminate]. cbn [rbind].
  destruct (py_fdiv (lit (1 # 2)) (cs * cs)%num) as [h|e]; [|discriminate].
  cbn [rbind].
  destruct (py_fdiv (lit (-1)) (cs * cs)%num) as [o|e]; [|discriminate].
  cbn [rbind]. intros HE. injection HE as <-.
  eexists. split; [reflexivity|]. split; [reflexivity|].
  intros m k Hm Hk. four_cases m; four_cases k; split; reflexivity.
Qed.

Lemma y_sweep_mirrors_x_sweep_witness :
  exists E E1 : @eigen ExactArith,
    eigensystem (A := ExactArith) 2 (7 # 5) 1%Q (1 # 2) (1 # 3) 1%Q = Ok E /\
    eigensystem (A := ExactArith) 1 (7 # 5) 1%Q (1 # 3) (1 # 2) 1%Q = Ok E1 /\
    eval E = eval E1.
Proof.
  destruct (y_sweep_mirrors_x_sweep (A := ExactArith) 2 (7 # 5) 1%Q (1 # 2) (1 # 3) 1%Q
              _ ltac:(lia) eq_refl) as (E1 & H1 & H2 & _).
  eexists. exists E1. split; [reflexivity|]. split; [exact H1|exact H2].
Defined.

Section ZeroStep.

Ltac expose :=
  cbn [predicted_left predicted_right beta_l beta_r sum4 dot4 row col nth4
       Z.eqb Pos.eqb num lit add sub mul div neg ExactArith].

Lemma predicted_of_zero_step (dtdx : Q) (E : @eigen ExactArith)
      (V dV : @vec4 ExactArith) (m : Z) :
  dtdx == 0 -> 0 <= m < 4 ->
  predicted_left (A := ExactArith) dtdx E V dV m == nth4 V m + (1 # 2) * nth4 dV m /\
  predicted_right (A := ExactArith) dtdx E V dV m == nth4 V m - (1 # 2) * nth4 dV m.
Proof.
  intros H0 Hm.
  unfold predicted_left, predicted_right, beta_l, beta_r, sum4.
  four_cases m; expose; rewrite H0; split; ring.
Qed.
End ZeroStep.

(** X17. In exact arithmetic, with a zero time step [interfaceStates] is the
    piecewise-linear reconstruction that [fluxes] uses: each visited zone
    gives [V + 0.5 dV] to the left state of its high-side interface and
    [V - 0.5 dV] to the right state of its low-side interface. *)
Theorem interface_states_of_zero_time_step
        (nvar : Z) (gamma : Q) (idir : Z) (g : @Grid2d ExactArith) (dt : Q)
        (r u v p ldelta_r ldelta_u ldelta_v ldelta_p : @array2 ExactArith) :
  grid_ok g -> 3 <= ng g -> nvar = 4 ->
  states_inputs g r u v p ldelta_r ldelta_u ldelta_v ldelta_p ->
  (forall i j, visited g i j -> zone_exn (A := ExactArith) gamma r p i j = None) ->
  dt == 0 ->
  exists V_l V_r,
    interfaceStates (A := ExactArith) nvar gamma idir g dt
                    r u v p ldelta_r ldelta_u ldelta_v ldelta_p = Ok (V_l, V_r) /\
    forall i j m,
      visited g i j -> 0 <= m < 4 ->
      elt3 V_l (fst (left_target idir i j)) (snd (left_target idir i j)) m
      == nth4 (zone_V r u v p i j) m
         + (1 # 2) * nth4 (zone_dV ldelta_r ldelta_u ldelta_v ldelta_p i j) m /\
      elt3 V_r i j m
      == nth4 (zone_V r u v p i j) m
         - (1 # 2) * nth4 (zone_dV ldelta_r ldelta_u ldelta_v ldelta_p i j) m.
Proof.
  intros Hg Hng -> (Hr & Hu & Hv & Hp & Hdr & Hdu & Hdv & Hdp) Hs Hdt.
  unfold interfaceStates.
  destruct (zone_loops_predicted (A := ExactArith) idir g
              (if idir =? 1 then (dt / dx g)%Q else (dt / dy g)%Q) gamma
              r u v p ldelta_r ldelta_u ldelta_v ldelta_p
              Hg Hng Hr Hu Hv Hp Hdr Hdu Hdv Hdp
              (zeros3 (qx g) (qy g) 4, zeros3 (qx g) (qy g) 4))
    as ([V_l V_r] & E & _ & _ & H).
  - intros i j Hvis. apply zone_exn_sound. apply Hs. exact Hvis.
  - unfold on_grid. simpl. auto.
  - unfold on_grid. simpl. auto.
  - exists V_l, V_r. split; [exact E|].
    intros i j m Hvis Hm.
    destruct (H i j m Hvis Hm) as [Hl Hrr]. cbn [fst snd] in Hl, Hrr.
    rewrite Hl, Hrr.
    apply predicted_of_zero_step; [|exact Hm].
    destruct (idir =? 1); unfold Qdiv; rewrite Hdt; ring.
Qed.

Lemma interface_states_of_zero_time_step_witness :
  exists V_l V_r,
    interfaceStates (A := ExactArith) 4 (7 # 5) 2 grid3 0%Q
                    flat_r shear_u shear_v flat_p
                    slope_r slope_u slope_v slope_p = Ok (V_l, V_r) /\
    forall i j m,
      visited grid3 i j -> 0 <= m < 4 ->
      elt3 V_l (fst (left_target 2 i j)) (snd (left_target 2 i j)) m
      == nth4 (zone_V flat_r shear_u shear_v flat_p i j) m
         + (1 # 2) * nth4 (zone_dV slope_r slope_u slope_v slope_p i j) m /\
      elt3 V_r i j m
      == nth4 (zone_V flat_r shear_u shear_v flat_p i j) m
         - (1 # 2) * nth4 (zone_dV slope_r slope_u slope_v slope_p i j) m.
Proof.
  apply (interface_states_of_zero_time_step 4 (7 # 5) 2 grid3 0).
  - exact grid3_ok.
  - simpl; lia.
  - reflexivity.
  - exact sample_states_inputs.
  - intros i j _. vm_compute. reflexivity.
  - reflexivity.
Defined.

(** ** project_periodic.py: the error norm *)

Section ErrorNorm.
Context {A : Arith}.
Variable np_sum : list num -> num.

Lemma in_upto (k i : Z) : In i (upto k) -> 0 <= i < k.
Proof.
  unfold upto. intros H. apply in_map_iff in H. destruct H as (n & <- & Hn).
  apply in_seq in Hn. lia.
Qed.

Lemma flat_ext (a b : array2) :
  rows a = rows b -> cols a = cols b ->
  (forall i j, 0 <= i < rows a -> 0 <= j < cols a -> elt2 a i j = elt2 b i j) ->
  flat a = flat b.
Proof.
  intros R Cc H. unfold flat. rewrite <- R, <- Cc.
  rewrite !flat_map_concat_map. f_equal.
  apply map_ext_in. intros i Hi. apply map_ext_in. intros j Hj.
  apply H; apply in_upto; assumption.
Qed.

(** The interior of an array of the grid. *)
Lemma interior_plain (g : Grid2d) (r : array2) :
  grid_ok g -> on_grid2 g r ->
  slice2 r (ilo g) (ihi g + 1) (jlo g) (jhi g + 1)
  = window2 r (ilo g) (ihi g + 1 - ilo g) (jlo g) (jhi g + 1 - jlo g).
Proof.
  intros (G0 & G1 & G2 & G3 & G4 & G5 & G6) [R Cc].
  apply slice2_plain; lia.
Qed.
End ErrorNorm.

(** X18. [error] reads the interior of the residual only: two residuals over
    the grid that agree on the cells [ilo..ihi] by [jlo..jhi] have the same
    norm, whatever their ghost cells hold. *)
Theorem error_ignores_ghost_cells
        {A : Arith} (np_sum : list num -> num) (myg : Grid2d) (r r' : array2) :
  grid_ok myg -> on_grid2 myg r -> on_grid2 myg r' ->
  (forall i j, ilo myg <= i <= ihi myg -> jlo myg <= j <= jhi myg ->
               elt2 r i j = elt2 r' i j) ->
  error np_sum myg r = error np_sum myg r'.
Proof.
  intros Hg Hr Hr' H. unfold error.
  rewrite !interior_plain by assumption.
  f_equal. f_equal. f_equal.
  apply flat_ext; [reflexivity|reflexivity|].
  cbn [rows cols elt2 map2 window2]. intros i j Hi Hj.
  f_equal. apply H; lia.
Qed.

Lemma error_ignores_ghost_cells_witness :
  error (A := ExactArith) sum_list grid3 residual_a
  = error (A := ExactArith) sum_list grid3 residual_b.
Proof.
  apply (error_ignores_ghost_cells (A := ExactArith) sum_list grid3).
  - exact grid3_ok.
  - unfold on_grid2; simpl; lia.
  - unfold on_grid2; simpl; lia.
  - intros i j Hi Hj. simpl in Hi, Hj. cbn [elt2 residual_a residual_b ramp2].
    destruct (Z.leb_spec 3 i); [|lia]. destruct (Z.leb_spec i 4); [|lia].
    destruct (Z.eqb_spec j 3); [|lia]. reflexivity.
Defined.

(** ** The correction loop is in conservation form *)

Lemma run_sum_telescopes (h F : Z -> Q) (c : Q) (a : Z) (n : nat) :
  (forall j, a <= j < a + Z.of_nat n -> h j == c * (F (j + 1) - F j)) ->
  run_sum h a n == c * (F (a + Z.of_nat n) - F a).
Proof.
  revert a. induction n as [|n IH]; intros a H.
  - cbn [run_sum]. replace (a + Z.of_nat 0) with a by lia. ring.
  - cbn [run_sum]. rewrite (H a) by lia. rewrite IH.
    + replace (a + 1 + Z.of_nat n) with (a + Z.of_nat (S n)) by lia. ring.
    + intros j Hj. apply H. lia.
Qed.

(** X19. In exact arithmetic the corrections of [U_xr] along [j], and of
    [U_yr] along [i], telescope: summed over a run of visited cells they
    are [-0.5 dt/dy] times the difference of [F_y] (of [-0.5 dt/dx] times
    that of [F_x]) between the two ends of the run. *)
Theorem transverse_correction_telescopes
        (g : @Grid2d ExactArith) (dt : Q) (nvar : Z)
        (F_x F_y : @array3 ExactArith) (s0 : @faces ExactArith)
        (i j c : Z) (n : nat) :
  grid_ok g -> 3 <= ng g -> 0 <= nvar ->
  on_grid g nvar F_x -> on_grid g nvar F_y -> faces_on_grid g nvar s0 ->
  0 <= c < nvar ->
  exists s',
    transverse (A := ExactArith) g dt nvar F_x F_y s0 = Ok s' /\
    (ilo g - 2 <= i <= ihi g + 2 ->
     jlo g - 2 <= j -> j + Z.of_nat n - 1 <= jhi g + 2 ->
     run_sum (fun l => (elt3 (U_xr s') i l c - elt3 (U_xr s0) i l c)%Q) j n
     == - ((1 # 2) * dt / dy g)
        * (elt3 F_y i (j + Z.of_nat n) c - elt3 F_y i j c)) /\
    (jlo g - 2 <= j <= jhi g + 2 ->
     ilo g - 2 <= i -> i + Z.of_nat n - 1 <= ihi g + 2 ->
     run_sum (fun k => (elt3 (U_yr s') k j c - elt3 (U_yr s0) k j c)%Q) i n
     == - ((1 # 2) * dt / dx g)
        * (elt3 F_x (i + Z.of_nat n) j c - elt3 F_x i j c)).
Proof.
  intros Hg Hng Hnvar HFx HFy Hs Hc.
  destruct (transverse_progress (A := ExactArith) g dt nvar F_x F_y s0
                                Hg Hng Hnvar HFx HFy Hs)
    as [s' [E [_ H]]].
  exists s'. split; [exact E|]. split.
  - intros Hi Hj0 Hj1.
    apply (run_sum_telescopes _ (fun l => elt3 F_y i l c)).
    intros l Hl. destruct (H i l c) as [Hcor _].
    destruct Hcor as (_ & C2 & _); [unfold visited; lia|].
    rewrite C2. unfold xr_corrected.
    cbn [num lit add sub mul div neg ExactArith]. ring.
  - intros Hj Hi0 Hi1.
    apply (run_sum_telescopes _ (fun k => elt3 F_x k j c)).
    intros k Hk. destruct (H k j c) as [Hcor _].
    destruct Hcor as (_ & _ & _ & C4); [unfold visited; lia|].
    rewrite C4. unfold yr_corrected.
    cbn [num lit add sub mul div neg ExactArith]. ring.
Qed.

Lemma transverse_correction_telescopes_witness :
  exists s',
    transverse (A := ExactArith) grid3 (1 # 10) 4 (ramp3 8 7 4 1 2 3 4)
               (ramp3 8 7 4 5 (-1) 2 0) (sample_faces 8 7) = Ok s'.
Proof.
  destruct (transverse_correction_telescopes grid3 (1 # 10) 4
              (ramp3 8 7 4 1 2 3 4) (ramp3 8 7 4 5 (-1) 2 0) (sample_faces 8 7)
              3 1 0 5%nat)
    as (s' & E & _).
  - exact grid3_ok.
  - simpl; lia.
  - lia.
  - unfold on_grid; simpl; lia.
  - unfold on_grid; simpl; lia.
  - unfold faces_on_grid, on_grid; simpl; lia.
  - lia.
  - exists s'. exact E.
Defined.

(** ** A data object that lacks a variable *)

Section MissingVariable.
Context {A : Arith}.

Lemma getVarPtr_raises (d : CellCenterData2d) (name : string) (e : exn) (w : world) :
  index_of name (names d) 0 = Raise e -> getVarPtr d name w = (Raise e, w).
Proof.
  intros H. unfold getVarPtr. apply bind_raise. apply lift_raise. exact H.
Qed.

Lemma getVarPtr_outcome (d : CellCenterData2d) (name : string) (w : world) :
  (exists k, index_of name (names d) 0 = Ok k /\
             getVarPtr d name w = (Ok {| base := data d; component := k |}, w)) \/
  (exists e, index_of name (names d) 0 = Raise e /\
             getVarPtr d name w = (Raise e, w)).
Proof.
  destruct (index_of name (names d) 0) as [k|e] eqn:E.
  - left. exists k. split; [reflexivity|]. apply getVarPtr_run. exact E.
  - right. exists e. split; [reflexivity|]. apply getVarPtr_raises. exact E.
Qed.

(** Four lookups in a row, one of which fails. *)
Lemma four_lookups_raise {T : Type} (d : CellCenterData2d) (name : string)
      (k : view -> view -> view -> view -> M T) (w : world) :
  In name ["density"; "x-momentum"; "y-momentum"; "energy"]%string ->
  (exists e, index_of name (names d) 0 = Raise e) ->
  exists e,
    (dens <- getVarPtr d "density" ;;
     xmom <- getVarPtr d "x-momentum" ;;
     ymom <- getVarPtr d "y-momentum" ;;
     ener <- getVarPtr d "energy" ;;
     k dens xmom ymom ener)%M w = (Raise e, w).
Proof.
  intros Hin [e0 He0].
  destruct (getVarPtr_outcome d "density" w) as [(k1 & I1 & E1)|(e & _ & E)];
    [|exists e; apply bind_raise; exact E].
  destruct (getVarPtr_outcome d "x-momentum" w) as [(k2 & I2 & E2)|(e & _ & E)];
    [|exists e; eapply bind_run; [exact E1|]; apply bind_raise; exact E].
  destruct (getVarPtr_outcome d "y-momentum" w) as [(k3 & I3 & E3)|(e & _ & E)];
    [|exists e; eapply bind_run; [exact E1|]; eapply bind_run; [exact E2|];
      apply bind_raise; exact E].
  destruct (getVarPtr_outcome d "energy" w) as [(k4 & I4 & E4)|(e & _ & E)];
    [|exists e; eapply bind_run; [exact E1|]; eapply bind_run; [exact E2|];
      eapply bind_run; [exact E3|]; apply bind_raise; exact E].
  cbn [In] in Hin.
  destruct Hin as [<-|[<-|[<-|[<-|[]]]]]; congruence.
Qed.
End MissingVariable.

(** X20. When the data object lacks one of the variables [density],
    [x-momentum], [y-momentum], [energy], both flux routines end with the
    exception of the lookup before they call any collaborator or create any
    array: the store and the log of calls are as on entry.  ([fluxes] looks
    the four variables up although it never uses the views.) *)
Theorem missing_variable_stops_both_routines
        {A : Arith} {F : Fortran} {C : Collaborators}
        (vs : vars.t) (gamma : num) (myData : CellCenterData2d) (dt : num)
        (rp : RuntimeParameters) (solid : Solid) (name : string) (w : world) :
  In name ["density"; "x-momentum"; "y-momentum"; "energy"]%string ->
  (exists e, index_of name (names myData) 0 = Raise e) ->
  (exists e, unsplitFluxes vs gamma myData dt w = (Raise e, w)) /\
  (exists e, fluxes myData rp vs solid w = (Raise e, w)).
Proof.
  intros Hin Hmiss. split.
  - unfold unsplitFluxes. cbv zeta.
    apply (four_lookups_raise myData name); assumption.
  - assert (H : exists e, interface_states myData rp vs w = (Raise e, w)).
    { unfold interface_states. cbv zeta.
      apply (four_lookups_raise myData name); assumption. }
    destruct H as [e E]. exists e. unfold fluxes. apply bind_raise. exact E.
Qed.

Lemma missing_variable_stops_both_routines_witness :
  (exists e, unsplitFluxes (F := sample_fortran) vars.standard (7 # 5)
                           sample_data_short (1 # 10) sample_world
             = (Raise e, sample_world)) /\
  (exists e, fluxes (C := sample_collaborators) sample_data_short sample_rp
                    vars.standard sample_solid sample_world
             = (Raise e, sample_world)).
Proof.
  apply (missing_variable_stops_both_routines
           (F := sample_fortran) (C := sample_collaborators)
           vars.standard (7 # 5) sample_data_short (1 # 10) sample_rp sample_solid
           "energy" sample_world).
  - simpl. auto.
  - eexists. reflexivity.
Defined.

(** ** The pressure floor in binary64 *)

Section FloorAndNaN.

Lemma clip_lo_nan (x lo : float) :
  Prim2SF x = S754_nan -> clip_lo (A := FloatArith) x lo = x.
Proof.
  intros H. unfold clip_lo. cbn [ltb FloatArith].
  rewrite FloatAxioms.ltb_spec, H. reflexivity.
Qed.

Lemma leb_nan (lo x : float) :
  Prim2SF x = S754_nan -> PrimFloat.leb lo x = false.
Proof.
  intros H. rewrite FloatAxioms.leb_spec, H. unfold SFleb, SFcompare.
  destruct (Prim2SF lo) as [| | |[|] ? ?]; reflexivity.
Qed.
End FloorAndNaN.

(** X21. In binary64 the floor of line 171 does not catch a NaN: in a cell
    whose gamma-law pressure is a NaN (a zero density makes one), the
    pressure that [unsplitFluxes] derives is that NaN, and it is not at
    least [smallp]. *)
Theorem pressure_floor_lets_nan_through
        (gamma : float) (dens xmom ymom ener : @array2 FloatArith) (i j : Z) :
  rows xmom = rows dens -> cols xmom = cols dens ->
  rows ymom = rows dens -> cols ymom = cols dens ->
  rows ener = rows dens -> cols ener = cols dens ->
  Prim2SF (elt2 (raw_pressure (A := FloatArith) gamma dens xmom ymom ener) i j)
  = S754_nan ->
  exists u v p,
    primitives (A := FloatArith) gamma dens xmom ymom ener = Ok (u, v, p) /\
    Prim2SF (elt2 p i j) = S754_nan /\
    @leb FloatArith (@lit FloatArith (1 # 10000000000)) (elt2 p i j) = false.
Proof.
  intros X0 X1 Y0 Y1 E0 E1 Hnan.
  exists (prim_u dens xmom), (prim_v dens ymom),
    (prim_p (A := FloatArith) gamma dens xmom ymom ener).
  split; [apply primitives_plain; assumption|].
  assert (Hp : elt2 (prim_p (A := FloatArith) gamma dens xmom ymom ener) i j
               = elt2 (raw_pressure (A := FloatArith) gamma dens xmom ymom ener) i j).
  { unfold prim_p. cbn [elt2 map2]. apply clip_lo_nan. exact Hnan. }
  rewrite Hp. split; [exact Hnan|].
  cbn [leb FloatArith]. apply leb_nan. exact Hnan.
Qed.

Lemma pressure_floor_lets_nan_through_witness :
  exists u v p,
    primitives (A := FloatArith) (@lit FloatArith (7 # 5))
               (cell2 0) (cell2 0) (cell2 0) (cell2 1) = Ok (u, v, p) /\
    Prim2SF (elt2 p 0 0) = S754_nan /\
    @leb FloatArith (@lit FloatArith (1 # 10000000000)) (elt2 p 0 0) = false.
Proof.
  apply (pressure_floor_lets_nan_through (@lit FloatArith (7 # 5))
           (cell2 0) (cell2 0) (cell2 0) (cell2 1) 0 0); reflexivity.
Defined.

(** ** Upwinding in [interfaceStates] *)

Section Upwinding.

Lemma Qsqrt_nonneg (q : Q) : (0 <= Qsqrt q)%Q.
Proof.
  unfold Qsqrt, Qle. cbn [Qnum Qden]. rewrite Z.mul_1_r.
  apply Z.sqrt_nonneg.
Qed.

Lemma np_sign_positive (x : Q) : (0 < x)%Q -> np_sign (A := ExactArith) x = 1%Q.
Proof.
  intros H. unfold np_sign. cbn [ltb lit ExactArith].
  destruct (Qle_bool x 0) eqn:E; [|reflexivity].
  apply Qle_bool_iff in E. exfalso. apply (Qlt_not_le _ _ H). exact E.
Qed.

Lemma np_sign_negative (x : Q) : (x < 0)%Q -> np_sign (A := ExactArith) x = (-1)%Q.
Proof.
  intros H. unfold np_sign. cbn [ltb lit ExactArith].
  destruct (Qle_bool x 0) eqn:E.
  - cbn [negb]. destruct (Qle_bool 0 x) eqn:E'.
    + apply Qle_bool_iff in E'. exfalso. apply (Qlt_not_le _ _ H). exact E'.
    + cbn [negb]. reflexivity.
  - exfalso. apply Qlt_le_weak in H. apply Qle_bool_iff in H. congruence.
Qed.

Lemma py_min_positive (x : Q) : (0 < x)%Q -> py_min (A := ExactArith) x 0%Q = 0%Q.
Proof.
  intros H. unfold py_min. cbn [ltb ExactArith].
  destruct (Qle_bool x 0) eqn:E; [|reflexivity].
  apply Qle_bool_iff in E. exfalso. apply (Qlt_not_le _ _ H). exact E.
Qed.

Lemma py_max_negative (x : Q) : (x < 0)%Q -> py_max (A := ExactArith) x 0%Q = 0%Q.
Proof.
  intros H. unfold py_max. cbn [ltb ExactArith].
  destruct (Qle_bool 0 x) eqn:E; [|reflexivity].
  apply Qle_bool_iff in E. exfalso. apply (Qlt_not_le _ _ H). exact E.
Qed.

Ltac expose :=
  cbn [predicted_left predicted_right beta_l beta_r sum4 dot4 row col nth4
       eval lvec rvec r0 r1 r2 r3 c0 c1 c2 c3
       Z.eqb Pos.eqb num lit add sub mul div neg ExactArith].

Lemma predicted_of_one_sided_waves (dtdx cs r u v : Q) (idir : Z)
      (V dV : @vec4 ExactArith) (k : Z) :
  (0 <= cs)%Q -> 0 <= k < 4 ->
  ((0 < (if idir =? 1 then u else v) - cs)%Q ->
   predicted_right (A := ExactArith) dtdx (analytic_eigen idir cs r u v) V dV k
   == nth4 V k - (1 # 2) * nth4 dV k) /\
  (((if idir =? 1 then u else v) + cs < 0)%Q ->
   predicted_left (A := ExactArith) dtdx (analytic_eigen idir cs r u v) V dV k
   == nth4 V k + (1 # 2) * nth4 dV k).
Proof.
  intros Hcs Hk.
  unfold predicted_left, predicted_right, beta_l, beta_r, sum4, analytic_eigen.
  destruct (idir =? 1); split; intros H; expose.
  - rewrite !np_sign_positive by (expose; lra).
    rewrite py_min_positive by (expose; lra).
    four_cases k; expose; ring.
  - rewrite !np_sign_negative by (expose; lra).
    rewrite py_max_negative by (expose; lra).
    four_cases k; expose; ring.
  - rewrite !np_sign_positive by (expose; lra).
    rewrite py_min_positive by (expose; lra).
    four_cases k; expose; ring.
  - rewrite !np_sign_negative by (expose; lra).
    rewrite py_max_negative by (expose; lra).
    four_cases k; expose; ring.
Qed.
End Upwinding.

(** X22. In exact arithmetic [interfaceStates] traces only the waves that move
    towards an interface.  In a zone where every wave moves up the sweep
    direction ([u - cs > 0], with [u] the normal velocity), the right state
    of its low-side interface is the plain reconstruction [V - 0.5 dV];
    where every wave moves down ([u + cs < 0]), the left state of its
    high-side interface is [V + 0.5 dV]. *)
Theorem interface_states_upwind
        (nvar : Z) (gamma : Q) (idir : Z) (g : @Grid2d ExactArith) (dt : Q)
        (r u v p ldelta_r ldelta_u ldelta_v ldelta_p : @array2 ExactArith) :
  grid_ok g -> 3 <= ng g -> nvar = 4 ->
  states_inputs g r u v p ldelta_r ldelta_u ldelta_v ldelta_p ->
  (forall i j, visited g i j -> zone_exn (A := ExactArith) gamma r p i j = None) ->
  exists V_l V_r,
    interfaceStates (A := ExactArith) nvar gamma idir g dt
                    r u v p ldelta_r ldelta_u ldelta_v ldelta_p = Ok (V_l, V_r) /\
    forall i j m,
      visited g i j -> 0 <= m < 4 ->
      ((0 < normal_velocity idir u v i j - zone_cs gamma r p i j)%Q ->
       elt3 V_r i j m
       == nth4 (zone_V r u v p i j) m
          - (1 # 2) * nth4 (zone_dV ldelta_r ldelta_u ldelta_v ldelta_p i j) m) /\
      ((normal_velocity idir u v i j + zone_cs gamma r p i j < 0)%Q ->
       elt3 V_l (fst (left_target idir i j)) (snd (left_target idir i j)) m
       == nth4 (zone_V r u v p i j) m
          + (1 # 2) * nth4 (zone_dV ldelta_r ldelta_u ldelta_v ldelta_p i j) m).
Proof.
  intros Hg Hng -> (Hr & Hu & Hv & Hp & Hdr & Hdu & Hdv & Hdp) Hs.
  unfold interfaceStates.
  destruct (zone_loops_predicted (A := ExactArith) idir g
              (if idir =? 1 then (dt / dx g)%Q else (dt / dy g)%Q) gamma
              r u v p ldelta_r ldelta_u ldelta_v ldelta_p
              Hg Hng Hr Hu Hv Hp Hdr Hdu Hdv Hdp
              (zeros3 (qx g) (qy g) 4, zeros3 (qx g) (qy g) 4))
    as ([V_l V_r] & E & _ & _ & H).
  - intros i j Hvis. apply zone_exn_sound. apply Hs. exact Hvis.
  - unfold on_grid. simpl. auto.
  - unfold on_grid. simpl. auto.
  - exists V_l, V_r. split; [exact E|].
    intros i j m Hvis Hm.
    destruct (H i j m Hvis Hm) as [Hl Hrr]. cbn [fst snd] in Hl, Hrr.
    rewrite Hl, Hrr. unfold zone_eigen, normal_velocity.
    apply predicted_of_one_sided_waves; [|exact Hm].
    unfold zone_cs. apply Qsqrt_nonneg.
Qed.

Lemma interface_states_upwind_witness :
  (exists V_l V_r,
      interfaceStates (A := ExactArith) 4 (7 # 5) 1 grid3 (1 # 10)%Q
                      flat_r shear_u shear_v flat_p
                      slope_r slope_u slope_v slope_p = Ok (V_l, V_r) /\
      forall m, 0 <= m < 4 ->
        elt3 V_r 3 3 m
        == nth4 (zone_V flat_r shear_u shear_v flat_p 3 3) m
           - (1 # 2) * nth4 (zone_dV slope_r slope_u slope_v slope_p 3 3) m) /\
  (exists V_l V_r,
      interfaceStates (A := ExactArith) 4 (7 # 5) 2 grid3 (1 # 10)%Q
                      flat_r shear_u shear_v flat_p
                      slope_r slope_u slope_v slope_p = Ok (V_l, V_r) /\
      forall m, 0 <= m < 4 ->
        elt3 V_l 6 2 m
        == nth4 (zone_V flat_r shear_u shear_v flat_p 6 1) m
           + (1 # 2) * nth4 (zone_dV slope_r slope_u slope_v slope_p 6 1) m).
Proof.
  split.
  - destruct (interface_states_upwind 4 (7 # 5) 1 grid3 (1 # 10)
                flat_r shear_u shear_v flat_p slope_r slope_u slope_v slope_p)
      as (V_l & V_r & E & H).
    + exact grid3_ok.
    + simpl; lia.
    + reflexivity.
    + exact sample_states_inputs.
    + intros i j _. vm_compute. reflexivity.
    + exists V_l, V_r. split; [exact E|]. intros m Hm.
      apply (H 3 3 m); [unfold visited; simpl; lia | exact Hm | vm_compute; reflexivity].
  - destruct (interface_states_upwind 4 (7 # 5) 2 grid3 (1 # 10)
                flat_r shear_u shear_v flat_p slope_r slope_u slope_v slope_p)
      as (V_l & V_r & E & H).
    + exact grid3_ok.
    + simpl; lia.
    + reflexivity.
    + exact sample_states_inputs.
    + intros i j _. vm_compute. reflexivity.
    + exists V_l, V_r. split; [exact E|]. intros m Hm.
      apply (H 6 1 m); [unfold visited; simpl; lia | exact Hm | vm_compute; reflexivity].
Defined.
